(** * The thread scheduler of threads/thread.c

    A shallow embedding of the scheduler core: thread control blocks, the
    ready, sleep and destruction queues, priority donation and the tick
    handler, followed by the properties of the written specification. *)

From Stdlib Require Import ZArith Lia Bool String Sorted.
From stdpp Require Import base option list gmap.

Open Scope Z_scope.

(** ** Data model *)

(** Addresses of kernel pages (a TCB sits at the base of its page) and of
    locks.  A pointer that may be NULL is an [option]. *)
Abbreviation addr := Z.

Inductive thread_status :=
  | THREAD_RUNNING
  | THREAD_READY
  | THREAD_BLOCKED
  | THREAD_DYING.

Inductive intr_level_t :=
  | INTR_OFF
  | INTR_ON.

(** The two [struct list_elem] members of [struct thread] that thread.c
    names in [list_entry]. *)
Inductive member :=
  | elem
  | donation_elem.

(** A [struct list_elem *]: [Elem t] is [&t->elem], [DonationElem t] is
    [&t->donation_elem]. *)
Inductive list_elem :=
  | Elem (t : addr)
  | DonationElem (t : addr).

(** A [struct thread *] as [list_entry] computes it, by subtracting the
    offset of the named member from the address of the link.  [Tcb t] is the
    base of the page; the other two are displaced by the distance between the
    two link members, which is what [list_entry] yields when it is given the
    other member's name. *)
Inductive thread_ptr :=
  | Tcb (t : addr)
  | TcbPlus (t : addr)
  | TcbMinus (t : addr).

Definition list_entry (e : list_elem) (m : member) : thread_ptr :=
  match e, m with
  | Elem t, elem => Tcb t
  | DonationElem t, donation_elem => Tcb t
  | DonationElem t, elem => TcbPlus t
  | Elem t, donation_elem => TcbMinus t
  end.

Definition elem_owner (e : list_elem) : addr :=
  match e with
  | Elem t => t
  | DonationElem t => t
  end.

Record thread := mk_thread {
  tid : Z;
  status : thread_status;
  name : string;
  priority : Z;
  init_priority : Z;
  wait_on_lock : option addr;
  donations : list list_elem;
  wakeup : Z;
  pml4 : option addr;
  magic : Z
}.

Record lock := mk_lock {
  holder : option addr
}.

(** What the memory holds where thread.c reads it through a pointer that is
    not used at its declared type.  The declaration of [struct thread]
    (threads/thread.h) fixes the offsets and is not part of the sources, so
    the two reads are components of the state:
    - [mem_list_empty p] is [list_empty ((struct list * ) p)], that is
      [p->head.next == &p->tail] on the bytes of the TCB;
    - [mem_priority p] is the [int] found at the offset of [priority] from
      a pointer [p] that is not the base of a live TCB.
    A displaced pointer is off the base by the distance between the two
    link members, which is at least the size of a [struct list_elem]: the
    [int] that it finds is never the [priority] field of its TCB, so writes
    to [priority] fields leave these components alone. *)
Record raw_memory := mk_raw {
  mem_list_empty : thread_ptr → bool;
  mem_priority : thread_ptr → Z
}.

Record state := mk_state {
  threads : gmap Z thread;
  locks : gmap Z lock;
  ready_list : list list_elem;
  sleep_list : list list_elem;
  destruction_req : list list_elem;
  idle_thread : option addr;
  initial_thread : option addr;
  idle_ticks : Z;
  kernel_ticks : Z;
  user_ticks : Z;
  thread_ticks : Z;
  next_tid : Z;
  running : addr;
  intr_level : intr_level_t;
  intr_context : bool;
  yield_on_return : bool;
  free_pages : list addr;
  mem : raw_memory
}.

Global Instance thread_status_eq_dec : EqDecision thread_status.
Proof. solve_decision. Defined.
Global Instance intr_level_eq_dec : EqDecision intr_level_t.
Proof. solve_decision. Defined.
Global Instance list_elem_eq_dec : EqDecision list_elem.
Proof. solve_decision. Defined.

(** ** Constants *)

Definition THREAD_MAGIC : Z := 0xcd6abf4b.
Definition TIME_SLICE : Z := 4.

(** Modelled from the spec: the priority range of threads/thread.h, which
    is not part of the sources ("source uses 0..63"). *)
Definition PRI_MIN : Z := 0.
Definition PRI_MAX : Z := 63.

(** Modelled from the spec: the reserved sentinel of threads/thread.h that
    [thread_create] returns on allocation failure, [(tid_t) -1]. *)
Definition TID_ERROR : Z := -1.

(** ** Machine integers *)

Definition wrap_unsigned (z : Z) : Z := z mod 2 ^ 32.
Definition wrap_int (z : Z) : Z := (z + 2 ^ 31) mod 2 ^ 32 - 2 ^ 31.
Definition wrap_long_long (z : Z) : Z := (z + 2 ^ 63) mod 2 ^ 64 - 2 ^ 63.

(** ** Field updates *)

Definition with_tid (v : Z) (t : thread) : thread :=
  mk_thread v (status t) (name t) (priority t) (init_priority t)
    (wait_on_lock t) (donations t) (wakeup t) (pml4 t) (magic t).
Definition with_status (v : thread_status) (t : thread) : thread :=
  mk_thread (tid t) v (name t) (priority t) (init_priority t)
    (wait_on_lock t) (donations t) (wakeup t) (pml4 t) (magic t).
Definition with_priority (v : Z) (t : thread) : thread :=
  mk_thread (tid t) (status t) (name t) v (init_priority t)
    (wait_on_lock t) (donations t) (wakeup t) (pml4 t) (magic t).
Definition with_init_priority (v : Z) (t : thread) : thread :=
  mk_thread (tid t) (status t) (name t) (priority t) v
    (wait_on_lock t) (donations t) (wakeup t) (pml4 t) (magic t).
Definition with_donations (v : list list_elem) (t : thread) : thread :=
  mk_thread (tid t) (status t) (name t) (priority t) (init_priority t)
    (wait_on_lock t) v (wakeup t) (pml4 t) (magic t).
Definition with_wakeup (v : Z) (t : thread) : thread :=
  mk_thread (tid t) (status t) (name t) (priority t) (init_priority t)
    (wait_on_lock t) (donations t) v (pml4 t) (magic t).

Definition set_threads (v : gmap Z thread) (s : state) : state :=
  mk_state v (locks s) (ready_list s) (sleep_list s) (destruction_req s)
    (idle_thread s) (initial_thread s) (idle_ticks s) (kernel_ticks s)
    (user_ticks s) (thread_ticks s) (next_tid s) (running s) (intr_level s)
    (intr_context s) (yield_on_return s) (free_pages s) (mem s).
Definition set_ready_list (v : list list_elem) (s : state) : state :=
  mk_state (threads s) (locks s) v (sleep_list s) (destruction_req s)
    (idle_thread s) (initial_thread s) (idle_ticks s) (kernel_ticks s)
    (user_ticks s) (thread_ticks s) (next_tid s) (running s) (intr_level s)
    (intr_context s) (yield_on_return s) (free_pages s) (mem s).
Definition set_sleep_list (v : list list_elem) (s : state) : state :=
  mk_state (threads s) (locks s) (ready_list s) v (destruction_req s)
    (idle_thread s) (initial_thread s) (idle_ticks s) (kernel_ticks s)
    (user_ticks s) (thread_ticks s) (next_tid s) (running s) (intr_level s)
    (intr_context s) (yield_on_return s) (free_pages s) (mem s).
Definition set_destruction_req (v : list list_elem) (s : state) : state :=
  mk_state (threads s) (locks s) (ready_list s) (sleep_list s) v
    (idle_thread s) (initial_thread s) (idle_ticks s) (kernel_ticks s)
    (user_ticks s) (thread_ticks s) (next_tid s) (running s) (intr_level s)
    (intr_context s) (yield_on_return s) (free_pages s) (mem s).
Definition set_idle_ticks (v : Z) (s : state) : state :=
  mk_state (threads s) (locks s) (ready_list s) (sleep_list s)
    (destruction_req s) (idle_thread s) (initial_thread s) v (kernel_ticks s)
    (user_ticks s) (thread_ticks s) (next_tid s) (running s) (intr_level s)
    (intr_context s) (yield_on_return s) (free_pages s) (mem s).
Definition set_kernel_ticks (v : Z) (s : state) : state :=
  mk_state (threads s) (locks s) (ready_list s) (sleep_list s)
    (destruction_req s) (idle_thread s) (initial_thread s) (idle_ticks s) v
    (user_ticks s) (thread_ticks s) (next_tid s) (running s) (intr_level s)
    (intr_context s) (yield_on_return s) (free_pages s) (mem s).
Definition set_user_ticks (v : Z) (s : state) : state :=
  mk_state (threads s) (locks s) (ready_list s) (sleep_list s)
    (destruction_req s) (idle_thread s) (initial_thread s) (idle_ticks s)
    (kernel_ticks s) v (thread_ticks s) (next_tid s) (running s)
    (intr_level s) (intr_context s) (yield_on_return s) (free_pages s) (mem s).
Definition set_thread_ticks (v : Z) (s : state) : state :=
  mk_state (threads s) (locks s) (ready_list s) (sleep_list s)
    (destruction_req s) (idle_thread s) (initial_thread s) (idle_ticks s)
    (kernel_ticks s) (user_ticks s) v (next_tid s) (running s)
    (intr_level s) (intr_context s) (yield_on_return s) (free_pages s) (mem s).
Definition set_next_tid (v : Z) (s : state) : state :=
  mk_state (threads s) (locks s) (ready_list s) (sleep_list s)
    (destruction_req s) (idle_thread s) (initial_thread s) (idle_ticks s)
    (kernel_ticks s) (user_ticks s) (thread_ticks s) v (running s)
    (intr_level s) (intr_context s) (yield_on_return s) (free_pages s) (mem s).
Definition set_running (v : addr) (s : state) : state :=
  mk_state (threads s) (locks s) (ready_list s) (sleep_list s)
    (destruction_req s) (idle_thread s) (initial_thread s) (idle_ticks s)
    (kernel_ticks s) (user_ticks s) (thread_ticks s) (next_tid s) v
    (intr_level s) (intr_context s) (yield_on_return s) (free_pages s) (mem s).
Definition set_intr_level (v : intr_level_t) (s : state) : state :=
  mk_state (threads s) (locks s) (ready_list s) (sleep_list s)
    (destruction_req s) (idle_thread s) (initial_thread s) (idle_ticks s)
    (kernel_ticks s) (user_ticks s) (thread_ticks s) (next_tid s) (running s)
    v (intr_context s) (yield_on_return s) (free_pages s) (mem s).
Definition set_yield_on_return (v : bool) (s : state) : state :=
  mk_state (threads s) (locks s) (ready_list s) (sleep_list s)
    (destruction_req s) (idle_thread s) (initial_thread s) (idle_ticks s)
    (kernel_ticks s) (user_ticks s) (thread_ticks s) (next_tid s) (running s)
    (intr_level s) (intr_context s) v (free_pages s) (mem s).
Definition set_free_pages (v : list addr) (s : state) : state :=
  mk_state (threads s) (locks s) (ready_list s) (sleep_list s)
    (destruction_req s) (idle_thread s) (initial_thread s) (idle_ticks s)
    (kernel_ticks s) (user_ticks s) (thread_ticks s) (next_tid s) (running s)
    (intr_level s) (intr_context s) (yield_on_return s) v (mem s).

Definition set_mem (v : raw_memory) (s : state) : state :=
  mk_state (threads s) (locks s) (ready_list s) (sleep_list s)
    (destruction_req s) (idle_thread s) (initial_thread s) (idle_ticks s)
    (kernel_ticks s) (user_ticks s) (thread_ticks s) (next_tid s) (running s)
    (intr_level s) (intr_context s) (yield_on_return s) (free_pages s) v.

(** [*t = th]: the TCB at [t] becomes [th]. *)
Definition store_thread (t : addr) (th : thread) (s : state) : state :=
  set_threads (<[t := th]> (threads s)) s.

(** ** Assertions

    A failed [ASSERT] panics the kernel: the operation has no result. *)
Definition ASSERT (b : bool) : option unit :=
  if b then Some tt else None.

(** [is_thread (t)]: [t != NULL && t->magic == THREAD_MAGIC]. *)
Definition is_thread (s : state) (t : addr) : bool :=
  match threads s !! t with
  | Some th => bool_decide (t ≠ 0) && bool_decide (magic th = THREAD_MAGIC)
  | None => false
  end.

(** ** The list library, as ordinary containers

    lib/kernel/list.c is not part of the sources.  A [struct list] is
    modelled by the sequence of the links between its head and its tail.
    The ready list, the sleep list and the destruction list are linked
    through the one [elem] member of the TCBs, so that a link is on one of
    them at a time. *)

(** Modelled from the spec: a link that goes into a list is on no other
    list ("A thread is in at most one of {ready, sleep, destruction} at a
    time").  Inserting a link that is still on a list overwrites its [prev]
    and [next] while its old neighbours still lead to it: the old list is
    broken, and no sequence describes it.  An operation that does so has no
    result. *)
Definition UNLINKED (b : bool) : option unit :=
  if b then Some tt else None.

(** Modelled from the spec: [list_empty], an ordinary container query. *)
Definition list_empty {A} (l : list A) : bool :=
  match l with
  | [] => true
  | _ :: _ => false
  end.

(** Modelled from the spec: [list_push_back] appends ("appends current to
    the sleep queue"). *)
Definition list_push_back {A} (l : list A) (e : A) : list A := l ++ [e].

(** Modelled from the spec: [list_pop_front] ("Selection pops the front").
    It has no result on an empty list. *)
Definition list_pop_front {A} (l : list A) : option (A * list A) :=
  match l with
  | [] => None
  | x :: l' => Some (x, l')
  end.

(** Modelled from the spec: [list_front], the first link of a non-empty
    list. *)
Definition list_front {A} (l : list A) : option A := head l.

(** Modelled from the spec: [list_remove] unlinks one element ("removes it
    from the sleep queue"); the other elements keep their order. *)
Fixpoint list_remove (e : list_elem) (l : list list_elem) : list list_elem :=
  match l with
  | [] => []
  | x :: l' => if decide (x = e) then l' else x :: list_remove e l'
  end.

(** Modelled from the spec: [list_insert_ordered] ("Insertion uses priority
    as key in strictly descending order with stable ties (first-in before
    later-in at equal priority)"): the new element goes in front of the
    first element that it is [less] than, or to the back. *)
Fixpoint list_insert_ordered {A} (less : A → A → bool) (e : A) (l : list A)
  : list A :=
  match l with
  | [] => [e]
  | x :: l' =>
      if less e x then e :: x :: l' else x :: list_insert_ordered less e l'
  end.

(** One step of a stable sort: [e], which stood before every element of the
    sorted [l], passes the elements that are [less] than it. *)
Fixpoint sort_insert {A} (less : A → A → bool) (e : A) (l : list A) : list A :=
  match l with
  | [] => [e]
  | x :: l' => if less x e then x :: sort_insert less e l' else e :: x :: l'
  end.

(** Modelled from the spec: [list_sort] ("sorts it by descending priority"
    with the ordering predicate it is given), a stable sort. *)
Definition list_sort {A} (less : A → A → bool) (l : list A) : list A :=
  foldr (sort_insert less) [] l.

(** ** External collaborators *)

(** Modelled from the spec: the page allocator, [alloc_page (zeroed) -> page
    or nil]. *)
Definition palloc_get_page (s : state) : option addr * state :=
  match free_pages s with
  | [] => (None, s)
  | p :: rest => (Some p, set_free_pages rest s)
  end.

(** Modelled from the spec: the page allocator, [free_page (page)]: the page
    is no longer a TCB and returns to the pool.  Only the base of a page can
    be freed. *)
Definition palloc_free_page (p : thread_ptr) (s : state) : option state :=
  match p with
  | Tcb t =>
      Some (set_free_pages (t :: free_pages s)
              (set_threads (delete t (threads s)) s))
  | _ => None
  end.

(** Modelled from the spec: interrupts, [disable] returns the previous
    level. *)
Definition intr_disable (s : state) : intr_level_t * state :=
  (intr_level s, set_intr_level INTR_OFF s).

(** Modelled from the spec: interrupts, [set_level]. *)
Definition intr_set_level (l : intr_level_t) (s : state) : state :=
  set_intr_level l s.

(** Modelled from the spec: interrupts, [yield_on_return]: the current
    thread yields when the handler returns. *)
Definition intr_yield_on_return (s : state) : state :=
  set_yield_on_return true s.

(** ** Reading through thread pointers *)

(** The TCB behind a pointer that is the base of a live thread. *)
Definition load_thread (s : state) (p : thread_ptr) : option (addr * thread) :=
  match p with
  | Tcb t => th ← threads s !! t; Some (t, th)
  | _ => None
  end.

(** [p->priority]. *)
Definition load_priority (s : state) (p : thread_ptr) : Z :=
  match load_thread s p with
  | Some (_, th) => priority th
  | None => mem_priority (mem s) p
  end.

(** [list_empty (p)] for a [struct thread *p]. *)
Definition list_empty_thread (s : state) (p : thread_ptr) : bool :=
  mem_list_empty (mem s) p.

(** ** thread.c *)

Definition thread_current (s : state) : option addr :=
  let t := running s in
  _ ← ASSERT (is_thread s t);
  th ← threads s !! t;
  _ ← ASSERT (bool_decide (status th = THREAD_RUNNING));
  Some t.

Definition thread_tick (s : state) : option state :=
  t ← thread_current s;
  th ← threads s !! t;
  let s :=
    if bool_decide (Some t = idle_thread s) then
      set_idle_ticks (wrap_long_long (idle_ticks s + 1)) s
    else if bool_decide (pml4 th ≠ None) then
      set_user_ticks (wrap_long_long (user_ticks s + 1)) s
    else
      set_kernel_ticks (wrap_long_long (kernel_ticks s + 1)) s in
  let s := set_thread_ticks (wrap_unsigned (thread_ticks s + 1)) s in
  if TIME_SLICE <=? thread_ticks s then Some (intr_yield_on_return s)
  else Some s.

Definition thread_compare_priority (s : state) (a b : list_elem) : bool :=
  let ta := list_entry a elem in
  let tb := list_entry b elem in
  if list_empty_thread s ta || list_empty_thread s tb then false
  else load_priority s ta >? load_priority s tb.

(** [list_insert_ordered] is given [&t->elem], the link that the sleep list
    uses too.  A blocked thread may still be on the sleep list:
    [thread_awake] takes it off before it calls [thread_unblock]; for a
    caller that does not, the insertion breaks the sleep list.  The
    assertion on the status keeps out the threads of the ready list and of
    the destruction list, which are ready and dying. *)
Definition thread_unblock (t : addr) (s : state) : option state :=
  _ ← ASSERT (is_thread s t);
  let '(old_level, s) := intr_disable s in
  th ← threads s !! t;
  _ ← ASSERT (bool_decide (status th = THREAD_BLOCKED));
  _ ← UNLINKED (bool_decide (Elem t ∉ sleep_list s));
  let s :=
    set_ready_list
      (list_insert_ordered (thread_compare_priority s) (Elem t) (ready_list s))
      s in
  let s := store_thread t (with_status THREAD_READY th) s in
  Some (intr_set_level old_level s).

(** The result is the pointer that [schedule] checks with [is_thread]; a
    pointer that is not the base of a TCB does not pass that check, like
    NULL. *)
Definition next_thread_to_run (s : state) : option addr * state :=
  match list_pop_front (ready_list s) with
  | None => (idle_thread s, s)
  | Some (e, rest) =>
      match list_entry e elem with
      | Tcb t => (Some t, set_ready_list rest s)
      | _ => (None, set_ready_list rest s)
      end
  end.

(** The register save and restore of [thread_launch] is not modelled: for
    the scheduler's data the switch means that the CPU is on [th]'s stack. *)
Definition thread_launch (th : addr) (s : state) : state :=
  set_running th s.

Definition schedule (s : state) : option state :=
  let curr := running s in
  let '(next, s) := next_thread_to_run s in
  _ ← ASSERT (bool_decide (intr_level s = INTR_OFF));
  cth ← threads s !! curr;
  _ ← ASSERT (bool_decide (status cth ≠ THREAD_RUNNING));
  next ← next;
  _ ← ASSERT (is_thread s next);
  nth ← threads s !! next;
  let s := store_thread next (with_status THREAD_RUNNING nth) s in
  let s := set_thread_ticks 0 s in
  if bool_decide (curr ≠ next) then
    let s :=
      if bool_decide (status cth = THREAD_DYING)
         && bool_decide (Some curr ≠ initial_thread s)
      then set_destruction_req
             (list_push_back (destruction_req s) (Elem curr)) s
      else s in
    Some (thread_launch next s)
  else Some s.

(** The [while (!list_empty (&destruction_req))] loop of [do_schedule]. *)
Fixpoint free_destruction_req (victims : list list_elem) (s : state)
  : option state :=
  match victims with
  | [] => Some s
  | e :: rest =>
      let s := set_destruction_req rest s in
      s ← palloc_free_page (list_entry e elem) s;
      free_destruction_req rest s
  end.

Definition do_schedule (st : thread_status) (s : state) : option state :=
  _ ← ASSERT (bool_decide (intr_level s = INTR_OFF));
  _ ← thread_current s;
  s ← free_destruction_req (destruction_req s) s;
  t ← thread_current s;
  th ← threads s !! t;
  let s := store_thread t (with_status st th) s in
  schedule s.

Definition thread_block (s : state) : option state :=
  _ ← ASSERT (negb (intr_context s));
  _ ← ASSERT (bool_decide (intr_level s = INTR_OFF));
  t ← thread_current s;
  th ← threads s !! t;
  let s := store_thread t (with_status THREAD_BLOCKED th) s in
  schedule s.

(** [thread_exit] never returns to its caller: if [do_schedule] comes back,
    NOT_REACHED panics.  [process_exit] belongs to userprog/process.c. *)
Definition thread_exit (s : state) : option state :=
  _ ← ASSERT (negb (intr_context s));
  let cur := running s in
  let '(_, s) := intr_disable s in
  s ← do_schedule THREAD_DYING s;
  if bool_decide (running s = cur) then None else Some s.

(** When [do_schedule] has switched to another thread, the closing
    [intr_set_level (old_level)] runs only once [cur] is dispatched again. *)
Definition thread_yield (s : state) : option state :=
  cur ← thread_current s;
  _ ← ASSERT (negb (intr_context s));
  let '(old_level, s) := intr_disable s in
  let s :=
    if bool_decide (Some cur ≠ idle_thread s) then
      set_ready_list
        (list_insert_ordered (thread_compare_priority s) (Elem cur)
           (ready_list s)) s
    else s in
  s ← do_schedule THREAD_READY s;
  if bool_decide (running s = cur) then Some (intr_set_level old_level s)
  else Some s.

Definition thread_test_max_priority (s : state) : option state :=
  if list_empty (ready_list s) then Some s
  else
    cur ← thread_current s;
    cth ← threads s !! cur;
    front ← list_front (ready_list s);
    let ready_front := list_entry front elem in
    if priority cth <? load_priority s ready_front then thread_yield s
    else Some s.

(** The body of the [for (depth = 0; depth < 8; depth++)] loop of
    [donate_priority]; [n] is the number of iterations left. *)
Fixpoint donate_priority_loop (n : nat) (prio : Z) (t : addr) (s : state)
  : option state :=
  match n with
  | O => Some s
  | S n' =>
      th ← threads s !! t;
      match wait_on_lock th with
      | None => Some s
      | Some l =>
          lk ← locks s !! l;
          h ← holder lk;
          hth ← threads s !! h;
          donate_priority_loop n' prio h
            (store_thread h (with_priority prio hth) s)
      end
  end.

Definition donate_priority (s : state) : option state :=
  t ← thread_current s;
  th ← threads s !! t;
  donate_priority_loop 8 (priority th) t s.

Definition refresh_priority (s : state) : option state :=
  t ← thread_current s;
  th ← threads s !! t;
  let th := with_priority (init_priority th) th in
  let s := store_thread t th s in
  if list_empty (donations th) then Some s
  else
    let th := with_donations
                (list_sort (thread_compare_priority s) (donations th)) th in
    let s := store_thread t th s in
    max_elem ← list_front (donations th);
    let max_thread := list_entry max_elem donation_elem in
    if priority th <? load_priority s max_thread then
      Some (store_thread t (with_priority (load_priority s max_thread) th) s)
    else Some s.

Definition thread_set_priority (new_priority : Z) (s : state) : option state :=
  cur ← thread_current s;
  cth ← threads s !! cur;
  let s := store_thread cur (with_init_priority new_priority cth) s in
  s ← refresh_priority s;
  thread_test_max_priority s.

(** The [while (e != list_end (&sleep_list))] loop of [thread_awake];
    [rest] holds the links from the cursor [e] to the end of the list.
    The second component counts the passes through the loop body.  There is
    no result when [e] is not the [elem] link of a live TCB. *)
Fixpoint thread_awake_loop (ticks : Z) (rest : list list_elem) (s : state)
  : option (state * nat) :=
  match rest with
  | [] => Some (s, O)
  | e :: rest' =>
      '(t, th) ← load_thread s (list_entry e elem);
      if wakeup th <=? ticks then
        let s := set_sleep_list (list_remove e (sleep_list s)) s in
        s ← thread_unblock t s;
        '(s, n) ← thread_awake_loop ticks rest' s;
        Some (s, S n)
      else
        '(s, n) ← thread_awake_loop ticks rest' s;
        Some (s, S n)
  end.

Definition thread_awake (ticks : Z) (s : state) : option state :=
  fst <$> thread_awake_loop ticks (sleep_list s) s.

Definition thread_sleep (ticks : Z) (s : state) : option state :=
  let '(old_level, s) := intr_disable s in
  cur ← thread_current s;
  _ ← ASSERT (bool_decide (Some cur ≠ idle_thread s));
  cth ← threads s !! cur;
  let s := store_thread cur (with_wakeup ticks cth) s in
  let s := set_sleep_list (list_push_back (sleep_list s) (Elem cur)) s in
  s ← thread_block s;
  if bool_decide (running s = cur) then Some (intr_set_level old_level s)
  else Some s.

(** [init_thread]: the page is cleared and the fields are set.  [strlcpy]
    keeps at most 15 characters of the name. *)
Definition init_thread (t : addr) (nm : string) (prio : Z) (s : state)
  : option state :=
  _ ← ASSERT (bool_decide (t ≠ 0));
  _ ← ASSERT (bool_decide (PRI_MIN ≤ prio ∧ prio ≤ PRI_MAX));
  let th := mk_thread 0 THREAD_BLOCKED (substring 0 15 nm) prio prio None []
              0 None THREAD_MAGIC in
  Some (store_thread t th s).

(** [allocate_tid] advances the counter under [tid_lock].  [lock_acquire]
    and [lock_release] belong to threads/synch.c; the lock is taken to be
    free, so that they leave the scheduler's data alone. *)
Definition allocate_tid (s : state) : Z * state :=
  (next_tid s, set_next_tid (wrap_int (next_tid s + 1)) s).

(** [function] is the address of the thread's body, 0 for NULL.  The saved
    frame that [thread_create] fills in is not modelled. *)
Definition thread_create (nm : string) (prio : Z) (function aux : Z)
    (s : state) : option (Z * state) :=
  _ ← ASSERT (bool_decide (function ≠ 0));
  match palloc_get_page s with
  | (None, _) => Some (TID_ERROR, s)
  | (Some t, s) =>
      s ← init_thread t nm prio s;
      let '(tid', s) := allocate_tid s in
      th ← threads s !! t;
      let s := store_thread t (with_tid tid' th) s in
      s ← thread_unblock t s;
      s ← thread_test_max_priority s;
      Some (tid', s)
  end.

(** ** Notions used by the properties *)

(** The priority that the ordering predicate reads for a link. *)
Definition elem_priority (s : state) (e : list_elem) : Z :=
  load_priority s (list_entry e elem).

(** None of the links makes the empty-list test of
    [thread_compare_priority] fire. *)
Definition guard_silent (s : state) (l : list list_elem) : bool :=
  forallb (λ e, negb (list_empty_thread s (list_entry e elem))) l.

(** Adjacent entries are in non-increasing priority order. *)
Definition descending (s : state) (l : list list_elem) : Prop :=
  Sorted (λ a b, elem_priority s b ≤ elem_priority s a) l.

(** Every link is the [elem] member of a valid thread. *)
Definition elems_of_threads (s : state) (l : list list_elem) : bool :=
  forallb (λ e, match e with
                | Elem t => is_thread s t
                | DonationElem _ => false
                end) l.

(** Every sleeper is a valid thread in state [THREAD_BLOCKED]. *)
Definition sleepers_blocked (s : state) (l : list list_elem) : bool :=
  forallb (λ e, match e with
                | Elem t =>
                    is_thread s t &&
                    match threads s !! t with
                    | Some th => bool_decide (status th = THREAD_BLOCKED)
                    | None => false
                    end
                | DonationElem _ => false
                end) l.

(** The pages queued for destruction are [elem] links of threads that are
    neither [cur] nor queued on [l]. *)
Definition victims_apart (cur : addr) (l victims : list list_elem) : bool :=
  forallb (λ v, match v with
                | Elem t => bool_decide (t ≠ cur) && bool_decide (v ∉ l)
                | DonationElem _ => false
                end) victims.

(** The wake time that [thread_awake] reads for a link of the sleep list. *)
Definition elem_wakeup (s : state) (e : list_elem) : option Z :=
  '(_, th) ← load_thread s (list_entry e elem); Some (wakeup th).

Definition stays_asleep (s : state) (ticks : Z) (e : list_elem) : bool :=
  match elem_wakeup s e with
  | Some w => negb (w <=? ticks)
  | None => false
  end.

(** The chain [t.wait_on_lock.holder] of the specification, at most [n]
    levels deep: the holders in the order in which the walk meets them.
    There is no chain when a lock or a holder on the way is missing. *)
Fixpoint holder_chain (s : state) (n : nat) (t : addr) : option (list addr) :=
  match n with
  | O => Some []
  | S n' =>
      th ← threads s !! t;
      match wait_on_lock th with
      | None => Some []
      | Some l =>
          lk ← locks s !! l;
          h ← holder lk;
          _ ← threads s !! h;
          rest ← holder_chain s n' h;
          Some (h :: rest)
      end
  end.

(** The thread map after [prio] has been assigned to every thread of
    [chain]. *)
Definition donated (prio : Z) (chain : list addr) (m : gmap Z thread)
  : gmap Z thread :=
  foldl (λ m h, alter (with_priority prio) h m) m chain.

(** Two TCBs that differ at most in [priority]. *)
Definition same_but_priority (a b : thread) : Prop :=
  tid a = tid b ∧ status a = status b ∧ name a = name b ∧
  init_priority a = init_priority b ∧ wait_on_lock a = wait_on_lock b ∧
  donations a = donations b ∧ wakeup a = wakeup b ∧ pml4 a = pml4 b ∧
  magic a = magic b.

(** The largest priority among the donors [l], or [floor] if that is
    larger. *)
Definition max_donation (s : state) (floor : Z) (l : list list_elem) : Z :=
  foldr (λ d acc, Z.max (load_priority s (list_entry d donation_elem)) acc)
    floor l.

(** The thread map once the pages of [victims] have been given back. *)
Definition without_victims (victims : list list_elem) (m : gmap Z thread)
  : gmap Z thread :=
  foldl (λ m v, delete (elem_owner v) m) m victims.

(** The state once the whole destruction list has been freed. *)
Definition flushed (s : state) : state :=
  match destruction_req s with
  | [] => s
  | victims =>
      set_free_pages (reverse (elem_owner <$> victims) ++ free_pages s)
        (set_threads (without_victims victims (threads s))
           (set_destruction_req [] s))
  end.

(** The ready queue on which [thread_yield] enters the scheduler. *)
Definition yield_queue (s : state) (cur : addr) : list list_elem :=
  if bool_decide (Some cur ≠ idle_thread s) then
    list_insert_ordered (thread_compare_priority s) (Elem cur) (ready_list s)
  else ready_list s.

(** The state in which [schedule] leaves the CPU to [next], whose TCB is
    [nth]; [curr] with TCB [cth] was running. *)
Definition dispatched (curr : addr) (cth : thread) (next : addr) (nth : thread)
    (s : state) : state :=
  let s := set_thread_ticks 0
             (store_thread next (with_status THREAD_RUNNING nth) s) in
  if bool_decide (curr ≠ next) then
    thread_launch next
      (if bool_decide (status cth = THREAD_DYING)
          && bool_decide (Some curr ≠ initial_thread s)
       then set_destruction_req
              (list_push_back (destruction_req s) (Elem curr)) s
       else s)
  else s.

(** Two TCBs that differ at most in [status]. *)
Definition same_but_status (a b : thread) : Prop :=
  tid a = tid b ∧ name a = name b ∧ priority a = priority b ∧
  init_priority a = init_priority b ∧ wait_on_lock a = wait_on_lock b ∧
  donations a = donations b ∧ wakeup a = wakeup b ∧ pml4 a = pml4 b ∧
  magic a = magic b.

(** The public operations that insert into the ready queue. *)
Inductive ready_insertion :=
  | Unblock (t : addr)
  | Yield.

Definition run_insertion (op : ready_insertion) (s : state) : option state :=
  match op with
  | Unblock t => thread_unblock t s
  | Yield => thread_yield s
  end.

(** The link that the operation inserts: [thread_yield] queues the running
    thread unless it is the idle thread. *)
Definition inserted_link (op : ready_insertion) (s : state) : option list_elem :=
  match op with
  | Unblock t => Some (Elem t)
  | Yield =>
      if bool_decide (Some (running s) ≠ idle_thread s)
      then Some (Elem (running s)) else None
  end.

(** [thread_yield] goes on to pop the front of the queue for the next
    thread. *)
Definition after_selection (op : ready_insertion) (l : list list_elem)
  : list list_elem :=
  match op with
  | Unblock _ => l
  | Yield => tail l
  end.

(** The states in which the operation may be called: [thread_unblock] needs
    a valid blocked thread that is off the sleep list; [thread_yield] runs
    outside interrupt context on a queue of valid threads, apart from the
    pages awaiting destruction.  In both, no TCB makes the empty-list test of
    the ordering predicate fire. *)
Definition insertion_ready (op : ready_insertion) (s : state) : bool :=
  match op with
  | Unblock t =>
      is_thread s t
      && match threads s !! t with
         | Some th => bool_decide (status th = THREAD_BLOCKED)
         | None => false
         end
      && guard_silent s (Elem t :: ready_list s)
      && bool_decide (Elem t ∉ sleep_list s)
  | Yield =>
      match thread_current s with
      | Some cur =>
          negb (intr_context s)
          && victims_apart cur (ready_list s) (destruction_req s)
          && elems_of_threads s (ready_list s)
          && guard_silent s (Elem cur :: ready_list s)
      | None => false
      end
  end.

(** ** Example states *)

(** A memory in which no TCB reads as an empty list and the displaced
    [priority] reads find 0. *)
Definition silent_memory : raw_memory := mk_raw (λ _, false) (λ _, 0).

Definition tcb (id : Z) (st : thread_status) (prio : Z) : thread :=
  mk_thread id st "worker" prio prio None [] 0 None THREAD_MAGIC.

(** Thread 0x3000 runs and is about to exit; 0x1000 and 0x2000 are ready. *)
Definition exiting_state : state :=
  mk_state
    (<[0x1000 := tcb 1 THREAD_READY 31]>
       (<[0x2000 := tcb 2 THREAD_READY 31]>
          (<[0x3000 := tcb 3 THREAD_RUNNING 31]> ∅)))
    ∅ [Elem 0x1000; Elem 0x2000] [] [] None (Some 0x1000)
    0 0 0 0 4 0x3000 INTR_ON false false [] silent_memory.

(** What a scheduling decision leaves of the page of thread 0x3000. *)
Definition page_0x3000 (s : state)
  : addr * list list_elem * option thread_status * list addr :=
  (running s, destruction_req s, status <$> threads s !! 0x3000, free_pages s).

(** The TCB that [thread_create] sets up for a thread named [nm] of
    priority [prio] with identifier [id], in state [st]. *)
Definition created_tcb (nm : string) (prio id : Z) (st : thread_status)
  : thread :=
  mk_thread id st (substring 0 15 nm) prio prio None [] 0 None THREAD_MAGIC.

(** A scheduler at work: 0x1000 runs; 0x2000 and 0x3000 are ready; 0x5000,
    0x6000 and 0x7000 sleep until ticks 300, 100 and 200; 0x4000 has exited
    and its page awaits destruction; 0x9000 is the idle thread; the
    allocator has one page left. *)
Definition sleeper (id prio wake : Z) : thread :=
  mk_thread id THREAD_BLOCKED "sleeper" prio prio None [] wake None
    THREAD_MAGIC.

Definition busy_state : state :=
  mk_state
    (<[0x1000 := tcb 1 THREAD_RUNNING 31]>
       (<[0x2000 := tcb 2 THREAD_READY 31]>
          (<[0x3000 := tcb 3 THREAD_READY 20]>
             (<[0x4000 := tcb 4 THREAD_DYING 31]>
                (<[0x5000 := sleeper 5 31 300]>
                   (<[0x6000 := sleeper 6 20 100]>
                      (<[0x7000 := sleeper 7 31 200]>
                         (<[0x9000 := tcb 8 THREAD_BLOCKED 0]> ∅))))))))
    ∅ [Elem 0x2000; Elem 0x3000] [Elem 0x5000; Elem 0x6000; Elem 0x7000]
    [Elem 0x4000] (Some 0x9000) (Some 0x1000)
    7 120 0 2 9 0x1000 INTR_ON false false [0x8000] silent_memory.

(** Priority donation: H (0x1000, priority 30) is about to block on lock
    0xa000, held by M (0x2000, priority 20), which waits for lock 0xb000,
    held by L (0x3000, priority 10). *)
Definition waiter (id prio : Z) (st : thread_status) (l : option addr)
    (donors : list list_elem) : thread :=
  mk_thread id st "waiter" prio prio l donors 0 None THREAD_MAGIC.

Definition chain_state : state :=
  mk_state
    (<[0x1000 := waiter 1 30 THREAD_RUNNING (Some 0xa000) []]>
       (<[0x2000 := waiter 2 20 THREAD_BLOCKED (Some 0xb000)
                      [DonationElem 0x1000]]>
          (<[0x3000 := waiter 3 10 THREAD_READY None [DonationElem 0x2000]]>
             ∅)))
    (<[0xa000 := mk_lock (Some 0x2000)]>
       (<[0xb000 := mk_lock (Some 0x3000)]> ∅))
    [Elem 0x3000] [] [] None (Some 0x1000)
    0 0 0 0 4 0x1000 INTR_OFF false false [] silent_memory.

(** The holder 0x1000 (init_priority 20) of two locks has the donors 0x2000
    (priority 30) and 0x3000 (priority 40), queued in this order on its
    donation list. *)
Definition donors_state : state :=
  mk_state
    (<[0x1000 := mk_thread 1 THREAD_RUNNING "holder" 40 20 None
                   [DonationElem 0x2000; DonationElem 0x3000] 0 None
                   THREAD_MAGIC]>
       (<[0x2000 := waiter 2 30 THREAD_BLOCKED (Some 0xa000) []]>
          (<[0x3000 := waiter 3 40 THREAD_BLOCKED (Some 0xb000) []]> ∅)))
    (<[0xa000 := mk_lock (Some 0x1000)]>
       (<[0xb000 := mk_lock (Some 0x1000)]> ∅))
    [] [] [] None (Some 0x1000)
    0 0 0 0 4 0x1000 INTR_OFF false false [] silent_memory.

(** [donors_state] with the priorities of the two donors exchanged. *)
Definition donors_state_swapped : state :=
  set_threads
    (<[0x2000 := waiter 2 40 THREAD_BLOCKED (Some 0xa000) []]>
       (<[0x3000 := waiter 3 30 THREAD_BLOCKED (Some 0xb000) []]>
          (threads donors_state)))
    donors_state.

(** The holder 0x1000 (init_priority 20) with the single donor 0x3000
    (priority 40). *)
Definition one_donor_state : state :=
  store_thread 0x1000
    (mk_thread 1 THREAD_RUNNING "holder" 40 20 None [DonationElem 0x3000] 0
       None THREAD_MAGIC)
    donors_state.

(** The priority of the thread at [t]. *)
Definition priority_of (s : state) (t : addr) : option Z :=
  priority <$> threads s !! t.

(** ** The rest of thread.c

    Start-up, the read-only helpers, the release hook of priority donation,
    the trampoline of new threads and the idle loop. *)

Definition set_idle_thread (v : option addr) (s : state) : state :=
  mk_state (threads s) (locks s) (ready_list s) (sleep_list s)
    (destruction_req s) v (initial_thread s) (idle_ticks s) (kernel_ticks s)
    (user_ticks s) (thread_ticks s) (next_tid s) (running s) (intr_level s)
    (intr_context s) (yield_on_return s) (free_pages s) (mem s).
Definition set_initial_thread (v : option addr) (s : state) : state :=
  mk_state (threads s) (locks s) (ready_list s) (sleep_list s)
    (destruction_req s) (idle_thread s) v (idle_ticks s) (kernel_ticks s)
    (user_ticks s) (thread_ticks s) (next_tid s) (running s) (intr_level s)
    (intr_context s) (yield_on_return s) (free_pages s) (mem s).

(** Modelled from the spec: interrupts, [enable]. *)
Definition intr_enable (s : state) : state := set_intr_level INTR_ON s.

(** [thread_init] turns the code that is running into the thread "main".
    [running_thread ()] is the page of the stack pointer, [running s].
    PRI_DEFAULT is a constant of threads/thread.h, which is not part of the
    sources: it is an argument of the model.  Loading the descriptor table
    and [lock_init (&tid_lock)] leave the scheduler's data alone. *)
Definition thread_init (PRI_DEFAULT : Z) (s : state) : option state :=
  _ ← ASSERT (bool_decide (intr_level s = INTR_OFF));
  let s := set_ready_list [] s in
  let s := set_destruction_req [] s in
  let s := set_sleep_list [] s in
  let s := set_initial_thread (Some (running s)) s in
  s ← init_thread (running s) "main" PRI_DEFAULT s;
  th ← threads s !! running s;
  let s := store_thread (running s) (with_status THREAD_RUNNING th) s in
  let '(tid', s) := allocate_tid s in
  th ← threads s !! running s;
  Some (store_thread (running s) (with_tid tid' th) s).

(** The statics of thread.c as the loader leaves them, on the stack page
    [page]: [next_tid] starts at 1, the other variables are zero, no TCB
    exists, interrupts are off and the page allocator is not yet set up. *)
Definition boot_state (page : addr) (m : raw_memory) : state :=
  mk_state ∅ ∅ [] [] [] None None 0 0 0 0 1 page INTR_OFF false false [] m.

Definition thread_name (s : state) : option string :=
  t ← thread_current s; th ← threads s !! t; Some (name th).

Definition thread_tid (s : state) : option Z :=
  t ← thread_current s; th ← threads s !! t; Some (tid th).

Definition thread_get_priority (s : state) : option Z :=
  t ← thread_current s; th ← threads s !! t; Some (priority th).

(** The four hooks of the multi-level feedback queue scheduler are empty. *)
Definition thread_set_nice (nice : Z) (s : state) : state := s.
Definition thread_get_nice (s : state) : Z := 0.
Definition thread_get_load_avg (s : state) : Z := 0.
Definition thread_get_recent_cpu (s : state) : Z := 0.

(** The [while (cur != list_end (&t->donations))] loop of
    [remove_with_lock]; [rest] holds the links from the cursor to the end
    of the list.  [lock] is [None] for a NULL argument.  There is no result
    when the cursor is not the [donation_elem] link of a live TCB.

    Modelled from the spec: [list_begin], [list_next] and [list_end] visit
    the links in order, and the link that [list_remove] has just unlinked
    still leads to its successor ("Removes from the current thread's
    donations every donor whose wait_on_lock == L"). *)
Fixpoint remove_with_lock_loop (lock : option addr) (t : addr)
    (rest : list list_elem) (s : state) : option state :=
  match rest with
  | [] => Some s
  | cur :: rest' =>
      '(c, cth) ← load_thread s (list_entry cur donation_elem);
      if bool_decide (wait_on_lock cth = lock) then
        th ← threads s !! t;
        remove_with_lock_loop lock t rest'
          (store_thread t
             (with_donations (list_remove (DonationElem c) (donations th)) th)
             s)
      else remove_with_lock_loop lock t rest' s
  end.

Definition remove_with_lock (lock : option addr) (s : state) : option state :=
  t ← thread_current s;
  th ← threads s !! t;
  remove_with_lock_loop lock t (donations th) s.

(** The body of a thread: it is given [aux] and runs on the state of the
    scheduler. *)
Definition thread_func := Z → state → option state.

(** [kernel_thread], the trampoline that a new thread enters on its first
    dispatch; [function] is [None] for NULL. *)
Definition kernel_thread (function : option thread_func) (aux : Z) (s : state)
  : option state :=
  f ← function;
  let s := intr_enable s in
  s ← f aux s;
  thread_exit s.

(** The [for (;;)] loop of [idle], for [passes] passes through its body.
    When [thread_block] has given the CPU to another thread, the rest of
    the loop runs only once the idle thread is dispatched again; when the
    idle thread is selected at once, it goes on to [sti; hlt], which turns
    the interrupts on. *)
Fixpoint idle_loop (passes : nat) (s : state) : option state :=
  match passes with
  | O => Some s
  | S n =>
      let cur := running s in
      let '(_, s) := intr_disable s in
      s ← thread_block s;
      if bool_decide (running s = cur) then idle_loop n (intr_enable s)
      else Some s
  end.

(** [idle]: the thread records itself, signals the semaphore that it was
    given and enters the loop.  [sema_up] belongs to threads/synch.c and is
    an argument of the model. *)
Definition idle (sema_up : state → option state) (passes : nat) (s : state)
  : option state :=
  t ← thread_current s;
  let s := set_idle_thread (Some t) s in
  s ← sema_up s;
  idle_loop passes s.

(** [n] timer ticks in a row. *)
Fixpoint thread_tick_times (n : nat) (s : state) : option state :=
  match n with
  | O => Some s
  | S n' => s ← thread_tick s; thread_tick_times n' s
  end.

(** ** Consistency of the scheduler's data *)

(** The operations on the scheduler's data. *)
Inductive operation :=
  | OpTick
  | OpCreate (nm : string) (prio function aux : Z)
  | OpBlock
  | OpUnblock (t : addr)
  | OpExit
  | OpYield
  | OpSetPriority (new_priority : Z)
  | OpSleep (ticks : Z)
  | OpAwake (ticks : Z)
  | OpTestMaxPriority
  | OpDonatePriority
  | OpRemoveWithLock (lock : option addr)
  | OpRefreshPriority
  | OpIdleLoop (passes : nat).

Definition run (op : operation) (s : state) : option state :=
  match op with
  | OpTick => thread_tick s
  | OpCreate nm prio function aux => snd <$> thread_create nm prio function aux s
  | OpBlock => thread_block s
  | OpUnblock t => thread_unblock t s
  | OpExit => thread_exit s
  | OpYield => thread_yield s
  | OpSetPriority new_priority => thread_set_priority new_priority s
  | OpSleep ticks => thread_sleep ticks s
  | OpAwake ticks => thread_awake ticks s
  | OpTestMaxPriority => thread_test_max_priority s
  | OpDonatePriority => donate_priority s
  | OpRemoveWithLock lock => remove_with_lock lock s
  | OpRefreshPriority => refresh_priority s
  | OpIdleLoop passes => idle_loop passes s
  end.

(** What the callers of thread.c see to: a sleeping thread is woken by
    [thread_awake] only, nobody unblocks the idle thread, and the idle
    thread does not exit. *)
Definition permitted (op : operation) (s : state) : bool :=
  match op with
  | OpUnblock t =>
      bool_decide (Elem t ∉ sleep_list s)
      && bool_decide (idle_thread s ≠ Some t)
  | OpExit => bool_decide (idle_thread s ≠ Some (running s))
  | _ => true
  end.

(** The link [e] is the [elem] member of a TCB in state [st]. *)
Definition queued_as (st : thread_status) (s : state) (e : list_elem) : bool :=
  match e with
  | Elem t =>
      match threads s !! t with
      | Some th => bool_decide (status th = st)
      | None => false
      end
  | DonationElem _ => false
  end.

(** The data of the scheduler fit together: at most the thread on the CPU
    is in state [THREAD_RUNNING]; the ready list holds, once each, the
    threads in state [THREAD_READY] (the idle thread is never queued); the
    sleepers are blocked and the pages awaiting destruction belong to dying
    threads; no page of the allocator's pool holds a TCB. *)
Record queues_fit (s : state) : Prop := {
  qf_valid : ∀ t th, threads s !! t = Some th → t ≠ 0 ∧ magic th = THREAD_MAGIC;
  qf_running :
    ∀ t th, threads s !! t = Some th → status th = THREAD_RUNNING →
      t = running s;
  qf_ready_queued :
    ∀ t th, threads s !! t = Some th → status th = THREAD_READY →
      Elem t ∈ ready_list s ∨ idle_thread s = Some t;
  qf_ready : Forall (λ e, queued_as THREAD_READY s e = true) (ready_list s);
  qf_sleep : Forall (λ e, queued_as THREAD_BLOCKED s e = true) (sleep_list s);
  qf_dying :
    Forall (λ e, queued_as THREAD_DYING s e = true) (destruction_req s);
  qf_ready_nodup : NoDup (ready_list s);
  qf_sleep_nodup : NoDup (sleep_list s);
  qf_dying_nodup : NoDup (destruction_req s);
  qf_free : Forall (λ p, threads s !! p = None) (free_pages s);
  qf_free_nodup : NoDup (free_pages s);
  qf_idle :
    ∀ i, idle_thread s = Some i →
      is_Some (threads s !! i) ∧ (Elem i ∉ ready_list s) ∧
      (Elem i ∉ sleep_list s) ∧ (Elem i ∉ destruction_req s)
}.

(** The scheduler between two operations: a valid thread in state
    [THREAD_RUNNING] is on the CPU and the data fit together. *)
Definition well_formed (s : state) : Prop :=
  thread_current s = Some (running s) ∧ queues_fit s.

(** [well_formed] as a test. *)
Definition well_formedb (s : state) : bool :=
  bool_decide (thread_current s = Some (running s))
  && forallb
       (λ '(t, th),
          bool_decide (t ≠ 0) && bool_decide (magic th = THREAD_MAGIC)
          && implb (bool_decide (status th = THREAD_RUNNING))
               (bool_decide (t = running s))
          && implb (bool_decide (status th = THREAD_READY))
               (bool_decide (Elem t ∈ ready_list s)
                || bool_decide (idle_thread s = Some t)))
       (map_to_list (threads s))
  && forallb (queued_as THREAD_READY s) (ready_list s)
  && forallb (queued_as THREAD_BLOCKED s) (sleep_list s)
  && forallb (queued_as THREAD_DYING s) (destruction_req s)
  && bool_decide (NoDup (ready_list s))
  && bool_decide (NoDup (sleep_list s))
  && bool_decide (NoDup (destruction_req s))
  && forallb (λ p, bool_decide (threads s !! p = None)) (free_pages s)
  && bool_decide (NoDup (free_pages s))
  && match idle_thread s with
     | Some i =>
         bool_decide (is_Some (threads s !! i))
         && bool_decide (Elem i ∉ ready_list s)
         && bool_decide (Elem i ∉ sleep_list s)
         && bool_decide (Elem i ∉ destruction_req s)
     | None => true
     end.

(** The donor behind the link [d] of a donation list waits for [lock]. *)
Definition waits_for (s : state) (lock : option addr) (d : list_elem) : bool :=
  match load_thread s (list_entry d donation_elem) with
  | Some (_, cth) => bool_decide (wait_on_lock cth = lock)
  | None => false
  end.

(** Every link is the [donation_elem] member of a live thread other than
    [t]. *)
Definition donors_of (s : state) (t : addr) (l : list list_elem) : bool :=
  forallb (λ d, match d with
                | DonationElem c =>
                    bool_decide (c ≠ t)
                    && bool_decide (is_Some (threads s !! c))
                | Elem _ => false
                end) l.

(** The thread that [next_thread_to_run] selects: the front of the ready
    list, or the idle thread. *)
Definition selected (s : state) : option addr :=
  match ready_list s with
  | [] => idle_thread s
  | Elem n :: _ => Some n
  | DonationElem _ :: _ => None
  end.

(** [n] calls of [thread_yield], each by the thread that is running then. *)
Fixpoint thread_yield_times (n : nat) (s : state) : option state :=
  match n with
  | O => Some s
  | S n' => s ← thread_yield s; thread_yield_times n' s
  end.

(** The first element goes to the back. *)
Definition rotate_left {A} (l : list A) : list A :=
  match l with
  | [] => []
  | x :: l' => l' ++ [x]
  end.

(** ** What the operations conserve *)

(** The pages that hold a TCB or wait in the allocator's pool. *)
Definition pages (s : state) : gset Z :=
  dom (threads s) ∪ list_to_set (free_pages s).

(** The identifier counter is ahead of every thread, and no two threads
    share an identifier. *)
Definition tids_unique (s : state) : Prop :=
  (∀ x th, threads s !! x = Some th → tid th < next_tid s) ∧
  ∀ x y thx thy,
    threads s !! x = Some thx → threads s !! y = Some thy →
    tid thx = tid thy → x = y.

(** [tids_unique] as a test. *)
Definition tids_uniqueb (s : state) : bool :=
  forallb (λ p, tid p.2 <? next_tid s) (map_to_list (threads s))
  && bool_decide (NoDup ((λ p, tid p.2) <$> map_to_list (threads s))).

(** From [s] to [s'] no page is lost or made, the identifier counter
    stands, and every thread was there before, on the same page and under
    the same identifier. *)
Definition conserved (s s' : state) : Prop :=
  pages s' = pages s ∧ next_tid s' = next_tid s ∧
  ∀ x th', threads s' !! x = Some th' →
    ∃ th, threads s !! x = Some th ∧ tid th' = tid th.

(** Every page that awaits destruction is a page of the system. *)
Definition victims_paged (s : state) : Prop :=
  ∀ e, e ∈ destruction_req s → elem_owner e ∈ pages s.

(** ** Order by the priorities of the TCBs *)

(** The priority of the thread whose [elem] link [e] is, read from its TCB;
    a link that is not the [elem] member of a live thread has none. *)
Definition queued_priority (s : state) (e : list_elem) : option Z :=
  match e with
  | Elem t => priority <$> threads s !! t
  | DonationElem _ => None
  end.

(** Both links belong to live threads, and the first thread's priority is
    at least the second's. *)
Definition ranks_at_least (s : state) (a b : list_elem) : Prop :=
  ∃ pa pb,
    queued_priority s a = Some pa ∧ queued_priority s b = Some pb ∧ pb ≤ pa.

(** Adjacent entries are live threads in non-increasing order of the
    priorities in their TCBs. *)
Definition priority_ordered (s : state) (l : list list_elem) : Prop :=
  Sorted (ranks_at_least s) l.

(** ** Further example states *)

(** [busy_state] with one more thread, 0xb000 of priority 50, which is
    blocked and on no list of thread.c (it waits for a semaphore, say). *)
Definition blocked_state : state :=
  set_next_tid 10
    (store_thread 0xb000
       (mk_thread 9 THREAD_BLOCKED "crafted" 50 50 None [] 0 None
          THREAD_MAGIC)
       busy_state).

(** A memory in which the TCBs on the pages 0x8000 and 0xb000, read as a
    [struct list], pass [list_empty]: the bytes at the offset of [head.next]
    hold the address of [tail].  Where [name] lies at that offset, this is a
    thread whose name consists of those bytes. *)
Definition crafted_memory : raw_memory :=
  mk_raw
    (λ p, match p with
          | Tcb t => (t =? 0x8000) || (t =? 0xb000)
          | _ => false
          end)
    (λ _, 0).

(** [blocked_state] on that memory: 0xb000 is such a thread, and so will be
    the thread that is created on the free page 0x8000. *)
Definition crafted_state : state := set_mem crafted_memory blocked_state.

(** H (0x1000, priority 30) runs and is about to block on lock 0xa000,
    held by L (0x3000, priority 10), which is ready behind A (0x2000,
    priority 25); B (0x4000, priority 20) is blocked and on no list. *)
Definition inversion_state : state :=
  mk_state
    (<[0x1000 := waiter 1 30 THREAD_RUNNING (Some 0xa000) []]>
       (<[0x2000 := tcb 2 THREAD_READY 25]>
          (<[0x3000 := waiter 3 10 THREAD_READY None [DonationElem 0x1000]]>
             (<[0x4000 := tcb 4 THREAD_BLOCKED 20]> ∅))))
    (<[0xa000 := mk_lock (Some 0x3000)]> ∅)
    [Elem 0x2000; Elem 0x3000] [] [] None (Some 0x1000)
    0 0 0 0 5 0x1000 INTR_OFF false false [] silent_memory.

(** Nothing but the idle thread 0x9000 was runnable; now 0x2000 is ready. *)
Definition idling_state : state :=
  mk_state
    (<[0x9000 := tcb 8 THREAD_RUNNING 0]>
       (<[0x2000 := tcb 2 THREAD_READY 31]> ∅))
    ∅ [Elem 0x2000] [] [] (Some 0x9000) (Some 0x1000)
    0 0 0 0 9 0x9000 INTR_ON false false [] silent_memory.

(** [busy_state] with a second page in the allocator's pool. *)
Definition two_pages_state : state :=
  set_free_pages [0x8000; 0xc000] busy_state.

(** A thread function that returns at once. *)
Definition returns_at_once : thread_func := λ _ s, Some s.

(** * Properties *)

(** ** Tactics and basic facts *)

(** Case analysis on the first step of a computation that has a result. *)
Ltac first_step :=
  lazymatch goal with
  | |- mbind _ ?m = Some _ → _ =>
      destruct m eqn:?; [cbn [mbind option_bind]|discriminate]
  end.

(** Two states with the same components are equal. *)
Lemma state_ext s1 s2 :
  threads s1 = threads s2 → locks s1 = locks s2 →
  ready_list s1 = ready_list s2 → sleep_list s1 = sleep_list s2 →
  destruction_req s1 = destruction_req s2 →
  idle_thread s1 = idle_thread s2 → initial_thread s1 = initial_thread s2 →
  idle_ticks s1 = idle_ticks s2 → kernel_ticks s1 = kernel_ticks s2 →
  user_ticks s1 = user_ticks s2 → thread_ticks s1 = thread_ticks s2 →
  next_tid s1 = next_tid s2 → running s1 = running s2 →
  intr_level s1 = intr_level s2 → intr_context s1 = intr_context s2 →
  yield_on_return s1 = yield_on_return s2 → free_pages s1 = free_pages s2 →
  mem s1 = mem s2 → s1 = s2.
Proof. destruct s1, s2; simpl; intros; subst; reflexivity. Qed.

Lemma is_thread_lookup s t :
  is_thread s t = true ↔
  ∃ th, threads s !! t = Some th ∧ t ≠ 0 ∧ magic th = THREAD_MAGIC.
Proof.
  unfold is_thread. split.
  - destruct (threads s !! t) as [th|]; [|discriminate].
    intros [H1 H2]%andb_prop.
    apply bool_decide_eq_true in H1, H2. eauto.
  - intros (th & -> & H1 & H2).
    rewrite !bool_decide_eq_true_2 by done. reflexivity.
Qed.

Lemma thread_current_Some s t :
  thread_current s = Some t ↔
  t = running s ∧ is_thread s t = true ∧
  ∃ th, threads s !! t = Some th ∧ status th = THREAD_RUNNING.
Proof.
  unfold thread_current. split.
  - destruct (is_thread s (running s)) eqn:Ht; simpl; [|discriminate].
    destruct (threads s !! running s) as [th|] eqn:Hth; simpl; [|discriminate].
    case_bool_decide; simpl; [|discriminate].
    intros [= <-]. eauto.
  - intros (-> & Ht & th & Hth & Hst).
    rewrite Ht, Hth. simpl. rewrite bool_decide_eq_true_2 by done.
    reflexivity.
Qed.

(** On [elem] links whose TCBs do not read as empty lists the predicate
    compares the priorities. *)
Lemma thread_compare_priority_silent s a b :
  list_empty_thread s (list_entry a elem) = false →
  list_empty_thread s (list_entry b elem) = false →
  thread_compare_priority s a b = (elem_priority s a >? elem_priority s b).
Proof.
  intros Ha Hb. unfold thread_compare_priority. rewrite Ha, Hb. reflexivity.
Qed.

(** Where the new element lands: behind every queued element that it is not
    [less] than, in front of the first one that it is [less] than. *)
Lemma list_insert_ordered_split {A} (less : A → A → bool) e l :
  ∃ l1 l2, l = l1 ++ l2 ∧
    list_insert_ordered less e l = l1 ++ e :: l2 ∧
    Forall (λ x, less e x = false) l1 ∧
    match l2 with
    | [] => True
    | x :: _ => less e x = true
    end.
Proof.
  induction l as [|x l (l1 & l2 & -> & Hins & H1 & H2)]; simpl.
  - exists [], []. auto.
  - destruct (less e x) eqn:Hx.
    + exists [], (x :: l1 ++ l2). auto.
    + exists (x :: l1), l2. rewrite Hins. auto.
Qed.

(** ** [thread_unblock] *)

Lemma thread_unblock_Some t s th :
  threads s !! t = Some th → t ≠ 0 → magic th = THREAD_MAGIC →
  status th = THREAD_BLOCKED → Elem t ∉ sleep_list s →
  thread_unblock t s =
    Some (set_intr_level (intr_level s)
            (store_thread t (with_status THREAD_READY th)
               (set_ready_list
                  (list_insert_ordered (thread_compare_priority s) (Elem t)
                     (ready_list s)) s))).
Proof.
  intros Hth Hnz Hmagic Hst Hns. unfold thread_unblock.
  assert (is_thread s t = true) as ->
    by (apply is_thread_lookup; eauto).
  simpl. rewrite Hth. simpl.
  rewrite bool_decide_eq_true_2 by done. simpl.
  rewrite bool_decide_eq_true_2 by done. reflexivity.
Qed.


(** ** Ordered insertion *)

Section insert_by_key.
Context {A : Type} (key : A → Z) (less : A → A → bool).

Let ge_key (a b : A) : Prop := key b ≤ key a.

Lemma insert_by_key_split e l :
  (∀ x, x ∈ l → less e x = (key e >? key x)) →
  ∃ l1 l2, l = l1 ++ l2 ∧
    list_insert_ordered less e l = l1 ++ e :: l2 ∧
    Forall (λ x, key e ≤ key x) l1 ∧
    match l2 with
    | [] => True
    | x :: _ => key x < key e
    end.
Proof.
  intros Hless.
  destruct (list_insert_ordered_split less e l)
    as (l1 & l2 & -> & Hins & H1 & H2).
  exists l1, l2. repeat split; try done.
  - apply Forall_forall. intros x Hx.
    rewrite Forall_forall in H1. specialize (H1 x Hx).
    rewrite Hless in H1 by (apply elem_of_app; auto). lia.
  - destruct l2 as [|x l2]; [done|].
    rewrite Hless in H2 by (apply elem_of_app; right; left). lia.
Qed.

Lemma sorted_tail_below e x l :
  Sorted ge_key (x :: l) → key x < key e → Forall (λ y, key y < key e) (x :: l).
Proof.
  intros Hs Hx.
  apply Sorted_StronglySorted in Hs; [|intros a b c; unfold ge_key; lia].
  apply StronglySorted_inv in Hs as [_ Hall].
  constructor; [done|].
  eapply Forall_impl; [exact Hall|]. unfold ge_key. simpl. intros; lia.
Qed.

Lemma sorted_insert_middle e l1 l2 :
  Sorted ge_key (l1 ++ l2) →
  Forall (λ x, key e ≤ key x) l1 →
  match l2 with
  | [] => True
  | x :: _ => key x < key e
  end →
  Sorted ge_key (l1 ++ e :: l2).
Proof.
  induction l1 as [|a l1 IH]; simpl; intros Hs H1 H2.
  - constructor; [done|].
    destruct l2; constructor. unfold ge_key. lia.
  - apply Forall_cons in H1 as [Ha H1].
    apply Sorted_inv in Hs as [Hs Hhd].
    constructor; [by apply IH|].
    destruct l1 as [|b l1]; simpl in *.
    + constructor. exact Ha.
    + apply HdRel_inv in Hhd. by constructor.
Qed.

Lemma insert_by_key_sorted e l :
  (∀ x, x ∈ l → less e x = (key e >? key x)) →
  Sorted ge_key l →
  ∃ l1 l2, l = l1 ++ l2 ∧
    list_insert_ordered less e l = l1 ++ e :: l2 ∧
    Forall (λ x, key e ≤ key x) l1 ∧
    Forall (λ x, key x < key e) l2 ∧
    Sorted ge_key (l1 ++ e :: l2).
Proof.
  intros Hless Hs.
  destruct (insert_by_key_split e l Hless) as (l1 & l2 & -> & Hins & H1 & H2).
  exists l1, l2. repeat split; try done.
  - destruct l2 as [|x l2]; [constructor|].
    apply sorted_tail_below; [|done].
    clear -Hs. induction l1; simpl in *; [done|]. inv Hs. auto.
  - by apply sorted_insert_middle.
Qed.
End insert_by_key.

Lemma Sorted_tail {A} (R : A → A → Prop) l : Sorted R l → Sorted R (tail l).
Proof. destruct l; simpl; [done|]. by inversion 1. Qed.

Lemma Sorted_ext_in {A} (R1 R2 : A → A → Prop) l :
  (∀ a b, a ∈ l → b ∈ l → R1 a b → R2 a b) → Sorted R1 l → Sorted R2 l.
Proof.
  induction l as [|x l IH]; intros H Hs; [constructor|].
  inv Hs. constructor.
  - apply IH; [|done]. intros a b Ha Hb. apply H; by right.
  - destruct l as [|y l]; constructor. inv H3.
    apply H; [left|right; left|done].
Qed.

Lemma guard_silent_elem s l e :
  guard_silent s l = true → e ∈ l →
  list_empty_thread s (list_entry e elem) = false.
Proof.
  unfold guard_silent. rewrite forallb_forall. intros H He.
  apply list_elem_of_In in He. specialize (H e He).
  by apply negb_true_iff in H.
Qed.

Lemma thread_compare_priority_key s e l :
  guard_silent s (e :: l) = true →
  ∀ x, x ∈ l →
    thread_compare_priority s e x = (elem_priority s e >? elem_priority s x).
Proof.
  intros Hg x Hx. apply thread_compare_priority_silent.
  - eapply guard_silent_elem; [done|left].
  - eapply guard_silent_elem; [done|by right].
Qed.

(** Writing a TCB back with its [priority] unchanged does not change what
    the ordering predicate reads. *)
Lemma load_priority_store s t th th' p :
  threads s !! t = Some th → priority th' = priority th →
  load_priority (store_thread t th' s) p = load_priority s p.
Proof.
  intros Hth Hp. unfold load_priority, load_thread. destruct p as [x| |]; simpl;
    try done.
  destruct (decide (t = x)) as [->|Hne].
  - rewrite lookup_insert_eq, Hth. simpl. done.
  - rewrite lookup_insert_ne by done. done.
Qed.

Lemma elem_priority_Elem s t th :
  threads s !! t = Some th → elem_priority s (Elem t) = priority th.
Proof.
  intros H. unfold elem_priority, load_priority. simpl. by rewrite H.
Qed.

(** What [thread_unblock] does to the ready queue, in terms of the
    priorities of the queued threads. *)
Lemma thread_unblock_insert s t th :
  is_thread s t = true → threads s !! t = Some th →
  status th = THREAD_BLOCKED → Elem t ∉ sleep_list s →
  guard_silent s (Elem t :: ready_list s) = true →
  ∃ s' l1 l2,
    thread_unblock t s = Some s' ∧
    ready_list s = l1 ++ l2 ∧
    ready_list s' = l1 ++ Elem t :: l2 ∧
    Forall (λ e, priority th ≤ elem_priority s e) l1 ∧
    match l2 with
    | [] => True
    | e :: _ => elem_priority s e < priority th
    end ∧
    s' = set_intr_level (intr_level s)
           (store_thread t (with_status THREAD_READY th)
              (set_ready_list (l1 ++ Elem t :: l2) s)).
Proof.
  intros Ht Hth Hst Hns Hg.
  apply is_thread_lookup in Ht as (th' & Hth' & Hnz & Hmagic).
  assert (th' = th) as -> by congruence.
  destruct (insert_by_key_split (elem_priority s) (thread_compare_priority s)
              (Elem t) (ready_list s) (thread_compare_priority_key s _ _ Hg))
    as (l1 & l2 & Hl & Hins & H1 & H2).
  rewrite (elem_priority_Elem s t th Hth) in H1, H2.
  eexists _, l1, l2. split; [by apply thread_unblock_Some|].
  simpl. rewrite Hins. auto.
Qed.

(** What [thread_unblock] does while no TCB makes the empty-list test of
    the ordering predicate fire.  For a valid thread [t] in state
    [THREAD_BLOCKED] that is off the sleep list, [thread_unblock] returns; it
    has put [t] into the ready queue behind every queued thread of priority
    at least [t]'s and in front of the first one of smaller priority (in
    front of all the smaller ones when the queue was in descending order),
    it has set the status of [t] to [THREAD_READY] and changed no other TCB,
    the interrupt level is the caller's again, and the caller is still the
    running thread: no yield has been requested and the time slice goes
    on. *)
Lemma thread_unblock_ready_in_order s t th :
  is_thread s t = true → threads s !! t = Some th →
  status th = THREAD_BLOCKED → Elem t ∉ sleep_list s →
  guard_silent s (Elem t :: ready_list s) = true →
  ∃ s' l1 l2,
    thread_unblock t s = Some s' ∧
    ready_list s = l1 ++ l2 ∧
    ready_list s' = l1 ++ Elem t :: l2 ∧
    Forall (λ e, priority th ≤ elem_priority s e) l1 ∧
    match l2 with
    | [] => True
    | e :: _ => elem_priority s e < priority th
    end ∧
    (descending s (ready_list s) →
     Forall (λ e, elem_priority s e < priority th) l2) ∧
    threads s' = <[t := with_status THREAD_READY th]> (threads s) ∧
    intr_level s' = intr_level s ∧
    running s' = running s ∧
    yield_on_return s' = yield_on_return s ∧
    thread_ticks s' = thread_ticks s ∧
    sleep_list s' = sleep_list s ∧
    destruction_req s' = destruction_req s.
Proof.
  intros Ht Hth Hst Hns Hg.
  destruct (thread_unblock_insert s t th Ht Hth Hst Hns Hg)
    as (s' & l1 & l2 & Hun & Hl & Hl' & H1 & H2 & ->).
  eexists _, l1, l2. split; [exact Hun|]. repeat split; try done.
  intros Hs. rewrite Hl in Hs.
  destruct l2 as [|x l2]; [constructor|].
  rewrite <- (elem_priority_Elem s t th Hth) in *.
  apply (sorted_tail_below (elem_priority s)); [|done].
  clear -Hs. induction l1; simpl in *; [done|].
  apply Sorted_inv in Hs as [Hs _]. auto.
Qed.

(** ** The destruction list *)

Lemma without_victims_lookup victims m x :
  without_victims victims m !! x =
    if bool_decide (x ∈ elem_owner <$> victims) then None else m !! x.
Proof.
  revert m. induction victims as [|v victims IH]; intros m.
  - rewrite bool_decide_eq_false_2; [done|]. apply not_elem_of_nil.
  - cbn [without_victims foldl fmap list_fmap].
    fold (without_victims victims (delete (elem_owner v) m)).
    rewrite IH. destruct (decide (x = elem_owner v)) as [->|Hne].
    + rewrite (bool_decide_eq_true_2 (_ ∈ _ :: _)) by left.
      rewrite lookup_delete_eq. by case_bool_decide.
    + rewrite lookup_delete_ne by done.
      case_bool_decide as H1; case_bool_decide as H2; try done.
      * exfalso. apply H2. by right.
      * exfalso. apply elem_of_cons in H2 as [?|?]; done.
Qed.

Lemma free_destruction_req_Some victims s :
  Forall (λ v, ∃ t, v = Elem t) victims →
  free_destruction_req victims s =
    Some (match victims with
          | [] => s
          | _ =>
              set_free_pages (reverse (elem_owner <$> victims) ++ free_pages s)
                (set_threads (without_victims victims (threads s))
                   (set_destruction_req [] s))
          end).
Proof.
  intros Hv. revert s. induction Hv as [|v victims [t ->] _ IH]; intros s.
  - reflexivity.
  - simpl. rewrite IH. destruct victims as [|v' victims]; [reflexivity|].
    f_equal. apply state_ext; try reflexivity.
    cbn [free_pages set_free_pages set_threads set_destruction_req].
    rewrite reverse_cons, <- app_assoc. reflexivity.
Qed.

Lemma victims_apart_elems cur l victims :
  victims_apart cur l victims = true →
  Forall (λ v, ∃ t, v = Elem t) victims.
Proof.
  unfold victims_apart. rewrite forallb_forall, Forall_forall.
  intros H v Hv. apply list_elem_of_In in Hv. specialize (H v Hv).
  destruct v; [eauto|discriminate].
Qed.

Lemma victims_apart_not_in cur l victims x :
  victims_apart cur l victims = true →
  x = cur ∨ Elem x ∈ l → x ∉ elem_owner <$> victims.
Proof.
  unfold victims_apart. rewrite forallb_forall.
  intros H Hx Hin. apply list_elem_of_fmap in Hin as (v & -> & Hv).
  apply list_elem_of_In in Hv. specialize (H v Hv).
  destruct v as [t|t]; [|discriminate]. simpl in *.
  apply andb_prop in H as [H1 H2].
  apply bool_decide_eq_true in H1, H2.
  destruct Hx as [->|Hx]; [done|].
  apply H2. by apply list_elem_of_In, list_elem_of_In.
Qed.

Lemma flushed_destruction_req s : destruction_req (flushed s) = [].
Proof. unfold flushed. by destruct (destruction_req s) eqn:E. Qed.

Lemma flushed_threads s x :
  threads (flushed s) !! x =
    if bool_decide (x ∈ elem_owner <$> destruction_req s) then None
    else threads s !! x.
Proof.
  unfold flushed. destruct (destruction_req s) as [|v vs] eqn:E.
  - rewrite bool_decide_eq_false_2; [done|]. apply not_elem_of_nil.
  - cbn [threads set_free_pages set_threads set_destruction_req].
    apply without_victims_lookup.
Qed.

Lemma flushed_frame s :
  ready_list (flushed s) = ready_list s ∧
  sleep_list (flushed s) = sleep_list s ∧
  locks (flushed s) = locks s ∧
  idle_thread (flushed s) = idle_thread s ∧
  initial_thread (flushed s) = initial_thread s ∧
  running (flushed s) = running s ∧
  intr_level (flushed s) = intr_level s ∧
  intr_context (flushed s) = intr_context s ∧
  yield_on_return (flushed s) = yield_on_return s ∧
  thread_ticks (flushed s) = thread_ticks s ∧
  mem (flushed s) = mem s.
Proof. unfold flushed. by destruct (destruction_req s). Qed.

Lemma flushed_free_pages s x :
  x ∈ free_pages (flushed s) ↔
  x ∈ elem_owner <$> destruction_req s ∨ x ∈ free_pages s.
Proof.
  unfold flushed. destruct (destruction_req s) as [|v vs] eqn:E.
  - split; [auto|]. intros [H|H]; [|done]. by apply elem_of_nil in H.
  - cbn [free_pages set_free_pages set_threads set_destruction_req].
    rewrite elem_of_app, elem_of_reverse. done.
Qed.

Lemma free_destruction_req_flushed cur s :
  victims_apart cur (ready_list s) (destruction_req s) = true →
  free_destruction_req (destruction_req s) s = Some (flushed s).
Proof.
  intros Hv. rewrite free_destruction_req_Some
    by (eapply victims_apart_elems; exact Hv).
  unfold flushed. by destruct (destruction_req s).
Qed.

Lemma is_thread_ext s1 s2 t :
  threads s1 !! t = threads s2 !! t → is_thread s1 t = is_thread s2 t.
Proof. unfold is_thread. by intros ->. Qed.

Lemma thread_current_ext s1 s2 :
  running s1 = running s2 →
  threads s1 !! running s1 = threads s2 !! running s1 →
  thread_current s1 = thread_current s2.
Proof.
  intros Hr Ht. unfold thread_current.
  rewrite (is_thread_ext s1 s2 _ Ht), <- Hr, Ht. reflexivity.
Qed.

(** ** [schedule] *)

Lemma schedule_front s n rest cth nth :
  ready_list s = Elem n :: rest →
  intr_level s = INTR_OFF →
  threads s !! running s = Some cth → status cth ≠ THREAD_RUNNING →
  is_thread s n = true → threads s !! n = Some nth →
  schedule s = Some (dispatched (running s) cth n nth (set_ready_list rest s)).
Proof.
  intros Hrl Hoff Hcth Hst Hn Hnth.
  unfold schedule, next_thread_to_run. rewrite Hrl. simpl.
  rewrite Hoff, Hcth. simpl.
  rewrite (bool_decide_eq_true_2 (status cth ≠ _)) by done. simpl.
  erewrite is_thread_ext; [rewrite Hn|reflexivity]. simpl.
  rewrite Hnth. simpl. unfold dispatched. simpl.
  case_bool_decide; reflexivity.
Qed.

Lemma schedule_idle s i cth ith :
  ready_list s = [] → idle_thread s = Some i →
  intr_level s = INTR_OFF →
  threads s !! running s = Some cth → status cth ≠ THREAD_RUNNING →
  is_thread s i = true → threads s !! i = Some ith →
  schedule s = Some (dispatched (running s) cth i ith s).
Proof.
  intros Hrl Hidle Hoff Hcth Hst Hi Hith.
  unfold schedule, next_thread_to_run. rewrite Hrl. simpl.
  rewrite Hoff, Hcth, Hidle. simpl.
  rewrite (bool_decide_eq_true_2 (status cth ≠ _)) by done. simpl.
  rewrite Hi. simpl. rewrite Hith. simpl. unfold dispatched. simpl.
  case_bool_decide; reflexivity.
Qed.

Lemma dispatched_fields curr cth next nth s :
  threads (dispatched curr cth next nth s)
    = <[next := with_status THREAD_RUNNING nth]> (threads s) ∧
  running (dispatched curr cth next nth s)
    = (if bool_decide (curr ≠ next) then next else running s) ∧
  destruction_req (dispatched curr cth next nth s)
    = (if bool_decide (curr ≠ next) && bool_decide (status cth = THREAD_DYING)
          && bool_decide (Some curr ≠ initial_thread s)
       then destruction_req s ++ [Elem curr] else destruction_req s) ∧
  ready_list (dispatched curr cth next nth s) = ready_list s ∧
  sleep_list (dispatched curr cth next nth s) = sleep_list s ∧
  free_pages (dispatched curr cth next nth s) = free_pages s ∧
  intr_level (dispatched curr cth next nth s) = intr_level s ∧
  thread_ticks (dispatched curr cth next nth s) = 0 ∧
  mem (dispatched curr cth next nth s) = mem s.
Proof.
  unfold dispatched.
  destruct (bool_decide (curr ≠ next)); [|by repeat split].
  cbn [andb].
  destruct (bool_decide (status cth = THREAD_DYING)); [|by repeat split].
  cbn [andb initial_thread set_thread_ticks store_thread set_threads].
  destruct (bool_decide (Some curr ≠ initial_thread s)); by repeat split.
Qed.

(** ** [do_schedule] *)

Lemma do_schedule_flushed st s cur cth :
  intr_level s = INTR_OFF →
  thread_current s = Some cur → threads s !! cur = Some cth →
  victims_apart cur (ready_list s) (destruction_req s) = true →
  do_schedule st s =
    schedule (store_thread cur (with_status st cth) (flushed s)).
Proof.
  intros Hoff Hcur Hcth Hv. unfold do_schedule.
  rewrite Hoff, Hcur. simpl.
  rewrite (free_destruction_req_flushed cur s Hv). simpl.
  assert (threads (flushed s) !! cur = Some cth) as Hcth'.
  { rewrite flushed_threads, bool_decide_eq_false_2; [done|].
    eapply victims_apart_not_in; [exact Hv|by left]. }
  destruct (flushed_frame s) as (_ & _ & _ & _ & _ & Hrun & _).
  apply thread_current_Some in Hcur as Hcur'. destruct Hcur' as (-> & _ & _).
  rewrite (thread_current_ext (flushed s) s) by (rewrite Hrun; congruence).
  rewrite Hcur. simpl. rewrite Hcth'. reflexivity.
Qed.

(** ** [thread_yield] *)

Lemma elem_of_list_insert_ordered {A} (less : A → A → bool) e l x :
  x ∈ list_insert_ordered less e l ↔ x = e ∨ x ∈ l.
Proof.
  destruct (list_insert_ordered_split less e l) as (l1 & l2 & -> & -> & _).
  rewrite !elem_of_app, elem_of_cons. tauto.
Qed.

Lemma elems_of_threads_elem s l e :
  elems_of_threads s l = true → e ∈ l →
  ∃ t, e = Elem t ∧ is_thread s t = true.
Proof.
  unfold elems_of_threads. rewrite forallb_forall. intros H He.
  apply list_elem_of_In in He. specialize (H e He).
  destruct e; [eauto|discriminate].
Qed.

Lemma yield_queue_elem s cur x :
  x ∈ yield_queue s cur → x = Elem cur ∨ x ∈ ready_list s.
Proof.
  unfold yield_queue. case_bool_decide; [|auto].
  by rewrite elem_of_list_insert_ordered.
Qed.

Lemma yield_queue_nil s cur :
  yield_queue s cur = [] → idle_thread s = Some cur ∧ ready_list s = [].
Proof.
  unfold yield_queue. case_bool_decide as H.
  - intros Hq. exfalso.
    assert (Elem cur ∈ @nil list_elem) as Hin
      by (rewrite <- Hq; apply elem_of_list_insert_ordered; auto).
    by apply elem_of_nil in Hin.
  - intros ->. split; [|done].
    destruct (decide (idle_thread s = Some cur)) as [|Hne]; [done|].
    congruence.
Qed.

Lemma victims_apart_yield_queue s cur victims :
  victims_apart cur (ready_list s) victims = true →
  victims_apart cur (yield_queue s cur) victims = true.
Proof.
  unfold victims_apart. rewrite !forallb_forall. intros H v Hv.
  specialize (H v Hv). destruct v as [t|t]; [|done].
  apply andb_prop in H as [H1 H2]. apply bool_decide_eq_true in H1, H2.
  rewrite !bool_decide_eq_true_2; [done| |done].
  intros [Hq|Hq]%yield_queue_elem; [congruence|done].
Qed.

(** The state in which [thread_yield] calls [schedule]. *)
Lemma thread_yield_schedule s cur cth :
  thread_current s = Some cur → threads s !! cur = Some cth →
  intr_context s = false →
  victims_apart cur (ready_list s) (destruction_req s) = true →
  thread_yield s =
    (s' ← schedule
            (store_thread cur (with_status THREAD_READY cth)
               (flushed (set_ready_list (yield_queue s cur)
                           (set_intr_level INTR_OFF s))));
     if bool_decide (running s' = cur)
     then Some (intr_set_level (intr_level s) s') else Some s').
Proof.
  intros Hcur Hcth Hctx Hv. unfold thread_yield.
  rewrite Hcur. simpl. rewrite Hctx. simpl.
  set (sq := set_ready_list (yield_queue s cur) (set_intr_level INTR_OFF s)).
  assert ((if bool_decide (Some cur ≠ idle_thread s)
           then set_ready_list
                  (list_insert_ordered
                     (thread_compare_priority (set_intr_level INTR_OFF s))
                     (Elem cur) (ready_list s)) (set_intr_level INTR_OFF s)
           else set_intr_level INTR_OFF s) = sq) as Hsq.
  { unfold sq, yield_queue. case_bool_decide; reflexivity. }
  change (idle_thread (set_intr_level INTR_OFF s)) with (idle_thread s).
  change (ready_list (set_intr_level INTR_OFF s)) with (ready_list s).
  rewrite Hsq.
  assert (thread_current sq = Some cur) as Hcur'
    by (rewrite (thread_current_ext sq s); done).
  assert (victims_apart cur (ready_list sq) (destruction_req sq) = true) as Hv'
    by (by apply victims_apart_yield_queue).
  rewrite (do_schedule_flushed THREAD_READY sq cur cth eq_refl Hcur' Hcth Hv').
  reflexivity.
Qed.


Lemma same_but_status_refl th : same_but_status th th.
Proof. by repeat split. Qed.

Lemma is_thread_with_status s t th st x :
  threads s !! t = Some th →
  is_thread (store_thread t (with_status st th) s) x = is_thread s x.
Proof.
  intros Hth. unfold is_thread. simpl.
  destruct (decide (t = x)) as [->|Hne].
  - by rewrite lookup_insert_eq, Hth.
  - by rewrite lookup_insert_ne.
Qed.

(** The thread map after a yield: [cur] has become ready and [next] runs. *)
Lemma yield_thread_map (m m0 : gmap Z thread) (victims : list Z) cur cth
    next nth :
  (∀ x, m0 !! x = if bool_decide (x ∈ victims) then None else m !! x) →
  m !! cur = Some cth → cur ∉ victims →
  <[cur := with_status THREAD_READY cth]> m0 !! next = Some nth →
  (∀ x, x ∈ victims →
     <[next := with_status THREAD_RUNNING nth]>
       (<[cur := with_status THREAD_READY cth]> m0) !! x = None) ∧
  (∀ x th, x ∉ victims → m !! x = Some th →
     ∃ th',
       <[next := with_status THREAD_RUNNING nth]>
         (<[cur := with_status THREAD_READY cth]> m0) !! x = Some th' ∧
       same_but_status th th' ∧
       status th' =
         if bool_decide (x = next) then THREAD_RUNNING
         else if bool_decide (x = cur) then THREAD_READY else status th).
Proof.
  intros Hm0 Hcth Hcurv Hnth.
  assert (next ∉ victims) as Hnv.
  { intros Hin. destruct (decide (cur = next)) as [->|Hne]; [done|].
    rewrite lookup_insert_ne in Hnth by done.
    rewrite Hm0, bool_decide_eq_true_2 in Hnth by done. done. }
  split.
  - intros x Hx.
    rewrite !lookup_insert_ne by congruence.
    by rewrite Hm0, bool_decide_eq_true_2.
  - intros x th Hx Hth. destruct (decide (x = next)) as [->|Hxn].
    + rewrite lookup_insert_eq. eexists; split; [done|].
      rewrite bool_decide_eq_true_2 by done. split; [|done].
      destruct (decide (cur = next)) as [->|Hcn].
      * rewrite lookup_insert_eq in Hnth. injection Hnth as <-.
        assert (th = cth) as -> by congruence. by repeat split.
      * rewrite lookup_insert_ne in Hnth by done.
        rewrite Hm0, bool_decide_eq_false_2 in Hnth by done.
        assert (th = nth) as -> by congruence. by repeat split.
    + rewrite lookup_insert_ne by done.
      rewrite (bool_decide_eq_false_2 (x = next)) by done.
      destruct (decide (x = cur)) as [->|Hxc].
      * rewrite lookup_insert_eq. eexists; split; [done|].
        assert (th = cth) as -> by congruence.
        rewrite bool_decide_eq_true_2 by done. by repeat split.
      * rewrite lookup_insert_ne by congruence.
        rewrite Hm0, !bool_decide_eq_false_2 by done.
        exists th. split; [done|]. split; [apply same_but_status_refl|done].
Qed.

(** What [thread_yield] leaves behind: the current thread has been queued
    (unless it is the idle thread), the destruction list has been flushed,
    and the front of the queue, or the idle thread, has the CPU. *)
Lemma thread_yield_facts s cur cth :
  thread_current s = Some cur → threads s !! cur = Some cth →
  intr_context s = false →
  victims_apart cur (ready_list s) (destruction_req s) = true →
  elems_of_threads s (ready_list s) = true →
  ∃ s' next,
    thread_yield s = Some s' ∧
    (yield_queue s cur = [] ∧ next = cur ∨
     ∃ rest, yield_queue s cur = Elem next :: rest) ∧
    ready_list s' = tail (yield_queue s cur) ∧
    running s' = next ∧
    destruction_req s' = [] ∧
    mem s' = mem s ∧
    sleep_list s' = sleep_list s ∧
    thread_ticks s' = 0 ∧
    (∀ x, x ∈ elem_owner <$> destruction_req s →
       threads s' !! x = None ∧ x ∈ free_pages s') ∧
    (∀ x th, x ∉ elem_owner <$> destruction_req s →
       threads s !! x = Some th →
       ∃ th', threads s' !! x = Some th' ∧ same_but_status th th' ∧
         status th' =
           if bool_decide (x = next) then THREAD_RUNNING
           else if bool_decide (x = cur) then THREAD_READY else status th).
Proof.
  intros Hcur Hcth Hctx Hv Hrl.
  rewrite (thread_yield_schedule s cur cth Hcur Hcth Hctx Hv).
  apply thread_current_Some in Hcur as (Hrun & Hcurt & _).
  set (sq := set_ready_list (yield_queue s cur) (set_intr_level INTR_OFF s)).
  set (cthR := with_status THREAD_READY cth).
  set (s0 := store_thread cur cthR (flushed sq)).
  assert (∀ x, threads (flushed sq) !! x =
               if bool_decide (x ∈ elem_owner <$> destruction_req s)
               then None else threads s !! x) as Hfl
    by (intros x; apply (flushed_threads sq x)).
  destruct (flushed_frame sq)
    as (Hf1 & Hf2 & _ & Hf4 & _ & Hf6 & Hf7 & _ & _ & _ & Hf11).
  assert (cur ∉ elem_owner <$> destruction_req s) as Hcurv
    by (eapply victims_apart_not_in; [exact Hv|by left]).
  assert (threads s0 = <[cur := cthR]> (threads (flushed sq))) as Hs0t
    by reflexivity.
  assert (ready_list s0 = yield_queue s cur) as Hs0rl by exact Hf1.
  assert (sleep_list s0 = sleep_list s) as Hs0sl by exact Hf2.
  assert (idle_thread s0 = idle_thread s) as Hs0idle by exact Hf4.
  assert (running s0 = cur) as Hs0run by (rewrite Hrun; exact Hf6).
  assert (intr_level s0 = INTR_OFF) as Hs0off by exact Hf7.
  assert (mem s0 = mem s) as Hs0mem by exact Hf11.
  assert (destruction_req s0 = []) as Hs0d
    by exact (flushed_destruction_req sq).
  assert (∀ x, x ∈ elem_owner <$> destruction_req s → x ∈ free_pages s0)
    as Hs0free.
  { intros x Hx. apply (flushed_free_pages sq). by left. }
  assert (∀ n, is_thread s n = true →
               n ∉ elem_owner <$> destruction_req s →
               is_thread s0 n = true) as Hs0thread.
  { intros n Hn Hnv. unfold s0, cthR. rewrite is_thread_with_status.
    - rewrite (is_thread_ext _ s); [done|].
      by rewrite Hfl, bool_decide_eq_false_2.
    - by rewrite Hfl, bool_decide_eq_false_2. }
  assert (threads s0 !! cur = Some cthR) as Hs0cur
    by (rewrite Hs0t; apply lookup_insert_eq).
  clearbody s0. clear Hf1 Hf2 Hf4 Hf6 Hf7 Hf11.
  (* the thread that [schedule] picks *)
  assert (∃ next nth rest,
            (yield_queue s cur = [] ∧ next = cur ∨
             yield_queue s cur = Elem next :: rest) ∧
            threads s0 !! next = Some nth ∧
            schedule s0 = Some (dispatched cur cthR next nth
                                  (set_ready_list (tail (yield_queue s cur)) s0)))
    as (next & nth & rest & Hnext & Hnth & Hsched).
  { destruct (yield_queue s cur) as [|e rest] eqn:Hq.
    - apply yield_queue_nil in Hq as Hq'. destruct Hq' as [Hidle Hnil].
      exists cur, cthR, []. split; [by left|]. split; [done|].
      rewrite <- Hs0run at 1.
      rewrite (schedule_idle s0 cur cthR cthR); try done; try congruence.
      + rewrite Hs0run. f_equal. f_equal. apply state_ext; try done.
      + by apply Hs0thread.
    - assert (e ∈ yield_queue s cur) as He by (rewrite Hq; left).
      assert (∃ n, e = Elem n ∧ is_thread s n = true ∧
                   n ∉ elem_owner <$> destruction_req s)
        as (n & -> & Hn & Hnv).
      { apply yield_queue_elem in He as [->|He]; [eauto|].
        destruct (elems_of_threads_elem s _ _ Hrl He) as (n & -> & Hn).
        exists n. repeat split; [done|].
        eapply victims_apart_not_in; [exact Hv|by right]. }
      pose proof (Hs0thread n Hn Hnv) as Hn0.
      apply is_thread_lookup in Hn0 as Hn0'. destruct Hn0' as (nth & Hnth & _).
      exists n, nth, rest. split; [by right|]. split; [done|].
      rewrite (schedule_front s0 n rest cthR nth); try done; try congruence.
      by rewrite Hs0run. }
  rewrite Hsched. cbn [mbind option_bind].
  destruct (dispatched_fields cur cthR next nth
              (set_ready_list (tail (yield_queue s cur)) s0))
    as (Hd1 & Hd2 & Hd3 & Hd4 & Hd5 & Hd6 & Hd7 & Hd8 & Hd9).
  cbn [threads ready_list sleep_list destruction_req running free_pages mem
       initial_thread set_ready_list] in Hd1, Hd2, Hd3, Hd4, Hd5, Hd6, Hd9.
  set (sd := dispatched cur cthR next nth
               (set_ready_list (tail (yield_queue s cur)) s0)) in *.
  assert (status cthR ≠ THREAD_DYING) as Hnd by done.
  rewrite (bool_decide_eq_false_2 (status cthR = THREAD_DYING)) in Hd3 by done.
  rewrite andb_false_r in Hd3. cbn [andb] in Hd3.
  assert (running sd = next) as Hrun'.
  { rewrite Hd2. case_bool_decide as Hcn; [done|].
    destruct (decide (cur = next)); [congruence|]. by destruct Hcn. }
  rewrite Hs0t in Hd1, Hnth.
  destruct (yield_thread_map (threads s) (threads (flushed sq))
              (elem_owner <$> destruction_req s) cur cth next nth
              Hfl Hcth Hcurv Hnth) as [Hmap1 Hmap2].
  fold cthR in Hmap1, Hmap2. rewrite <- Hd1 in Hmap1, Hmap2.
  assert (∀ r, threads r = threads sd → ready_list r = ready_list sd →
               running r = running sd →
               destruction_req r = destruction_req sd → mem r = mem sd →
               sleep_list r = sleep_list sd →
               thread_ticks r = thread_ticks sd →
               free_pages r = free_pages sd →
    (yield_queue s cur = [] ∧ next = cur ∨
     ∃ rest, yield_queue s cur = Elem next :: rest) ∧
    ready_list r = tail (yield_queue s cur) ∧
    running r = next ∧
    destruction_req r = [] ∧
    mem r = mem s ∧
    sleep_list r = sleep_list s ∧
    thread_ticks r = 0 ∧
    (∀ x, x ∈ elem_owner <$> destruction_req s →
       threads r !! x = None ∧ x ∈ free_pages r) ∧
    (∀ x th, x ∉ elem_owner <$> destruction_req s →
       threads s !! x = Some th →
       ∃ th', threads r !! x = Some th' ∧ same_but_status th th' ∧
         status th' =
           if bool_decide (x = next) then THREAD_RUNNING
           else if bool_decide (x = cur) then THREAD_READY else status th))
    as Hfacts.
  { intros r -> -> -> -> -> -> -> ->.
    split; [destruct Hnext as [?|?]; eauto|].
    repeat split; try congruence.
    - by apply Hmap1.
    - rewrite Hd6. by apply Hs0free.
    - done. }
  destruct (bool_decide (running sd = cur)).
  - eexists _, next. split; [reflexivity|]. by apply Hfacts.
  - eexists _, next. split; [reflexivity|]. by apply Hfacts.
Qed.

(** ** The ready queue stays sorted *)

Lemma elem_priority_ext_thread s s' t th th' :
  threads s !! t = Some th → threads s' !! t = Some th' →
  priority th' = priority th →
  elem_priority s' (Elem t) = elem_priority s (Elem t).
Proof.
  intros H H' Hp. by rewrite (elem_priority_Elem s t th),
    (elem_priority_Elem s' t th').
Qed.

Lemma descending_transfer s s' l :
  (∀ e, e ∈ l → elem_priority s' e = elem_priority s e) →
  descending s l → descending s' l.
Proof.
  intros H. apply Sorted_ext_in. intros a b Ha Hb.
  by rewrite (H a Ha), (H b Hb).
Qed.

Lemma thread_unblock_sorted s t th :
  is_thread s t = true → threads s !! t = Some th →
  status th = THREAD_BLOCKED → Elem t ∉ sleep_list s →
  guard_silent s (Elem t :: ready_list s) = true →
  descending s (ready_list s) →
  ∃ s' l1 l2,
    thread_unblock t s = Some s' ∧
    ready_list s = l1 ++ l2 ∧
    ready_list s' = l1 ++ Elem t :: l2 ∧
    Forall (λ x, elem_priority s (Elem t) ≤ elem_priority s x) l1 ∧
    Forall (λ x, elem_priority s x < elem_priority s (Elem t)) l2 ∧
    descending s' (ready_list s').
Proof.
  intros Ht Hth Hst Hns Hg Hs.
  apply is_thread_lookup in Ht as (th' & Hth' & Hnz & Hmagic).
  assert (th' = th) as -> by congruence.
  destruct (insert_by_key_sorted (elem_priority s) (thread_compare_priority s)
              (Elem t) (ready_list s) (thread_compare_priority_key s _ _ Hg) Hs)
    as (l1 & l2 & Hl & Hins & H1 & H2 & Hsorted).
  eexists _, l1, l2. split; [by apply thread_unblock_Some|].
  simpl. rewrite Hins. repeat split; try done.
  eapply descending_transfer; [|exact Hsorted].
  intros e _. unfold elem_priority.
  apply (load_priority_store (set_ready_list (l1 ++ Elem t :: l2) s) t th);
    done.
Qed.

Lemma thread_yield_sorted s cur :
  thread_current s = Some cur →
  intr_context s = false →
  victims_apart cur (ready_list s) (destruction_req s) = true →
  elems_of_threads s (ready_list s) = true →
  guard_silent s (Elem cur :: ready_list s) = true →
  descending s (ready_list s) →
  ∃ s',
    thread_yield s = Some s' ∧
    descending s' (ready_list s') ∧
    ready_list s' = tail (yield_queue s cur) ∧
    (Some cur ≠ idle_thread s →
     ∃ l1 l2,
       ready_list s = l1 ++ l2 ∧
       yield_queue s cur = l1 ++ Elem cur :: l2 ∧
       Forall (λ x, elem_priority s (Elem cur) ≤ elem_priority s x) l1 ∧
       Forall (λ x, elem_priority s x < elem_priority s (Elem cur)) l2).
Proof.
  intros Hcur Hctx Hv Hrl Hg Hs.
  apply thread_current_Some in Hcur as Hcur'.
  destruct Hcur' as (Hrun & Hcurt & cth & Hcth & Hst).
  destruct (thread_yield_facts s cur cth Hcur Hcth Hctx Hv Hrl)
    as (s' & next & Hy & Hnext & Hrl' & Hrun' & Hd' & Hmem & _ & _ & _ & Hmap).
  assert (descending s (yield_queue s cur) ∧
          (Some cur ≠ idle_thread s →
           ∃ l1 l2,
             ready_list s = l1 ++ l2 ∧
             yield_queue s cur = l1 ++ Elem cur :: l2 ∧
             Forall (λ x, elem_priority s (Elem cur) ≤ elem_priority s x) l1 ∧
             Forall (λ x, elem_priority s x < elem_priority s (Elem cur)) l2))
    as [Hsq Hfifo].
  { unfold yield_queue. case_bool_decide as Hidle; [|done].
    destruct (insert_by_key_sorted (elem_priority s)
                (thread_compare_priority s) (Elem cur) (ready_list s)
                (thread_compare_priority_key s _ _ Hg) Hs)
      as (l1 & l2 & Hl & Hins & H1 & H2 & Hsorted).
    rewrite Hins. split; [done|]. intros _. exists l1, l2. done. }
  exists s'. split; [done|]. split; [|done].
  rewrite Hrl'. eapply descending_transfer; [|by apply Sorted_tail].
  intros e He.
  assert (e ∈ yield_queue s cur) as Heq.
  { destruct (yield_queue s cur); simpl in He; [done|by right]. }
  assert (∃ n th, e = Elem n ∧ threads s !! n = Some th ∧
                  n ∉ elem_owner <$> destruction_req s) as (n & th & -> & Hn & Hnv).
  { apply yield_queue_elem in Heq as [->|Heq].
    - exists cur, cth. repeat split; [done|].
      eapply victims_apart_not_in; [exact Hv|by left].
    - destruct (elems_of_threads_elem s _ _ Hrl Heq) as (n & -> & Hn).
      apply is_thread_lookup in Hn as (th & Hth & _).
      exists n, th. repeat split; [done|].
      eapply victims_apart_not_in; [exact Hv|by right]. }
  destruct (Hmap n th Hnv Hn) as (th' & Hth' & Hsame & _).
  eapply elem_priority_ext_thread; [done..|].
  symmetry. apply Hsame.
Qed.

(** The two insertions keep an order that is there.  While no TCB makes
    the empty-list test of the ordering predicate fire, [thread_unblock] and
    [thread_yield] return, and a ready queue that was in non-increasing
    priority order (adjacent entries [r_i], [r_i+1] have
    [r_i.priority >= r_i+1.priority]) is so again afterwards.  The inserted
    thread stands behind every queued thread of the same or a higher
    priority and in front of those of lower priority, and the threads that
    were queued keep their order: ties are FIFO.  ([thread_yield] then takes
    the front of the queue for the CPU.) *)
Lemma ready_queue_sorted_fifo op s :
  insertion_ready op s = true →
  descending s (ready_list s) →
  ∃ s',
    run_insertion op s = Some s' ∧
    descending s' (ready_list s') ∧
    match inserted_link op s with
    | Some e =>
        ∃ l1 l2,
          ready_list s = l1 ++ l2 ∧
          ready_list s' = after_selection op (l1 ++ e :: l2) ∧
          Forall (λ x, elem_priority s e ≤ elem_priority s x) l1 ∧
          Forall (λ x, elem_priority s x < elem_priority s e) l2
    | None => ready_list s' = after_selection op (ready_list s)
    end.
Proof.
  destruct op as [t|]; simpl; intros Hready Hs.
  - apply andb_prop in Hready as [[[Ht Hth]%andb_prop Hg]%andb_prop Hns].
    destruct (threads s !! t) as [th|] eqn:Hlook; [|discriminate].
    apply bool_decide_eq_true in Hth, Hns.
    destruct (thread_unblock_sorted s t th Ht Hlook Hth Hns Hg Hs)
      as (s' & l1 & l2 & Hun & Hl & Hl' & H1 & H2 & Hs').
    exists s'. repeat split; try done. exists l1, l2. done.
  - destruct (thread_current s) as [cur|] eqn:Hcur; [|discriminate].
    apply andb_prop in Hready as [[[Hctx Hv]%andb_prop Hrl]%andb_prop Hg].
    apply negb_true_iff in Hctx.
    destruct (thread_yield_sorted s cur Hcur Hctx Hv Hrl Hg Hs)
      as (s' & Hy & Hs' & Hrl' & Hfifo).
    apply thread_current_Some in Hcur as (-> & _).
    exists s'. repeat split; try done.
    case_bool_decide as Hidle.
    + destruct (Hfifo Hidle) as (l1 & l2 & Hl & Hq & H1 & H2).
      exists l1, l2. rewrite Hrl', Hq. done.
    + rewrite Hrl'. unfold yield_queue.
      rewrite bool_decide_eq_false_2; [done|]. intros Hne. by apply Hne.
Qed.

(** ** [thread_awake] *)

Lemma list_remove_middle e pre rest :
  e ∉ pre → list_remove e (pre ++ e :: rest) = pre ++ rest.
Proof.
  induction pre as [|x pre IH]; simpl; intros Hn.
  - by rewrite decide_True.
  - apply not_elem_of_cons in Hn as [Hne Hn].
    rewrite decide_False by done. by rewrite IH.
Qed.

Lemma sleepers_blocked_cons s e rest :
  sleepers_blocked s (e :: rest) = true →
  (∃ t th, e = Elem t ∧ is_thread s t = true ∧ threads s !! t = Some th ∧
           status th = THREAD_BLOCKED) ∧
  sleepers_blocked s rest = true.
Proof.
  simpl. intros [He Hrest]%andb_prop. split; [|done].
  destruct e as [t|t]; [|discriminate].
  apply andb_prop in He as [Ht Hst].
  destruct (threads s !! t) as [th|] eqn:Hth; [|discriminate].
  apply bool_decide_eq_true in Hst. eauto 10.
Qed.

Lemma sleepers_blocked_ext s1 s2 l :
  (∀ t, Elem t ∈ l → threads s1 !! t = threads s2 !! t) →
  sleepers_blocked s1 l = sleepers_blocked s2 l.
Proof.
  induction l as [|e l IH]; intros H; simpl; [done|].
  rewrite IH by (intros t Ht; apply H; by right). f_equal.
  destruct e as [t|t]; [|done].
  unfold is_thread. rewrite (H t) by left. done.
Qed.

Lemma stays_asleep_ext s1 s2 ticks e :
  threads s1 !! elem_owner e = threads s2 !! elem_owner e →
  stays_asleep s1 ticks e = stays_asleep s2 ticks e.
Proof.
  unfold stays_asleep, elem_wakeup, load_thread.
  destruct e as [t|t]; simpl; [|done]. by intros ->.
Qed.

Lemma filter_ext_elem {A} (f g : A → bool) l :
  (∀ x, x ∈ l → f x = g x) → List.filter f l = List.filter g l.
Proof.
  induction l as [|x l IH]; intros H; simpl; [done|].
  rewrite (H x) by left. rewrite IH by (intros y Hy; apply H; by right). done.
Qed.

Lemma thread_awake_loop_spec ticks rest :
  ∀ s pre,
    sleep_list s = pre ++ rest →
    NoDup (pre ++ rest) →
    sleepers_blocked s rest = true →
    ∃ s',
      thread_awake_loop ticks rest s = Some (s', length rest) ∧
      sleep_list s' = pre ++ List.filter (stays_asleep s ticks) rest ∧
      (∀ t th, Elem t ∈ rest → threads s !! t = Some th →
         wakeup th ≤ ticks →
         threads s' !! t = Some (with_status THREAD_READY th) ∧
         Elem t ∈ ready_list s') ∧
      (∀ t th, Elem t ∈ rest → threads s !! t = Some th →
         ticks < wakeup th → threads s' !! t = Some th) ∧
      (∀ t, Elem t ∉ rest → threads s' !! t = threads s !! t) ∧
      (∀ e, e ∈ ready_list s → e ∈ ready_list s').
Proof.
  induction rest as [|e rest IH]; intros s pre Hsl Hnd Hsb.
  - exists s. simpl. rewrite app_nil_r in Hsl.
    split; [done|]. split; [by rewrite app_nil_r|].
    split; [intros t th Ht; by apply elem_of_nil in Ht|].
    split; [intros t th Ht; by apply elem_of_nil in Ht|]. done.
  - apply sleepers_blocked_cons in Hsb
      as [(t & th & -> & Ht & Hth & Hst) Hsb].
    apply NoDup_app in Hnd as Hnd'. destruct Hnd' as (Hnd1 & Hnd2 & Hnd3).
    apply NoDup_cons in Hnd3 as [Hnotin Hnd3].
    assert (Elem t ∉ pre) as Hpre
      by (intros Hin; apply (Hnd2 _ Hin); left).
    cbn [thread_awake_loop list_entry load_thread]. rewrite Hth.
    cbn [mbind option_bind].
    destruct (wakeup th <=? ticks) eqn:Hw.
    + (* the thread is due *)
      apply Z.leb_le in Hw.
      set (s1 := set_sleep_list (list_remove (Elem t) (sleep_list s)) s).
      apply is_thread_lookup in Ht as (th' & Hth' & Hnz & Hmagic).
      assert (th' = th) as -> by congruence.
      assert (Elem t ∉ sleep_list s1) as Hoff.
      { unfold s1. cbn [sleep_list set_sleep_list].
        rewrite Hsl, (list_remove_middle _ _ _ Hpre).
        intros [Hin|Hin]%elem_of_app; [by apply Hpre|by apply Hnotin]. }
      rewrite (thread_unblock_Some t s1 th Hth Hnz Hmagic Hst Hoff).
      clear Hoff. cbn [mbind option_bind].
      set (s2 := set_intr_level _ _).
      assert (threads s2 = <[t := with_status THREAD_READY th]> (threads s))
        as Hs2t by reflexivity.
      assert (sleep_list s2 = pre ++ rest) as Hs2sl.
      { unfold s2, s1. simpl. rewrite Hsl. by apply list_remove_middle. }
      assert (Elem t ∈ ready_list s2) as Hs2rl.
      { unfold s2. simpl. apply elem_of_list_insert_ordered. by left. }
      assert (∀ e, e ∈ ready_list s → e ∈ ready_list s2) as Hs2mono.
      { intros e He. unfold s2. simpl.
        apply elem_of_list_insert_ordered. by right. }
      clearbody s2. clear s1.
      assert (∀ x, Elem x ∈ rest → threads s2 !! x = threads s !! x) as Hsame.
      { intros x Hx. rewrite Hs2t. apply lookup_insert_ne. congruence. }
      destruct (IH s2 pre Hs2sl) as (s' & Hloop & Hsl' & Hwake & Hkeep & Hfr & Hmono).
      * apply NoDup_app. repeat split; try done.
        intros x Hx Hxr. apply (Hnd2 x Hx). by right.
      * rewrite (sleepers_blocked_ext s2 s); [done|exact Hsame].
      * exists s'. rewrite Hloop. cbn [mbind option_bind length].
        split; [done|].
        cbn [List.filter]. unfold stays_asleep at 1, elem_wakeup.
        cbn [list_entry load_thread]. rewrite Hth. cbn [mbind option_bind].
        rewrite (proj2 (Z.leb_le _ _) Hw). cbn [negb].
        split.
        { rewrite Hsl'. f_equal. apply filter_ext_elem.
          intros x Hx. apply stays_asleep_ext.
          destruct x as [x|x]; simpl.
          - by apply Hsame.
          - rewrite Hs2t. destruct (decide (t = x)) as [->|Hne].
            + exfalso.
              assert (sleepers_blocked s rest = true) as Hsb' by done.
              unfold sleepers_blocked in Hsb'.
              rewrite forallb_forall in Hsb'.
              apply list_elem_of_In in Hx. by specialize (Hsb' _ Hx).
            + by rewrite lookup_insert_ne. }
        split.
        { intros x xh [Hx|Hx]%elem_of_cons Hxh Hxw.
          - injection Hx as ->. assert (xh = th) as -> by congruence.
            rewrite (Hfr t Hnotin), Hs2t, lookup_insert_eq. auto.
          - rewrite <- (Hsame x Hx) in Hxh. by apply Hwake. }
        split.
        { intros x xh [Hx|Hx]%elem_of_cons Hxh Hxw.
          - injection Hx as ->. assert (xh = th) as -> by congruence. lia.
          - rewrite <- (Hsame x Hx) in Hxh. by apply Hkeep. }
        split.
        { intros x Hx. apply not_elem_of_cons in Hx as [Hne Hx].
          rewrite (Hfr x Hx), Hs2t. apply lookup_insert_ne. congruence. }
        auto.
    + (* the thread sleeps on *)
      apply Z.leb_gt in Hw.
      destruct (IH s (pre ++ [Elem t]))
        as (s' & Hloop & Hsl' & Hwake & Hkeep & Hfr & Hmono).
      * by rewrite <- app_assoc.
      * by rewrite <- app_assoc.
      * done.
      * exists s'. rewrite Hloop. cbn [mbind option_bind length].
        split; [done|].
        cbn [List.filter]. unfold stays_asleep at 1, elem_wakeup.
        cbn [list_entry load_thread]. rewrite Hth. cbn [mbind option_bind].
        rewrite (proj2 (Z.leb_gt _ _) Hw). cbn [negb].
        split; [by rewrite Hsl', <- app_assoc|].
        split.
        { intros x xh [Hx|Hx]%elem_of_cons Hxh Hxw.
          - injection Hx as ->. assert (xh = th) as -> by congruence. lia.
          - by apply Hwake. }
        split.
        { intros x xh [Hx|Hx]%elem_of_cons Hxh Hxw.
          - injection Hx as ->. by rewrite (Hfr t Hnotin).
          - by apply Hkeep. }
        split; [|done].
        intros x Hx. apply not_elem_of_cons in Hx as [Hne Hx]. by apply Hfr.
Qed.

Lemma elem_of_filter_bool {A} (f : A → bool) l x :
  x ∈ List.filter f l ↔ x ∈ l ∧ f x = true.
Proof. rewrite !list_elem_of_In. apply filter_In. Qed.

(** C6: on a sleep queue of blocked threads, [thread_awake (ticks)]
    returns after one pass over the queue (the loop body runs once per
    queued thread); every queued thread with [wakeup <= ticks] has left the
    sleep queue, is [THREAD_READY] and is in the ready queue; every queued
    thread with [wakeup > ticks] is still in the sleep queue, in the same
    order, with its TCB unchanged. *)
Theorem thread_awake_due_ready s ticks :
  NoDup (sleep_list s) →
  sleepers_blocked s (sleep_list s) = true →
  ∃ s',
    thread_awake ticks s = Some s' ∧
    thread_awake_loop ticks (sleep_list s) s
      = Some (s', length (sleep_list s)) ∧
    sleep_list s' = List.filter (stays_asleep s ticks) (sleep_list s) ∧
    (∀ t th, Elem t ∈ sleep_list s → threads s !! t = Some th →
       wakeup th ≤ ticks →
       (Elem t ∉ sleep_list s') ∧
       threads s' !! t = Some (with_status THREAD_READY th) ∧
       Elem t ∈ ready_list s') ∧
    (∀ t th, Elem t ∈ sleep_list s → threads s !! t = Some th →
       ticks < wakeup th →
       Elem t ∈ sleep_list s' ∧ threads s' !! t = Some th) ∧
    (∀ t, Elem t ∉ sleep_list s → threads s' !! t = threads s !! t).
Proof.
  intros Hnd Hsb.
  destruct (thread_awake_loop_spec ticks (sleep_list s) s [] eq_refl Hnd Hsb)
    as (s' & Hloop & Hsl & Hwake & Hkeep & Hfr & _).
  simpl in Hsl.
  assert (∀ t th, threads s !! t = Some th →
            stays_asleep s ticks (Elem t) = negb (wakeup th <=? ticks)) as Hstay.
  { intros t th Hth. unfold stays_asleep, elem_wakeup. simpl.
    by rewrite Hth. }
  exists s'. unfold thread_awake. rewrite Hloop.
  split; [done|]. split; [done|]. split; [done|].
  split; [|split; [|done]].
  - intros t th Ht Hth Hw. destruct (Hwake t th Ht Hth Hw) as [H1 H2].
    split; [|done]. rewrite Hsl, elem_of_filter_bool, (Hstay t th Hth).
    intros [_ Hn]. apply negb_true_iff, Z.leb_gt in Hn. lia.
  - intros t th Ht Hth Hw. split; [|by eapply Hkeep].
    rewrite Hsl, elem_of_filter_bool, (Hstay t th Hth). split; [done|].
    apply negb_true_iff, Z.leb_gt. lia.
Qed.

(** ** [donate_priority] *)

Lemma set_threads_id s : set_threads (threads s) s = s.
Proof. by destruct s. Qed.

Lemma holder_chain_ext s1 s2 n :
  locks s1 = locks s2 →
  (∀ x, wait_on_lock <$> threads s1 !! x = wait_on_lock <$> threads s2 !! x) →
  ∀ t, holder_chain s1 n t = holder_chain s2 n t.
Proof.
  intros Hl Hw. induction n as [|n IH]; intros t; simpl; [done|].
  pose proof (Hw t) as Ht.
  destruct (threads s1 !! t) as [th1|], (threads s2 !! t) as [th2|];
    simpl in *; try done.
  injection Ht as ->. destruct (wait_on_lock th2) as [l|]; [|done].
  rewrite Hl. destruct (locks s2 !! l) as [lk|]; simpl; [|done].
  destruct (holder lk) as [h|]; simpl; [|done].
  pose proof (Hw h) as Hh.
  destruct (threads s1 !! h), (threads s2 !! h); simpl in *; try done.
  by rewrite IH.
Qed.

Lemma alter_with_priority (m : gmap Z thread) h hth prio :
  m !! h = Some hth →
  alter (with_priority prio) h m = <[h := with_priority prio hth]> m.
Proof.
  intros Hh. apply map_eq. intros x. rewrite lookup_alter.
  destruct (decide (h = x)) as [->|Hne].
  - by rewrite lookup_insert_eq, Hh.
  - by rewrite lookup_insert_ne.
Qed.

(** The loop of [donate_priority] assigns [prio] along the chain of
    holders. *)
Lemma donate_priority_loop_chain n prio :
  ∀ t s,
    donate_priority_loop n prio t s =
      (chain ← holder_chain s n t;
       Some (set_threads (donated prio chain (threads s)) s)).
Proof.
  induction n as [|n IH]; intros t s; simpl.
  - by rewrite set_threads_id.
  - destruct (threads s !! t) as [th|]; simpl; [|done].
    destruct (wait_on_lock th) as [l|]; [|simpl; by rewrite set_threads_id].
    destruct (locks s !! l) as [lk|]; simpl; [|done].
    destruct (holder lk) as [h|]; simpl; [|done].
    destruct (threads s !! h) as [hth|] eqn:Hh; simpl; [|done].
    rewrite IH.
    rewrite (holder_chain_ext (store_thread h (with_priority prio hth) s) s).
    + destruct (holder_chain s n h) as [rest|]; simpl; [|done].
      f_equal. unfold donated. simpl.
      rewrite (alter_with_priority _ h hth) by done.
      by apply state_ext.
    + done.
    + intros x. simpl. destruct (decide (h = x)) as [->|Hne].
      * by rewrite lookup_insert_eq, Hh.
      * by rewrite lookup_insert_ne.
Qed.

Lemma donate_priority_chain s t th :
  thread_current s = Some t → threads s !! t = Some th →
  donate_priority s =
    (chain ← holder_chain s 8 t;
     Some (set_threads (donated (priority th) chain (threads s)) s)).
Proof.
  intros Hcur Hth. unfold donate_priority. rewrite Hcur.
  cbn [mbind option_bind]. rewrite Hth. cbn [mbind option_bind].
  apply donate_priority_loop_chain.
Qed.

Lemma donated_lookup prio chain (m : gmap Z thread) x :
  donated prio chain m !! x =
    if bool_decide (x ∈ chain) then with_priority prio <$> m !! x
    else m !! x.
Proof.
  revert m. induction chain as [|h chain IH]; intros m.
  - rewrite bool_decide_eq_false_2; [done|]. apply not_elem_of_nil.
  - unfold donated. cbn [foldl]. fold (donated prio chain (alter (with_priority prio) h m)).
    rewrite IH, lookup_alter.
    destruct (decide (h = x)) as [->|Hne].
    + rewrite (bool_decide_eq_true_2 (x ∈ x :: chain)) by left.
      case_bool_decide; [|done].
      by destruct (m !! x).
    + case_bool_decide as H1; case_bool_decide as H2; try done.
      * exfalso. apply H2. by right.
      * exfalso. apply elem_of_cons in H2 as [?|?]; congruence.
Qed.

Lemma holder_chain_length s n t chain :
  holder_chain s n t = Some chain → (length chain ≤ n)%nat.
Proof.
  revert t chain. induction n as [|n IH]; intros t chain; simpl.
  - intros [= <-]. simpl. lia.
  - destruct (threads s !! t) as [th|]; simpl; [|done].
    destruct (wait_on_lock th) as [l|]; [|intros [= <-]; simpl; lia].
    destruct (locks s !! l) as [lk|]; simpl; [|done].
    destruct (holder lk) as [h|]; simpl; [|done].
    destruct (threads s !! h); simpl; [|done].
    destruct (holder_chain s n h) as [rest|] eqn:Hrest; simpl; [|done].
    intros [= <-]. simpl. specialize (IH _ _ Hrest). lia.
Qed.

(** Each thread of the chain holds the lock that its predecessor waits
    for. *)
Lemma holder_chain_links s n t chain :
  holder_chain s n t = Some chain →
  ∀ i h, chain !! i = Some h →
    ∃ prev pth l lk,
      (t :: chain) !! i = Some prev ∧ threads s !! prev = Some pth ∧
      wait_on_lock pth = Some l ∧ locks s !! l = Some lk ∧
      holder lk = Some h.
Proof.
  revert t chain. induction n as [|n IH]; intros t chain; simpl.
  - intros [= <-] i h Hi. by rewrite lookup_nil in Hi.
  - destruct (threads s !! t) as [th|] eqn:Hth; simpl; [|done].
    destruct (wait_on_lock th) as [l|] eqn:Hw;
      [|intros [= <-] i h Hi; by rewrite lookup_nil in Hi].
    destruct (locks s !! l) as [lk|] eqn:Hl; simpl; [|done].
    destruct (holder lk) as [h0|] eqn:Hh; simpl; [|done].
    destruct (threads s !! h0); simpl; [|done].
    destruct (holder_chain s n h0) as [rest|] eqn:Hrest; simpl; [|done].
    intros [= <-] i h Hi. destruct i as [|i]; simpl in Hi.
    + injection Hi as <-. exists t, th, l, lk. done.
    + destruct (IH _ _ Hrest i h Hi) as (prev & pth & l' & lk' & H1 & H2).
      exists prev, pth, l', lk'. done.
Qed.

(** The walk ends at a thread that waits for no lock, unless it has used up
    its [n] steps. *)
Lemma holder_chain_end s n t chain :
  holder_chain s n t = Some chain →
  length chain = n ∨
  ∃ lst lth, last (t :: chain) = Some lst ∧ threads s !! lst = Some lth ∧
             wait_on_lock lth = None.
Proof.
  revert t chain. induction n as [|n IH]; intros t chain; simpl.
  - intros [= <-]. by left.
  - destruct (threads s !! t) as [th|] eqn:Hth; simpl; [|done].
    destruct (wait_on_lock th) as [l|] eqn:Hw;
      [|intros [= <-]; right; exists t, th; done].
    destruct (locks s !! l) as [lk|] eqn:Hl; simpl; [|done].
    destruct (holder lk) as [h0|] eqn:Hh; simpl; [|done].
    destruct (threads s !! h0); simpl; [|done].
    destruct (holder_chain s n h0) as [rest|] eqn:Hrest; simpl; [|done].
    intros [= <-]. destruct (IH _ _ Hrest) as [Hlen|(lst & lth & H1 & H2)].
    + left. simpl. by rewrite Hlen.
    + right. exists lst, lth. split; [|done].
      by rewrite last_cons_cons.
Qed.

(** C2: when the lock that each thread on the way waits for has a holder,
    [donate_priority] returns.  The threads that it has visited are the
    successive holders [t.wait_on_lock.holder] starting from the current
    thread, at most 8 of them, and the walk has ended at the first thread
    that waits for no lock unless it has made its 8 steps.  Every visited
    holder has as its priority the priority that the donor had on entry,
    whatever its own priority was; nothing else has changed. *)
Theorem donate_priority_walk s t th chain :
  thread_current s = Some t → threads s !! t = Some th →
  holder_chain s 8 t = Some chain →
  ∃ s',
    donate_priority s = Some s' ∧
    (length chain ≤ 8)%nat ∧
    (∀ i h, chain !! i = Some h →
       ∃ prev pth l lk,
         (t :: chain) !! i = Some prev ∧ threads s !! prev = Some pth ∧
         wait_on_lock pth = Some l ∧ locks s !! l = Some lk ∧
         holder lk = Some h) ∧
    (length chain = 8%nat ∨
     ∃ lst lth, last (t :: chain) = Some lst ∧ threads s !! lst = Some lth ∧
                wait_on_lock lth = None) ∧
    (∀ x xh, threads s !! x = Some xh →
       threads s' !! x =
         Some (if bool_decide (x ∈ chain)
               then with_priority (priority th) xh else xh)) ∧
    s' = set_threads (threads s') s.
Proof.
  intros Hcur Hth Hchain.
  eexists. split.
  { rewrite (donate_priority_chain s t th Hcur Hth), Hchain. reflexivity. }
  split; [by eapply holder_chain_length|].
  split; [by eapply holder_chain_links|].
  split; [by eapply holder_chain_end|].
  split; [|by apply state_ext].
  intros x xh Hx. cbn [threads set_threads].
  rewrite donated_lookup, Hx. by case_bool_decide.
Qed.

Lemma with_priority_same th : with_priority (priority th) th = th.
Proof. by destruct th. Qed.

(** C10: a call of [donate_priority] that returns has written nothing but
    the [priority] fields of the holders that it visited: the TCB of every
    other thread is as it was, the visited TCBs differ at most in
    [priority] (so [init_priority], [wait_on_lock] and [donations] of
    every thread are as before), the donor's own TCB is unchanged even if
    the walk came back to it, and the locks, the ready, sleep and
    destruction queues and all other scheduler data are untouched. *)
Theorem donate_priority_frame s s' :
  donate_priority s = Some s' →
  ∃ t th chain,
    thread_current s = Some t ∧ threads s !! t = Some th ∧
    holder_chain s 8 t = Some chain ∧
    (∀ x, x ∉ chain → threads s' !! x = threads s !! x) ∧
    (∀ x xh, threads s !! x = Some xh →
       ∃ xh', threads s' !! x = Some xh' ∧ same_but_priority xh xh') ∧
    (∀ x, threads s !! x = None → threads s' !! x = None) ∧
    threads s' !! t = Some th ∧
    locks s' = locks s ∧
    ready_list s' = ready_list s ∧
    sleep_list s' = sleep_list s ∧
    destruction_req s' = destruction_req s ∧
    s' = set_threads (threads s') s.
Proof.
  intros Hd. unfold donate_priority in Hd.
  destruct (thread_current s) as [t|] eqn:Hcur; [|discriminate Hd].
  cbn [mbind option_bind] in Hd.
  destruct (threads s !! t) as [th|] eqn:Hth; [|discriminate Hd].
  cbn [mbind option_bind] in Hd.
  rewrite donate_priority_loop_chain in Hd.
  destruct (holder_chain s 8 t) as [chain|] eqn:Hchain; [|discriminate Hd].
  cbn [mbind option_bind] in Hd. injection Hd as <-.
  exists t, th, chain. cbn [threads locks ready_list sleep_list
                            destruction_req set_threads].
  split; [done|]. split; [done|]. split; [done|].
  split.
  { intros x Hx. by rewrite donated_lookup, bool_decide_eq_false_2. }
  split.
  { intros x xh Hx. rewrite donated_lookup, Hx.
    case_bool_decide; eexists; (split; [reflexivity|]); by repeat split. }
  split.
  { intros x Hx. rewrite donated_lookup, Hx. by case_bool_decide. }
  split.
  { rewrite donated_lookup, Hth. case_bool_decide; [|done].
    simpl. by rewrite with_priority_same. }
  split; [reflexivity|]. split; [reflexivity|]. split; [reflexivity|].
  split; [reflexivity|]. by apply state_ext.
Qed.

(** ** [thread_tick] *)

Lemma wrap_long_long_small z :
  - 2 ^ 63 ≤ z < 2 ^ 63 → wrap_long_long z = z.
Proof. intros H. unfold wrap_long_long. rewrite Z.mod_small; lia. Qed.

Lemma wrap_unsigned_small z : 0 ≤ z < 2 ^ 32 → wrap_unsigned z = z.
Proof. intros H. unfold wrap_unsigned. by rewrite Z.mod_small. Qed.

(** C9: a call of [thread_tick] (the counters being below the top of their
    types) adds one to exactly one of [idle_ticks], [user_ticks] and
    [kernel_ticks], to [idle_ticks] if and only if the current thread is the
    idle thread, adds one to [thread_ticks], and asks for a yield on return
    from the interrupt if and only if the new [thread_ticks] is at least
    [TIME_SLICE], which is 4.  Nothing else changes. *)
Theorem thread_tick_accounting s t th :
  thread_current s = Some t → threads s !! t = Some th →
  - 2 ^ 63 ≤ idle_ticks s < 2 ^ 63 - 1 →
  - 2 ^ 63 ≤ user_ticks s < 2 ^ 63 - 1 →
  - 2 ^ 63 ≤ kernel_ticks s < 2 ^ 63 - 1 →
  0 ≤ thread_ticks s < 2 ^ 32 - 1 →
  ∃ s',
    thread_tick s = Some s' ∧
    thread_ticks s' = thread_ticks s + 1 ∧
    (Some t = idle_thread s ∧
       idle_ticks s' = idle_ticks s + 1 ∧
       user_ticks s' = user_ticks s ∧ kernel_ticks s' = kernel_ticks s
     ∨ Some t ≠ idle_thread s ∧ pml4 th ≠ None ∧
       idle_ticks s' = idle_ticks s ∧
       user_ticks s' = user_ticks s + 1 ∧ kernel_ticks s' = kernel_ticks s
     ∨ Some t ≠ idle_thread s ∧ pml4 th = None ∧
       idle_ticks s' = idle_ticks s ∧
       user_ticks s' = user_ticks s ∧
       kernel_ticks s' = kernel_ticks s + 1) ∧
    TIME_SLICE = 4 ∧
    (TIME_SLICE ≤ thread_ticks s' → yield_on_return s' = true) ∧
    (thread_ticks s' < TIME_SLICE → yield_on_return s' = yield_on_return s) ∧
    threads s' = threads s ∧ ready_list s' = ready_list s ∧
    sleep_list s' = sleep_list s ∧ running s' = running s ∧
    intr_level s' = intr_level s.
Proof.
  intros Hcur Hth Hi Hu Hk Ht.
  unfold thread_tick. rewrite Hcur. cbn [mbind option_bind].
  rewrite Hth. cbn [mbind option_bind].
  set (s1 := if bool_decide (Some t = idle_thread s) then _ else _).
  assert (thread_ticks s1 = thread_ticks s ∧
          yield_on_return s1 = yield_on_return s ∧
          threads s1 = threads s ∧ ready_list s1 = ready_list s ∧
          sleep_list s1 = sleep_list s ∧ running s1 = running s ∧
          intr_level s1 = intr_level s ∧
          (Some t = idle_thread s ∧
             idle_ticks s1 = idle_ticks s + 1 ∧
             user_ticks s1 = user_ticks s ∧ kernel_ticks s1 = kernel_ticks s
           ∨ Some t ≠ idle_thread s ∧ pml4 th ≠ None ∧
             idle_ticks s1 = idle_ticks s ∧
             user_ticks s1 = user_ticks s + 1 ∧
             kernel_ticks s1 = kernel_ticks s
           ∨ Some t ≠ idle_thread s ∧ pml4 th = None ∧
             idle_ticks s1 = idle_ticks s ∧
             user_ticks s1 = user_ticks s ∧
             kernel_ticks s1 = kernel_ticks s + 1))
    as (H1 & H2 & H3 & H4 & H5 & H6 & H7 & Hcount).
  { unfold s1. case_bool_decide as Hidle; [|case_bool_decide as Hpml4].
    - repeat split. left. repeat split; try done.
      cbn [idle_ticks set_idle_ticks]. apply wrap_long_long_small. lia.
    - repeat split. right. left. repeat split; try done.
      cbn [user_ticks set_user_ticks]. apply wrap_long_long_small. lia.
    - repeat split. right. right. repeat split; try done.
      cbn [kernel_ticks set_kernel_ticks]. apply wrap_long_long_small. lia.
  }
  clearbody s1.
  cbn [thread_ticks set_thread_ticks].
  rewrite H1, (wrap_unsigned_small (thread_ticks s + 1)) by lia.
  destruct (TIME_SLICE <=? thread_ticks s + 1) eqn:Hslice.
  - apply Z.leb_le in Hslice. eexists. split; [reflexivity|].
    cbn. split; [done|]. split; [exact Hcount|]. split; [done|].
    split; [done|]. split; [lia|]. by rewrite H3, H4, H5, H6, H7.
  - apply Z.leb_gt in Hslice. eexists. split; [reflexivity|].
    cbn. split; [done|]. split; [exact Hcount|]. split; [done|].
    split; [lia|]. split; [done|]. by rewrite H3, H4, H5, H6, H7.
Qed.

(** ** The destruction list and the entries into the scheduler *)

Lemma set_ready_list_id s : set_ready_list (ready_list s) s = s.
Proof. by destruct s. Qed.

Lemma next_thread_to_run_inv s o s1 :
  next_thread_to_run s = (o, s1) → ∃ rl, s1 = set_ready_list rl s.
Proof.
  unfold next_thread_to_run.
  destruct (list_pop_front (ready_list s)) as [[e rest]|].
  - destruct (list_entry e elem); intros [= <- <-]; by exists rest.
  - intros [= <- <-]. exists (ready_list s). by rewrite set_ready_list_id.
Qed.

Lemma schedule_inv s s' :
  schedule s = Some s' →
  ∃ cth next nth rl,
    threads s !! running s = Some cth ∧ threads s !! next = Some nth ∧
    s' = dispatched (running s) cth next nth (set_ready_list rl s).
Proof.
  unfold schedule.
  destruct (next_thread_to_run s) as [o s1] eqn:E.
  apply next_thread_to_run_inv in E as [rl ->].
  first_step.
  change (threads (set_ready_list rl s)) with (threads s).
  destruct (threads s !! running s) as [cth|]; [|discriminate].
  cbn [mbind option_bind]. first_step.
  destruct o as [next|]; [|discriminate]. cbn [mbind option_bind].
  first_step.
  destruct (threads s !! next) as [nth|] eqn:Hn; [|discriminate].
  cbn [mbind option_bind]. intros Hs.
  exists cth, next, nth, rl. split; [done|]. split; [done|].
  unfold dispatched. destruct (bool_decide (running s ≠ next)); congruence.
Qed.

Lemma thread_block_inv s s' :
  thread_block s = Some s' →
  ∃ t th, thread_current s = Some t ∧ threads s !! t = Some th ∧
    schedule (store_thread t (with_status THREAD_BLOCKED th) s) = Some s'.
Proof.
  unfold thread_block. do 4 first_step. eauto 10.
Qed.

(** [thread_block] frees nothing: the destruction list and the pages on it
    are as they were. *)
Lemma thread_block_keeps_destruction_req s s' :
  thread_block s = Some s' →
  destruction_req s' = destruction_req s ∧
  free_pages s' = free_pages s ∧
  ∀ x, is_Some (threads s !! x) → is_Some (threads s' !! x).
Proof.
  intros (t & th & Hcur & Hth & Hs)%thread_block_inv.
  assert (running (store_thread t (with_status THREAD_BLOCKED th) s) = t)
    as Hrun.
  { cbn [running store_thread set_threads]. symmetry.
    by apply thread_current_Some in Hcur as [? _]. }
  apply schedule_inv in Hs as (cth & next & nth & rl & Hcth & Hnth & ->).
  destruct (dispatched_fields
              (running (store_thread t (with_status THREAD_BLOCKED th) s))
              cth next nth
              (set_ready_list rl
                 (store_thread t (with_status THREAD_BLOCKED th) s)))
    as (Hd1 & _ & Hd3 & _ & _ & Hd6 & _).
  rewrite Hd1, Hd3, Hd6.
  cbn [threads destruction_req free_pages running set_ready_list store_thread
       set_threads] in *.
  assert (status cth = THREAD_BLOCKED) as Hst.
  { rewrite Hrun, lookup_insert_eq in Hcth. by injection Hcth as <-. }
  rewrite Hst, (bool_decide_eq_false_2 (THREAD_BLOCKED = THREAD_DYING)) by done.
  rewrite andb_false_r. cbn [andb].
  split; [done|]. split; [done|].
  intros x Hx. rewrite !lookup_insert_is_Some'. auto.
Qed.

Lemma thread_exit_schedule s cur cth :
  thread_current s = Some cur → threads s !! cur = Some cth →
  intr_context s = false →
  victims_apart cur (ready_list s) (destruction_req s) = true →
  thread_exit s =
    (s' ← schedule
            (store_thread cur (with_status THREAD_DYING cth)
               (flushed (set_intr_level INTR_OFF s)));
     if bool_decide (running s' = cur) then None else Some s').
Proof.
  intros Hcur Hcth Hctx Hv. unfold thread_exit.
  rewrite Hctx. cbn [negb ASSERT mbind option_bind intr_disable].
  set (sx := set_intr_level INTR_OFF s).
  assert (thread_current sx = Some cur) as Hcur'
    by (rewrite (thread_current_ext sx s); done).
  rewrite (do_schedule_flushed THREAD_DYING sx cur cth eq_refl Hcur' Hcth Hv).
  apply thread_current_Some in Hcur as (-> & _). reflexivity.
Qed.

Lemma flushed_victims s v :
  v ∈ destruction_req s →
  threads (flushed s) !! elem_owner v = None ∧
  elem_owner v ∈ free_pages (flushed s).
Proof.
  intros Hv.
  assert (elem_owner v ∈ elem_owner <$> destruction_req s) as Hin
    by (apply list_elem_of_fmap; eauto).
  split.
  - by rewrite flushed_threads, bool_decide_eq_true_2.
  - apply flushed_free_pages. by left.
Qed.

(** Where the destruction list is flushed: [thread_yield] and [thread_exit]
    enter the
    scheduler through [do_schedule], whose loop frees every page queued on
    the destruction list first: [schedule], which selects the next thread,
    starts from the state [s0] that the loop has left, in which the
    destruction list is empty and the queued pages are no longer TCBs and
    are back in the allocator.  [thread_block] calls [schedule] directly: it
    frees nothing, the destruction list and the pages queued on it are as
    they were. *)
Theorem destruction_req_flushed_by_do_schedule s cur cth :
  thread_current s = Some cur → threads s !! cur = Some cth →
  intr_context s = false →
  victims_apart cur (ready_list s) (destruction_req s) = true →
  (∃ s0,
     free_destruction_req (destruction_req s)
       (set_ready_list (yield_queue s cur) (set_intr_level INTR_OFF s))
     = Some s0 ∧
     thread_yield s =
       (s' ← schedule (store_thread cur (with_status THREAD_READY cth) s0);
        if bool_decide (running s' = cur)
        then Some (intr_set_level (intr_level s) s') else Some s') ∧
     destruction_req s0 = [] ∧
     ∀ v, v ∈ destruction_req s →
       threads s0 !! elem_owner v = None ∧ elem_owner v ∈ free_pages s0) ∧
  (∃ s0,
     free_destruction_req (destruction_req s) (set_intr_level INTR_OFF s)
     = Some s0 ∧
     thread_exit s =
       (s' ← schedule (store_thread cur (with_status THREAD_DYING cth) s0);
        if bool_decide (running s' = cur) then None else Some s') ∧
     destruction_req s0 = [] ∧
     ∀ v, v ∈ destruction_req s →
       threads s0 !! elem_owner v = None ∧ elem_owner v ∈ free_pages s0) ∧
  (∀ s', thread_block s = Some s' →
     destruction_req s' = destruction_req s ∧
     free_pages s' = free_pages s ∧
     ∀ v, v ∈ destruction_req s → is_Some (threads s !! elem_owner v) →
       is_Some (threads s' !! elem_owner v)).
Proof.
  intros Hcur Hcth Hctx Hv. split; [|split].
  - set (sq := set_ready_list (yield_queue s cur) (set_intr_level INTR_OFF s)).
    exists (flushed sq). split.
    { apply (free_destruction_req_flushed cur sq).
      by apply victims_apart_yield_queue. }
    split; [by apply thread_yield_schedule|].
    split; [apply flushed_destruction_req|].
    intros v Hin. by apply (flushed_victims sq v).
  - set (sx := set_intr_level INTR_OFF s).
    exists (flushed sx). split.
    { by apply (free_destruction_req_flushed cur sx). }
    split; [by apply thread_exit_schedule|].
    split; [apply flushed_destruction_req|].
    intros v Hin. by apply (flushed_victims sx v).
  - intros s' Hb.
    destruct (thread_block_keeps_destruction_req s s' Hb) as (H1 & H2 & H3).
    split; [done|]. split; [done|]. intros v _. apply H3.
Qed.

(** C3: the scheduling decision that is reached through [thread_block]
    frees nothing, although the comment in [schedule] says that the
    destruction logic "will be called at the beginning of the schedule()"
    and [thread_yield] and [thread_exit] do free the queued pages first.
    Thread 0x3000 exits, so that its page is queued for destruction and
    thread 0x1000 runs; when 0x1000 then blocks, the scheduler gives the CPU
    to thread 0x2000 while the page of 0x3000 is still queued and still
    allocated. *)
Lemma thread_block_selects_without_flushing :
  page_0x3000 <$> thread_exit exiting_state
    = Some (0x1000, [Elem 0x3000], Some THREAD_DYING, []) ∧
  page_0x3000 <$> (thread_exit exiting_state ≫= thread_block)
    = Some (0x2000, [Elem 0x3000], Some THREAD_DYING, []).
Proof. split; vm_compute; reflexivity. Qed.

(** ** [thread_create] *)

Lemma thread_create_no_page nm prio function aux s :
  function ≠ 0 → free_pages s = [] →
  thread_create nm prio function aux s = Some (TID_ERROR, s).
Proof.
  intros Hf Hfree. unfold thread_create, palloc_get_page.
  rewrite bool_decide_eq_true_2 by done. by rewrite Hfree.
Qed.

Lemma init_thread_inv t nm prio s s' :
  init_thread t nm prio s = Some s' →
  s' = store_thread t (created_tcb nm prio 0 THREAD_BLOCKED) s ∧
  t ≠ 0 ∧ PRI_MIN ≤ prio ≤ PRI_MAX.
Proof.
  unfold init_thread.
  destruct (bool_decide (t ≠ 0)) eqn:H1; [|discriminate].
  destruct (bool_decide (PRI_MIN ≤ prio ∧ prio ≤ PRI_MAX)) eqn:H2;
    [|discriminate].
  apply bool_decide_eq_true in H1, H2.
  cbn [ASSERT mbind option_bind]. by intros [= <-].
Qed.

Lemma thread_create_tid nm prio function aux s tid' s' :
  thread_create nm prio function aux s = Some (tid', s') →
  free_pages s = [] ∧ tid' = TID_ERROR ∧ s' = s ∨
  free_pages s ≠ [] ∧ tid' = next_tid s.
Proof.
  unfold thread_create, palloc_get_page. first_step.
  destruct (free_pages s) as [|p rest]; [intros [= <- <-]; by left|].
  first_step. cbn [allocate_tid]. first_step. first_step. first_step.
  intros [= <- <-]. right. split; [done|].
  match goal with
  | H : init_thread _ _ _ _ = Some _ |- _ =>
      apply init_thread_inv in H as (-> & _)
  end.
  reflexivity.
Qed.

(** With a page, [thread_create] sets up the TCB, unblocks it and runs the
    preemption check. *)
Lemma thread_create_unfold nm prio function aux s p rest :
  function ≠ 0 → free_pages s = p :: rest → p ≠ 0 →
  PRI_MIN ≤ prio ≤ PRI_MAX →
  thread_create nm prio function aux s =
    (s1 ← thread_unblock p
            (store_thread p (created_tcb nm prio (next_tid s) THREAD_BLOCKED)
               (set_next_tid (wrap_int (next_tid s + 1))
                  (set_free_pages rest s)));
     s' ← thread_test_max_priority s1; Some (next_tid s, s')).
Proof.
  intros Hf Hfree Hp0 Hprio.
  set (s0 := store_thread p (created_tcb nm prio (next_tid s) THREAD_BLOCKED)
               (set_next_tid (wrap_int (next_tid s + 1))
                  (set_free_pages rest s))).
  set (th0 := created_tcb nm prio 0 THREAD_BLOCKED).
  set (th1 := created_tcb nm prio (next_tid s) THREAD_BLOCKED).
  assert (store_thread p th1
            (set_next_tid (wrap_int (next_tid s + 1))
               (store_thread p th0 (set_free_pages rest s))) = s0) as Hs0.
  { apply state_ext; try reflexivity.
    cbn [threads store_thread set_threads set_next_tid set_free_pages s0].
    apply insert_insert_eq. }
  unfold thread_create, palloc_get_page, init_thread.
  rewrite Hfree, !bool_decide_eq_true_2 by done.
  cbn [ASSERT mbind option_bind allocate_tid].
  change (threads (set_next_tid _ (store_thread p ?th _)) !! p)
    with (<[p := th]> (threads s) !! p).
  rewrite lookup_insert_eq. cbn [mbind option_bind].
  change (next_tid (store_thread p _ (set_free_pages rest s)))
    with (next_tid s).
  change (with_tid (next_tid s) (mk_thread 0 THREAD_BLOCKED
            (substring 0 15 nm) prio prio None [] 0 None THREAD_MAGIC))
    with th1.
  change (mk_thread 0 THREAD_BLOCKED (substring 0 15 nm) prio prio None []
            0 None THREAD_MAGIC) with th0.
  rewrite Hs0. by destruct (thread_unblock p s0).
Qed.

(** Up to the preemption check, [thread_create] has set up the TCB on the
    page that the allocator returned and has unblocked it. *)
Lemma thread_create_unblocked nm prio function aux s p rest :
  function ≠ 0 → free_pages s = p :: rest → p ≠ 0 →
  PRI_MIN ≤ prio ≤ PRI_MAX → Elem p ∉ sleep_list s →
  let s0 :=
    store_thread p (created_tcb nm prio (next_tid s) THREAD_BLOCKED)
      (set_next_tid (wrap_int (next_tid s + 1)) (set_free_pages rest s)) in
  ∃ s1,
    thread_unblock p s0 = Some s1 ∧
    thread_create nm prio function aux s =
      (s' ← thread_test_max_priority s1; Some (next_tid s, s')) ∧
    threads s1
      = <[p := created_tcb nm prio (next_tid s) THREAD_READY]> (threads s) ∧
    ready_list s1
      = list_insert_ordered (thread_compare_priority s0) (Elem p)
          (ready_list s) ∧
    mem s1 = mem s ∧
    running s1 = running s ∧ intr_level s1 = intr_level s ∧
    intr_context s1 = intr_context s ∧
    destruction_req s1 = destruction_req s ∧
    idle_thread s1 = idle_thread s ∧
    next_tid s1 = wrap_int (next_tid s + 1) ∧ free_pages s1 = rest.
Proof.
  intros Hf Hfree Hp0 Hprio Hns s0.
  set (th1 := created_tcb nm prio (next_tid s) THREAD_BLOCKED).
  assert (threads s0 !! p = Some th1) as Hp by apply lookup_insert_eq.
  pose proof (thread_unblock_Some p s0 th1 Hp Hp0 eq_refl eq_refl Hns) as Hun.
  eexists. split; [exact Hun|].
  split.
  { rewrite (thread_create_unfold nm prio function aux s p rest) by done.
    change (thread_unblock p _) with (thread_unblock p s0) at 1.
    by rewrite Hun. }
  cbn [threads ready_list mem running intr_level intr_context destruction_req
       idle_thread next_tid free_pages set_intr_level store_thread set_threads
       set_ready_list set_next_tid set_free_pages s0].
  rewrite !insert_insert_eq. repeat split.
Qed.

Lemma thread_test_max_priority_unfold s cur cth :
  thread_current s = Some cur → threads s !! cur = Some cth →
  thread_test_max_priority s =
    match ready_list s with
    | [] => Some s
    | e :: _ =>
        if priority cth <? elem_priority s e then thread_yield s else Some s
    end.
Proof.
  intros Hcur Hcth. unfold thread_test_max_priority.
  destruct (ready_list s) as [|e l]; [done|].
  cbn [list_empty]. rewrite Hcur. cbn [mbind option_bind]. rewrite Hcth.
  reflexivity.
Qed.

Lemma victims_apart_ext cur l1 l2 victims :
  (∀ x, x ∈ l1 ↔ x ∈ l2) →
  victims_apart cur l1 victims = victims_apart cur l2 victims.
Proof.
  intros H. unfold victims_apart.
  induction victims as [|[t|t] victims IH]; simpl; [done| |done].
  rewrite IH. do 2 f_equal. apply bool_decide_ext. by rewrite H.
Qed.

Lemma elems_of_threads_forall s l :
  elems_of_threads s l = true ↔
  ∀ e, e ∈ l → ∃ t, e = Elem t ∧ is_thread s t = true.
Proof.
  split; [intros H e; by apply elems_of_threads_elem|].
  intros H. unfold elems_of_threads. apply forallb_forall. intros e He.
  apply list_elem_of_In in He. by destruct (H e He) as (t & -> & ->).
Qed.

Lemma list_insert_ordered_front {A} (less : A → A → bool) e l :
  match l with
  | [] => True
  | x :: _ => less e x = true
  end →
  list_insert_ordered less e l = e :: l.
Proof. destruct l as [|x l]; simpl; [done|]. by intros ->. Qed.

Lemma list_insert_ordered_behind {A} (less : A → A → bool) e x l :
  less e x = false →
  list_insert_ordered less e (x :: l) = x :: list_insert_ordered less e l.
Proof. simpl. by intros ->. Qed.

Lemma list_insert_ordered_past {A} (less : A → A → bool) e l1 l2 :
  Forall (λ x, less e x = false) l1 →
  list_insert_ordered less e (l1 ++ l2)
  = l1 ++ list_insert_ordered less e l2.
Proof.
  induction 1 as [|x l1 Hx _ IH]; simpl; [done|]. by rewrite Hx, IH.
Qed.

(** What [thread_create] does while no TCB makes the empty-list test of the
    ordering predicate fire.  [thread_create] (called with a thread function,
    before the tid counter reaches the sentinel) returns [TID_ERROR] exactly
    when the page allocator has no page, and then the state is unchanged.
    With a page that is on no list, in a well-formed scheduler state, it
    returns the new thread's tid; before
    that it has set up the TCB, unblocked it, which put it into the ready
    queue in state [THREAD_READY], and run the preemption check.  When the
    new thread has a higher priority than the creator, the creator has
    yielded by the time [thread_create] is left: it is ready (and queued,
    unless it is the idle thread), and the CPU has gone to the new thread,
    or to a queued thread of at least the new thread's priority with the new
    thread queued ahead of the creator.  When the new thread also outranks
    every queued thread, it is the one that runs. *)
Theorem thread_create_result nm prio function aux s :
  function ≠ 0 → next_tid s ≠ TID_ERROR →
  (free_pages s = [] →
   thread_create nm prio function aux s = Some (TID_ERROR, s)) ∧
  (∀ tid' s', thread_create nm prio function aux s = Some (tid', s') →
     (tid' = TID_ERROR ↔ free_pages s = [])) ∧
  (∀ p rest cur cth,
     free_pages s = p :: rest → p ≠ 0 → threads s !! p = None →
     Elem p ∉ sleep_list s →
     PRI_MIN ≤ prio ≤ PRI_MAX →
     thread_current s = Some cur → threads s !! cur = Some cth →
     intr_context s = false →
     Elem cur ∉ ready_list s →
     victims_apart cur (Elem p :: ready_list s) (destruction_req s) = true →
     elems_of_threads s (ready_list s) = true →
     guard_silent s (Elem p :: Elem cur :: ready_list s) = true →
     ∃ s1 s',
       thread_unblock p
         (store_thread p (created_tcb nm prio (next_tid s) THREAD_BLOCKED)
            (set_next_tid (wrap_int (next_tid s + 1))
               (set_free_pages rest s))) = Some s1 ∧
       threads s1 !! p
         = Some (created_tcb nm prio (next_tid s) THREAD_READY) ∧
       Elem p ∈ ready_list s1 ∧
       thread_test_max_priority s1 = Some s' ∧
       thread_create nm prio function aux s = Some (next_tid s, s') ∧
       (priority cth < prio →
        status <$> threads s' !! cur = Some THREAD_READY ∧
        (Some cur ≠ idle_thread s → Elem cur ∈ ready_list s') ∧
        (running s' = p ∧ status <$> threads s' !! p = Some THREAD_RUNNING
         ∨ ∃ next l1 l2,
             running s' = next ∧ Elem next ∈ ready_list s ∧
             prio ≤ elem_priority s (Elem next) ∧
             ready_list s' = l1 ++ Elem p :: l2 ∧
             (Some cur ≠ idle_thread s → Elem cur ∈ l2)) ∧
        (forallb (λ e, elem_priority s e <? prio) (ready_list s) = true →
         running s' = p ∧
         status <$> threads s' !! p = Some THREAD_RUNNING))).
Proof.
  intros Hf Htid. split; [by apply thread_create_no_page|]. split.
  { intros tid' s' Hc.
    destruct (thread_create_tid _ _ _ _ _ _ _ Hc)
      as [(Hfree & -> & _)|(Hfree & ->)]; [done|].
    split; [done|]. intros Hnil. by destruct Hfree. }
  intros p rest cur cth Hfree Hp0 Hfresh Hns Hprio Hcur Hcth Hctx Hnotq Hv Hrl
    Hg.
  destruct (thread_create_unblocked nm prio function aux s p rest
              Hf Hfree Hp0 Hprio Hns)
    as (s1 & Hun & Hcreate & Ht1 & Hrl1 & Hm1 & Hrun1 &
        Hlvl1 & Hctx1 & Hd1 & Hidle1 & _ & _).
  set (s0 := store_thread p (created_tcb nm prio (next_tid s) THREAD_BLOCKED)
               (set_next_tid (wrap_int (next_tid s + 1))
                  (set_free_pages rest s))) in *.
  assert (threads s0
          = <[p := created_tcb nm prio (next_tid s) THREAD_BLOCKED]>
              (threads s)) as Ht0 by reflexivity.
  assert (mem s0 = mem s) as Hm0 by reflexivity.
  clearbody s0.
  assert (cur ≠ p) as Hcp by congruence.
  assert (threads s1 !! cur = Some cth) as Hcth1
    by (rewrite Ht1; by rewrite lookup_insert_ne).
  assert (threads s1 !! p
          = Some (created_tcb nm prio (next_tid s) THREAD_READY)) as Hp1
    by (rewrite Ht1; apply lookup_insert_eq).
  assert (thread_current s1 = Some cur) as Hcur1.
  { rewrite (thread_current_ext s1 s); [done|done|].
    rewrite Hrun1. apply thread_current_Some in Hcur as (-> & _).
    congruence. }
  assert (∀ n, is_thread s n = true → is_thread s1 n = true) as Hth1.
  { intros n Hn. rewrite (is_thread_ext s1 s); [done|].
    rewrite Ht1. apply lookup_insert_ne.
    apply is_thread_lookup in Hn as (? & ? & _). congruence. }
  assert (∀ x, x ∈ ready_list s1 ↔ x ∈ Elem p :: ready_list s) as Hmem1.
  { intros x. rewrite Hrl1, elem_of_list_insert_ordered, elem_of_cons. done. }
  assert (elems_of_threads s1 (ready_list s1) = true) as Hrl1'.
  { apply elems_of_threads_forall. intros e [->|He]%Hmem1%elem_of_cons.
    - exists p. split; [done|]. apply is_thread_lookup. eauto.
    - destruct (elems_of_threads_elem s _ _ Hrl He) as (n & -> & Hn). eauto. }
  assert (victims_apart cur (ready_list s1) (destruction_req s1) = true)
    as Hv1 by (rewrite Hd1, (victims_apart_ext _ _ _ _ Hmem1); done).
  rewrite <- Hctx1 in Hctx.
  destruct (thread_yield_facts s1 cur cth Hcur1 Hcth1 Hctx Hv1 Hrl1')
    as (sy & next & Hy & Hnext & Hrly & Hruny & _ & _ & _ & _ & _ & Hmap).
  assert (∃ s', thread_test_max_priority s1 = Some s') as [s' Hs'].
  { rewrite (thread_test_max_priority_unfold s1 cur cth Hcur1 Hcth1).
    destruct (ready_list s1) as [|e l]; [eauto|].
    destruct (priority cth <? elem_priority s1 e); eauto. }
  exists s1, s'.
  split; [done|]. split; [done|].
  split; [apply Hmem1; left|]. split; [done|].
  split; [by rewrite Hcreate, Hs'|].
  intros Hhigher.
  (* what the ordering predicate reads in the three states *)
  assert (∀ x, x ∈ ready_list s →
            elem_priority s0 x = elem_priority s x ∧
            elem_priority s1 x = elem_priority s x) as Hprio_same.
  { intros x Hx. destruct (elems_of_threads_elem s _ _ Hrl Hx) as (n & -> & Hn).
    apply is_thread_lookup in Hn as (nth & Hnth & _).
    assert (p ≠ n) by congruence.
    rewrite (elem_priority_Elem s n nth Hnth).
    split; apply elem_priority_Elem.
    - rewrite Ht0. by rewrite lookup_insert_ne.
    - rewrite Ht1. by rewrite lookup_insert_ne. }
  assert (elem_priority s0 (Elem p) = prio) as Hp0prio
    by (erewrite elem_priority_Elem; [|rewrite Ht0; apply lookup_insert_eq];
        done).
  assert (elem_priority s1 (Elem p) = prio) as Hp1prio
    by (erewrite elem_priority_Elem; [|exact Hp1]; done).
  assert (elem_priority s1 (Elem cur) = priority cth) as Hc1prio
    by (erewrite elem_priority_Elem; [|exact Hcth1]; done).
  assert (∀ s2 a b, mem s2 = mem s →
            a ∈ Elem p :: Elem cur :: ready_list s →
            b ∈ Elem p :: Elem cur :: ready_list s →
            thread_compare_priority s2 a b
            = (elem_priority s2 a >? elem_priority s2 b)) as Hcmp.
  { intros s2 a b Hm Ha Hb. apply thread_compare_priority_silent.
    - unfold list_empty_thread. rewrite Hm.
      by apply (guard_silent_elem s _ a Hg).
    - unfold list_empty_thread. rewrite Hm.
      by apply (guard_silent_elem s _ b Hg). }
  (* the new thread stands behind threads of at least its priority *)
  destruct (insert_by_key_split (elem_priority s0) (thread_compare_priority s0)
              (Elem p) (ready_list s))
    as (l1 & l2 & Hl & Hins & Hl1 & _).
  { intros x Hx. apply (Hcmp s0); [done|left|by right; right]. }
  rewrite Hp0prio in Hl1. rewrite Hins in Hrl1.
  assert (∀ x, x ∈ l1 → x ∈ ready_list s ∧ prio ≤ elem_priority s x ∧
                         prio ≤ elem_priority s1 x) as Hl1'.
  { intros x Hx.
    assert (x ∈ ready_list s) as Hxr by (rewrite Hl; apply elem_of_app; auto).
    rewrite Forall_forall in Hl1. specialize (Hl1 x Hx).
    destruct (Hprio_same x Hxr) as [E0 E1]. rewrite E1, <- E0. done. }
  (* the preemption check makes the creator yield *)
  assert (thread_test_max_priority s1 = thread_yield s1) as Htest.
  { rewrite (thread_test_max_priority_unfold s1 cur cth Hcur1 Hcth1), Hrl1.
    destruct l1 as [|x l1']; cbn [app].
    - rewrite Hp1prio, (proj2 (Z.ltb_lt _ _) Hhigher). done.
    - destruct (Hl1' x ltac:(left)) as (_ & _ & Hx).
      rewrite (proj2 (Z.ltb_lt (priority cth) (elem_priority s1 x)))
        by lia. done. }
  rewrite Htest, Hy in Hs'. injection Hs' as <-.
  (* the creator queues behind the new thread *)
  assert (∃ l2', yield_queue s1 cur = l1 ++ Elem p :: l2' ∧
                 (Some cur ≠ idle_thread s → Elem cur ∈ l2'))
    as (l2' & Hq & Hqcur).
  { unfold yield_queue. rewrite Hrl1, Hidle1.
    case_bool_decide as Hid; [|by eexists].
    rewrite list_insert_ordered_past.
    - rewrite list_insert_ordered_behind.
      + eexists. split; [done|]. intros _.
        apply elem_of_list_insert_ordered. by left.
      + rewrite (Hcmp s1) by (done || left || (right; left)).
        rewrite Hc1prio, Hp1prio, Z.gtb_ltb. apply Z.ltb_ge. lia.
    - apply Forall_forall. intros x Hx.
      destruct (Hl1' x Hx) as (Hxr & _ & Hxp).
      rewrite (Hcmp s1); [|done|right; left|by right; right].
      rewrite Hc1prio, Z.gtb_ltb. apply Z.ltb_ge. lia. }
  assert (p ∉ elem_owner <$> destruction_req s1) as Hpv
    by (eapply victims_apart_not_in; [exact Hv1|right; apply Hmem1; left]).
  assert (cur ∉ elem_owner <$> destruction_req s1) as Hcv
    by (eapply victims_apart_not_in; [exact Hv1|by left]).
  assert (next ≠ cur) as Hnc.
  { destruct Hnext as [[Hnil _]|[r Hr]].
    - rewrite Hq in Hnil. by destruct l1.
    - rewrite Hq in Hr. destruct l1 as [|x l1']; cbn [app] in Hr.
      + injection Hr as <- _. done.
      + injection Hr as -> _. intros ->.
        by destruct (Hl1' (Elem cur) ltac:(left)) as (Hin & _). }
  destruct (Hmap cur _ Hcv Hcth1) as (cth' & Hcth' & _ & Hst').
  rewrite bool_decide_eq_false_2, bool_decide_eq_true_2 in Hst' by done.
  destruct (Hmap p _ Hpv Hp1) as (pth' & Hpth' & _ & Hstp).
  split; [by rewrite Hcth', <- Hst'|].
  split.
  { intros Hid. rewrite Hrly, Hq.
    destruct l1 as [|x l1']; cbn [app tail].
    - by apply Hqcur.
    - apply elem_of_app. right. right. by apply Hqcur. }
  assert (l1 = [] → running sy = p ∧
                    status <$> threads sy !! p = Some THREAD_RUNNING) as Hfront.
  { intros ->. cbn [app] in Hq.
    assert (next = p) as ->.
    { destruct Hnext as [[Hnil _]|[r Hr]]; [by rewrite Hq in Hnil|].
      rewrite Hq in Hr. by injection Hr as <-. }
    split; [done|]. rewrite bool_decide_eq_true_2 in Hstp by done.
    by rewrite Hpth', <- Hstp. }
  split.
  - destruct l1 as [|x l1'] eqn:El1; [left; by apply Hfront|].
    right. destruct (Hl1' x ltac:(left)) as (Hxr & Hxp & _).
    destruct Hnext as [[Hnil _]|[r Hr]]; [by rewrite Hq in Hnil|].
    rewrite Hq in Hr. cbn [app] in Hr. injection Hr as -> _.
    exists next, l1', l2'. split; [done|]. split; [done|]. split; [done|].
    split; [|done]. by rewrite Hrly, Hq.
  - intros Hlow. apply Hfront.
    destruct l1 as [|x l1']; [done|]. exfalso.
    destruct (Hl1' x ltac:(left)) as (Hxr & Hxp & _).
    rewrite forallb_forall in Hlow.
    apply list_elem_of_In in Hxr. specialize (Hlow x Hxr).
    apply Z.ltb_lt in Hlow. lia.
Qed.

(** ** The ordering predicate on the donation list *)

(** On [donation_elem] links, [list_entry (., struct thread, elem)] is not
    the base of the TCB: the predicate reads the raw memory only, whatever
    the priorities of the threads are. *)
Lemma thread_compare_priority_donation_elem s a b :
  thread_compare_priority s (DonationElem a) (DonationElem b) =
    if mem_list_empty (mem s) (TcbPlus a) || mem_list_empty (mem s) (TcbPlus b)
    then false
    else mem_priority (mem s) (TcbPlus a) >? mem_priority (mem s) (TcbPlus b).
Proof. reflexivity. Qed.

Lemma thread_compare_priority_donation_blind s m a b :
  thread_compare_priority (set_threads m s) (DonationElem a) (DonationElem b)
  = thread_compare_priority s (DonationElem a) (DonationElem b).
Proof. reflexivity. Qed.

Lemma elem_of_sort_insert {A} (less : A → A → bool) e l x :
  x ∈ sort_insert less e l ↔ x = e ∨ x ∈ l.
Proof.
  induction l as [|y l IH]; simpl.
  - rewrite list_elem_of_singleton. split; [auto|]. intros [?|H]; [done|].
    by apply elem_of_nil in H.
  - destruct (less y e).
    + rewrite !elem_of_cons, IH. tauto.
    + rewrite !elem_of_cons. tauto.
Qed.

Lemma elem_of_list_sort {A} (less : A → A → bool) l x :
  x ∈ list_sort less l ↔ x ∈ l.
Proof.
  unfold list_sort. induction l as [|y l IH]; simpl; [done|].
  rewrite elem_of_sort_insert, elem_of_cons, IH. done.
Qed.

Lemma sort_insert_ext {A} (f g : A → A → bool) e l :
  (∀ x, x ∈ l → f x e = g x e) → sort_insert f e l = sort_insert g e l.
Proof.
  induction l as [|x l IH]; intros H; simpl; [done|].
  rewrite (H x) by left. destruct (g x e); [|done].
  f_equal. apply IH. intros y Hy. apply H. by right.
Qed.

Lemma list_sort_ext {A} (f g : A → A → bool) l :
  (∀ x y, x ∈ l → y ∈ l → f x y = g x y) → list_sort f l = list_sort g l.
Proof.
  unfold list_sort. induction l as [|e l IH]; intros H; simpl; [done|].
  rewrite IH by (intros x y Hx Hy; apply H; by right).
  apply sort_insert_ext. intros x Hx. apply H; [right|left].
  by apply (elem_of_list_sort g l x).
Qed.

(** Sorting a donation list with [thread_compare_priority] gives the same
    order whatever the priorities of the donors are. *)
Lemma list_sort_donations_blind s m l :
  Forall (λ e, ∃ t, e = DonationElem t) l →
  list_sort (thread_compare_priority (set_threads m s)) l
  = list_sort (thread_compare_priority s) l.
Proof.
  intros Hl. apply list_sort_ext. intros x y Hx Hy.
  rewrite Forall_forall in Hl.
  destruct (Hl x Hx) as [a ->], (Hl y Hy) as [b ->].
  apply thread_compare_priority_donation_blind.
Qed.

(** C4, where the code departs from it: the donor 0x3000 has priority 40
    and the donor 0x2000 has priority 30, yet on their [donation_elem]
    links, as [list_sort] passes them from [refresh_priority], the predicate
    answers false.  Whatever the raw memory holds, it gives one and the same
    answer before and after the two priorities are exchanged, so that one of
    the two answers is not the comparison of the priorities. *)
Theorem thread_compare_priority_misses_donor_priority :
  priority_of donors_state 0x3000 = Some 40 ∧
  priority_of donors_state 0x2000 = Some 30 ∧
  thread_compare_priority donors_state
    (DonationElem 0x3000) (DonationElem 0x2000) = false ∧
  priority_of donors_state_swapped 0x3000 = Some 30 ∧
  priority_of donors_state_swapped 0x2000 = Some 40 ∧
  ∀ m,
    thread_compare_priority (set_mem m donors_state)
      (DonationElem 0x3000) (DonationElem 0x2000)
    = thread_compare_priority (set_mem m donors_state_swapped)
        (DonationElem 0x3000) (DonationElem 0x2000).
Proof.
  split; [vm_compute; reflexivity|]. split; [vm_compute; reflexivity|].
  split; [vm_compute; reflexivity|]. split; [vm_compute; reflexivity|].
  split; [vm_compute; reflexivity|]. intros m. reflexivity.
Qed.

(** ** [refresh_priority] *)

(** What [refresh_priority] computes: the larger of [init_priority] and the
    priority of the donor that [list_sort] has left at the front. *)
Lemma refresh_priority_front s t th :
  thread_current s = Some t → threads s !! t = Some th →
  let s0 := store_thread t (with_priority (init_priority th) th) s in
  match list_sort (thread_compare_priority s0) (donations th) with
  | [] =>
      donations th = [] ∧ refresh_priority s = Some s0
  | d :: _ =>
      ∃ s', refresh_priority s = Some s' ∧
        priority_of s' t
        = Some (Z.max (init_priority th)
                  (load_priority
                     (store_thread t
                        (with_donations
                           (list_sort (thread_compare_priority s0)
                              (donations th))
                           (with_priority (init_priority th) th)) s0)
                     (list_entry d donation_elem)))
  end.
Proof.
  intros Hcur Hth s0. unfold refresh_priority.
  rewrite Hcur. cbn [mbind option_bind]. rewrite Hth.
  cbn [mbind option_bind]. fold s0.
  change (donations (with_priority (init_priority th) th))
    with (donations th).
  destruct (donations th) as [|d0 ds] eqn:Hd; [done|].
  cbn [list_empty].
  destruct (list_sort (thread_compare_priority s0) (d0 :: ds))
    as [|d sorted] eqn:Hsort.
  { exfalso.
    assert (d0 ∈ list_sort (thread_compare_priority s0) (d0 :: ds)) as Hin
      by (apply elem_of_list_sort; left).
    rewrite Hsort in Hin. by apply elem_of_nil in Hin. }
  cbn [donations with_donations list_front head mbind option_bind priority
       with_priority].
  match goal with
  | |- context [init_priority th <? ?v] =>
      destruct (init_priority th <? v) eqn:Hlt
  end.
  - apply Z.ltb_lt in Hlt. eexists. split; [reflexivity|].
    unfold priority_of. cbn [threads store_thread set_threads].
    rewrite lookup_insert_eq. cbn [fmap option_fmap option_map priority
                                   with_priority].
    f_equal. symmetry. apply Z.max_r. lia.
  - apply Z.ltb_ge in Hlt. eexists. split; [reflexivity|].
    unfold priority_of. cbn [threads store_thread set_threads].
    rewrite lookup_insert_eq. cbn [fmap option_fmap option_map priority
                                   with_priority with_donations].
    f_equal. symmetry. apply Z.max_l. lia.
Qed.

(** C1, where the code departs from it: the current thread has
    init_priority 20 and the donors 0x2000 (priority 30) and 0x3000
    (priority 40).  The largest of the three is 40, and
    [refresh_priority] leaves the priority 30: the sort has not brought the
    donor of largest priority to the front.  Whatever the raw memory holds,
    the sort leaves the same donor in front when the priorities of the two
    donors are exchanged, so that in one of the two states the result is 30
    and not 40. *)
Theorem refresh_priority_misses_largest_donor :
  max_donation donors_state 20
    [DonationElem 0x2000; DonationElem 0x3000] = 40 ∧
  (refresh_priority donors_state ≫= λ s', priority_of s' 0x1000) = Some 30 ∧
  max_donation donors_state_swapped 20
    [DonationElem 0x2000; DonationElem 0x3000] = 40 ∧
  ∀ m,
    (refresh_priority (set_mem m donors_state)
       ≫= λ s', priority_of s' 0x1000) = Some 30 ∨
    (refresh_priority (set_mem m donors_state_swapped)
       ≫= λ s', priority_of s' 0x1000) = Some 30.
Proof.
  split; [vm_compute; reflexivity|]. split; [vm_compute; reflexivity|].
  split; [vm_compute; reflexivity|].
  intros [e p].
  destruct (thread_compare_priority (set_mem (mk_raw e p) donors_state)
              (DonationElem 0x3000) (DonationElem 0x2000)) eqn:Hcmp.
  - right. vm_compute in Hcmp. vm_compute. rewrite Hcmp. reflexivity.
  - left. vm_compute in Hcmp. vm_compute. rewrite Hcmp. reflexivity.
Qed.

(** * The operations on the example states *)

(** The woken thread 0x5000 (priority 31), taken off the sleep list as
    [thread_awake] does, goes behind the queued 0x2000 of the same priority
    and in front of 0x3000 (priority 20). *)
Example thread_unblock_queues_behind_equal_priority :
  ready_list
    <$> thread_unblock 0x5000
          (set_sleep_list (list_remove (Elem 0x5000) (sleep_list busy_state))
             busy_state)
  = Some [Elem 0x2000; Elem 0x5000; Elem 0x3000].
Proof. vm_compute. reflexivity. Qed.

(** While it is still on the sleep list, unblocking it has no result. *)
Example thread_unblock_on_sleep_list :
  thread_unblock 0x5000 busy_state = None.
Proof. vm_compute. reflexivity. Qed.

(** The running thread 0x1000 yields to 0x2000 of the same priority; the
    page of the exited thread 0x4000 is freed on the way. *)
Example thread_yield_round_robin :
  (λ s, (running s, ready_list s, destruction_req s, free_pages s))
    <$> thread_yield busy_state
  = Some (0x2000, [Elem 0x1000; Elem 0x3000], [], [0x4000; 0x8000]).
Proof. vm_compute. reflexivity. Qed.

(** At tick 200 the sleepers due at 100 and 200 become ready; the one due at
    300 sleeps on. *)
Example thread_awake_at_200 :
  (λ s, (sleep_list s, ready_list s)) <$> thread_awake 200 busy_state
  = Some ([Elem 0x5000],
          [Elem 0x2000; Elem 0x7000; Elem 0x3000; Elem 0x6000]).
Proof. vm_compute. reflexivity. Qed.

(** H donates its priority 30 to M and, through M, to L. *)
Example donate_priority_down_the_chain :
  (λ s, (priority_of s 0x1000, priority_of s 0x2000, priority_of s 0x3000))
    <$> donate_priority chain_state
  = Some (Some 30, Some 30, Some 30).
Proof. vm_compute. reflexivity. Qed.

(** A holder whose priority is above the donor's is brought down to it: M
    has priority 50 here, and 30 after the donation. *)
Example donate_priority_overwrites_higher_priority :
  priority_of
    (store_thread 0x2000
       (waiter 2 50 THREAD_BLOCKED (Some 0xb000) [DonationElem 0x1000])
       chain_state) 0x2000 = Some 50 ∧
  (λ s, priority_of s 0x2000)
    <$> donate_priority
          (store_thread 0x2000
             (waiter 2 50 THREAD_BLOCKED (Some 0xb000) [DonationElem 0x1000])
             chain_state)
  = Some (Some 30).
Proof. split; vm_compute; reflexivity. Qed.

(** With a single donor of priority 40, lowering the own priority from 20
    to 30 leaves the effective priority at 40. *)
Example thread_set_priority_under_donation :
  (λ s, (priority_of s 0x1000, init_priority <$> threads s !! 0x1000))
    <$> thread_set_priority 30 one_donor_state
  = Some (Some 40, Some 30).
Proof. vm_compute. reflexivity. Qed.

(** The running thread 0x1000 goes to sleep until tick 500: it joins the
    sleep queue, blocked, and 0x2000 runs. *)
Example thread_sleep_until_500 :
  (λ s, (running s, sleep_list s, status <$> threads s !! 0x1000,
         wakeup <$> threads s !! 0x1000))
    <$> thread_sleep 500 busy_state
  = Some (0x2000, [Elem 0x5000; Elem 0x6000; Elem 0x7000; Elem 0x1000],
          Some THREAD_BLOCKED, Some 500).
Proof. vm_compute. reflexivity. Qed.

(** Without a page, [thread_create] returns the sentinel. *)
Example thread_create_out_of_pages :
  fst <$> thread_create "late" 31 0x400000 0 (set_free_pages [] busy_state)
  = Some TID_ERROR.
Proof. vm_compute. reflexivity. Qed.

(** * The properties on the example states *)

Lemma donate_priority_walk_witness :
  thread_current chain_state = Some 0x1000 ∧
  holder_chain chain_state 8 0x1000 = Some [0x2000; 0x3000] ∧
  ∃ s', donate_priority chain_state = Some s' ∧
        priority_of s' 0x2000 = Some 30 ∧ priority_of s' 0x3000 = Some 30.
Proof.
  assert (thread_current chain_state = Some 0x1000) as Hcur
    by (vm_compute; reflexivity).
  assert (threads chain_state !! 0x1000
          = Some (waiter 1 30 THREAD_RUNNING (Some 0xa000) [])) as Hth
    by (vm_compute; reflexivity).
  assert (holder_chain chain_state 8 0x1000 = Some [0x2000; 0x3000]) as Hchain
    by (vm_compute; reflexivity).
  split; [exact Hcur|]. split; [exact Hchain|].
  destruct (donate_priority_walk chain_state 0x1000 _ _ Hcur Hth Hchain)
    as (s' & Hd & _ & _ & _ & Hprio & _).
  exists s'. split; [exact Hd|]. unfold priority_of. split.
  - rewrite (Hprio 0x2000 (waiter 2 20 THREAD_BLOCKED (Some 0xb000)
                             [DonationElem 0x1000]));
      vm_compute; reflexivity.
  - rewrite (Hprio 0x3000 (waiter 3 10 THREAD_READY None
                             [DonationElem 0x2000]));
      vm_compute; reflexivity.
Defined.

Lemma donate_priority_frame_witness :
  ∃ s', donate_priority chain_state = Some s' ∧
        ready_list s' = ready_list chain_state ∧
        threads s' !! 0x1000 = threads chain_state !! 0x1000.
Proof.
  destruct (donate_priority chain_state) as [s'|] eqn:Hd;
    [|vm_compute in Hd; discriminate Hd].
  destruct (donate_priority_frame chain_state s' Hd)
    as (t & th & chain & Hcur & Hth & _ & _ & _ & _ & Hdonor & _ & Hrl & _).
  exists s'. split; [reflexivity|]. split; [exact Hrl|].
  assert (t = 0x1000) as -> by (vm_compute in Hcur; congruence).
  rewrite Hdonor, Hth. reflexivity.
Defined.

Lemma thread_unblock_ready_in_order_witness :
  is_thread blocked_state 0xb000 = true ∧
  guard_silent blocked_state (Elem 0xb000 :: ready_list blocked_state) = true ∧
  ∃ s', thread_unblock 0xb000 blocked_state = Some s' ∧
        ready_list s' = [Elem 0xb000; Elem 0x2000; Elem 0x3000] ∧
        intr_level s' = INTR_ON ∧ running s' = 0x1000 ∧
        status <$> threads s' !! 0xb000 = Some THREAD_READY.
Proof.
  assert (is_thread blocked_state 0xb000 = true) as Ht
    by (vm_compute; reflexivity).
  assert (threads blocked_state !! 0xb000
          = Some (mk_thread 9 THREAD_BLOCKED "crafted" 50 50 None [] 0 None
                    THREAD_MAGIC)) as Hth
    by (vm_compute; reflexivity).
  assert (Elem 0xb000 ∉ sleep_list blocked_state) as Hns
    by (apply (bool_decide_unpack _); vm_compute; exact I).
  assert (guard_silent blocked_state (Elem 0xb000 :: ready_list blocked_state)
          = true) as Hg by (vm_compute; reflexivity).
  split; [exact Ht|]. split; [exact Hg|].
  destruct (thread_unblock_ready_in_order blocked_state 0xb000 _ Ht Hth eq_refl
              Hns Hg)
    as (s' & l1 & l2 & Hun & _ & _ & _ & _ & _ & Hmap & Hlvl & Hrun & _).
  exists s'. split; [exact Hun|].
  split; [revert Hun; vm_compute; by intros [= <-]|].
  split; [exact Hlvl|]. split; [exact Hrun|].
  rewrite Hmap, lookup_insert_eq. reflexivity.
Defined.

Lemma ready_queue_sorted_fifo_witness :
  insertion_ready Yield busy_state = true ∧
  descending busy_state (ready_list busy_state) ∧
  ∃ s', thread_yield busy_state = Some s' ∧
        descending s' (ready_list s').
Proof.
  assert (insertion_ready Yield busy_state = true) as Hready
    by (vm_compute; reflexivity).
  assert (descending busy_state (ready_list busy_state)) as Hs.
  { unfold descending. repeat constructor. vm_compute. discriminate. }
  split; [exact Hready|]. split; [exact Hs|].
  destruct (ready_queue_sorted_fifo Yield busy_state Hready Hs)
    as (s' & Hrun & Hs' & _).
  exists s'. split; [exact Hrun|exact Hs'].
Defined.

Lemma thread_awake_due_ready_witness :
  NoDup (sleep_list busy_state) ∧
  sleepers_blocked busy_state (sleep_list busy_state) = true ∧
  ∃ s', thread_awake 200 busy_state = Some s' ∧
        sleep_list s' = [Elem 0x5000] ∧
        status <$> threads s' !! 0x6000 = Some THREAD_READY ∧
        status <$> threads s' !! 0x7000 = Some THREAD_READY.
Proof.
  assert (NoDup (sleep_list busy_state)) as Hnd.
  { apply (bool_decide_unpack _). vm_compute. exact I. }
  assert (sleepers_blocked busy_state (sleep_list busy_state) = true) as Hsb
    by (vm_compute; reflexivity).
  split; [exact Hnd|]. split; [exact Hsb|].
  destruct (thread_awake_due_ready busy_state 200 Hnd Hsb)
    as (s' & Haw & _ & Hsl & Hwake & _).
  exists s'. split; [exact Haw|]. split; [rewrite Hsl; reflexivity|].
  split.
  - destruct (Hwake 0x6000 (sleeper 6 20 100)) as (_ & -> & _);
      [apply (bool_decide_unpack _); vm_compute; exact I
      |vm_compute; reflexivity|vm_compute; discriminate|reflexivity].
  - destruct (Hwake 0x7000 (sleeper 7 31 200)) as (_ & -> & _);
      [apply (bool_decide_unpack _); vm_compute; exact I
      |vm_compute; reflexivity|vm_compute; discriminate|reflexivity].
Defined.

Lemma thread_tick_accounting_witness :
  thread_current busy_state = Some 0x1000 ∧
  ∃ s', thread_tick busy_state = Some s' ∧
        thread_ticks s' = 3 ∧ kernel_ticks s' = 121 ∧ idle_ticks s' = 7 ∧
        yield_on_return s' = false.
Proof.
  assert (thread_current busy_state = Some 0x1000) as Hcur
    by (vm_compute; reflexivity).
  assert (threads busy_state !! 0x1000 = Some (tcb 1 THREAD_RUNNING 31))
    as Hth by (vm_compute; reflexivity).
  split; [exact Hcur|].
  destruct (thread_tick_accounting busy_state 0x1000 _ Hcur Hth)
    as (s' & Htick & Hticks & Hcount & _ & _ & Hno & _);
    [simpl; lia..|].
  exists s'. split; [exact Htick|]. split; [exact Hticks|].
  assert (Some 0x1000 ≠ idle_thread busy_state) as Hidle
    by (vm_compute; discriminate).
  destruct Hcount as [[Hi _]|[(_ & Hp & _)|(_ & _ & Hi & _ & Hk)]].
  - destruct (Hidle Hi).
  - destruct (Hp eq_refl).
  - split; [exact Hk|]. split; [exact Hi|].
    apply Hno. rewrite Hticks. vm_compute. reflexivity.
Defined.

Lemma destruction_req_flushed_by_do_schedule_witness :
  thread_current busy_state = Some 0x1000 ∧
  victims_apart 0x1000 (ready_list busy_state) (destruction_req busy_state)
    = true ∧
  ∃ s0, destruction_req s0 = [] ∧ threads s0 !! 0x4000 = None ∧
        0x4000 ∈ free_pages s0.
Proof.
  assert (thread_current busy_state = Some 0x1000) as Hcur
    by (vm_compute; reflexivity).
  assert (threads busy_state !! 0x1000 = Some (tcb 1 THREAD_RUNNING 31))
    as Hth by (vm_compute; reflexivity).
  assert (victims_apart 0x1000 (ready_list busy_state)
            (destruction_req busy_state) = true) as Hv
    by (vm_compute; reflexivity).
  split; [exact Hcur|]. split; [exact Hv|].
  destruct (destruction_req_flushed_by_do_schedule busy_state 0x1000 _
              Hcur Hth eq_refl Hv) as ((s0 & _ & _ & Hd & Hfreed) & _).
  exists s0. split; [exact Hd|].
  apply (Hfreed (Elem 0x4000)). left.
Defined.

Lemma thread_create_result_witness :
  free_pages busy_state = [0x8000] ∧
  thread_current busy_state = Some 0x1000 ∧
  ∃ s', thread_create "high" 40 0x400000 0 busy_state = Some (9, s') ∧
        running s' = 0x8000 ∧
        status <$> threads s' !! 0x1000 = Some THREAD_READY.
Proof.
  assert (thread_current busy_state = Some 0x1000) as Hcur
    by (vm_compute; reflexivity).
  assert (threads busy_state !! 0x1000 = Some (tcb 1 THREAD_RUNNING 31))
    as Hth by (vm_compute; reflexivity).
  split; [reflexivity|]. split; [exact Hcur|].
  destruct (thread_create_result "high" 40 0x400000 0 busy_state)
    as (_ & _ & Hok); [discriminate|discriminate|].
  destruct (Hok 0x8000 [] 0x1000 (tcb 1 THREAD_RUNNING 31) eq_refl) as
    (s1 & s' & _ & _ & _ & _ & Hcreate & Hpreempt);
    [discriminate|vm_compute; reflexivity
    |apply (bool_decide_unpack _); vm_compute; exact I
    |vm_compute; split; discriminate
    |exact Hcur|exact Hth|reflexivity
    |apply (bool_decide_unpack _); vm_compute; exact I
    |vm_compute; reflexivity|vm_compute; reflexivity|vm_compute; reflexivity|].
  destruct Hpreempt as (Hst & _ & _ & Hfront); [vm_compute; reflexivity|].
  destruct Hfront as (Hrun & _); [vm_compute; reflexivity|].
  exists s'. split; [exact Hcreate|]. split; [exact Hrun|exact Hst].
Defined.

(** * Consistency of the scheduler's data *)

(** ** Reading the invariant *)

Lemma queued_as_true st s e :
  queued_as st s e = true ↔
  ∃ t th, e = Elem t ∧ threads s !! t = Some th ∧ status th = st.
Proof.
  unfold queued_as. split.
  - destruct e as [t|t]; [|discriminate].
    destruct (threads s !! t) as [th|] eqn:Hl; [|discriminate].
    intros H%bool_decide_eq_true. eauto 10.
  - intros (t & th & -> & -> & Hst). by apply bool_decide_eq_true.
Qed.

Lemma queued_as_elem st s l e :
  Forall (λ e, queued_as st s e = true) l → e ∈ l →
  ∃ t th, e = Elem t ∧ threads s !! t = Some th ∧ status th = st.
Proof.
  intros Hall Hin. apply queued_as_true.
  by apply (proj1 (Forall_forall _ _) Hall).
Qed.

Lemma well_formedb_sound s : well_formedb s = true → well_formed s.
Proof.
  unfold well_formedb. intros H.
  apply andb_prop in H as [H Hidle]. apply andb_prop in H as [H Hfnd].
  apply andb_prop in H as [H Hfree]. apply andb_prop in H as [H Hdnd].
  apply andb_prop in H as [H Hsnd]. apply andb_prop in H as [H Hrnd].
  apply andb_prop in H as [H Hdying]. apply andb_prop in H as [H Hsleep].
  apply andb_prop in H as [H Hready]. apply andb_prop in H as [Hcur Hmap].
  apply bool_decide_eq_true in Hcur, Hfnd, Hdnd, Hsnd, Hrnd.
  assert (∀ t th, threads s !! t = Some th →
            (t ≠ 0 ∧ magic th = THREAD_MAGIC) ∧
            (status th = THREAD_RUNNING → t = running s) ∧
            (status th = THREAD_READY →
             Elem t ∈ ready_list s ∨ idle_thread s = Some t)) as Hth.
  { intros t th Hl. apply elem_of_map_to_list in Hl.
    apply (proj1 (forallb_forall _ _)) with (x := (t, th)) in Hmap;
      [|by apply list_elem_of_In].
    cbn beta iota in Hmap.
    apply andb_prop in Hmap as [Hmap H4]. apply andb_prop in Hmap as [Hmap H3].
    apply andb_prop in Hmap as [H1 H2].
    apply bool_decide_eq_true in H1, H2.
    split; [done|]. split.
    - intros Hst. rewrite (bool_decide_eq_true_2 _ Hst) in H3.
      by apply bool_decide_eq_true in H3.
    - intros Hst. rewrite (bool_decide_eq_true_2 _ Hst) in H4.
      cbn [implb] in H4. apply orb_prop in H4 as [H4|H4];
        apply bool_decide_eq_true in H4; auto. }
  split; [done|]. split.
  - intros t th Hl. by apply Hth.
  - intros t th Hl. by apply Hth.
  - intros t th Hl. by apply Hth.
  - apply Forall_forall. intros e He.
    eapply forallb_forall; [eassumption|]. by apply list_elem_of_In.
  - apply Forall_forall. intros e He.
    eapply forallb_forall; [eassumption|]. by apply list_elem_of_In.
  - apply Forall_forall. intros e He.
    eapply forallb_forall; [eassumption|]. by apply list_elem_of_In.
  - done.
  - done.
  - done.
  - apply Forall_forall. intros p Hp.
    apply (proj1 (forallb_forall _ _)) with (x := p) in Hfree;
      [|by apply list_elem_of_In].
    by apply bool_decide_eq_true in Hfree.
  - done.
  - intros i Hi. rewrite Hi in Hidle.
    apply andb_prop in Hidle as [Hidle H4].
    apply andb_prop in Hidle as [Hidle H3].
    apply andb_prop in Hidle as [H1 H2].
    apply bool_decide_eq_true in H1, H2, H3, H4. done.
Qed.

(** ** States with the same queues *)

Lemma lookup_agree {A B} (f : A → B) (m1 m2 : gmap Z A) x a2 :
  f <$> m1 !! x = f <$> m2 !! x → m2 !! x = Some a2 →
  ∃ a1, m1 !! x = Some a1 ∧ f a1 = f a2.
Proof.
  intros H H2. rewrite H2 in H. destruct (m1 !! x) as [a1|]; [|discriminate].
  injection H as H. eauto.
Qed.

Lemma queued_as_agree st s1 s2 e :
  (∀ x, status <$> threads s1 !! x = status <$> threads s2 !! x) →
  queued_as st s1 e = queued_as st s2 e.
Proof.
  intros H. destruct e as [t|t]; [|done]. unfold queued_as.
  specialize (H t).
  destruct (threads s1 !! t), (threads s2 !! t); try discriminate; [|done].
  injection H as ->. done.
Qed.

(** The invariant looks at the status and the magic value of the TCBs
    only. *)
Lemma queues_fit_agree s1 s2 :
  (∀ x, status <$> threads s1 !! x = status <$> threads s2 !! x) →
  (∀ x, magic <$> threads s1 !! x = magic <$> threads s2 !! x) →
  ready_list s1 = ready_list s2 → sleep_list s1 = sleep_list s2 →
  destruction_req s1 = destruction_req s2 →
  idle_thread s1 = idle_thread s2 → running s1 = running s2 →
  free_pages s1 = free_pages s2 →
  queues_fit s1 → queues_fit s2.
Proof.
  intros Hst Hmg Er Es Ed Ei Erun Ef [].
  assert (∀ st l, Forall (λ e, queued_as st s1 e = true) l →
            Forall (λ e, queued_as st s2 e = true) l) as Hq.
  { intros st l H. eapply Forall_impl; [exact H|]. intros e. cbn beta.
    by rewrite (queued_as_agree st s1 s2 e Hst). }
  split; rewrite <- ?Er, <- ?Es, <- ?Ed, <- ?Ei, <- ?Erun, <- ?Ef; auto.
  - intros t th Hl.
    destruct (lookup_agree magic _ _ _ _ (Hmg t) Hl) as (th1 & Hl1 & Hm).
    rewrite <- Hm. eauto.
  - intros t th Hl Hs.
    destruct (lookup_agree status _ _ _ _ (Hst t) Hl) as (th1 & Hl1 & Hm).
    eapply qf_running0; [eassumption|congruence].
  - intros t th Hl Hs.
    destruct (lookup_agree status _ _ _ _ (Hst t) Hl) as (th1 & Hl1 & Hm).
    eapply qf_ready_queued0; [eassumption|congruence].
  - eapply Forall_impl; [exact qf_free0|]. intros p Hp. cbn beta in Hp.
    specialize (Hst p). rewrite Hp in Hst.
    destruct (threads s2 !! p); [discriminate|done].
  - intros i Hi. destruct (qf_idle0 i Hi) as ([th Hth] & ? & ? & ?).
    split; [|done]. specialize (Hst i). rewrite Hth in Hst.
    destruct (threads s2 !! i); [eauto|discriminate].
Qed.

Lemma queues_fit_fields s1 s2 :
  threads s1 = threads s2 →
  ready_list s1 = ready_list s2 → sleep_list s1 = sleep_list s2 →
  destruction_req s1 = destruction_req s2 →
  idle_thread s1 = idle_thread s2 → running s1 = running s2 →
  free_pages s1 = free_pages s2 →
  queues_fit s1 → queues_fit s2.
Proof.
  intros Et. apply queues_fit_agree; intros x; by rewrite Et.
Qed.

Lemma thread_current_agree s1 s2 :
  (∀ x, status <$> threads s1 !! x = status <$> threads s2 !! x) →
  (∀ x, magic <$> threads s1 !! x = magic <$> threads s2 !! x) →
  running s1 = running s2 →
  thread_current s1 = Some (running s1) →
  thread_current s2 = Some (running s2).
Proof.
  intros Hst Hmg Erun (_ & (th & Hth & Hz & Hm)%is_thread_lookup
                         & th' & Hth' & Hs)%thread_current_Some.
  assert (th' = th) as -> by congruence.
  specialize (Hst (running s1)). specialize (Hmg (running s1)).
  rewrite Hth in Hst, Hmg. rewrite Erun in *.
  destruct (threads s2 !! running s2) as [th2|] eqn:H2; [|discriminate].
  injection Hst as Hst. injection Hmg as Hmg.
  apply thread_current_Some. split; [done|]. split.
  - apply is_thread_lookup. exists th2. split; [done|]. split; [done|].
    congruence.
  - exists th2. split; [done|congruence].
Qed.

Lemma well_formed_agree s1 s2 :
  (∀ x, status <$> threads s1 !! x = status <$> threads s2 !! x) →
  (∀ x, magic <$> threads s1 !! x = magic <$> threads s2 !! x) →
  ready_list s1 = ready_list s2 → sleep_list s1 = sleep_list s2 →
  destruction_req s1 = destruction_req s2 →
  idle_thread s1 = idle_thread s2 → running s1 = running s2 →
  free_pages s1 = free_pages s2 →
  well_formed s1 → well_formed s2.
Proof.
  intros Hst Hmg Er Es Ed Ei Erun Ef [Hcur Hq]. split.
  - by apply (thread_current_agree s1 s2).
  - by apply (queues_fit_agree s1 s2).
Qed.

Lemma well_formed_fields s1 s2 :
  threads s1 = threads s2 →
  ready_list s1 = ready_list s2 → sleep_list s1 = sleep_list s2 →
  destruction_req s1 = destruction_req s2 →
  idle_thread s1 = idle_thread s2 → running s1 = running s2 →
  free_pages s1 = free_pages s2 →
  well_formed s1 → well_formed s2.
Proof.
  intros Et. apply well_formed_agree; intros x; by rewrite Et.
Qed.

(** ** What the invariant gives the operations *)

Lemma well_formed_current s :
  well_formed s →
  ∃ cth, threads s !! running s = Some cth ∧ status cth = THREAD_RUNNING ∧
         running s ≠ 0 ∧ magic cth = THREAD_MAGIC.
Proof.
  intros [(_ & _ & th & Hth & Hs)%thread_current_Some Hq].
  exists th. destruct (qf_valid s Hq _ _ Hth). done.
Qed.

Lemma queues_fit_is_thread s t th :
  queues_fit s → threads s !! t = Some th → is_thread s t = true.
Proof.
  intros Hq Hth. apply is_thread_lookup. exists th.
  destruct (qf_valid s Hq _ _ Hth). done.
Qed.

Lemma queues_fit_victims_apart s cth :
  queues_fit s →
  threads s !! running s = Some cth → status cth = THREAD_RUNNING →
  victims_apart (running s) (ready_list s) (destruction_req s) = true.
Proof.
  intros Hq Hth Hs. unfold victims_apart. apply forallb_forall.
  intros v Hv%list_elem_of_In.
  destruct (queued_as_elem _ _ _ _ (qf_dying s Hq) Hv)
    as (t & th & -> & Hl & Hst).
  apply andb_true_intro. split; apply bool_decide_eq_true.
  - intros ->. congruence.
  - intros Hin.
    destruct (queued_as_elem _ _ _ _ (qf_ready s Hq) Hin)
      as (t' & th' & [= <-] & Hl' & Hst').
    congruence.
Qed.

Lemma queues_fit_elems_of_threads s :
  queues_fit s → elems_of_threads s (ready_list s) = true.
Proof.
  intros Hq. apply elems_of_threads_forall. intros e He.
  destruct (queued_as_elem _ _ _ _ (qf_ready s Hq) He)
    as (t & th & -> & Hl & Hst).
  exists t. split; [done|]. by apply (queues_fit_is_thread s t th).
Qed.

Lemma queues_fit_sleepers_blocked s :
  queues_fit s → sleepers_blocked s (sleep_list s) = true.
Proof.
  intros Hq. unfold sleepers_blocked. apply forallb_forall.
  intros e He%list_elem_of_In.
  destruct (queued_as_elem _ _ _ _ (qf_sleep s Hq) He)
    as (t & th & -> & Hl & Hst).
  rewrite (queues_fit_is_thread s t th Hq Hl), Hl.
  by apply bool_decide_eq_true.
Qed.

(** ** Giving the pages of the dead back *)

Lemma without_victims_nil (m : gmap Z thread) : without_victims [] m = m.
Proof. reflexivity. Qed.

Lemma flushed_free_pages_eq s :
  free_pages (flushed s)
  = reverse (elem_owner <$> destruction_req s) ++ free_pages s.
Proof. unfold flushed. destruct (destruction_req s); reflexivity. Qed.

Lemma flushed_more s :
  next_tid (flushed s) = next_tid s ∧
  idle_ticks (flushed s) = idle_ticks s ∧
  kernel_ticks (flushed s) = kernel_ticks s ∧
  user_ticks (flushed s) = user_ticks s.
Proof. unfold flushed. destruct (destruction_req s); done. Qed.

Lemma flushed_queues_fit s : queues_fit s → queues_fit (flushed s).
Proof.
  intros Hq.
  destruct (flushed_frame s) as (Er & Es & _ & Ei & _ & Erun & _).
  assert (∀ x th, threads (flushed s) !! x = Some th →
            threads s !! x = Some th ∧ x ∉ elem_owner <$> destruction_req s)
    as Hsub.
  { intros x th. rewrite flushed_threads. case_bool_decide; [done|]. done. }
  assert (∀ x th st, threads s !! x = Some th → status th = st →
            st ≠ THREAD_DYING → threads (flushed s) !! x = Some th) as Hkeep.
  { intros x th st Hl Hst Hnd. rewrite flushed_threads.
    rewrite bool_decide_eq_false_2; [done|].
    intros (v & -> & Hv)%list_elem_of_fmap.
    destruct (queued_as_elem _ _ _ _ (qf_dying s Hq) Hv)
      as (t & th' & -> & Hl' & Hst').
    cbn [elem_owner] in Hl. congruence. }
  assert (∀ st l, st ≠ THREAD_DYING →
            Forall (λ e, queued_as st s e = true) l →
            Forall (λ e, queued_as st (flushed s) e = true) l) as Hlist.
  { intros st l Hnd H. eapply Forall_impl; [exact H|]. intros e. cbn beta.
    intros (t & th & -> & Hl & Hst)%queued_as_true.
    apply queued_as_true. exists t, th. split; [done|].
    split; [|done]. by apply (Hkeep t th st). }
  split; rewrite ?Er, ?Es, ?Ei, ?Erun, ?flushed_destruction_req.
  - intros t th [Hl _]%Hsub. by apply (qf_valid s Hq t th).
  - intros t th [Hl _]%Hsub. by apply (qf_running s Hq t th).
  - intros t th [Hl _]%Hsub. by apply (qf_ready_queued s Hq t th).
  - apply Hlist; [done|]. by apply qf_ready.
  - apply Hlist; [done|]. by apply qf_sleep.
  - constructor.
  - by apply qf_ready_nodup.
  - by apply qf_sleep_nodup.
  - constructor.
  - apply Forall_forall. intros p Hp%flushed_free_pages.
    rewrite flushed_threads. case_bool_decide; [done|].
    destruct Hp as [Hp|Hp]; [done|].
    by apply (proj1 (Forall_forall _ _) (qf_free s Hq)).
  - rewrite flushed_free_pages_eq. apply NoDup_app. split; [|split].
    + rewrite reverse_Permutation. apply NoDup_fmap_2_strong; [|by apply qf_dying_nodup].
      intros x y Hx Hy.
      destruct (queued_as_elem _ _ _ _ (qf_dying s Hq) Hx)
        as (t & th & -> & _).
      destruct (queued_as_elem _ _ _ _ (qf_dying s Hq) Hy)
        as (t' & th' & -> & _).
      cbn [elem_owner]. by intros ->.
    + intros x Hx Hf. apply (proj1 (elem_of_reverse _ _)) in Hx.
      apply list_elem_of_fmap in Hx as (v & -> & Hv).
      destruct (queued_as_elem _ _ _ _ (qf_dying s Hq) Hv)
        as (t & th & -> & Hl & _).
      cbn [elem_owner] in Hf.
      pose proof (proj1 (Forall_forall _ _) (qf_free s Hq) t Hf) as Hn.
      cbn beta in Hn. congruence.
    + by apply qf_free_nodup.
  - intros i Hi. destruct (qf_idle s Hq i Hi) as ([th Hth] & ? & ? & Hnd).
    split; [|split; [done|split; [done|apply not_elem_of_nil]]].
    exists th. rewrite flushed_threads.
    rewrite bool_decide_eq_false_2; [done|].
    intros (v & Hv1 & Hv)%list_elem_of_fmap.
    destruct (queued_as_elem _ _ _ _ (qf_dying s Hq) Hv)
      as (t & th' & -> & _).
    cbn [elem_owner] in Hv1. by subst.
Qed.

Lemma flushed_current s cth :
  queues_fit s →
  threads s !! running s = Some cth → status cth = THREAD_RUNNING →
  threads (flushed s) !! running s = Some cth.
Proof.
  intros Hq Hl Hst. rewrite flushed_threads.
  rewrite bool_decide_eq_false_2; [done|].
  intros (v & Hv1 & Hv)%list_elem_of_fmap.
  destruct (queued_as_elem _ _ _ _ (qf_dying s Hq) Hv)
    as (t & th' & -> & Hl' & Hst').
  cbn [elem_owner] in Hv1. subst. congruence.
Qed.

(** ** The running thread leaves the CPU *)

(** The running thread [cur] takes the status of [th'] and is queued
    accordingly: the data still fit together. *)
Lemma queues_fit_requeue s s1 cur cth th' :
  queues_fit s →
  threads s !! cur = Some cth → status cth = THREAD_RUNNING →
  threads s1 = <[cur := th']> (threads s) →
  magic th' = magic cth → status th' ≠ THREAD_RUNNING →
  (status th' = THREAD_DYING → idle_thread s ≠ Some cur) →
  (∀ e, e ∈ ready_list s1 ↔
        e ∈ ready_list s ∨
        e = Elem cur ∧ status th' = THREAD_READY ∧ idle_thread s ≠ Some cur) →
  NoDup (ready_list s1) →
  (∀ e, e ∈ sleep_list s1 →
        e ∈ sleep_list s ∨
        e = Elem cur ∧ status th' = THREAD_BLOCKED ∧ idle_thread s ≠ Some cur) →
  NoDup (sleep_list s1) →
  destruction_req s1 = destruction_req s → free_pages s1 = free_pages s →
  idle_thread s1 = idle_thread s → running s1 = running s →
  queues_fit s1.
Proof.
  intros Hq Hcth Hrun Et Hmagic Hnr Hdying Hready Hrnd Hsleep Hsnd Ed Ef Ei Er.
  assert (∀ x th, x ≠ cur → threads s1 !! x = Some th →
            threads s !! x = Some th) as Hother.
  { intros x th Hne. by rewrite Et, lookup_insert_ne. }
  assert (threads s1 !! cur = Some th') as Hcur'
    by (by rewrite Et, lookup_insert_eq).
  assert (∀ st e, st ≠ THREAD_RUNNING → queued_as st s e = true →
            queued_as st s1 e = true) as Hkeep.
  { intros st e Hst (t & th & -> & Hl & Hs)%queued_as_true.
    apply queued_as_true. exists t, th. split; [done|]. split; [|done].
    rewrite Et, lookup_insert_ne; [done|]. intros <-. congruence. }
  split; rewrite ?Ed, ?Ef, ?Ei, ?Er.
  - intros t th Hl. destruct (decide (t = cur)) as [->|Hne].
    + rewrite Hcur' in Hl. injection Hl as <-. rewrite Hmagic.
      by apply (qf_valid s Hq cur cth).
    + apply (qf_valid s Hq t th). by apply Hother.
  - intros t th Hl Hst. destruct (decide (t = cur)) as [->|Hne].
    + rewrite Hcur' in Hl. injection Hl as <-. done.
    + apply (qf_running s Hq t th); [by apply Hother|done].
  - intros t th Hl Hst. destruct (decide (t = cur)) as [->|Hne].
    + rewrite Hcur' in Hl. injection Hl as <-.
      destruct (decide (idle_thread s = Some cur)) as [?|Hni]; [by right|].
      left. apply Hready. right. done.
    + destruct (qf_ready_queued s Hq t th) as [Hin|Hidle];
        [by apply Hother|done| |by right].
      left. apply Hready. by left.
  - apply Forall_forall. intros e [He|(-> & Hst & _)]%Hready.
    + apply Hkeep; [done|].
      by apply (proj1 (Forall_forall _ _) (qf_ready s Hq)).
    + apply queued_as_true. eauto.
  - apply Forall_forall. intros e [He|(-> & Hst & _)]%Hsleep.
    + apply Hkeep; [done|].
      by apply (proj1 (Forall_forall _ _) (qf_sleep s Hq)).
    + apply queued_as_true. eauto.
  - eapply Forall_impl; [by apply qf_dying|]. intros e. cbn beta.
    by apply Hkeep.
  - done.
  - done.
  - by apply qf_dying_nodup.
  - eapply Forall_impl; [by apply qf_free|]. intros p Hp. cbn beta in Hp.
    rewrite Et, lookup_insert_ne; [done|]. intros <-. congruence.
  - by apply qf_free_nodup.
  - intros i Hi. destruct (qf_idle s Hq i Hi) as (Hsome & Hr & Hs & Hd).
    split; [|split; [|split]].
    + rewrite Et. apply lookup_insert_is_Some'. by right.
    + intros [He|(He & _ & Hni)]%Hready; [done|]. congruence.
    + intros [He|(He & _ & Hni)]%Hsleep; [done|]. congruence.
    + done.
Qed.

(** ** [schedule] *)

Lemma dispatched_more curr cth next nth s :
  idle_thread (dispatched curr cth next nth s) = idle_thread s ∧
  initial_thread (dispatched curr cth next nth s) = initial_thread s ∧
  next_tid (dispatched curr cth next nth s) = next_tid s ∧
  locks (dispatched curr cth next nth s) = locks s ∧
  intr_context (dispatched curr cth next nth s) = intr_context s ∧
  yield_on_return (dispatched curr cth next nth s) = yield_on_return s ∧
  idle_ticks (dispatched curr cth next nth s) = idle_ticks s ∧
  kernel_ticks (dispatched curr cth next nth s) = kernel_ticks s ∧
  user_ticks (dispatched curr cth next nth s) = user_ticks s.
Proof.
  unfold dispatched.
  destruct (bool_decide (curr ≠ next)); [|done].
  destruct (bool_decide (status cth = THREAD_DYING)
            && bool_decide
                 (Some curr ≠
                  initial_thread
                    (set_thread_ticks 0
                       (store_thread next (with_status THREAD_RUNNING nth) s))));
    done.
Qed.

(** What a call of [schedule] that comes back has done. *)
Lemma schedule_Some s s' :
  schedule s = Some s' →
  ∃ cth next nth,
    intr_level s = INTR_OFF ∧
    threads s !! running s = Some cth ∧ status cth ≠ THREAD_RUNNING ∧
    selected s = Some next ∧ is_thread s next = true ∧
    threads s !! next = Some nth ∧
    s' = dispatched (running s) cth next nth
           (set_ready_list (tail (ready_list s)) s).
Proof.
  unfold schedule, next_thread_to_run, selected.
  assert (∀ o sx, sx = set_ready_list (tail (ready_list s)) s →
    (let '(next, s0) := (o, sx) in
     _ ← ASSERT (bool_decide (intr_level s0 = INTR_OFF));
     cth ← threads s0 !! running s;
     _ ← ASSERT (bool_decide (status cth ≠ THREAD_RUNNING));
     next ← next;
     _ ← ASSERT (is_thread s0 next);
     nth ← threads s0 !! next;
     let s1 := store_thread next (with_status THREAD_RUNNING nth) s0 in
     let s2 := set_thread_ticks 0 s1 in
     if bool_decide (running s ≠ next)
     then
       let s3 :=
         if bool_decide (status cth = THREAD_DYING)
            && bool_decide (Some (running s) ≠ initial_thread s2)
         then set_destruction_req
                (list_push_back (destruction_req s2) (Elem (running s))) s2
         else s2 in
       Some (thread_launch next s3)
     else Some s2) = Some s' →
    ∃ cth next nth,
      intr_level s = INTR_OFF ∧
      threads s !! running s = Some cth ∧ status cth ≠ THREAD_RUNNING ∧
      o = Some next ∧ is_thread s next = true ∧
      threads s !! next = Some nth ∧
      s' = dispatched (running s) cth next nth sx) as Hbody.
  { intros o sx ->. cbn beta iota.
    change (intr_level (set_ready_list (tail (ready_list s)) s))
      with (intr_level s).
    change (threads (set_ready_list (tail (ready_list s)) s))
      with (threads s).
    change (is_thread (set_ready_list (tail (ready_list s)) s))
      with (is_thread s).
    destruct (bool_decide (intr_level s = INTR_OFF)) eqn:Hi; [|discriminate].
    apply bool_decide_eq_true in Hi. cbn [ASSERT mbind option_bind].
    destruct (threads s !! running s) as [cth|] eqn:Hcth; [|discriminate].
    cbn [mbind option_bind].
    destruct (bool_decide (status cth ≠ THREAD_RUNNING)) eqn:Hs;
      [|discriminate].
    apply bool_decide_eq_true in Hs. cbn [ASSERT mbind option_bind].
    destruct o as [next|]; [|discriminate]. cbn [mbind option_bind].
    destruct (is_thread s next) eqn:Hn; [|discriminate].
    cbn [ASSERT mbind option_bind].
    destruct (threads s !! next) as [nth|] eqn:Hnth; [|discriminate].
    cbn [mbind option_bind]. intros H.
    exists cth, next, nth. do 6 (split; [done|]).
    unfold dispatched. destruct (bool_decide (running s ≠ next)); congruence. }
  destruct (ready_list s) as [|e rest] eqn:Hrl; cbn [list_pop_front tail].
  - assert (s = set_ready_list [] s) as Es
      by (apply state_ext; try reflexivity; exact Hrl).
    intros H. apply (Hbody _ s Es) in H. rewrite <- Es. exact H.
  - destruct e as [n|n]; cbn [list_entry].
    + by apply Hbody.
    + intros H. apply (Hbody None) in H as (? & ? & ? & _ & _ & _ & ? & _);
        done.
Qed.

(** After [schedule], the selected thread is on the CPU and the data fit
    together, if they did so when the outgoing thread had been given its
    new status. *)
Lemma schedule_well_formed s s' :
  queues_fit s → Elem (running s) ∉ destruction_req s →
  (∀ cth, threads s !! running s = Some cth → status cth = THREAD_DYING →
     idle_thread s ≠ Some (running s)) →
  schedule s = Some s' → well_formed s'.
Proof.
  intros Hq Hnd Hdy
    (cth & next & nth & Hoff & Hcth & Hnr & Hsel & Hnt & Hnth & ->)%schedule_Some.
  set (s0 := set_ready_list (tail (ready_list s)) s).
  destruct (dispatched_fields (running s) cth next nth s0)
    as (Et & Erun & Ed & Er & Es & Ef & _).
  destruct (dispatched_more (running s) cth next nth s0) as (Ei & _).
  set (s' := dispatched (running s) cth next nth s0) in *. clearbody s'.
  cbn [threads ready_list sleep_list free_pages idle_thread running
       destruction_req initial_thread s0 set_ready_list] in *. clear s0.
  assert (running s' = next) as Erun'.
  { rewrite Erun. case_bool_decide as Hc; [done|].
    destruct (decide (running s = next)); [done|]. by destruct Hc. }
  clear Erun.
  apply is_thread_lookup in Hnt as (nth' & Hnth' & Hnz & Hnm).
  assert (nth' = nth) as -> by congruence. clear Hnth'.
  (* the selected thread was ready, or it is the idle thread *)
  assert (ready_list s = Elem next :: ready_list s'
          ∨ ready_list s = [] ∧ ready_list s' = [] ∧ idle_thread s = Some next)
    as Hcase.
  { unfold selected in Hsel. rewrite Er.
    destruct (ready_list s) as [|[n|n] rest]; [by right| |done].
    left. cbn [tail]. congruence. }
  assert (∀ st e, st ≠ THREAD_RUNNING →
            (st = THREAD_READY → e ∈ ready_list s') →
            (st = THREAD_BLOCKED → e ∈ sleep_list s) →
            (st = THREAD_DYING → e ∈ destruction_req s) →
            queued_as st s e = true → queued_as st s' e = true) as Hkeep.
  { intros st e Hst Hr Hs Hd (t & th & -> & Hl & Hs')%queued_as_true.
    apply queued_as_true. exists t, th. split; [done|]. split; [|done].
    rewrite Et, lookup_insert_ne; [done|]. intros <-. exfalso.
    assert (th = nth) as -> by congruence. subst st.
    destruct Hcase as [Hc|(Hc & Hc2 & Hc')].
    - pose proof (qf_ready_nodup s Hq) as Hnd'. rewrite Hc in Hnd'.
      apply NoDup_cons_1_1 in Hnd'.
      assert (queued_as THREAD_READY s (Elem next) = true) as Hq'.
      { apply (proj1 (Forall_forall _ _) (qf_ready s Hq)). rewrite Hc. left. }
      apply queued_as_true in Hq' as (t' & th' & [= <-] & Hl' & Hst').
      assert (th' = nth) as -> by congruence.
      by apply Hnd', Hr.
    - destruct (qf_idle s Hq next Hc') as (_ & Hi1 & Hi2 & Hi3).
      destruct (status nth) eqn:Hsn.
      + done.
      + specialize (Hr eq_refl). rewrite Hc2 in Hr.
        by apply not_elem_of_nil in Hr.
      + by apply Hi2, Hs.
      + by apply Hi3, Hd. }
  split.
  - apply thread_current_Some. rewrite Erun'. split; [done|]. split.
    + apply is_thread_lookup. exists (with_status THREAD_RUNNING nth).
      rewrite Et, lookup_insert_eq. done.
    + exists (with_status THREAD_RUNNING nth).
      rewrite Et, lookup_insert_eq. done.
  - split; rewrite ?Erun', ?Ei, ?Es, ?Ef.
    + intros t th. rewrite Et. destruct (decide (t = next)) as [->|Hne].
      * rewrite lookup_insert_eq. intros [= <-]. done.
      * rewrite lookup_insert_ne by done. by apply qf_valid.
    + intros t th. rewrite Et. destruct (decide (t = next)) as [->|Hne];
        [done|].
      rewrite lookup_insert_ne by done. intros Hl Hst.
      pose proof (qf_running s Hq t th Hl Hst). congruence.
    + intros t th. rewrite Et. destruct (decide (t = next)) as [->|Hne].
      * rewrite lookup_insert_eq. by intros [= <-].
      * rewrite lookup_insert_ne by done. intros Hl Hst.
        destruct (qf_ready_queued s Hq t th Hl Hst) as [Hin|?];
          [|by right].
        left. destruct Hcase as [Hc|(Hc & _)]; rewrite Hc in Hin.
        -- apply elem_of_cons in Hin as [[= ->]|Hin]; done.
        -- by apply not_elem_of_nil in Hin.
    + apply Forall_forall. intros e He.
      apply Hkeep; [done|done|done|done|].
      apply (proj1 (Forall_forall _ _) (qf_ready s Hq)).
      destruct Hcase as [Hc|(_ & Hc & _)].
      * rewrite Hc. by right.
      * rewrite Hc in He. by apply not_elem_of_nil in He.
    + apply Forall_forall. intros e He.
      apply Hkeep; [done|done|done|done|].
      by apply (proj1 (Forall_forall _ _) (qf_sleep s Hq)).
    + rewrite Ed.
      assert (Forall (λ e, queued_as THREAD_DYING s' e = true)
                (destruction_req s)) as Hold.
      { apply Forall_forall. intros e He.
        apply Hkeep; [done|done|done|done|].
        by apply (proj1 (Forall_forall _ _) (qf_dying s Hq)). }
      destruct (bool_decide (running s ≠ next)
                && bool_decide (status cth = THREAD_DYING)
                && bool_decide (Some (running s) ≠ initial_thread s))
        eqn:Hpush; [|done].
      apply andb_prop in Hpush as [Hpush _].
      apply andb_prop in Hpush as [Hp1 Hp2].
      apply bool_decide_eq_true in Hp1, Hp2.
      apply Forall_app. split; [done|]. apply Forall_singleton.
      apply queued_as_true. exists (running s), cth.
      split; [done|]. split; [|done]. by rewrite Et, lookup_insert_ne.
    + destruct Hcase as [Hc|(_ & Hc & _)].
      * pose proof (qf_ready_nodup s Hq) as Hn. rewrite Hc in Hn.
        by apply NoDup_cons_1_2 in Hn.
      * rewrite Hc. constructor.
    + by apply qf_sleep_nodup.
    + rewrite Ed.
      destruct (bool_decide (running s ≠ next)
                && bool_decide (status cth = THREAD_DYING)
                && bool_decide (Some (running s) ≠ initial_thread s));
        [|by apply qf_dying_nodup].
      apply NoDup_app. split; [by apply qf_dying_nodup|].
      split; [|apply NoDup_singleton].
      intros x Hx ->%list_elem_of_singleton. done.
    + eapply Forall_impl; [by apply qf_free|]. intros p Hp. cbn beta in Hp.
      rewrite Et, lookup_insert_ne; [done|]. intros <-. congruence.
    + by apply qf_free_nodup.
    + intros i Hi. destruct (qf_idle s Hq i Hi) as (Hsome & Hr & Hs & Hd).
      split; [|split; [|split]].
      * rewrite Et. apply lookup_insert_is_Some'. by right.
      * destruct Hcase as [Hc|(_ & Hc & _)].
        -- rewrite Hc in Hr. by apply not_elem_of_cons in Hr as [_ Hr].
        -- rewrite Hc. apply not_elem_of_nil.
      * done.
      * rewrite Ed.
        destruct (bool_decide (running s ≠ next)
                  && bool_decide (status cth = THREAD_DYING)
                  && bool_decide (Some (running s) ≠ initial_thread s))
          eqn:Hpush; [|done].
        apply andb_prop in Hpush as [Hpush _].
        apply andb_prop in Hpush as [Hp1 Hp2].
        apply bool_decide_eq_true in Hp2.
        apply not_elem_of_app. split; [done|].
        intros [= ->]%list_elem_of_singleton.
        by apply (Hdy cth Hcth Hp2).
Qed.

(** ** The operations keep the data consistent *)

Lemma NoDup_list_insert_ordered {A} (less : A → A → bool) e l :
  e ∉ l → NoDup l → NoDup (list_insert_ordered less e l).
Proof.
  intros Hin Hnd.
  destruct (list_insert_ordered_split less e l) as (l1 & l2 & -> & -> & _).
  rewrite <- Permutation_middle. by apply NoDup_cons.
Qed.

(** The running thread is given the status of [th'] and [schedule] is
    called. *)
Lemma leave_cpu_well_formed s s1 s' cth th' :
  queues_fit s →
  threads s !! running s = Some cth → status cth = THREAD_RUNNING →
  threads s1 = <[running s := th']> (threads s) →
  magic th' = magic cth → status th' ≠ THREAD_RUNNING →
  (status th' = THREAD_DYING → idle_thread s ≠ Some (running s)) →
  (∀ e, e ∈ ready_list s1 ↔
        e ∈ ready_list s ∨
        e = Elem (running s) ∧ status th' = THREAD_READY ∧
        idle_thread s ≠ Some (running s)) →
  NoDup (ready_list s1) →
  (∀ e, e ∈ sleep_list s1 →
        e ∈ sleep_list s ∨
        e = Elem (running s) ∧ status th' = THREAD_BLOCKED ∧
        idle_thread s ≠ Some (running s)) →
  NoDup (sleep_list s1) →
  destruction_req s1 = destruction_req s → free_pages s1 = free_pages s →
  idle_thread s1 = idle_thread s → running s1 = running s →
  schedule s1 = Some s' → well_formed s'.
Proof.
  intros Hq Hcth Hrun Et Hmagic Hnr Hdying Hready Hrnd Hsleep Hsnd Ed Ef Ei Er.
  apply schedule_well_formed.
  - by apply (queues_fit_requeue s s1 (running s) cth th').
  - rewrite Ed, Er. intros Hin.
    destruct (queued_as_elem _ _ _ _ (qf_dying s Hq) Hin)
      as (t & th & [= <-] & Hl & Hst).
    congruence.
  - rewrite Er, Ei, Et, lookup_insert_eq. intros ? [= <-]. done.
Qed.

Lemma thread_yield_intr_context s :
  intr_context s = true → thread_yield s = None.
Proof.
  intros H. unfold thread_yield.
  destruct (thread_current s); [|done]. cbn [mbind option_bind].
  by rewrite H.
Qed.

Lemma thread_exit_intr_context s :
  intr_context s = true → thread_exit s = None.
Proof. intros H. unfold thread_exit. by rewrite H. Qed.

Lemma thread_block_intr_context s :
  intr_context s = true → thread_block s = None.
Proof. intros H. unfold thread_block. by rewrite H. Qed.

Lemma set_intr_level_queues_fit l s :
  queues_fit s → queues_fit (set_intr_level l s).
Proof. by apply queues_fit_fields. Qed.

Lemma set_intr_level_well_formed l s :
  well_formed s → well_formed (set_intr_level l s).
Proof. by apply well_formed_fields. Qed.

Lemma flushed_set_ready_list l s :
  flushed (set_ready_list l s) = set_ready_list l (flushed s).
Proof.
  unfold flushed. cbn [destruction_req set_ready_list].
  destruct (destruction_req s); [done|]. by apply state_ext.
Qed.

Lemma yield_queue_spec s cur e :
  e ∈ yield_queue s cur ↔
  e ∈ ready_list s ∨ e = Elem cur ∧ idle_thread s ≠ Some cur.
Proof.
  unfold yield_queue. case_bool_decide as Hi.
  - rewrite elem_of_list_insert_ordered. split.
    + intros [->|?]; [right|by left]. split; [done|]. congruence.
    + intros [?|[-> _]]; auto.
  - split; [by left|]. intros [?|[_ Hni]]; [done|].
    destruct Hi. congruence.
Qed.

Lemma yield_queue_NoDup s cur :
  Elem cur ∉ ready_list s → NoDup (ready_list s) → NoDup (yield_queue s cur).
Proof.
  intros Hin Hnd. unfold yield_queue. case_bool_decide; [|done].
  by apply NoDup_list_insert_ordered.
Qed.

Lemma well_formed_running_not_queued s :
  well_formed s →
  (Elem (running s) ∉ ready_list s) ∧ (Elem (running s) ∉ sleep_list s) ∧
  (Elem (running s) ∉ destruction_req s).
Proof.
  intros Hwf. destruct (well_formed_current s Hwf) as (cth & Hcth & Hrun & _).
  destruct Hwf as [_ Hq].
  split; [|split]; intros Hin.
  - destruct (queued_as_elem _ _ _ _ (qf_ready s Hq) Hin)
      as (t & th & [= <-] & Hl & Hst). congruence.
  - destruct (queued_as_elem _ _ _ _ (qf_sleep s Hq) Hin)
      as (t & th & [= <-] & Hl & Hst). congruence.
  - destruct (queued_as_elem _ _ _ _ (qf_dying s Hq) Hin)
      as (t & th & [= <-] & Hl & Hst). congruence.
Qed.

Lemma thread_block_well_formed s s' :
  well_formed s → thread_block s = Some s' → well_formed s'.
Proof.
  intros Hwf (t & th & Hcur & Hth & Hs)%thread_block_inv.
  destruct (well_formed_current s Hwf) as (cth & Hcth & Hrun & _).
  destruct Hwf as [Hc Hq].
  assert (t = running s) as -> by congruence.
  assert (th = cth) as -> by congruence.
  revert Hs.
  apply (leave_cpu_well_formed s _ s' cth (with_status THREAD_BLOCKED cth));
    cbn [threads ready_list sleep_list destruction_req free_pages idle_thread
         running store_thread set_threads]; try done.
  - intros e. split; [auto|]. by intros [?|(_ & ? & _)].
  - by apply qf_ready_nodup.
  - auto.
  - by apply qf_sleep_nodup.
Qed.

Lemma thread_yield_well_formed s s' :
  well_formed s → thread_yield s = Some s' → well_formed s'.
Proof.
  intros Hwf Hy.
  destruct (intr_context s) eqn:Hctx;
    [by rewrite thread_yield_intr_context in Hy|].
  destruct (well_formed_current s Hwf) as (cth & Hcth & Hrun & _).
  destruct (well_formed_running_not_queued s Hwf) as (Hnr & _).
  destruct Hwf as [Hc Hq].
  rewrite (thread_yield_schedule s (running s) cth Hc Hcth Hctx) in Hy
    by (by apply (queues_fit_victims_apart s cth)).
  rewrite flushed_set_ready_list in Hy.
  set (sf := flushed (set_intr_level INTR_OFF s)) in *.
  assert (queues_fit sf) as Hqf
    by (by apply flushed_queues_fit, set_intr_level_queues_fit).
  assert (threads sf !! running s = Some cth) as Hcf.
  { apply (flushed_current (set_intr_level INTR_OFF s)); [|done|done].
    by apply set_intr_level_queues_fit. }
  destruct (flushed_frame (set_intr_level INTR_OFF s))
    as (Er & Es & _ & Ei & _ & Erun & _).
  fold sf in Er, Es, Ei, Erun.
  cbn [ready_list sleep_list idle_thread running set_intr_level] in *.
  destruct (schedule _) as [s1|] eqn:Hs; [|done].
  cbn [mbind option_bind] in Hy.
  assert (well_formed s1) as Hw1.
  { revert Hs.
    apply (leave_cpu_well_formed sf _ s1 cth (with_status THREAD_READY cth));
      rewrite ?Erun, ?Ei, ?Er, ?Es; try done.
    - intros e. cbn [ready_list store_thread set_threads set_ready_list].
      rewrite yield_queue_spec. split.
      + intros [?|[-> ?]]; auto.
      + intros [?|(-> & _ & ?)]; auto.
    - cbn [ready_list store_thread set_threads set_ready_list].
      apply yield_queue_NoDup; [done|]. by apply qf_ready_nodup.
    - cbn [sleep_list store_thread set_threads set_ready_list].
      rewrite Es. auto.
    - cbn [sleep_list store_thread set_threads set_ready_list].
      rewrite Es. by apply qf_sleep_nodup. }
  case_bool_decide; injection Hy as <-; [|done].
  by apply set_intr_level_well_formed.
Qed.

Lemma thread_exit_well_formed s s' :
  well_formed s → idle_thread s ≠ Some (running s) →
  thread_exit s = Some s' → well_formed s'.
Proof.
  intros Hwf Hni Hy.
  destruct (intr_context s) eqn:Hctx;
    [by rewrite thread_exit_intr_context in Hy|].
  destruct (well_formed_current s Hwf) as (cth & Hcth & Hrun & _).
  destruct Hwf as [Hc Hq].
  rewrite (thread_exit_schedule s (running s) cth Hc Hcth Hctx) in Hy
    by (by apply (queues_fit_victims_apart s cth)).
  set (sf := flushed (set_intr_level INTR_OFF s)) in *.
  assert (queues_fit sf) as Hqf
    by (by apply flushed_queues_fit, set_intr_level_queues_fit).
  assert (threads sf !! running s = Some cth) as Hcf.
  { apply (flushed_current (set_intr_level INTR_OFF s)); [|done|done].
    by apply set_intr_level_queues_fit. }
  destruct (flushed_frame (set_intr_level INTR_OFF s))
    as (Er & Es & _ & Ei & _ & Erun & _).
  fold sf in Er, Es, Ei, Erun.
  cbn [ready_list sleep_list idle_thread running set_intr_level] in *.
  destruct (schedule _) as [s1|] eqn:Hs; [|done].
  cbn [mbind option_bind] in Hy.
  case_bool_decide; [done|]. injection Hy as <-.
  revert Hs.
  apply (leave_cpu_well_formed sf _ s1 cth (with_status THREAD_DYING cth));
    rewrite ?Erun, ?Ei, ?Er, ?Es; try done.
  - intros e. cbn [ready_list store_thread set_threads]. rewrite Er.
    split; [auto|]. by intros [?|(_ & ? & _)].
  - cbn [ready_list store_thread set_threads]. rewrite Er.
    by apply qf_ready_nodup.
  - cbn [sleep_list store_thread set_threads]. rewrite Es. auto.
  - cbn [sleep_list store_thread set_threads]. rewrite Es.
    by apply qf_sleep_nodup.
Qed.

(** [thread_unblock] on a thread that is neither asleep nor the idle
    thread. *)
Lemma thread_unblock_inv t s s' :
  thread_unblock t s = Some s' →
  ∃ th, threads s !! t = Some th ∧ t ≠ 0 ∧ magic th = THREAD_MAGIC ∧
        status th = THREAD_BLOCKED ∧
        s' = set_intr_level (intr_level s)
               (store_thread t (with_status THREAD_READY th)
                  (set_ready_list
                     (list_insert_ordered (thread_compare_priority s) (Elem t)
                        (ready_list s)) s)).
Proof.
  intros H.
  destruct (is_thread s t) eqn:Ht;
    [|unfold thread_unblock in H; by rewrite Ht in H].
  apply is_thread_lookup in Ht as (th & Hth & Hz & Hm).
  destruct (decide (status th = THREAD_BLOCKED)) as [Hst|Hst];
    [destruct (decide (Elem t ∈ sleep_list s)) as [Hin|Hns]|].
  - exfalso. unfold thread_unblock in H.
    rewrite (proj2 (is_thread_lookup s t)) in H by eauto.
    cbn [ASSERT mbind option_bind intr_disable] in H.
    change (threads (set_intr_level INTR_OFF s)) with (threads s) in H.
    rewrite Hth in H. cbn [mbind option_bind] in H.
    rewrite (bool_decide_eq_true_2 (status th = THREAD_BLOCKED)) in H by done.
    cbn [ASSERT mbind option_bind] in H.
    change (sleep_list (set_intr_level INTR_OFF s)) with (sleep_list s) in H.
    rewrite bool_decide_eq_false_2 in H by (intros Hn; by apply Hn).
    done.
  - rewrite (thread_unblock_Some t s th Hth Hz Hm Hst Hns) in H.
    injection H as <-. eauto 10.
  - exfalso. unfold thread_unblock in H.
    rewrite (proj2 (is_thread_lookup s t)) in H by eauto.
    cbn [ASSERT mbind option_bind intr_disable] in H.
    change (threads (set_intr_level INTR_OFF s)) with (threads s) in H.
    rewrite Hth in H. cbn [mbind option_bind] in H.
    by rewrite (bool_decide_eq_false_2 (status th = THREAD_BLOCKED)) in H.
Qed.

(** [thread_unblock] has a result for a thread off the sleep list only. *)
Lemma thread_unblock_unlinked t s s' :
  thread_unblock t s = Some s' → Elem t ∉ sleep_list s.
Proof.
  intros H Hin.
  pose proof H as (th & Hth & Hz & Hm & Hst & _)%thread_unblock_inv.
  unfold thread_unblock in H.
  rewrite (proj2 (is_thread_lookup s t)) in H by eauto.
  cbn [ASSERT mbind option_bind intr_disable] in H.
  change (threads (set_intr_level INTR_OFF s)) with (threads s) in H.
  rewrite Hth in H. cbn [mbind option_bind] in H.
  rewrite (bool_decide_eq_true_2 (status th = THREAD_BLOCKED)) in H by done.
  cbn [ASSERT mbind option_bind] in H.
  change (sleep_list (set_intr_level INTR_OFF s)) with (sleep_list s) in H.
  rewrite bool_decide_eq_false_2 in H by (intros Hn; by apply Hn).
  done.
Qed.

Lemma thread_unblock_well_formed t s s' :
  well_formed s → Elem t ∉ sleep_list s → idle_thread s ≠ Some t →
  thread_unblock t s = Some s' → well_formed s'.
Proof.
  intros Hwf Hns Hni (th & Hth & Hz & Hm & Hst & ->)%thread_unblock_inv.
  destruct (well_formed_current s Hwf) as (cth & Hcth & Hrun & _).
  destruct Hwf as [Hc Hq].
  assert (t ≠ running s) as Hne by (intros ->; congruence).
  assert (Elem t ∉ ready_list s) as Hnr.
  { intros Hin.
    destruct (queued_as_elem _ _ _ _ (qf_ready s Hq) Hin)
      as (t' & th' & [= <-] & Hl & Hst'). congruence. }
  set (rl := list_insert_ordered (thread_compare_priority s) (Elem t)
               (ready_list s)).
  assert (∀ st e, st ≠ THREAD_BLOCKED ∨ e ∈ sleep_list s →
            queued_as st s e = true →
            queued_as st
              (set_intr_level (intr_level s)
                 (store_thread t (with_status THREAD_READY th)
                    (set_ready_list rl s))) e = true) as Hkeep.
  { intros st e Hor (x & xh & -> & Hl & Hs)%queued_as_true.
    apply queued_as_true. exists x, xh. split; [done|]. split; [|done].
    cbn [threads set_intr_level store_thread set_threads set_ready_list].
    rewrite lookup_insert_ne; [done|]. intros <-.
    destruct Hor as [?|?]; [congruence|done]. }
  split.
  - apply thread_current_Some.
    cbn [running threads set_intr_level store_thread set_threads
         set_ready_list].
    split; [done|]. split.
    + apply is_thread_lookup. exists cth.
      cbn [threads set_intr_level store_thread set_threads set_ready_list].
      rewrite lookup_insert_ne by done.
      destruct (qf_valid s Hq _ _ Hcth). done.
    + exists cth. by rewrite lookup_insert_ne.
  - split;
      cbn [running threads ready_list sleep_list destruction_req free_pages
           idle_thread set_intr_level store_thread set_threads set_ready_list].
    + intros x xh. destruct (decide (x = t)) as [->|Hx].
      * rewrite lookup_insert_eq. intros [= <-]. done.
      * rewrite lookup_insert_ne by done. by apply qf_valid.
    + intros x xh. destruct (decide (x = t)) as [->|Hx].
      * rewrite lookup_insert_eq. by intros [= <-].
      * rewrite lookup_insert_ne by done. by apply qf_running.
    + intros x xh. destruct (decide (x = t)) as [->|Hx].
      * intros _ _. left. apply elem_of_list_insert_ordered. by left.
      * rewrite lookup_insert_ne by done. intros Hl Hs.
        destruct (qf_ready_queued s Hq x xh Hl Hs) as [?|?]; [|by right].
        left. apply elem_of_list_insert_ordered. by right.
    + apply Forall_forall.
      intros e [->|He]%elem_of_list_insert_ordered.
      * apply queued_as_true. exists t, (with_status THREAD_READY th).
        cbn [threads set_intr_level store_thread set_threads set_ready_list].
        by rewrite lookup_insert_eq.
      * apply Hkeep; [by left|].
        by apply (proj1 (Forall_forall _ _) (qf_ready s Hq)).
    + apply Forall_forall. intros e He. apply Hkeep; [by right|].
      by apply (proj1 (Forall_forall _ _) (qf_sleep s Hq)).
    + apply Forall_forall. intros e He. apply Hkeep; [by left|].
      by apply (proj1 (Forall_forall _ _) (qf_dying s Hq)).
    + apply NoDup_list_insert_ordered; [done|]. by apply qf_ready_nodup.
    + by apply qf_sleep_nodup.
    + by apply qf_dying_nodup.
    + eapply Forall_impl; [by apply qf_free|]. intros p Hp. cbn beta in Hp.
      rewrite lookup_insert_ne; [done|]. intros <-. congruence.
    + by apply qf_free_nodup.
    + intros i Hi. destruct (qf_idle s Hq i Hi) as (Hsome & Hr & Hs & Hd).
      split; [|split; [|done]].
      * apply lookup_insert_is_Some'. by right.
      * intros [[= ->]|?]%elem_of_list_insert_ordered; done.
Qed.

(** ** Changes of a TCB that the queues do not see *)

Lemma store_thread_twice t a b s :
  store_thread t a (store_thread t b s) = store_thread t a s.
Proof.
  apply state_ext; try reflexivity.
  cbn [threads store_thread set_threads]. apply insert_insert_eq.
Qed.

Lemma lookup_store_agree {B} (f : thread → B) s t th th' x :
  threads s !! t = Some th → f th' = f th →
  f <$> threads (store_thread t th' s) !! x = f <$> threads s !! x.
Proof.
  intros Hth Hf. cbn [threads store_thread set_threads].
  destruct (decide (x = t)) as [->|Hne].
  - rewrite lookup_insert_eq, Hth. cbn. by rewrite Hf.
  - by rewrite lookup_insert_ne.
Qed.

Lemma well_formed_store s t th th' :
  well_formed s → threads s !! t = Some th →
  status th' = status th → magic th' = magic th →
  well_formed (store_thread t th' s).
Proof.
  intros Hwf Hth Hs Hm. revert Hwf.
  apply well_formed_agree; try reflexivity; intros x; symmetry.
  - by apply (lookup_store_agree status s t th).
  - by apply (lookup_store_agree magic s t th).
Qed.

(** ** [thread_sleep] and [thread_awake] *)

Lemma thread_sleep_inv ticks s s' :
  thread_sleep ticks s = Some s' →
  ∃ cth s1,
    thread_current s = Some (running s) ∧
    idle_thread s ≠ Some (running s) ∧
    threads s !! running s = Some cth ∧
    thread_block
      (set_sleep_list (sleep_list s ++ [Elem (running s)])
         (store_thread (running s) (with_wakeup ticks cth)
            (set_intr_level INTR_OFF s))) = Some s1 ∧
    s' = (if bool_decide (running s1 = running s)
          then intr_set_level (intr_level s) s1 else s1).
Proof.
  unfold thread_sleep. cbn [intr_disable].
  rewrite (thread_current_ext (set_intr_level INTR_OFF s) s) by done.
  destruct (thread_current s) as [cur|] eqn:Hcur; [|done].
  cbn [mbind option_bind].
  assert (cur = running s) as ->
    by (by apply thread_current_Some in Hcur as [? _]).
  change (idle_thread (set_intr_level INTR_OFF s)) with (idle_thread s).
  change (threads (set_intr_level INTR_OFF s)) with (threads s).
  case_bool_decide as Hi; [|done]. cbn [ASSERT mbind option_bind].
  destruct (threads s !! running s) as [cth|] eqn:Hcth; [|done].
  cbn [mbind option_bind]. unfold list_push_back.
  cbn [sleep_list store_thread set_threads set_intr_level].
  destruct (thread_block _) as [s1|] eqn:Hb; [|done].
  cbn [mbind option_bind]. intros H.
  exists cth, s1. split; [done|]. split; [congruence|]. split; [done|].
  split; [exact Hb|]. case_bool_decide; congruence.
Qed.

Lemma thread_sleep_well_formed ticks s s' :
  well_formed s → thread_sleep ticks s = Some s' → well_formed s'.
Proof.
  intros Hwf (cth & s1 & Hcur & Hni & Hcth & Hb & ->)%thread_sleep_inv.
  destruct (well_formed_current s Hwf) as (cth' & Hcth' & Hrun & _).
  assert (cth' = cth) as -> by congruence.
  destruct (well_formed_running_not_queued s Hwf) as (_ & Hns & _).
  destruct Hwf as [Hc Hq].
  apply thread_block_inv in Hb as (t & th & Hcur' & Hth & Hs).
  assert (t = running s) as ->
    by (by apply thread_current_Some in Hcur' as [? _]).
  cbn [threads set_sleep_list store_thread set_threads set_intr_level] in Hth.
  rewrite lookup_insert_eq in Hth. injection Hth as <-.
  assert (well_formed s1) as Hw1.
  { revert Hs.
    apply (leave_cpu_well_formed s _ s1 cth
             (with_status THREAD_BLOCKED (with_wakeup ticks cth)));
      cbn [threads ready_list sleep_list destruction_req free_pages
           idle_thread running store_thread set_threads set_sleep_list
           set_intr_level]; try done.
    - apply insert_insert_eq.
    - intros e. split; [auto|]. by intros [?|(_ & ? & _)].
    - by apply qf_ready_nodup.
    - intros e [?|He%list_elem_of_singleton]%elem_of_app; [by left|].
      right. split; [done|]. split; [done|congruence].
    - apply NoDup_app. split; [by apply qf_sleep_nodup|].
      split; [|apply NoDup_singleton].
      by intros e He ->%list_elem_of_singleton. }
  case_bool_decide; [|done]. by apply set_intr_level_well_formed.
Qed.

Lemma elem_of_list_remove e l x : x ∈ list_remove e l → x ∈ l.
Proof.
  induction l as [|y l IH]; cbn [list_remove]; [done|].
  destruct (decide (y = e)); [by right|].
  intros [->|?]%elem_of_cons; [left|right; auto].
Qed.

Lemma elem_of_list_remove_ne e l x : x ∈ l → x ≠ e → x ∈ list_remove e l.
Proof.
  induction l as [|y l IH]; cbn [list_remove]; [done|].
  intros [->|Hin]%elem_of_cons Hne.
  - rewrite decide_False by done. left.
  - destruct (decide (y = e)); [done|]. right. auto.
Qed.

Lemma NoDup_list_remove e l : NoDup l → NoDup (list_remove e l).
Proof.
  induction 1 as [|y l Hy Hnd IH]; cbn [list_remove]; [constructor|].
  destruct (decide (y = e)); [done|].
  constructor; [|done]. intros Hin%elem_of_list_remove. done.
Qed.

Lemma not_elem_of_list_remove e l : NoDup l → e ∉ list_remove e l.
Proof.
  induction 1 as [|y l Hy Hnd IH]; cbn [list_remove]; [apply not_elem_of_nil|].
  destruct (decide (y = e)) as [->|Hne]; [done|].
  apply not_elem_of_cons. split; [congruence|done].
Qed.

Lemma well_formed_sleep_remove e s :
  well_formed s → well_formed (set_sleep_list (list_remove e (sleep_list s)) s).
Proof.
  intros [Hc Hq]. split.
  - by rewrite (thread_current_ext _ s).
  - destruct Hq. split;
      cbn [threads ready_list sleep_list destruction_req free_pages
           idle_thread running set_sleep_list]; try done.
    + apply Forall_forall. intros x Hx%elem_of_list_remove.
      by apply (proj1 (Forall_forall _ _) qf_sleep0).
    + by apply NoDup_list_remove.
    + intros i Hi. destruct (qf_idle0 i Hi) as (? & ? & Hs & ?).
      split; [done|]. split; [done|]. split; [|done].
      intros Hx%elem_of_list_remove. done.
Qed.

Lemma thread_awake_loop_well_formed ticks rest :
  ∀ s s' n,
    well_formed s → NoDup rest → (∀ e, e ∈ rest → e ∈ sleep_list s) →
    thread_awake_loop ticks rest s = Some (s', n) → well_formed s'.
Proof.
  induction rest as [|e rest IH]; intros s s' n Hwf Hnd Hsub;
    cbn [thread_awake_loop].
  - by intros [= <- _].
  - destruct e as [t|t]; cbn [list_entry load_thread]; [|done].
    destruct (threads s !! t) as [th|] eqn:Hth; [|done].
    cbn [mbind option_bind].
    apply NoDup_cons in Hnd as [Hne Hnd].
    destruct (wakeup th <=? ticks).
    + destruct (thread_unblock t _) as [s2|] eqn:Hun; [|done].
      cbn [mbind option_bind].
      destruct (thread_awake_loop ticks rest s2) as [[s3 k]|] eqn:Hl; [|done].
      cbn [mbind option_bind]. intros [= <- _].
      pose proof (well_formed_sleep_remove (Elem t) s Hwf) as Hw1.
      assert (well_formed s2) as Hw2.
      { revert Hun. apply thread_unblock_well_formed; [done| |].
        - cbn [sleep_list set_sleep_list]. apply not_elem_of_list_remove.
          by apply qf_sleep_nodup, Hwf.
        - cbn [idle_thread set_sleep_list]. intros Hi.
          destruct Hwf as [_ Hq].
          destruct (qf_idle s Hq t Hi) as (_ & _ & Hs & _).
          apply Hs, Hsub. left. }
      apply (IH s2 s3 k Hw2 Hnd); [|done].
      apply thread_unblock_inv in Hun as (? & _ & _ & _ & _ & ->).
      cbn [sleep_list set_intr_level store_thread set_threads set_ready_list
           set_sleep_list].
      intros y Hy. apply elem_of_list_remove_ne; [apply Hsub; by right|].
      intros ->. done.
    + destruct (thread_awake_loop ticks rest s) as [[s3 k]|] eqn:Hl; [|done].
      cbn [mbind option_bind]. intros [= <- _].
      apply (IH s s3 k Hwf Hnd); [|done].
      intros x Hx. apply Hsub. by right.
Qed.

Lemma thread_awake_well_formed ticks s s' :
  well_formed s → thread_awake ticks s = Some s' → well_formed s'.
Proof.
  intros Hwf. unfold thread_awake.
  destruct (thread_awake_loop ticks (sleep_list s) s) as [[s1 n]|] eqn:Hl;
    [|done].
  cbn. intros [= <-].
  apply (thread_awake_loop_well_formed ticks (sleep_list s) s s1 n);
    [done| |done|done].
  by apply qf_sleep_nodup, Hwf.
Qed.

(** ** The preemption check, [thread_create] and the priorities *)

Lemma thread_test_max_priority_cases s s' :
  thread_test_max_priority s = Some s' → s' = s ∨ thread_yield s = Some s'.
Proof.
  unfold thread_test_max_priority.
  destruct (list_empty (ready_list s)); [intros [= <-]; by left|].
  do 3 first_step.
  destruct (_ <? _); [by right|]. intros [= <-]. by left.
Qed.

Lemma thread_test_max_priority_well_formed s s' :
  well_formed s → thread_test_max_priority s = Some s' → well_formed s'.
Proof.
  intros Hwf [->|Hy]%thread_test_max_priority_cases; [done|].
  by apply (thread_yield_well_formed s).
Qed.

Lemma thread_create_inv nm prio function aux s tid' s' :
  thread_create nm prio function aux s = Some (tid', s') →
  free_pages s = [] ∧ tid' = TID_ERROR ∧ s' = s
  ∨ ∃ p rest s1,
      free_pages s = p :: rest ∧ function ≠ 0 ∧ p ≠ 0 ∧
      PRI_MIN ≤ prio ≤ PRI_MAX ∧ tid' = next_tid s ∧
      thread_unblock p
        (store_thread p (created_tcb nm prio (next_tid s) THREAD_BLOCKED)
           (set_next_tid (wrap_int (next_tid s + 1))
              (set_free_pages rest s))) = Some s1 ∧
      thread_test_max_priority s1 = Some s'.
Proof.
  intros H.
  destruct (decide (function = 0)) as [->|Hf];
    [unfold thread_create in H; by rewrite bool_decide_eq_false_2 in H|].
  destruct (free_pages s) as [|p rest] eqn:Hfree.
  { rewrite thread_create_no_page in H by done. injection H as <- <-.
    by left. }
  right.
  assert (p ≠ 0 ∧ PRI_MIN ≤ prio ≤ PRI_MAX) as [Hp Hprio].
  { unfold thread_create, palloc_get_page in H.
    rewrite bool_decide_eq_true_2, Hfree in H by done.
    cbn [ASSERT mbind option_bind] in H.
    destruct (init_thread p nm prio _) as [sx|] eqn:Hi; [|done].
    by apply init_thread_inv in Hi as (_ & ? & ?). }
  rewrite (thread_create_unfold nm prio function aux s p rest Hf Hfree Hp
             Hprio) in H.
  destruct (thread_unblock p _) as [s1|] eqn:Hun; [|done].
  cbn [mbind option_bind] in H.
  destruct (thread_test_max_priority s1) as [s2|] eqn:Ht; [|done].
  injection H as <- <-. exists p, rest, s1. done.
Qed.

Lemma well_formed_new_thread s s0 p rest th :
  well_formed s → free_pages s = p :: rest → p ≠ 0 →
  magic th = THREAD_MAGIC → status th = THREAD_BLOCKED →
  threads s0 = <[p := th]> (threads s) → free_pages s0 = rest →
  ready_list s0 = ready_list s → sleep_list s0 = sleep_list s →
  destruction_req s0 = destruction_req s → idle_thread s0 = idle_thread s →
  running s0 = running s →
  well_formed s0 ∧ (Elem p ∉ sleep_list s0) ∧ idle_thread s0 ≠ Some p.
Proof.
  intros Hwf Hfree Hp Hm Hst Et Ef Er Es Ed Ei Erun.
  destruct (well_formed_current s Hwf) as (cth & Hcth & Hrun & Hz & Hcm).
  destruct Hwf as [Hc Hq].
  assert (threads s !! p = None) as Hnone.
  { apply (proj1 (Forall_forall _ _) (qf_free s Hq)). rewrite Hfree. left. }
  assert (∀ st e, queued_as st s e = true → queued_as st s0 e = true)
    as Hkeep.
  { intros st e (t & xh & -> & Hl & Hs)%queued_as_true.
    apply queued_as_true. exists t, xh. split; [done|]. split; [|done].
    rewrite Et, lookup_insert_ne; [done|]. intros <-. congruence. }
  split; [split|split].
  - apply thread_current_Some. rewrite Erun. split; [done|].
    assert (threads s0 !! running s = Some cth) as Hl.
    { rewrite Et, lookup_insert_ne; [done|]. intros E.
      rewrite E in Hnone. congruence. }
    split; [|eauto]. apply is_thread_lookup. eauto.
  - split; rewrite ?Er, ?Es, ?Ed, ?Ei, ?Erun, ?Ef.
    + intros t xh. rewrite Et. destruct (decide (t = p)) as [->|Hne].
      * rewrite lookup_insert_eq. by intros [= <-].
      * rewrite lookup_insert_ne by done. by apply qf_valid.
    + intros t xh. rewrite Et. destruct (decide (t = p)) as [->|Hne].
      * rewrite lookup_insert_eq. intros [= <-]. congruence.
      * rewrite lookup_insert_ne by done. by apply qf_running.
    + intros t xh. rewrite Et. destruct (decide (t = p)) as [->|Hne].
      * rewrite lookup_insert_eq. intros [= <-]. congruence.
      * rewrite lookup_insert_ne by done. by apply qf_ready_queued.
    + eapply Forall_impl; [by apply qf_ready|]. intros e. by apply Hkeep.
    + eapply Forall_impl; [by apply qf_sleep|]. intros e. by apply Hkeep.
    + eapply Forall_impl; [by apply qf_dying|]. intros e. by apply Hkeep.
    + by apply qf_ready_nodup.
    + by apply qf_sleep_nodup.
    + by apply qf_dying_nodup.
    + pose proof (qf_free s Hq) as Hf. rewrite Hfree in Hf.
      apply Forall_cons in Hf as [_ Hf].
      pose proof (qf_free_nodup s Hq) as Hn. rewrite Hfree in Hn.
      apply NoDup_cons in Hn as [Hn _].
      apply Forall_forall. intros x Hx.
      rewrite Et, lookup_insert_ne; [|by intros <-].
      by apply (proj1 (Forall_forall _ _) Hf).
    + pose proof (qf_free_nodup s Hq) as Hn. rewrite Hfree in Hn.
      by apply NoDup_cons in Hn as [_ Hn].
    + intros i Hi. destruct (qf_idle s Hq i Hi) as (? & ? & ? & ?).
      split; [|done]. rewrite Et. apply lookup_insert_is_Some'. by right.
  - rewrite Es. intros Hin.
    destruct (queued_as_elem _ _ _ _ (qf_sleep s Hq) Hin)
      as (t & xh & [= <-] & Hl & _). congruence.
  - rewrite Ei. intros Hi.
    destruct (qf_idle s Hq p Hi) as ([xh Hl] & _). congruence.
Qed.

Lemma thread_create_well_formed nm prio function aux s tid' s' :
  well_formed s → thread_create nm prio function aux s = Some (tid', s') →
  well_formed s'.
Proof.
  intros Hwf [(_ & _ & ->)|(p & rest & s1 & Hfree & Hf & Hp & Hprio & _ & Hun
                            & Ht)]%thread_create_inv; [done|].
  revert Ht. apply thread_test_max_priority_well_formed.
  destruct (well_formed_new_thread s
              (store_thread p (created_tcb nm prio (next_tid s) THREAD_BLOCKED)
                 (set_next_tid (wrap_int (next_tid s + 1))
                    (set_free_pages rest s)))
              p rest (created_tcb nm prio (next_tid s) THREAD_BLOCKED))
    as (Hw0 & Hns & Hni); try done.
  revert Hun. by apply thread_unblock_well_formed.
Qed.

Lemma thread_tick_frame s s' :
  thread_tick s = Some s' →
  threads s' = threads s ∧ ready_list s' = ready_list s ∧
  sleep_list s' = sleep_list s ∧ destruction_req s' = destruction_req s ∧
  idle_thread s' = idle_thread s ∧ running s' = running s ∧
  free_pages s' = free_pages s ∧ next_tid s' = next_tid s ∧
  intr_level s' = intr_level s ∧ locks s' = locks s.
Proof.
  unfold thread_tick.
  destruct (thread_current s) as [t|]; [|done]. cbn [mbind option_bind].
  destruct (threads s !! t) as [th|]; [|done]. cbn [mbind option_bind].
  destruct (bool_decide (Some t = idle_thread s));
    [|destruct (bool_decide (pml4 th ≠ None))];
    cbn beta zeta;
    match goal with
    | |- (if ?b then _ else _) = _ → _ => destruct b
    end;
    intros [= <-]; done.
Qed.

Lemma thread_tick_well_formed s s' :
  well_formed s → thread_tick s = Some s' → well_formed s'.
Proof.
  intros Hwf (? & ? & ? & ? & ? & ? & ? & _)%thread_tick_frame.
  revert Hwf. by apply well_formed_fields.
Qed.

(** [refresh_priority] rewrites the priority and the order of the donors of
    the running thread. *)
Lemma refresh_priority_inv s s' :
  refresh_priority s = Some s' →
  ∃ th th',
    thread_current s = Some (running s) ∧
    threads s !! running s = Some th ∧
    s' = store_thread (running s) th' s ∧
    tid th' = tid th ∧ status th' = status th ∧ name th' = name th ∧
    init_priority th' = init_priority th ∧
    wait_on_lock th' = wait_on_lock th ∧ wakeup th' = wakeup th ∧
    pml4 th' = pml4 th ∧ magic th' = magic th ∧
    donations th'
    = list_sort
        (thread_compare_priority
           (store_thread (running s) (with_priority (init_priority th) th) s))
        (donations th) ∧
    (priority th' = init_priority th
     ∨ ∃ d, head (donations th') = Some d ∧
            init_priority th < priority th' ∧
            priority th'
            = load_priority
                (store_thread (running s)
                   (with_donations (donations th')
                      (with_priority (init_priority th) th)) s)
                (list_entry d donation_elem)).
Proof.
  unfold refresh_priority.
  destruct (thread_current s) as [t|] eqn:Hcur; [|done].
  cbn [mbind option_bind].
  assert (t = running s) as ->
    by (by apply thread_current_Some in Hcur as [? _]).
  destruct (threads s !! running s) as [th|] eqn:Hth; [|done].
  cbn [mbind option_bind]. cbn beta zeta.
  cbn [donations with_priority with_donations priority].
  destruct (donations th) as [|d0 ds] eqn:Hd; cbn [list_empty].
  - intros [= <-].
    exists th, (with_priority (init_priority th) th).
    cbn [tid status name init_priority wait_on_lock wakeup pml4 magic donations
         priority with_priority].
    rewrite Hd. do 11 (split; [done|]). split; [done|]. by left.
  - set (s0 := store_thread (running s)
                 (with_priority (init_priority th) th) s).
    set (sorted := list_sort (thread_compare_priority s0) (d0 :: ds)).
    destruct sorted as [|d rest] eqn:Hsorted; cbn [list_front head];
      [done|].
    cbn [mbind option_bind].
    unfold s0. rewrite !store_thread_twice.
    destruct (init_priority th <? _) eqn:Hlt; intros [= <-].
    + eexists th, _. split; [done|]. split; [done|]. split; [done|].
      cbn [tid status name init_priority wait_on_lock wakeup pml4 magic
           donations priority with_priority with_donations].
      do 8 (split; [done|]). split; [by rewrite Hd, <- Hsorted|]. right.
      exists d. split; [done|]. by apply Z.ltb_lt in Hlt.
    + eexists th, _. split; [done|]. split; [done|]. split; [done|].
      cbn [tid status name init_priority wait_on_lock wakeup pml4 magic
           donations priority with_priority with_donations].
      do 8 (split; [done|]). split; [by rewrite Hd, <- Hsorted|]. by left.
Qed.

Lemma refresh_priority_well_formed s s' :
  well_formed s → refresh_priority s = Some s' → well_formed s'.
Proof.
  intros Hwf (th & th' & _ & Hth & -> & _ & Hs & _ & _ & _ & _ & _ & Hm & _)
    %refresh_priority_inv.
  by apply (well_formed_store s _ th).
Qed.

Lemma thread_set_priority_inv new_priority s s' :
  thread_set_priority new_priority s = Some s' →
  ∃ cth s1,
    thread_current s = Some (running s) ∧
    threads s !! running s = Some cth ∧
    refresh_priority
      (store_thread (running s) (with_init_priority new_priority cth) s)
    = Some s1 ∧
    thread_test_max_priority s1 = Some s'.
Proof.
  unfold thread_set_priority.
  destruct (thread_current s) as [t|] eqn:Hcur; [|done].
  cbn [mbind option_bind].
  assert (t = running s) as ->
    by (by apply thread_current_Some in Hcur as [? _]).
  destruct (threads s !! running s) as [cth|] eqn:Hth; [|done].
  cbn [mbind option_bind].
  destruct (refresh_priority _) as [s1|] eqn:Hr; [|done].
  cbn [mbind option_bind]. eauto 10.
Qed.

Lemma thread_set_priority_well_formed new_priority s s' :
  well_formed s → thread_set_priority new_priority s = Some s' →
  well_formed s'.
Proof.
  intros Hwf (cth & s1 & _ & Hth & Hr & Ht)%thread_set_priority_inv.
  revert Ht. apply thread_test_max_priority_well_formed.
  revert Hr. apply refresh_priority_well_formed.
  by apply (well_formed_store s _ cth).
Qed.

Lemma donate_priority_well_formed s s' :
  well_formed s → donate_priority s = Some s' → well_formed s'.
Proof.
  intros Hwf Hd.
  destruct (well_formed_current s Hwf) as (cth & Hcth & _).
  rewrite (donate_priority_chain s (running s) cth) in Hd
    by (done || apply Hwf).
  destruct (holder_chain s 8 (running s)) as [chain|]; [|done].
  injection Hd as <-. revert Hwf.
  apply well_formed_agree; try reflexivity; intros x;
    cbn [threads set_threads]; rewrite donated_lookup;
    case_bool_decide; try done; by destruct (threads s !! x).
Qed.

Lemma remove_with_lock_loop_well_formed lock t rest :
  ∀ s s', well_formed s →
    remove_with_lock_loop lock t rest s = Some s' → well_formed s'.
Proof.
  induction rest as [|d rest IH]; intros s s' Hwf;
    cbn [remove_with_lock_loop]; [by intros [= <-]|].
  destruct (load_thread s (list_entry d donation_elem)) as [[c cth]|];
    [|done].
  cbn [mbind option_bind]. case_bool_decide; [|by apply IH].
  destruct (threads s !! t) as [th|] eqn:Hth; [|done].
  cbn [mbind option_bind]. apply IH.
  by apply (well_formed_store s t th).
Qed.

Lemma remove_with_lock_well_formed lock s s' :
  well_formed s → remove_with_lock lock s = Some s' → well_formed s'.
Proof.
  intros Hwf. unfold remove_with_lock. do 2 first_step.
  by apply remove_with_lock_loop_well_formed.
Qed.

Lemma idle_loop_well_formed passes :
  ∀ s s', well_formed s → idle_loop passes s = Some s' → well_formed s'.
Proof.
  induction passes as [|n IH]; intros s s' Hwf; cbn [idle_loop];
    [by intros [= <-]|].
  cbn [intr_disable].
  destruct (thread_block _) as [s1|] eqn:Hb; [|done].
  cbn [mbind option_bind].
  assert (well_formed s1) as Hw1.
  { revert Hb. apply thread_block_well_formed.
    by apply set_intr_level_well_formed. }
  case_bool_decide; [|by intros [= <-]].
  apply IH. by apply set_intr_level_well_formed.
Qed.

(** X1.  Every operation of thread.c keeps the data of the scheduler
    consistent: when it returns, one valid thread in state THREAD_RUNNING is
    on the CPU, the ready list holds exactly the threads in state
    THREAD_READY once each (apart from the idle thread), the sleepers are
    blocked, the pages awaiting destruction belong to dying threads, no
    thread sits on two queues and no page of the allocator holds a TCB. *)
Theorem well_formed_preserved op s s' :
  well_formed s → permitted op s = true → run op s = Some s' →
  well_formed s'.
Proof.
  intros Hwf Hp.
  destruct op as [|nm prio function aux| |t| | |p|ticks|ticks| | |lock| |n];
    cbn [run].
  - by apply thread_tick_well_formed.
  - destruct (thread_create nm prio function aux s) as [[tid' s1]|] eqn:Hc;
      [|done].
    cbn. intros [= <-].
    by apply (thread_create_well_formed nm prio function aux s tid').
  - by apply thread_block_well_formed.
  - cbn [permitted] in Hp. apply andb_prop in Hp as [H1 H2].
    apply bool_decide_eq_true in H1, H2.
    by apply thread_unblock_well_formed.
  - cbn [permitted] in Hp. apply bool_decide_eq_true in Hp.
    by apply thread_exit_well_formed.
  - by apply thread_yield_well_formed.
  - by apply thread_set_priority_well_formed.
  - by apply thread_sleep_well_formed.
  - by apply thread_awake_well_formed.
  - by apply thread_test_max_priority_well_formed.
  - by apply donate_priority_well_formed.
  - by apply remove_with_lock_well_formed.
  - by apply refresh_priority_well_formed.
  - by apply idle_loop_well_formed.
Qed.

(** * Sleeping, waking and exiting *)

Lemma busy_state_well_formed : well_formed busy_state.
Proof. apply well_formedb_sound. vm_compute. reflexivity. Qed.

(** ** Calls that succeed *)

Lemma schedule_selected s next cth nth :
  intr_level s = INTR_OFF →
  threads s !! running s = Some cth → status cth ≠ THREAD_RUNNING →
  selected s = Some next → is_thread s next = true →
  threads s !! next = Some nth →
  schedule s
  = Some (dispatched (running s) cth next nth
            (set_ready_list (tail (ready_list s)) s)).
Proof.
  intros Hoff Hcth Hst Hsel Hn Hnth. unfold selected in Hsel.
  destruct (ready_list s) as [|[n|n] rest] eqn:Hrl; [| |done].
  - rewrite (schedule_idle s next cth nth) by done. do 2 f_equal.
    apply state_ext; try reflexivity. exact Hrl.
  - injection Hsel as ->. by apply schedule_front.
Qed.

Lemma thread_block_Some s t th :
  intr_context s = false → intr_level s = INTR_OFF →
  thread_current s = Some t → threads s !! t = Some th →
  thread_block s = schedule (store_thread t (with_status THREAD_BLOCKED th) s).
Proof.
  intros Hctx Hoff Hcur Hth. unfold thread_block.
  rewrite Hctx, Hoff, Hcur. cbn [negb ASSERT mbind option_bind].
  rewrite bool_decide_eq_true_2 by done. cbn [ASSERT mbind option_bind].
  by rewrite Hth.
Qed.

(** The thread that is selected when the running thread leaves the CPU. *)
Lemma well_formed_selected s next :
  well_formed s → selected s = Some next →
  idle_thread s ≠ Some (running s) ∨ ready_list s ≠ [] →
  next ≠ running s ∧ is_thread s next = true ∧
  ∃ nth, threads s !! next = Some nth ∧ status nth ≠ THREAD_RUNNING.
Proof.
  intros Hwf Hsel Hor.
  destruct (well_formed_current s Hwf) as (cth & Hcth & Hrun & _).
  destruct Hwf as [_ Hq]. unfold selected in Hsel.
  destruct (ready_list s) as [|[n|n] rest] eqn:Hrl; [| |done].
  - destruct (qf_idle s Hq next Hsel) as ([nth Hnth] & _).
    assert (next ≠ running s) as Hne
      by (intros ->; destruct Hor as [?|?]; done).
    split; [done|]. split; [by apply (queues_fit_is_thread s next nth)|].
    exists nth. split; [done|]. intros Hs.
    by apply Hne, (qf_running s Hq next nth).
  - injection Hsel as ->.
    destruct (queued_as_elem THREAD_READY s (ready_list s) (Elem next))
      as (t & nth & [= <-] & Hnth & Hst);
      [by apply qf_ready|rewrite Hrl; left|].
    split; [intros ->; congruence|].
    split; [by apply (queues_fit_is_thread s next nth)|].
    exists nth. split; [done|congruence].
Qed.

Lemma thread_sleep_Some ticks s cth next nth :
  thread_current s = Some (running s) →
  threads s !! running s = Some cth →
  intr_context s = false → idle_thread s ≠ Some (running s) →
  selected s = Some next → next ≠ running s →
  is_thread s next = true → threads s !! next = Some nth →
  thread_sleep ticks s
  = Some (dispatched (running s)
            (with_status THREAD_BLOCKED (with_wakeup ticks cth)) next nth
            (set_ready_list (tail (ready_list s))
               (store_thread (running s)
                  (with_status THREAD_BLOCKED (with_wakeup ticks cth))
                  (set_sleep_list (sleep_list s ++ [Elem (running s)])
                     (store_thread (running s) (with_wakeup ticks cth)
                        (set_intr_level INTR_OFF s)))))).
Proof.
  intros Hcur Hcth Hctx Hni Hsel Hne Hn Hnth.
  pose proof Hcur as (_ & Hct & _)%thread_current_Some.
  apply is_thread_lookup in Hct as (cth' & Hcth' & Hz & Hm).
  assert (cth' = cth) as -> by congruence.
  pose proof Hcur as (_ & _ & cth' & Hcth'' & Hrun)%thread_current_Some.
  assert (cth' = cth) as -> by congruence. clear Hcth' Hcth''.
  apply is_thread_lookup in Hn as (nth' & Hnth' & Hnz & Hnm).
  assert (nth' = nth) as -> by congruence. clear Hnth'.
  unfold thread_sleep. cbn [intr_disable].
  rewrite (thread_current_ext (set_intr_level INTR_OFF s) s) by done.
  rewrite Hcur. cbn [mbind option_bind].
  change (idle_thread (set_intr_level INTR_OFF s)) with (idle_thread s).
  change (threads (set_intr_level INTR_OFF s)) with (threads s).
  rewrite bool_decide_eq_true_2 by congruence.
  cbn [ASSERT mbind option_bind]. rewrite Hcth. cbn [mbind option_bind].
  unfold list_push_back.
  cbn [sleep_list store_thread set_threads set_intr_level].
  set (sx := set_sleep_list _ _).
  assert (threads sx = <[running s := with_wakeup ticks cth]> (threads s))
    as Hsx by reflexivity.
  assert (running sx = running s) as Hrx by reflexivity.
  rewrite (thread_block_Some sx (running s) (with_wakeup ticks cth));
    [|done|done| |by rewrite Hsx, lookup_insert_eq].
  2:{ apply thread_current_Some. split; [done|]. split.
      - apply is_thread_lookup. exists (with_wakeup ticks cth).
        by rewrite Hsx, lookup_insert_eq.
      - exists (with_wakeup ticks cth). by rewrite Hsx, lookup_insert_eq. }
  set (sy := store_thread _ _ sx).
  assert (threads sy
          = <[running s := with_status THREAD_BLOCKED (with_wakeup ticks cth)]>
              (threads sx)) as Hsy by reflexivity.
  rewrite (schedule_selected sy next
             (with_status THREAD_BLOCKED (with_wakeup ticks cth)) nth);
    [|done|by rewrite Hsy, lookup_insert_eq|done|done| |].
  2:{ apply is_thread_lookup. exists nth.
      by rewrite Hsy, Hsx, !lookup_insert_ne. }
  2:{ by rewrite Hsy, Hsx, !lookup_insert_ne. }
  cbn [mbind option_bind].
  destruct (dispatched_fields (running sy)
              (with_status THREAD_BLOCKED (with_wakeup ticks cth)) next nth
              (set_ready_list (tail (ready_list sy)) sy)) as (_ & Er & _).
  rewrite Er. change (running sy) with (running s).
  rewrite (bool_decide_eq_true_2 (running s ≠ next)) by done.
  by rewrite bool_decide_eq_false_2.
Qed.

Lemma thread_sleep_result ticks s next :
  well_formed s → intr_context s = false →
  idle_thread s ≠ Some (running s) → selected s = Some next →
  ∃ s' cth nth,
    thread_sleep ticks s = Some s' ∧
    threads s !! running s = Some cth ∧ threads s !! next = Some nth ∧
    threads s'
    = <[next := with_status THREAD_RUNNING nth]>
        (<[running s := with_status THREAD_BLOCKED (with_wakeup ticks cth)]>
           (threads s)) ∧
    running s' = next ∧ next ≠ running s ∧
    sleep_list s' = sleep_list s ++ [Elem (running s)] ∧
    ready_list s' = tail (ready_list s) ∧
    destruction_req s' = destruction_req s ∧
    free_pages s' = free_pages s ∧
    thread_ticks s' = 0 ∧ intr_level s' = INTR_OFF ∧
    intr_context s' = false ∧ well_formed s'.
Proof.
  intros Hwf Hctx Hni Hsel.
  destruct (well_formed_current s Hwf) as (cth & Hcth & Hrun & _).
  destruct (well_formed_selected s next Hwf Hsel) as (Hne & Hn & nth & Hnth & _);
    [by left|].
  pose proof (thread_sleep_Some ticks s cth next nth (proj1 Hwf) Hcth Hctx Hni
                Hsel Hne Hn Hnth) as Hs.
  eexists _, cth, nth. split; [exact Hs|].
  split; [done|]. split; [done|].
  match type of Hs with
  | _ = Some (dispatched ?c ?ct ?n ?nt ?sx) =>
      destruct (dispatched_fields c ct n nt sx)
        as (Et & Er & Ed & Erl & Esl & Ef & Ei & Etk & _);
      destruct (dispatched_more c ct n nt sx) as (_ & _ & _ & _ & Ectx & _)
  end.
  rewrite Et, Er, Ed, Erl, Esl, Ef, Ei, Etk, Ectx.
  cbn [threads ready_list sleep_list destruction_req free_pages intr_level
       intr_context running initial_thread status
       set_ready_list store_thread set_threads set_sleep_list set_intr_level
       with_status].
  rewrite (bool_decide_eq_true_2 (running s ≠ next)) by done.
  rewrite (bool_decide_eq_false_2 (THREAD_BLOCKED = THREAD_DYING)) by done.
  cbn [andb]. rewrite insert_insert_eq.
  do 10 (split; [done|]).
  by apply (thread_sleep_well_formed ticks s).
Qed.

(** X2.  [thread_sleep] blocks the caller until the tick it names: the
    caller is appended to the sleep list in state THREAD_BLOCKED with its
    wake-up time recorded, and the front of the ready list, or the idle
    thread when nothing is ready, gets the CPU with a fresh time slice;
    nothing is freed on the way. *)
Theorem thread_sleep_blocks ticks s next :
  well_formed s → intr_context s = false →
  idle_thread s ≠ Some (running s) → selected s = Some next →
  ∃ s' cth nth,
    thread_sleep ticks s = Some s' ∧
    threads s !! running s = Some cth ∧ threads s !! next = Some nth ∧
    threads s'
    = <[next := with_status THREAD_RUNNING nth]>
        (<[running s := with_status THREAD_BLOCKED (with_wakeup ticks cth)]>
           (threads s)) ∧
    running s' = next ∧ next ≠ running s ∧
    sleep_list s' = sleep_list s ++ [Elem (running s)] ∧
    ready_list s' = tail (ready_list s) ∧
    destruction_req s' = destruction_req s ∧
    free_pages s' = free_pages s ∧
    thread_ticks s' = 0 ∧ intr_level s' = INTR_OFF ∧
    intr_context s' = false ∧ well_formed s'.
Proof. apply thread_sleep_result. Qed.

(** ** [thread_awake] after [thread_sleep] *)

(** [thread_awake] runs in the timer interrupt: it moves threads between
    the queues and leaves the CPU, the interrupt state and the allocator
    alone. *)
Lemma thread_awake_loop_frame ticks rest :
  ∀ s s' n,
    thread_awake_loop ticks rest s = Some (s', n) →
    running s' = running s ∧ intr_level s' = intr_level s ∧
    intr_context s' = intr_context s ∧
    destruction_req s' = destruction_req s ∧ free_pages s' = free_pages s ∧
    idle_thread s' = idle_thread s ∧ thread_ticks s' = thread_ticks s ∧
    yield_on_return s' = yield_on_return s ∧ next_tid s' = next_tid s.
Proof.
  induction rest as [|e rest IH]; intros s s' n; cbn [thread_awake_loop].
  - by intros [= <- _].
  - destruct (load_thread s (list_entry e elem)) as [[t th]|]; [|done].
    cbn [mbind option_bind]. destruct (wakeup th <=? ticks).
    + destruct (thread_unblock t _) as [s2|] eqn:Hun; [|done].
      cbn [mbind option_bind].
      destruct (thread_awake_loop ticks rest s2) as [[s3 k]|] eqn:Hl; [|done].
      cbn [mbind option_bind]. intros [= <- _].
      apply IH in Hl as (-> & -> & -> & -> & -> & -> & -> & -> & ->).
      by apply thread_unblock_inv in Hun as (? & _ & _ & _ & _ & ->).
    + destruct (thread_awake_loop ticks rest s) as [[s3 k]|] eqn:Hl; [|done].
      cbn [mbind option_bind]. intros [= <- _]. by apply IH in Hl.
Qed.

Lemma thread_awake_loop_asleep ticks rest :
  ∀ s, (∀ e, e ∈ rest → stays_asleep s ticks e = true) →
       thread_awake_loop ticks rest s = Some (s, length rest).
Proof.
  induction rest as [|e rest IH]; intros s Hall; [done|].
  cbn [thread_awake_loop length].
  pose proof (Hall e (list_elem_of_here _ _)) as He.
  unfold stays_asleep, elem_wakeup in He.
  destruct (load_thread s (list_entry e elem)) as [[t th]|]; [|done].
  cbn [mbind option_bind] in *. apply negb_true_iff in He. rewrite He.
  rewrite IH; [done|]. intros x Hx. apply Hall. by right.
Qed.

(** X3.  A thread that went to sleep until tick [ticks] is woken by the
    first [thread_awake] whose time has reached [ticks], and by none before:
    it is then ready and on the ready list and no longer on the sleep list;
    until then it stays blocked on the sleep list and off the ready list.
    [thread_awake] itself switches to no other thread. *)
Theorem thread_sleep_awake ticks now s next :
  well_formed s → intr_context s = false →
  idle_thread s ≠ Some (running s) → selected s = Some next →
  ∃ s1 s2 cth,
    thread_sleep ticks s = Some s1 ∧ thread_awake now s1 = Some s2 ∧
    threads s !! running s = Some cth ∧
    running s2 = next ∧ intr_level s2 = intr_level s1 ∧
    (ticks ≤ now →
     threads s2 !! running s
     = Some (with_status THREAD_READY (with_wakeup ticks cth)) ∧
     Elem (running s) ∈ ready_list s2 ∧ (Elem (running s) ∉ sleep_list s2)) ∧
    (now < ticks →
     threads s2 !! running s
     = Some (with_status THREAD_BLOCKED (with_wakeup ticks cth)) ∧
     Elem (running s) ∈ sleep_list s2 ∧ (Elem (running s) ∉ ready_list s2)).
Proof.
  intros Hwf Hctx Hni Hsel.
  destruct (thread_sleep_result ticks s next Hwf Hctx Hni Hsel)
    as (s1 & cth & nth & Hs & Hcth & Hnth & Et & Er & Hne & Esl & _ & _ & _ & _
        & _ & _ & Hw1).
  assert (threads s1 !! running s
          = Some (with_status THREAD_BLOCKED (with_wakeup ticks cth))) as Hc1.
  { rewrite Et, lookup_insert_ne by done. apply lookup_insert_eq. }
  assert (Elem (running s) ∈ sleep_list s1) as Hin
    by (rewrite Esl; apply elem_of_app; right; left).
  destruct (thread_awake_loop_spec now (sleep_list s1) s1 [])
    as (s2 & Hl & Esl2 & Hdue & Hnot & _);
    [done|by apply qf_sleep_nodup, Hw1
    |by apply queues_fit_sleepers_blocked, Hw1|].
  assert (thread_awake now s1 = Some s2) as Ha
    by (unfold thread_awake; by rewrite Hl).
  pose proof (thread_awake_well_formed now s1 s2 Hw1 Ha) as Hw2.
  apply thread_awake_loop_frame in Hl as (Er2 & Ei2 & _).
  exists s1, s2, cth. split; [done|]. split; [done|]. split; [done|].
  split; [congruence|]. split; [done|]. split.
  - intros Hle.
    destruct (Hdue (running s) _ Hin Hc1 Hle) as (Ht & Hr).
    split; [done|]. split; [done|].
    rewrite Esl2. cbn [app]. intros [_ Hf]%elem_of_filter_bool.
    unfold stays_asleep, elem_wakeup in Hf. cbn [list_entry load_thread] in Hf.
    rewrite Hc1 in Hf. cbn in Hf. apply negb_true_iff, Z.leb_gt in Hf. lia.
  - intros Hlt.
    pose proof (Hnot (running s) _ Hin Hc1 Hlt) as Ht.
    split; [done|]. split.
    + rewrite Esl2. cbn [app]. apply elem_of_filter_bool. split; [done|].
      unfold stays_asleep, elem_wakeup. cbn [list_entry load_thread].
      rewrite Hc1. cbn. apply negb_true_iff, Z.leb_gt. done.
    + intros Hr. destruct Hw2 as [_ Hq2].
      destruct (queued_as_elem _ _ _ _ (qf_ready s2 Hq2) Hr)
        as (t & th & [= <-] & Hth & Hst).
      rewrite Ht in Hth. by injection Hth as <-.
Qed.

(** X4.  Once [thread_awake] has run for the tick [now], no sleeper is due
    at [now] or at any earlier tick: running it again changes nothing. *)
Theorem thread_awake_idempotent now now' s s' :
  NoDup (sleep_list s) → sleepers_blocked s (sleep_list s) = true →
  now' ≤ now →
  thread_awake now s = Some s' → thread_awake now' s' = Some s'.
Proof.
  intros Hnd Hsb Hle Ha.
  destruct (thread_awake_loop_spec now (sleep_list s) s [] eq_refl Hnd Hsb)
    as (s2 & Hl & Esl & _ & Hnot & _).
  unfold thread_awake in Ha. rewrite Hl in Ha. injection Ha as <-.
  unfold thread_awake. rewrite thread_awake_loop_asleep; [done|].
  rewrite Esl. cbn [app]. intros e [He Hst]%elem_of_filter_bool.
  unfold stays_asleep, elem_wakeup in Hst |- *.
  destruct e as [t|t]; cbn [list_entry load_thread] in *; [|done].
  destruct (threads s !! t) as [th|] eqn:Hth; [|done].
  cbn [mbind option_bind] in Hst. apply negb_true_iff, Z.leb_gt in Hst.
  rewrite (Hnot t th He Hth Hst). cbn [mbind option_bind].
  apply negb_true_iff, Z.leb_gt. lia.
Qed.

(** ** [thread_exit] and the page of the dead thread *)

Lemma same_but_status_eq a b :
  same_but_status a b → status a = status b → a = b.
Proof.
  destruct a, b. unfold same_but_status. cbn.
  intros (-> & -> & -> & -> & -> & -> & -> & -> & ->) ->. done.
Qed.

Lemma well_formed_selected_alive s next :
  well_formed s → selected s = Some next →
  idle_thread s ≠ Some (running s) ∨ ready_list s ≠ [] →
  next ∉ elem_owner <$> destruction_req s.
Proof.
  intros Hwf Hsel Hor (v & Hv1 & Hv)%list_elem_of_fmap.
  destruct (well_formed_selected s next Hwf Hsel Hor) as (_ & _ & nth & Hnth & _).
  destruct Hwf as [_ Hq].
  destruct (queued_as_elem _ _ _ _ (qf_dying s Hq) Hv)
    as (t & th & -> & Hth & Hst).
  cbn [elem_owner] in Hv1. subst t. unfold selected in Hsel.
  destruct (ready_list s) as [|[n|n] rest] eqn:Hrl; [| |done].
  - by destruct (qf_idle s Hq next Hsel) as (_ & _ & _ & ?).
  - injection Hsel as ->.
    destruct (queued_as_elem THREAD_READY s (ready_list s) (Elem next))
      as (t & nth' & [= <-] & Hnth' & Hst');
      [by apply qf_ready|rewrite Hrl; left|].
    congruence.
Qed.

Lemma thread_exit_result s next :
  well_formed s → intr_context s = false →
  idle_thread s ≠ Some (running s) → selected s = Some next →
  ∃ s1 cth nth,
    thread_exit s = Some s1 ∧
    threads s !! running s = Some cth ∧ threads s !! next = Some nth ∧
    running s1 = next ∧ next ≠ running s ∧
    threads s1 !! running s = Some (with_status THREAD_DYING cth) ∧
    threads s1 !! next = Some (with_status THREAD_RUNNING nth) ∧
    destruction_req s1
    = (if bool_decide (Some (running s) ≠ initial_thread s)
       then [Elem (running s)] else []) ∧
    free_pages s1
    = reverse (elem_owner <$> destruction_req s) ++ free_pages s ∧
    (∀ v, v ∈ destruction_req s → threads s1 !! elem_owner v = None) ∧
    ready_list s1 = tail (ready_list s) ∧ sleep_list s1 = sleep_list s ∧
    thread_ticks s1 = 0 ∧ intr_context s1 = false ∧
    initial_thread s1 = initial_thread s ∧ idle_thread s1 = idle_thread s ∧
    well_formed s1.
Proof.
  intros Hwf Hctx Hni Hsel.
  destruct (well_formed_current s Hwf) as (cth & Hcth & Hrun & _).
  destruct (well_formed_selected s next Hwf Hsel)
    as (Hne & Hn & nth & Hnth & _); [by left|].
  pose proof (well_formed_selected_alive s next Hwf Hsel (or_introl Hni))
    as Halive.
  pose proof (well_formed_running_not_queued s Hwf) as (_ & _ & Hnd).
  pose proof Hwf as [Hc Hq].
  pose proof (thread_exit_schedule s (running s) cth Hc Hcth Hctx
                (queues_fit_victims_apart s cth Hq Hcth Hrun)) as Hex.
  set (sx := set_intr_level INTR_OFF s) in *.
  destruct (flushed_frame sx)
    as (Er & Es & _ & Ei & Eini & Erun & Elv & Ecx & _).
  cbn [ready_list sleep_list idle_thread initial_thread running intr_level
       intr_context sx set_intr_level] in Er, Es, Ei, Eini, Erun, Elv, Ecx.
  assert (∀ x, threads (flushed sx) !! x
               = if bool_decide (x ∈ elem_owner <$> destruction_req s)
                 then None else threads s !! x) as Hfl
    by (intros x; apply (flushed_threads sx x)).
  set (sy := store_thread (running s) (with_status THREAD_DYING cth)
               (flushed sx)) in *.
  assert (threads sy
          = <[running s := with_status THREAD_DYING cth]>
              (threads (flushed sx))) as Hsy by reflexivity.
  assert (threads sy !! next = Some nth) as Hn'.
  { by rewrite Hsy, lookup_insert_ne, Hfl, bool_decide_eq_false_2. }
  assert (running sy = running s) as Hrsy by exact Erun.
  rewrite (schedule_selected sy next (with_status THREAD_DYING cth) nth)
    in Hex;
    [|exact Elv|rewrite Hrsy, Hsy; apply lookup_insert_eq|done
     |unfold selected; cbn [ready_list idle_thread sy store_thread set_threads];
      by rewrite Er, Ei
     |apply is_thread_lookup in Hn as (? & ? & ? & ?);
      apply is_thread_lookup; exists nth; split; [done|]; split; [done|];
      congruence
     |done].
  cbn [mbind option_bind] in Hex.
  match type of Hex with
  | _ = (if _ then _ else Some (dispatched ?c ?ct ?n ?nt ?sz)) =>
      destruct (dispatched_fields c ct n nt sz)
        as (Et & Er1 & Ed & Erl & Esl & Ef & _ & Etk & _);
      destruct (dispatched_more c ct n nt sz)
        as (Ei1 & Eini1 & _ & _ & Ectx & _);
      set (s1 := dispatched c ct n nt sz) in *
  end.
  clearbody s1.
  cbn [threads ready_list sleep_list destruction_req free_pages intr_level
       intr_context running initial_thread idle_thread status
       set_ready_list store_thread set_threads sy with_status]
    in Et, Er1, Ed, Erl, Esl, Ef, Etk, Ei1, Eini1, Ectx.
  rewrite Erun in Er1, Ed.
  rewrite (bool_decide_eq_true_2 (running s ≠ next)) in Er1, Ed by done.
  rewrite (bool_decide_eq_true_2 (THREAD_DYING = THREAD_DYING)) in Ed by done.
  cbn [andb] in Ed. rewrite Eini, flushed_destruction_req in Ed.
  rewrite Er1, bool_decide_eq_false_2 in Hex by done.
  exists s1, cth, nth. split; [done|]. split; [done|]. split; [done|].
  split; [done|]. split; [done|]. split.
  { rewrite Et, lookup_insert_ne by done. apply lookup_insert_eq. }
  split; [rewrite Et; apply lookup_insert_eq|].
  split; [rewrite Ed; by case_bool_decide|].
  split; [rewrite Ef; exact (flushed_free_pages_eq sx)|].
  split.
  { intros v Hv.
    assert (elem_owner v ∈ elem_owner <$> destruction_req s) as Hin
      by (by apply list_elem_of_fmap_2).
    rewrite Et, !lookup_insert_ne, Hfl, bool_decide_eq_true_2; [done|done| |].
    - intros E. rewrite <- E in Hin.
      destruct Hq as [_ _ _ _ _ Hdy _ _ _ _ _ _].
      destruct (queued_as_elem _ _ _ _ Hdy Hv) as (t & th & -> & Hth & Hst).
      cbn [elem_owner] in E. subst t. congruence.
    - intros E. by rewrite <- E in Hin. }
  split; [by rewrite Erl, Er|]. split; [by rewrite Esl|].
  split; [done|]. split; [by rewrite Ectx, Ecx|].
  split; [by rewrite Eini1|]. split; [by rewrite Ei1|].
  by apply (thread_exit_well_formed s).
Qed.

Lemma well_formed_yield s :
  well_formed s → intr_context s = false →
  ∃ s' cth next,
    thread_yield s = Some s' ∧ threads s !! running s = Some cth ∧
    (yield_queue s (running s) = [] ∧ next = running s ∨
     ∃ rest, yield_queue s (running s) = Elem next :: rest) ∧
    ready_list s' = tail (yield_queue s (running s)) ∧
    running s' = next ∧
    destruction_req s' = [] ∧
    mem s' = mem s ∧
    sleep_list s' = sleep_list s ∧
    thread_ticks s' = 0 ∧
    (∀ x, x ∈ elem_owner <$> destruction_req s →
       threads s' !! x = None ∧ x ∈ free_pages s') ∧
    (∀ x th, x ∉ elem_owner <$> destruction_req s →
       threads s !! x = Some th →
       ∃ th', threads s' !! x = Some th' ∧ same_but_status th th' ∧
         status th' =
           if bool_decide (x = next) then THREAD_RUNNING
           else if bool_decide (x = running s) then THREAD_READY
                else status th) ∧
    well_formed s'.
Proof.
  intros Hwf Hctx.
  destruct (well_formed_current s Hwf) as (cth & Hcth & Hrun & _).
  pose proof Hwf as [Hc Hq].
  destruct (thread_yield_facts s (running s) cth Hc Hcth Hctx
              (queues_fit_victims_apart s cth Hq Hcth Hrun)
              (queues_fit_elems_of_threads s Hq))
    as (s' & next & Hy & H).
  exists s', cth, next. split; [done|]. split; [done|].
  repeat (destruct H as [? H]; split; [done|]).
  split; [done|]. by apply (thread_yield_well_formed s).
Qed.

(** X5.  A thread that exits is not freed at once: it is left in state
    THREAD_DYING with its page queued for destruction while the selected
    thread takes over, and the page goes back to the allocator when that
    thread next yields. *)
Theorem thread_exit_page_freed s next :
  well_formed s → intr_context s = false →
  idle_thread s ≠ Some (running s) → initial_thread s ≠ Some (running s) →
  selected s = Some next →
  ∃ s1 s2 cth,
    thread_exit s = Some s1 ∧ threads s !! running s = Some cth ∧
    running s1 = next ∧
    threads s1 !! running s = Some (with_status THREAD_DYING cth) ∧
    destruction_req s1 = [Elem (running s)] ∧
    (running s ∉ free_pages s1) ∧
    thread_yield s1 = Some s2 ∧
    threads s2 !! running s = None ∧ running s ∈ free_pages s2 ∧
    destruction_req s2 = [].
Proof.
  intros Hwf Hctx Hni Hinit Hsel.
  destruct (thread_exit_result s next Hwf Hctx Hni Hsel)
    as (s1 & cth & nth & Hex & Hcth & _ & Er & _ & Hc1 & _ & Ed & _ & _ & _ & _
        & _ & Hctx1 & _ & _ & Hw1).
  rewrite bool_decide_eq_true_2 in Ed by congruence.
  destruct (well_formed_yield s1 Hw1 Hctx1)
    as (s2 & _ & _ & Hy & _ & _ & _ & _ & Ed2 & _ & _ & _ & Hfreed & _).
  exists s1, s2, cth. do 5 (split; [done|]). split.
  { intros Hin. destruct Hw1 as [_ Hq1].
    pose proof (proj1 (Forall_forall _ _) (qf_free s1 Hq1) _ Hin) as Hn.
    cbn beta in Hn. congruence. }
  split; [done|].
  destruct (Hfreed (running s)) as [? ?]; [rewrite Ed; left|]. done.
Qed.

(** X6.  The page of the initial thread is never queued for destruction:
    when the initial thread exits, its TCB stays in state THREAD_DYING, and
    a later yield of the thread that took over leaves it where it is. *)
Theorem initial_thread_page_kept s next :
  well_formed s → intr_context s = false →
  idle_thread s ≠ Some (running s) → initial_thread s = Some (running s) →
  selected s = Some next →
  ∃ s1 s2 cth,
    thread_exit s = Some s1 ∧ threads s !! running s = Some cth ∧
    running s1 = next ∧ destruction_req s1 = [] ∧
    thread_yield s1 = Some s2 ∧
    threads s2 !! running s = Some (with_status THREAD_DYING cth) ∧
    (running s ∉ free_pages s2) ∧ destruction_req s2 = [].
Proof.
  intros Hwf Hctx Hni Hinit Hsel.
  destruct (thread_exit_result s next Hwf Hctx Hni Hsel)
    as (s1 & cth & nth & Hex & Hcth & _ & Er & Hne & Hc1 & _ & Ed & _ & _ & _
        & _ & _ & Hctx1 & _ & _ & Hw1).
  rewrite bool_decide_eq_false_2 in Ed by (intros H; by apply H).
  destruct (well_formed_yield s1 Hw1 Hctx1)
    as (s2 & nth1 & next2 & Hy & Hnth1 & Hnext2 & Erl2 & Er2 & Ed2 & _ & _ & _
        & _ & Hmap & Hw2).
  exists s1, s2, cth. do 5 (split; [done|]).
  destruct (Hmap (running s) (with_status THREAD_DYING cth))
    as (th' & Hth' & Hsame & Hst); [rewrite Ed; apply not_elem_of_nil|done|].
  assert (next2 ≠ running s) as Hn2.
  { intros ->. destruct Hw2 as [Hc2 _].
    apply thread_current_Some in Hc2 as (_ & _ & th2 & Hth2 & Hs2).
    rewrite Er2, Hth' in Hth2. injection Hth2 as <-.
    rewrite bool_decide_eq_true_2 in Hst by done.
    destruct Hnext2 as [[Hq E]|[rest Hq]].
    - congruence.
    - assert (Elem (running s) ∈ ready_list s1) as Hin.
      { assert (Elem (running s) ∈ yield_queue s1 (running s1)) as Hin
          by (rewrite Hq; left).
        apply yield_queue_elem in Hin as [[= E]|Hin]; [congruence|done]. }
      destruct Hw1 as [_ Hq1].
      destruct (queued_as_elem _ _ _ _ (qf_ready s1 Hq1) Hin)
        as (t & th & [= <-] & Hth & Hst').
      rewrite Hc1 in Hth. by injection Hth as <-. }
  rewrite bool_decide_eq_false_2 in Hst by done.
  rewrite bool_decide_eq_false_2 in Hst by congruence.
  split.
  { rewrite Hth'. f_equal. symmetry. by apply same_but_status_eq. }
  split; [|done].
  intros Hin. destruct Hw2 as [_ Hq2].
  pose proof (proj1 (Forall_forall _ _) (qf_free s2 Hq2) _ Hin) as Hn.
  cbn beta in Hn. congruence.
Qed.

(** * Yielding *)

(** ** What [thread_yield] leaves alone *)

Lemma free_destruction_req_frame victims :
  ∀ s s',
    free_destruction_req victims s = Some s' →
    ready_list s' = ready_list s ∧ sleep_list s' = sleep_list s ∧
    idle_thread s' = idle_thread s ∧ initial_thread s' = initial_thread s ∧
    next_tid s' = next_tid s ∧ locks s' = locks s ∧ mem s' = mem s ∧
    intr_context s' = intr_context s ∧ intr_level s' = intr_level s ∧
    running s' = running s ∧ yield_on_return s' = yield_on_return s ∧
    idle_ticks s' = idle_ticks s ∧ kernel_ticks s' = kernel_ticks s ∧
    user_ticks s' = user_ticks s ∧
    ∀ x th, threads s' !! x = Some th → threads s !! x = Some th.
Proof.
  induction victims as [|v victims IH]; intros s s'; cbn [free_destruction_req].
  - intros [= <-]. by repeat split.
  - destruct v as [t|t]; cbn [list_entry palloc_free_page]; [|done].
    cbn [mbind option_bind].
    intros (-> & -> & -> & -> & -> & -> & -> & -> & -> & -> & -> & -> & -> & ->
            & H)%IH.
    do 14 (split; [done|]). intros x th Hx%H.
    cbn [threads set_free_pages set_threads set_destruction_req] in Hx.
    by apply lookup_delete_Some in Hx as [_ ?].
Qed.

Lemma do_schedule_inv st s s' :
  do_schedule st s = Some s' →
  ∃ s0 th,
    free_destruction_req (destruction_req s) s = Some s0 ∧
    threads s0 !! running s0 = Some th ∧
    schedule (store_thread (running s0) (with_status st th) s0) = Some s'.
Proof.
  unfold do_schedule. do 2 first_step.
  destruct (free_destruction_req (destruction_req s) s) as [s0|]; [|done].
  cbn [mbind option_bind].
  destruct (thread_current s0) as [t|] eqn:Hcur; [|done].
  cbn [mbind option_bind].
  assert (t = running s0) as ->
    by (by apply thread_current_Some in Hcur as [? _]).
  destruct (threads s0 !! running s0) as [th|] eqn:Hth; [|done].
  cbn [mbind option_bind]. eauto.
Qed.

Lemma with_status_same_but_status st th :
  same_but_status th (with_status st th).
Proof. by repeat split. Qed.

Lemma same_but_status_trans a b c :
  same_but_status a b → same_but_status b c → same_but_status a c.
Proof.
  unfold same_but_status.
  intros (? & ? & ? & ? & ? & ? & ? & ? & ?) (? & ? & ? & ? & ? & ? & ? & ? & ?).
  repeat split; congruence.
Qed.

Lemma do_schedule_frame st s s' :
  do_schedule st s = Some s' →
  intr_context s' = intr_context s ∧ idle_thread s' = idle_thread s ∧
  initial_thread s' = initial_thread s ∧ next_tid s' = next_tid s ∧
  locks s' = locks s ∧ mem s' = mem s ∧ sleep_list s' = sleep_list s ∧
  intr_level s' = intr_level s ∧ yield_on_return s' = yield_on_return s ∧
  idle_ticks s' = idle_ticks s ∧ kernel_ticks s' = kernel_ticks s ∧
  user_ticks s' = user_ticks s ∧
  ∀ x th', threads s' !! x = Some th' →
    ∃ th, threads s !! x = Some th ∧ same_but_status th th'.
Proof.
  intros (s0 & th & Hfree & Hth & Hs)%do_schedule_inv.
  apply free_destruction_req_frame in Hfree
    as (_ & Es & Ei & Eini & Etid & El & Em & Ectx & Elv & Erun & Ey & Eit
        & Ekt & Eut & Hsub).
  apply schedule_Some in Hs as (cth & next & nth & _ & _ & _ & _ & _ & Hnth & ->).
  match goal with
  | |- context [dispatched ?c ?ct ?n ?nt ?sz] =>
      destruct (dispatched_fields c ct n nt sz)
        as (Et & _ & _ & _ & Esl & _ & Elv1 & _ & Em1);
      destruct (dispatched_more c ct n nt sz)
        as (Ei1 & Eini1 & Etid1 & El1 & Ectx1 & Ey1 & Eit1 & Ekt1 & Eut1)
  end.
  rewrite Et, Esl, Elv1, Em1, Ei1, Eini1, Etid1, El1, Ectx1, Ey1, Eit1, Ekt1,
    Eut1.
  cbn [threads sleep_list intr_level mem idle_thread initial_thread next_tid
       locks intr_context yield_on_return idle_ticks kernel_ticks user_ticks
       set_ready_list store_thread set_threads] in *.
  do 12 (split; [done|]).
  intros x th'. destruct (decide (x = next)) as [->|Hne].
  - rewrite lookup_insert_eq. intros [= <-].
    destruct (decide (next = running s0)) as [E|Hne'].
    + rewrite E, lookup_insert_eq in Hnth. injection Hnth as <-.
      exists th. split; [apply Hsub; congruence|]. by repeat split.
    + rewrite lookup_insert_ne in Hnth by done.
      exists nth. split; [by apply Hsub|]. by repeat split.
  - rewrite lookup_insert_ne by done.
    destruct (decide (x = running s0)) as [->|Hne'].
    + rewrite lookup_insert_eq. intros [= <-].
      exists th. split; [by apply Hsub|]. by repeat split.
    + rewrite lookup_insert_ne by done. intros Hx.
      exists th'. split; [by apply Hsub|]. by repeat split.
Qed.

Lemma thread_yield_frame s s' :
  thread_yield s = Some s' →
  intr_context s' = intr_context s ∧ idle_thread s' = idle_thread s ∧
  initial_thread s' = initial_thread s ∧ next_tid s' = next_tid s ∧
  locks s' = locks s ∧ mem s' = mem s ∧ sleep_list s' = sleep_list s ∧
  yield_on_return s' = yield_on_return s ∧
  idle_ticks s' = idle_ticks s ∧ kernel_ticks s' = kernel_ticks s ∧
  user_ticks s' = user_ticks s ∧
  ∀ x th', threads s' !! x = Some th' →
    ∃ th, threads s !! x = Some th ∧ same_but_status th th'.
Proof.
  unfold thread_yield. do 2 first_step. cbn [intr_disable].
  destruct (do_schedule THREAD_READY _) as [s1|] eqn:Hd; [|done].
  cbn [mbind option_bind].
  apply do_schedule_frame in Hd
    as (Ectx & Ei & Eini & Etid & El & Em & Es & _ & Ey & Eit & Ekt & Eut & Hsub).
  assert (∀ x th', threads s1 !! x = Some th' →
            ∃ th, threads s !! x = Some th ∧ same_but_status th th') as Hsub'.
  { intros x th' Hx. destruct (Hsub x th' Hx) as (th & Hth & ?).
    exists th. split; [|done]. revert Hth. by case_bool_decide. }
  assert (intr_context s1 = intr_context s ∧ idle_thread s1 = idle_thread s ∧
          initial_thread s1 = initial_thread s ∧ next_tid s1 = next_tid s ∧
          locks s1 = locks s ∧ mem s1 = mem s ∧ sleep_list s1 = sleep_list s ∧
          yield_on_return s1 = yield_on_return s ∧
          idle_ticks s1 = idle_ticks s ∧ kernel_ticks s1 = kernel_ticks s ∧
          user_ticks s1 = user_ticks s) as H.
  { rewrite Ectx, Ei, Eini, Etid, El, Em, Es, Ey, Eit, Ekt, Eut.
    by case_bool_decide. }
  destruct H as (? & ? & ? & ? & ? & ? & ? & ? & ? & ? & ?).
  clear Ectx Ei Eini Etid El Em Es Ey Eit Ekt Eut Hsub.
  destruct (bool_decide (running s1 = _)); intros [= <-]; by repeat split.
Qed.

(** ** Who gets the CPU *)

Lemma yield_queue_not_idle s cur :
  idle_thread s ≠ Some cur →
  yield_queue s cur
  = list_insert_ordered (thread_compare_priority s) (Elem cur) (ready_list s).
Proof.
  intros Hni. unfold yield_queue. rewrite bool_decide_eq_true_2; [done|].
  congruence.
Qed.

Lemma well_formed_yield_queue s e :
  well_formed s → e ∈ Elem (running s) :: ready_list s →
  ∃ n th, e = Elem n ∧ threads s !! n = Some th ∧
          n ∉ elem_owner <$> destruction_req s.
Proof.
  intros Hwf He.
  destruct (well_formed_current s Hwf) as (cth & Hcth & Hrun & _).
  destruct Hwf as [_ Hq].
  assert (∃ n th, e = Elem n ∧ threads s !! n = Some th ∧
                  status th ≠ THREAD_DYING) as (n & th & -> & Hth & Hst).
  { apply elem_of_cons in He as [->|He].
    - exists (running s), cth. split; [done|]. split; [done|]. congruence.
    - destruct (queued_as_elem _ _ _ _ (qf_ready s Hq) He)
        as (n & th & -> & Hth & Hst).
      exists n, th. split; [done|]. split; [done|]. congruence. }
  exists n, th. split; [done|]. split; [done|].
  intros (v & Hv1 & Hv)%list_elem_of_fmap.
  destruct (queued_as_elem _ _ _ _ (qf_dying s Hq) Hv)
    as (t & th' & -> & Hth' & Hst').
  cbn [elem_owner] in Hv1. subst t. congruence.
Qed.


(** ** Priorities as the TCBs have them *)

Lemma queued_priority_Elem s t th :
  threads s !! t = Some th → queued_priority s (Elem t) = Some (priority th).
Proof. intros H. cbn [queued_priority]. by rewrite H. Qed.

(** For the [elem] link of a live thread, the ordering predicate reads the
    priority of its TCB. *)
Lemma elem_priority_queued s e p :
  queued_priority s e = Some p → elem_priority s e = p.
Proof.
  destruct e as [t|t]; cbn [queued_priority]; [|done].
  destruct (threads s !! t) as [th|] eqn:Hth; [|done].
  cbn. intros [= <-]. by apply elem_priority_Elem.
Qed.

Lemma well_formed_queued_priority s e :
  well_formed s → e ∈ Elem (running s) :: ready_list s →
  ∃ p, queued_priority s e = Some p.
Proof.
  intros Hwf He.
  destruct (well_formed_yield_queue s e Hwf He) as (n & th & -> & Hth & _).
  exists (priority th). by apply queued_priority_Elem.
Qed.

Lemma descending_priority_ordered s l :
  (∀ e, e ∈ l → is_Some (queued_priority s e)) →
  descending s l ↔ priority_ordered s l.
Proof.
  intros Hlive. unfold descending, priority_ordered. split.
  - apply Sorted_ext_in. intros a b [pa Ha]%Hlive [pb Hb]%Hlive.
    rewrite (elem_priority_queued s a pa Ha), (elem_priority_queued s b pb Hb).
    intros Hle. by exists pa, pb.
  - apply Sorted_ext_in. intros a b _ _ (pa & pb & Ha & Hb & Hle).
    by rewrite (elem_priority_queued s a pa Ha),
      (elem_priority_queued s b pb Hb).
Qed.

(** ** Who gets the CPU *)

Lemma thread_yield_front_or_caller s :
  well_formed s → intr_context s = false →
  idle_thread s ≠ Some (running s) →
  guard_silent s (Elem (running s) :: ready_list s) = true →
  ∃ s' cth,
    thread_yield s = Some s' ∧ threads s !! running s = Some cth ∧
    thread_ticks s' = 0 ∧
    match ready_list s with
    | [] => running s' = running s ∧ ready_list s' = []
    | e :: rest =>
        if elem_priority s e <? priority cth
        then running s' = running s ∧ ready_list s' = ready_list s
        else running s' = elem_owner e ∧
             ready_list s' ≡ₚ Elem (running s) :: rest
    end.
Proof.
  intros Hwf Hctx Hni Hg.
  destruct (well_formed_yield s Hwf Hctx)
    as (s' & cth & next & Hy & Hcth & Hnext & Erl & Er & _ & _ & _ & Etk & _).
  exists s', cth. split; [done|]. split; [done|]. split; [done|].
  rewrite (yield_queue_not_idle s (running s) Hni) in Hnext, Erl.
  destruct (ready_list s) as [|e rest] eqn:Hrl.
  - cbn [list_insert_ordered tail] in *.
    destruct Hnext as [[? _]|[rest [= <-]]]; done.
  - assert (thread_compare_priority s (Elem (running s)) e
            = (elem_priority s e <? priority cth)) as Hcmp.
    { rewrite (thread_compare_priority_key s (Elem (running s)) (e :: rest) Hg)
        by left.
      rewrite (elem_priority_Elem s (running s) cth Hcth). apply Z.gtb_ltb. }
    cbn [list_insert_ordered] in Hnext, Erl. rewrite Hcmp in Hnext, Erl.
    destruct (elem_priority s e <? priority cth).
    + cbn [tail] in Erl. destruct Hnext as [[? _]|[rest' [= <- _]]]; done.
    + cbn [tail] in Erl.
      destruct Hnext as [[? _]|[rest' [= -> _]]]; [done|].
      split; [by rewrite Er|]. rewrite Erl.
      destruct (list_insert_ordered_split (thread_compare_priority s)
                  (Elem (running s)) rest) as (l1 & l2 & -> & -> & _).
      symmetry. apply Permutation_middle.
Qed.

(** X7.  Provided that neither the TCB of the caller nor that of a queued
    thread passes the empty-list test of [thread_compare_priority],
    [thread_yield] gives the CPU away only to a ready thread whose priority
    is at least that of the caller: a caller whose priority is above that of
    the front of the ready list, or that finds the list empty, is dispatched
    again at once and the list is as before; otherwise the front thread runs
    and the caller is queued.  The priorities are those of the TCBs. *)
Theorem thread_yield_keeps_cpu s :
  well_formed s → intr_context s = false →
  idle_thread s ≠ Some (running s) →
  guard_silent s (Elem (running s) :: ready_list s) = true →
  ∃ s' cth,
    thread_yield s = Some s' ∧ threads s !! running s = Some cth ∧
    thread_ticks s' = 0 ∧
    match ready_list s with
    | [] => running s' = running s ∧ ready_list s' = []
    | e :: rest =>
        ∃ pe,
          queued_priority s e = Some pe ∧
          if pe <? priority cth
          then running s' = running s ∧ ready_list s' = ready_list s
          else running s' = elem_owner e ∧
               ready_list s' ≡ₚ Elem (running s) :: rest
    end.
Proof.
  intros Hwf Hctx Hni Hg.
  destruct (thread_yield_front_or_caller s Hwf Hctx Hni Hg)
    as (s' & cth & Hy & Hcth & Htk & Hm).
  exists s', cth. split; [done|]. split; [done|]. split; [done|].
  destruct (ready_list s) as [|e rest] eqn:Hrl; [done|].
  destruct (well_formed_queued_priority s e Hwf) as [pe Hpe];
    [right; rewrite Hrl; left|].
  exists pe. split; [done|].
  by rewrite (elem_priority_queued s e pe Hpe) in Hm.
Qed.

Lemma descending_head s e l x :
  descending s (e :: l) → x ∈ l → elem_priority s x ≤ elem_priority s e.
Proof.
  intros Hs Hx. unfold descending in Hs.
  apply Sorted_StronglySorted in Hs; [|intros a b c; cbn; lia].
  apply StronglySorted_inv in Hs as [_ Hall].
  by apply (proj1 (Forall_forall _ _) Hall).
Qed.

Lemma thread_yield_front_highest s :
  well_formed s → intr_context s = false →
  guard_silent s (Elem (running s) :: ready_list s) = true →
  descending s (ready_list s) →
  ∃ s',
    thread_yield s = Some s' ∧
    descending s' (ready_list s') ∧
    ∀ e, e ∈ ready_list s' →
      elem_priority s' e ≤ elem_priority s' (Elem (running s')).
Proof.
  intros Hwf Hctx Hg Hs.
  destruct (well_formed_yield s Hwf Hctx)
    as (s' & cth & next & Hy & Hcth & Hnext & Erl & Er & _ & _ & _ & _ & _
        & Hmap & _).
  assert (descending s (yield_queue s (running s))) as Hsq.
  { unfold yield_queue. case_bool_decide; [|done].
    by destruct (insert_by_key_sorted (elem_priority s)
                   (thread_compare_priority s) (Elem (running s))
                   (ready_list s) (thread_compare_priority_key s _ _ Hg) Hs)
      as (l1 & l2 & _ & -> & _ & _ & ?). }
  assert (∀ e, e ∈ yield_queue s (running s) →
            elem_priority s' e = elem_priority s e) as Hprio.
  { intros e He.
    destruct (well_formed_yield_queue s e Hwf) as (n & th & -> & Hth & Hnv).
    { apply yield_queue_elem in He as [->|?]; [left|by right]. }
    destruct (Hmap n th Hnv Hth) as (th' & Hth' & Hsame & _).
    apply (elem_priority_ext_thread s s' n th th'); [done|done|].
    symmetry. apply Hsame. }
  exists s'. split; [done|]. rewrite Erl, Er.
  destruct Hnext as [[Hq _]|[rest Hq]]; rewrite Hq in *; cbn [tail].
  - split; [constructor|]. by intros e Hin%not_elem_of_nil.
  - split.
    + apply (descending_transfer s).
      * intros e He. apply Hprio. by right.
      * by apply (Sorted_tail _ (Elem next :: rest)).
    + intros e He. rewrite (Hprio e), (Hprio (Elem next)); [|left|by right].
      by apply (descending_head s (Elem next) rest).
Qed.

(** X8.  Provided that neither the TCB of the caller nor that of a queued
    thread passes the empty-list test of [thread_compare_priority]:
    when the ready list is in non-increasing order of the priorities in the
    TCBs, [thread_yield] runs a thread of the highest priority there is.  No
    thread left on the ready list after the call has a higher priority than
    the thread that was dispatched, and the list is still in that order. *)
Theorem thread_yield_runs_highest s :
  well_formed s → intr_context s = false →
  guard_silent s (Elem (running s) :: ready_list s) = true →
  priority_ordered s (ready_list s) →
  ∃ s',
    thread_yield s = Some s' ∧
    priority_ordered s' (ready_list s') ∧
    ∀ e, e ∈ ready_list s' → ranks_at_least s' (Elem (running s')) e.
Proof.
  intros Hwf Hctx Hg Hs.
  assert (∀ z e, well_formed z → e ∈ ready_list z →
            is_Some (queued_priority z e)) as Hlive.
  { intros z e Hz He.
    destruct (well_formed_queued_priority z e Hz) as [p Hp]; [by right|].
    by exists p. }
  destruct (thread_yield_front_highest s Hwf Hctx Hg) as (s' & Hy & Hs' & Hmax).
  { apply descending_priority_ordered; [|done]. intros e. by apply Hlive. }
  pose proof (thread_yield_well_formed s s' Hwf Hy) as Hwf'.
  exists s'. split; [done|]. split.
  - apply descending_priority_ordered; [|done]. intros e. by apply Hlive.
  - intros e He.
    destruct (Hlive s' e Hwf' He) as [pe Hpe].
    destruct (well_formed_queued_priority s' (Elem (running s')) Hwf')
      as [pr Hpr]; [left|].
    exists pr, pe. split; [done|]. split; [done|].
    specialize (Hmax e He).
    by rewrite (elem_priority_queued s' e pe Hpe),
      (elem_priority_queued s' _ pr Hpr) in Hmax.
Qed.

(** ** Round robin *)

Lemma iter_rotate_left {A} (l : list A) n :
  (n ≤ length l)%nat → Nat.iter n rotate_left l = drop n l ++ take n l.
Proof.
  induction n as [|n IH]; intros Hn.
  - cbn. by rewrite drop_0, app_nil_r.
  - rewrite Nat.iter_succ, IH by lia.
    destruct (drop n l) as [|x k] eqn:Hd.
    { apply (f_equal length) in Hd. rewrite length_drop in Hd. cbn in Hd.
      lia. }
    cbn [app rotate_left].
    assert (l !! n = Some x) as Hx
      by (rewrite <- (Nat.add_0_r n), <- lookup_drop, Hd; done).
    rewrite (take_S_r l n x Hx), <- app_assoc.
    f_equal.
    rewrite (drop_S l x n Hx) in Hd. by injection Hd.
Qed.

Lemma iter_rotate_left_length {A} (l : list A) :
  Nat.iter (length l) rotate_left l = l.
Proof.
  rewrite iter_rotate_left by done. by rewrite drop_all, firstn_all.
Qed.

Lemma list_insert_ordered_back {A} (less : A → A → bool) e l :
  (∀ x, x ∈ l → less e x = false) → list_insert_ordered less e l = l ++ [e].
Proof.
  intros H. rewrite <- (app_nil_r l) at 1.
  rewrite list_insert_ordered_past; [done|]. by apply Forall_forall.
Qed.

Lemma guard_silent_agree s s' l :
  mem s' = mem s → guard_silent s' l = guard_silent s l.
Proof. intros E. unfold guard_silent, list_empty_thread. by rewrite E. Qed.

(** Between two threads of the same priority the ordering predicate
    answers no, whether its empty-list test fires or not. *)
Lemma thread_compare_priority_equal s a b p :
  queued_priority s a = Some p → queued_priority s b = Some p →
  thread_compare_priority s a b = false.
Proof.
  intros Ha%elem_priority_queued Hb%elem_priority_queued.
  unfold thread_compare_priority. cbn zeta.
  destruct (_ || _); [done|].
  change (load_priority s (list_entry a elem)) with (elem_priority s a).
  change (load_priority s (list_entry b elem)) with (elem_priority s b).
  rewrite Ha, Hb, Z.gtb_ltb. apply Z.ltb_irrefl.
Qed.

(** One yield among threads of the same priority: the caller goes to the
    back of the queue and the front thread runs. *)
Lemma thread_yield_rotates s p :
  well_formed s → intr_context s = false →
  idle_thread s ≠ Some (running s) →
  (∀ e, e ∈ Elem (running s) :: ready_list s → queued_priority s e = Some p) →
  ∃ s',
    thread_yield s = Some s' ∧
    Elem (running s') :: ready_list s'
    = rotate_left (Elem (running s) :: ready_list s) ∧
    well_formed s' ∧ intr_context s' = false ∧
    idle_thread s' ≠ Some (running s') ∧
    (∀ e, e ∈ Elem (running s') :: ready_list s' →
       queued_priority s' e = Some p).
Proof.
  intros Hwf Hctx Hni Hp.
  destruct (well_formed_yield s Hwf Hctx)
    as (s' & cth & next & Hy & Hcth & Hnext & Erl & Er & _ & Emem & _ & _ & _
        & Hmap & Hw').
  destruct (thread_yield_frame s s' Hy) as (Ectx & Ei & _).
  assert (yield_queue s (running s) = ready_list s ++ [Elem (running s)])
    as Hyq.
  { rewrite (yield_queue_not_idle s (running s) Hni).
    apply list_insert_ordered_back. intros x Hx.
    apply (thread_compare_priority_equal s _ _ p); apply Hp; [left|by right]. }
  assert (Elem (running s') :: ready_list s'
          = rotate_left (Elem (running s) :: ready_list s)) as Hrot.
  { cbn [rotate_left]. rewrite <- Hyq, Erl, Er.
    destruct Hnext as [[Hq _]|[rest Hq]]; rewrite Hq; [|done].
    rewrite Hyq in Hq. by destruct (ready_list s). }
  assert (∀ e, e ∈ Elem (running s') :: ready_list s' →
            e ∈ Elem (running s) :: ready_list s) as Hsub.
  { intros e. rewrite Hrot. cbn [rotate_left].
    intros [?|?%list_elem_of_singleton]%elem_of_app; [by right|subst; left]. }
  exists s'. split; [done|]. split; [done|]. split; [done|].
  split; [congruence|]. split.
  { rewrite Ei. intros Hidle.
    destruct Hwf as [_ Hq]. destruct (qf_idle s Hq _ Hidle) as (_ & Hnr & _).
    pose proof (Hsub (Elem (running s')) (list_elem_of_here _ _))
      as [[= E]|Hin]%elem_of_cons.
    - congruence.
    - done. }
  intros e He%Hsub. pose proof (Hp e He) as Hpe.
  destruct (well_formed_yield_queue s e Hwf He) as (n & th & -> & Hth & Hnv).
  destruct (Hmap n th Hnv Hth) as (th' & Hth' & Hsame & _).
  rewrite (queued_priority_Elem s n th Hth) in Hpe.
  rewrite (queued_priority_Elem s' n th' Hth'). rewrite <- Hpe. f_equal.
  symmetry. apply Hsame.
Qed.

(** X9.  Round robin: threads of one priority that only yield take the
    CPU in turns.  Each yield moves the caller to the back of the queue and
    dispatches the front thread, and after as many yields as there are
    threads the first thread runs again with the ready list in its original
    order.  The priorities are those of the TCBs. *)
Theorem round_robin_among_equals n s p :
  well_formed s → intr_context s = false →
  idle_thread s ≠ Some (running s) →
  (∀ e, e ∈ Elem (running s) :: ready_list s → queued_priority s e = Some p) →
  ∃ s',
    thread_yield_times n s = Some s' ∧
    Elem (running s') :: ready_list s'
    = Nat.iter n rotate_left (Elem (running s) :: ready_list s) ∧
    (n = S (length (ready_list s)) →
     running s' = running s ∧ ready_list s' = ready_list s).
Proof.
  intros Hwf Hctx Hni Hp.
  assert (∃ s', thread_yield_times n s = Some s' ∧
                Elem (running s') :: ready_list s'
                = Nat.iter n rotate_left (Elem (running s) :: ready_list s))
    as (s' & Hy & Hrot).
  { revert s Hwf Hctx Hni Hp.
    induction n as [|n IH]; intros s Hwf Hctx Hni Hp;
      cbn [thread_yield_times]; [by exists s|].
    destruct (thread_yield_rotates s p Hwf Hctx Hni Hp)
      as (s1 & Hy & Hrot & Hw1 & Hctx1 & Hni1 & Hp1).
    destruct (IH s1 Hw1 Hctx1 Hni1 Hp1) as (s' & Hy' & Hrot').
    exists s'. rewrite Hy. cbn [mbind option_bind]. split; [done|].
    rewrite Hrot', Hrot. symmetry. apply Nat.iter_succ_r. }
  exists s'. split; [done|]. split; [done|].
  intros ->.
  change (S (length (ready_list s)))
    with (length (Elem (running s) :: ready_list s)) in Hrot.
  rewrite iter_rotate_left_length in Hrot. by injection Hrot as -> ->.
Qed.

(** * Withdrawing donations *)

(** ** [remove_with_lock] *)

Lemma store_thread_id s t th :
  threads s !! t = Some th → store_thread t th s = s.
Proof.
  intros Hth. apply state_ext; try reflexivity.
  cbn [threads store_thread set_threads]. by apply insert_id.
Qed.

Lemma with_donations_id th : with_donations (donations th) th = th.
Proof. by destruct th. Qed.

Lemma donors_of_elem s t l d :
  donors_of s t l = true → d ∈ l →
  ∃ c cth, d = DonationElem c ∧ c ≠ t ∧ threads s !! c = Some cth.
Proof.
  intros Hall Hin%list_elem_of_In. unfold donors_of in Hall.
  apply (proj1 (forallb_forall _ _) Hall) in Hin.
  destruct d as [c|c]; [done|].
  apply andb_prop in Hin as [H1 [cth H2]%bool_decide_eq_true].
  apply bool_decide_eq_true in H1. eauto.
Qed.

Lemma donors_of_store s t th th' l :
  threads s !! t = Some th →
  donors_of (store_thread t th' s) t l = donors_of s t l.
Proof.
  intros Hth. unfold donors_of.
  induction l as [|[x|x] l IH]; [done|done|].
  cbn [forallb]. rewrite IH. f_equal.
  cbn [threads store_thread set_threads].
  destruct (decide (x = t)) as [->|Hx].
  - by rewrite !bool_decide_eq_false_2 by (intros H; by apply H).
  - by rewrite lookup_insert_ne.
Qed.

Lemma waits_for_store_donations s t th l lock d :
  threads s !! t = Some th →
  waits_for (store_thread t (with_donations l th) s) lock d
  = waits_for s lock d.
Proof.
  intros Hth. unfold waits_for, load_thread.
  destruct (list_entry d donation_elem) as [c|c|c]; [|done|done].
  cbn [threads store_thread set_threads].
  destruct (decide (c = t)) as [->|Hne].
  - by rewrite lookup_insert_eq, Hth.
  - by rewrite lookup_insert_ne.
Qed.

Lemma remove_with_lock_loop_spec lock t rest :
  ∀ s th pre,
    threads s !! t = Some th → donations th = pre ++ rest →
    NoDup (pre ++ rest) → donors_of s t rest = true →
    remove_with_lock_loop lock t rest s
    = Some (store_thread t
              (with_donations
                 (pre ++ List.filter (λ d, negb (waits_for s lock d)) rest) th)
              s).
Proof.
  induction rest as [|d rest IH]; intros s th pre Hth Hd Hnd Hdon.
  - cbn [remove_with_lock_loop List.filter]. rewrite <- Hd, with_donations_id.
    by rewrite store_thread_id.
  - destruct (donors_of_elem s t (d :: rest) d Hdon) as (c & cth & -> & Hne & Hc);
      [left|].
    assert (donors_of s t rest = true) as Hdon'
      by (by apply andb_prop in Hdon as [_ ?]).
    cbn [remove_with_lock_loop List.filter list_entry load_thread].
    rewrite Hc. cbn [mbind option_bind].
    unfold waits_for at 1. cbn [list_entry load_thread].
    rewrite Hc. cbn [mbind option_bind].
    destruct (bool_decide (wait_on_lock cth = lock)); cbn [negb].
    + rewrite Hth. cbn [mbind option_bind].
      assert (DonationElem c ∉ pre) as Hnp.
      { apply NoDup_app in Hnd as (_ & Hnd & _). intros Hin.
        apply (Hnd _ Hin). left. }
      rewrite Hd, (list_remove_middle _ _ _ Hnp).
      set (th1 := with_donations (pre ++ rest) th).
      rewrite (IH (store_thread t th1 s) th1 pre).
      * rewrite store_thread_twice.
        rewrite (filter_ext_elem
                   (λ d, negb (waits_for (store_thread t th1 s) lock d))
                   (λ d, negb (waits_for s lock d)) rest); [reflexivity|].
        intros x _. f_equal. by apply waits_for_store_donations.
      * cbn [threads store_thread set_threads]. apply lookup_insert_eq.
      * done.
      * apply NoDup_app in Hnd as (H1 & H2 & H3%NoDup_cons_1_2).
        apply NoDup_app. split; [done|]. split; [|done].
        intros x Hx Hin. apply (H2 x Hx). by right.
      * by rewrite (donors_of_store s t th).
    + rewrite (IH s th (pre ++ [DonationElem c])); [|done| | |done].
      * by rewrite <- app_assoc.
      * by rewrite <- app_assoc.
      * by rewrite <- app_assoc.
Qed.

Lemma remove_with_lock_Some lock s t th :
  thread_current s = Some t → threads s !! t = Some th →
  NoDup (donations th) → donors_of s t (donations th) = true →
  remove_with_lock lock s
  = Some (store_thread t
            (with_donations
               (List.filter (λ d, negb (waits_for s lock d)) (donations th)) th)
            s).
Proof.
  intros Hcur Hth Hnd Hdon. unfold remove_with_lock.
  rewrite Hcur. cbn [mbind option_bind]. rewrite Hth. cbn [mbind option_bind].
  by rewrite (remove_with_lock_loop_spec lock t (donations th) s th []).
Qed.

(** X10.  [remove_with_lock] takes off the donation list of the running
    thread exactly the donors that wait for the lock; the other donors keep
    their order and nothing else changes. *)
Theorem remove_with_lock_filter lock s t th :
  thread_current s = Some t → threads s !! t = Some th →
  NoDup (donations th) → donors_of s t (donations th) = true →
  ∃ s',
    remove_with_lock lock s = Some s' ∧
    s' = store_thread t
           (with_donations
              (List.filter (λ d, negb (waits_for s lock d)) (donations th)) th)
           s.
Proof.
  intros Hcur Hth Hnd Hdon. eexists. split; [by apply remove_with_lock_Some|].
  done.
Qed.

(** ** [refresh_priority] *)

Lemma sort_insert_Permutation {A} (less : A → A → bool) e l :
  sort_insert less e l ≡ₚ e :: l.
Proof.
  induction l as [|x l IH]; cbn [sort_insert]; [done|].
  destruct (less x e); [|done]. rewrite IH. apply perm_swap.
Qed.

Lemma list_sort_Permutation {A} (less : A → A → bool) l :
  list_sort less l ≡ₚ l.
Proof.
  unfold list_sort. induction l as [|x l IH]; cbn [foldr]; [done|].
  by rewrite sort_insert_Permutation, IH.
Qed.

Lemma max_donation_floor s floor l : floor ≤ max_donation s floor l.
Proof.
  unfold max_donation. induction l as [|d l IH]; cbn [foldr]; lia.
Qed.

Lemma max_donation_elem s floor l d :
  d ∈ l →
  load_priority s (list_entry d donation_elem) ≤ max_donation s floor l.
Proof.
  unfold max_donation. induction l as [|x l IH]; [by intros ?%not_elem_of_nil|].
  intros [->|Hin]%elem_of_cons; cbn [foldr]; [lia|].
  specialize (IH Hin). lia.
Qed.

Lemma load_priority_donor s t th' c :
  c ≠ t →
  load_priority (store_thread t th' s) (list_entry (DonationElem c) donation_elem)
  = load_priority s (list_entry (DonationElem c) donation_elem).
Proof.
  intros Hne. unfold load_priority. cbn [list_entry load_thread].
  cbn [threads store_thread set_threads]. by rewrite lookup_insert_ne.
Qed.

Lemma max_donation_store s t th' floor l :
  donors_of s t l = true →
  max_donation (store_thread t th' s) floor l = max_donation s floor l.
Proof.
  unfold max_donation, donors_of.
  induction l as [|[x|x] l IH]; cbn [foldr forallb]; [done|done|].
  intros [[Hne%bool_decide_eq_true _]%andb_prop Hl]%andb_prop.
  by rewrite IH, load_priority_donor.
Qed.

Lemma donors_of_filter s t f l :
  donors_of s t l = true → donors_of s t (List.filter f l) = true.
Proof.
  unfold donors_of. induction l as [|x l IH]; cbn [List.filter forallb]; [done|].
  intros [Hx Hl]%andb_prop. destruct (f x); cbn [forallb]; [|auto].
  by rewrite Hx, IH.
Qed.

Lemma refresh_priority_result s t th :
  thread_current s = Some t → threads s !! t = Some th →
  donors_of s t (donations th) = true →
  ∃ th',
    refresh_priority s = Some (store_thread t th' s) ∧
    tid th' = tid th ∧ status th' = status th ∧ name th' = name th ∧
    init_priority th' = init_priority th ∧
    wait_on_lock th' = wait_on_lock th ∧ wakeup th' = wakeup th ∧
    pml4 th' = pml4 th ∧ magic th' = magic th ∧
    donations th' ≡ₚ donations th ∧
    init_priority th ≤ priority th'
      ≤ max_donation s (init_priority th) (donations th) ∧
    (priority th' = init_priority th
     ∨ ∃ d, d ∈ donations th ∧
            priority th' = load_priority s (list_entry d donation_elem)) ∧
    ((length (donations th) ≤ 1)%nat →
     priority th' = max_donation s (init_priority th) (donations th)).
Proof.
  intros Hcur Hth Hdon.
  assert (t = running s) as ->
    by (by apply thread_current_Some in Hcur as [? _]).
  pose proof (refresh_priority_front s (running s) th Hcur Hth) as Hf.
  cbn zeta in Hf.
  set (s0 := store_thread (running s) (with_priority (init_priority th) th) s)
    in *.
  set (sorted := list_sort (thread_compare_priority s0) (donations th)) in *.
  assert (sorted ≡ₚ donations th) as Hperm
    by apply list_sort_Permutation.
  assert (∃ s', refresh_priority s = Some s') as [s' Hr].
  { destruct sorted; [destruct Hf as [_ ?]|destruct Hf as (? & ? & _)]; eauto. }
  destruct (refresh_priority_inv s s' Hr)
    as (th0 & th' & _ & Hth0 & -> & Htid & Hst & Hname & Hinit & Hwl & Hwk & Hpm
        & Hmg & Hdn & _).
  assert (th0 = th) as -> by congruence.
  fold s0 in Hdn. fold sorted in Hdn.
  assert (priority th'
          = match sorted with
            | [] => init_priority th
            | d :: _ =>
                Z.max (init_priority th)
                  (load_priority s (list_entry d donation_elem))
            end ∧
          match sorted with
          | [] => True
          | d :: _ => d ∈ donations th
          end) as [Hprio Hhead].
  { destruct sorted as [|d rest] eqn:Hsorted.
    - destruct Hf as [_ Hf]. rewrite Hr in Hf. injection Hf as Hf.
      apply (f_equal (λ m : gmap Z thread, priority <$> m !! running s)) in Hf.
      cbn beta in Hf. rewrite !lookup_insert_eq in Hf. by injection Hf.
    - destruct Hf as (s'' & Hr' & Hp). rewrite Hr in Hr'. injection Hr' as <-.
      unfold priority_of in Hp. cbn [threads store_thread set_threads] in Hp.
      rewrite lookup_insert_eq in Hp. injection Hp as Hp.
      assert (d ∈ donations th) as Hd
        by (rewrite <- Hperm; left).
      split; [|done].
      destruct (donors_of_elem s (running s) _ d Hdon Hd)
        as (c & cth & -> & Hne & Hc).
      rewrite Hp. f_equal. unfold s0.
      by rewrite !load_priority_donor. }
  exists th'. split; [done|]. do 8 (split; [done|]).
  split; [by rewrite Hdn|].
  destruct sorted as [|d rest] eqn:Hsorted.
  - apply Permutation_nil_l in Hperm. rewrite <- Hperm. cbn [max_donation foldr].
    split; [lia|]. split; [by left|]. done.
  - pose proof (max_donation_floor s (init_priority th) (donations th)).
    pose proof (max_donation_elem s (init_priority th) (donations th) d Hhead).
    split; [lia|]. split.
    + destruct (Z.max_spec (init_priority th)
                  (load_priority s (list_entry d donation_elem)))
        as [[_ E]|[_ E]]; rewrite E in Hprio; [right; eauto|by left].
    + intros Hlen.
      destruct (donations th) as [|d' [|? ?]] eqn:Hd; cbn in Hlen;
        [by apply Permutation_nil_r in Hperm| |lia].
      apply Permutation_singleton_r in Hperm. injection Hperm as -> ->.
      rewrite Hprio. cbn [max_donation foldr]. lia.
Qed.

(** X11.  [refresh_priority] never takes the running thread below its own
    priority nor above its largest donor: the new priority is the thread's
    [init_priority] or the priority of one of its donors; the donors are
    only reordered and the rest of the thread is untouched.  With at most
    one donor the result is exactly the larger of the thread's own priority
    and the donor's. *)
Theorem refresh_priority_bounds s t th :
  thread_current s = Some t → threads s !! t = Some th →
  donors_of s t (donations th) = true →
  ∃ th',
    refresh_priority s = Some (store_thread t th' s) ∧
    tid th' = tid th ∧ status th' = status th ∧ name th' = name th ∧
    init_priority th' = init_priority th ∧
    wait_on_lock th' = wait_on_lock th ∧ wakeup th' = wakeup th ∧
    pml4 th' = pml4 th ∧ magic th' = magic th ∧
    donations th' ≡ₚ donations th ∧
    init_priority th ≤ priority th'
      ≤ max_donation s (init_priority th) (donations th) ∧
    (priority th' = init_priority th
     ∨ ∃ d, d ∈ donations th ∧
            priority th' = load_priority s (list_entry d donation_elem)) ∧
    ((length (donations th) ≤ 1)%nat →
     priority th' = max_donation s (init_priority th) (donations th)).
Proof. apply refresh_priority_result. Qed.

(** X12.  Releasing a lock: after [remove_with_lock] and
    [refresh_priority] the donors that waited for the lock are gone from the
    donation list, and the priority of the running thread lies between its
    own priority and that of the largest donor left.  When at most one donor
    is left the priority is exactly the larger of the two, so that a thread
    whose donors all waited for the lock is back at its [init_priority]. *)
Theorem release_withdraws_donations lock s t th :
  thread_current s = Some t → threads s !! t = Some th →
  NoDup (donations th) → donors_of s t (donations th) = true →
  let left := List.filter (λ d, negb (waits_for s lock d)) (donations th) in
  ∃ s1 th2,
    remove_with_lock lock s = Some s1 ∧
    refresh_priority s1 = Some (store_thread t th2 s) ∧
    donations th2 ≡ₚ left ∧
    init_priority th2 = init_priority th ∧ status th2 = status th ∧
    wait_on_lock th2 = wait_on_lock th ∧
    init_priority th ≤ priority th2 ≤ max_donation s (init_priority th) left ∧
    ((length left ≤ 1)%nat →
     priority th2 = max_donation s (init_priority th) left) ∧
    ((∀ d, d ∈ donations th → waits_for s lock d = true) →
     priority th2 = init_priority th ∧ donations th2 = []).
Proof.
  intros Hcur Hth Hnd Hdon left.
  set (th1 := with_donations left th).
  assert (thread_current (store_thread t th1 s) = Some t) as Hcur1.
  { assert (t = running s) as ->
      by (by apply thread_current_Some in Hcur as [? _]).
    apply (thread_current_agree s (store_thread (running s) th1 s));
      [| |done|done]; intros x; symmetry.
    - by apply (lookup_store_agree status s (running s) th).
    - by apply (lookup_store_agree magic s (running s) th). }
  destruct (refresh_priority_result (store_thread t th1 s) t th1 Hcur1)
    as (th2 & Hr & _ & Hst & _ & Hinit & Hwl & _ & _ & _ & Hperm & Hb & _ & Hex).
  { cbn [threads store_thread set_threads]. apply lookup_insert_eq. }
  { rewrite (donors_of_store s t th) by done. by apply donors_of_filter. }
  rewrite store_thread_twice in Hr.
  cbn [donations init_priority status wait_on_lock th1 with_donations]
    in Hperm, Hb, Hex, Hinit, Hst, Hwl.
  rewrite max_donation_store in Hb, Hex by (by apply donors_of_filter).
  exists (store_thread t th1 s), th2.
  split; [by apply remove_with_lock_Some|].
  do 7 (split; [done|]).
  intros Hall.
  assert (∀ l, (∀ d, d ∈ l → waits_for s lock d = true) →
            List.filter (λ d, negb (waits_for s lock d)) l = []) as Hfil.
  { induction l as [|d l IH]; [done|]. intros H.
    cbn [List.filter]. rewrite (H d) by left. cbn [negb].
    apply IH. intros x Hx. apply H. by right. }
  assert (left = []) as Hnil by (by apply Hfil).
  rewrite Hnil in *. split.
  - rewrite Hex by (cbn; lia). done.
  - by apply Permutation_nil_r in Hperm.
Qed.

(** * Priorities, ticks and identifiers *)

(** ** The thread on the CPU after a switch *)

Lemma schedule_current s s' :
  schedule s = Some s' → thread_current s' = Some (running s').
Proof.
  intros (cth & next & nth & _ & _ & _ & _ & Hn & Hnth & ->)%schedule_Some.
  match goal with
  | |- context [dispatched ?c ?ct ?n ?nt ?sz] =>
      destruct (dispatched_fields c ct n nt sz) as (Et & Er & _)
  end.
  apply is_thread_lookup in Hn as (nth' & Hnth' & Hz & Hm).
  assert (nth' = nth) as -> by congruence.
  assert (running (dispatched (running s) cth next nth
                     (set_ready_list (tail (ready_list s)) s)) = next) as Er'.
  { rewrite Er. case_bool_decide as Hc; [done|].
    cbn [running set_ready_list].
    destruct (decide (running s = next)); [done|]. by destruct Hc. }
  apply thread_current_Some. rewrite Er'. split; [done|].
  assert (threads (dispatched (running s) cth next nth
                     (set_ready_list (tail (ready_list s)) s)) !! next
          = Some (with_status THREAD_RUNNING nth)) as Hl
    by (rewrite Et; apply lookup_insert_eq).
  split; [|eauto]. apply is_thread_lookup. eauto.
Qed.

Lemma thread_yield_current s s' :
  thread_yield s = Some s' → thread_current s' = Some (running s').
Proof.
  unfold thread_yield. do 2 first_step. cbn [intr_disable].
  destruct (do_schedule THREAD_READY _) as [s1|] eqn:Hd; [|done].
  cbn [mbind option_bind].
  apply do_schedule_inv in Hd as (s0 & th & _ & _ & Hs%schedule_current).
  destruct (bool_decide (running s1 = _)); intros [= <-]; [|done].
  by rewrite (thread_current_ext _ s1).
Qed.

Lemma thread_test_max_priority_current s s' :
  thread_current s = Some (running s) →
  thread_test_max_priority s = Some s' →
  thread_current s' = Some (running s').
Proof.
  intros Hc [->|Hy]%thread_test_max_priority_cases; [done|].
  by apply (thread_yield_current s).
Qed.

Lemma thread_test_max_priority_frame s s' :
  thread_test_max_priority s = Some s' →
  next_tid s' = next_tid s ∧ idle_thread s' = idle_thread s ∧
  initial_thread s' = initial_thread s ∧ sleep_list s' = sleep_list s ∧
  ∀ x th', threads s' !! x = Some th' →
    ∃ th, threads s !! x = Some th ∧ same_but_status th th'.
Proof.
  intros [->|Hy]%thread_test_max_priority_cases.
  - do 4 (split; [done|]). intros x th' Hx. exists th'.
    split; [done|]. apply same_but_status_refl.
  - by apply thread_yield_frame in Hy as (_ & ? & ? & ? & _ & _ & ? & _ & _ & _
                                          & _ & ?).
Qed.

(** X13.  [thread_set_priority] followed by [thread_get_priority]: a
    thread that is still on the CPU after setting its priority reads back
    the new value, unless a donor outranks it; with one donor it reads the
    larger of the new value and the donor's priority.  The new value is kept
    as [init_priority] in either case. *)
Theorem thread_set_priority_get new_priority s s' th :
  thread_set_priority new_priority s = Some s' →
  threads s !! running s = Some th →
  donors_of s (running s) (donations th) = true →
  (length (donations th) ≤ 1)%nat →
  running s' = running s →
  thread_get_priority s'
  = Some (max_donation s new_priority (donations th)) ∧
  init_priority <$> threads s' !! running s = Some new_priority.
Proof.
  intros (cth & s1 & Hcur & Hcth & Hr & Ht)%thread_set_priority_inv
    Hth Hdon Hlen Hrun.
  assert (cth = th) as -> by congruence.
  set (sx := store_thread (running s) (with_init_priority new_priority th) s)
    in *.
  assert (thread_current sx = Some (running s)) as Hcx.
  { apply (thread_current_agree s sx); [| |done|done]; intros x; symmetry.
    - by apply (lookup_store_agree status s (running s) th).
    - by apply (lookup_store_agree magic s (running s) th). }
  destruct (refresh_priority_result sx (running s)
              (with_init_priority new_priority th) Hcx)
    as (th1 & Hr1 & _ & Hst & _ & Hinit & _ & _ & _ & Hmg & _ & _ & _ & Hex).
  { cbn [threads sx store_thread set_threads]. apply lookup_insert_eq. }
  { cbn [donations with_init_priority]. unfold sx.
    by rewrite (donors_of_store s (running s) th). }
  rewrite Hr in Hr1. injection Hr1 as ->.
  cbn [donations init_priority with_init_priority] in Hex, Hinit.
  specialize (Hex Hlen). unfold sx in Hex.
  rewrite max_donation_store in Hex by done.
  assert (threads (store_thread (running s) th1 sx) !! running s = Some th1)
    as Hl1 by (cbn [threads store_thread set_threads]; apply lookup_insert_eq).
  assert (thread_current (store_thread (running s) th1 sx) = Some (running s))
    as Hc1.
  { apply (thread_current_agree sx (store_thread (running s) th1 sx));
      [| |done|done]; intros x; symmetry.
    - apply (lookup_store_agree status sx (running s)
               (with_init_priority new_priority th)); [|done].
      cbn [threads sx store_thread set_threads]. apply lookup_insert_eq.
    - apply (lookup_store_agree magic sx (running s)
               (with_init_priority new_priority th)); [|done].
      cbn [threads sx store_thread set_threads]. apply lookup_insert_eq. }
  pose proof (thread_test_max_priority_current _ s' Hc1 Ht) as Hc'.
  destruct (thread_test_max_priority_frame _ s' Ht) as (_ & _ & _ & _ & Hsub).
  pose proof Hc' as (_ & _ & th' & Hth' & _)%thread_current_Some.
  rewrite Hrun in Hth'.
  destruct (Hsub _ _ Hth') as (th1' & Hth1' & Hsame).
  assert (th1' = th1) as -> by congruence.
  destruct Hsame as (_ & _ & Hp & Hi & _).
  unfold thread_get_priority. rewrite Hc', Hrun. cbn [mbind option_bind].
  rewrite Hth'. cbn. split; f_equal; congruence.
Qed.

(** ** The time slice *)

Lemma thread_tick_Some s t :
  thread_current s = Some t →
  ∃ s',
    thread_tick s = Some s' ∧
    thread_ticks s' = wrap_unsigned (thread_ticks s + 1) ∧
    yield_on_return s'
    = (yield_on_return s || (TIME_SLICE <=? wrap_unsigned (thread_ticks s + 1)))
    ∧
    threads s' = threads s ∧ running s' = running s ∧
    ready_list s' = ready_list s ∧ sleep_list s' = sleep_list s ∧
    destruction_req s' = destruction_req s ∧ intr_level s' = intr_level s.
Proof.
  intros Hcur. pose proof Hcur as (_ & _ & th & Hth & _)%thread_current_Some.
  unfold thread_tick. rewrite Hcur. cbn [mbind option_bind].
  rewrite Hth. cbn [mbind option_bind].
  destruct (bool_decide (Some t = idle_thread s));
    [|destruct (bool_decide (pml4 th ≠ None))];
    cbn beta zeta;
    cbn [thread_ticks set_idle_ticks set_user_ticks set_kernel_ticks
         set_thread_ticks];
    destruct (TIME_SLICE <=? wrap_unsigned (thread_ticks s + 1));
    eexists; (split; [reflexivity|]);
    cbn [thread_ticks yield_on_return threads running ready_list sleep_list
         destruction_req intr_level intr_yield_on_return set_yield_on_return
         set_idle_ticks set_user_ticks set_kernel_ticks set_thread_ticks];
    rewrite ?orb_true_r, ?orb_false_r; done.
Qed.

Lemma thread_tick_times_spec n :
  ∀ s t,
    thread_current s = Some t →
    0 ≤ thread_ticks s → thread_ticks s + Z.of_nat n < 2 ^ 32 →
    ∃ s',
      thread_tick_times n s = Some s' ∧
      thread_ticks s' = thread_ticks s + Z.of_nat n ∧
      yield_on_return s'
      = (yield_on_return s
         || bool_decide (0 < Z.of_nat n ∧
                         TIME_SLICE ≤ thread_ticks s + Z.of_nat n)) ∧
      threads s' = threads s ∧ running s' = running s ∧
      ready_list s' = ready_list s ∧ sleep_list s' = sleep_list s ∧
      destruction_req s' = destruction_req s ∧ intr_level s' = intr_level s.
Proof.
  induction n as [|n IH]; intros s t Hcur H0 Hn; cbn [thread_tick_times].
  - exists s. split; [done|]. split; [lia|]. split; [|done].
    rewrite bool_decide_eq_false_2 by lia. by rewrite orb_false_r.
  - destruct (thread_tick_Some s t Hcur)
      as (s1 & Ht & Etk & Ey & Eth & Er & Erl & Esl & Ed & Ei).
    rewrite wrap_unsigned_small in Etk, Ey by lia.
    rewrite Ht. cbn [mbind option_bind].
    destruct (IH s1 t) as (s' & Ht' & Etk' & Ey' & Eth' & Er' & Erl' & Esl'
                           & Ed' & Ei'); [|lia|lia|].
    { rewrite <- Hcur. by apply thread_current_ext; rewrite ?Er, ?Eth. }
    exists s'. split; [done|]. split; [lia|]. split; [|by repeat split; congruence].
    rewrite Ey', Ey, Etk. unfold TIME_SLICE.
    destruct (yield_on_return s); cbn [orb]; [done|].
    destruct (4 <=? thread_ticks s + 1) eqn:E;
      [apply Z.leb_le in E|apply Z.leb_gt in E]; cbn [orb].
    + symmetry. apply bool_decide_eq_true. lia.
    + apply bool_decide_ext. lia.
Qed.

(** X14.  The time slice is four ticks: a thread that has just been
    dispatched ([thread_ticks] is 0, no yield requested) runs through three
    timer ticks undisturbed, and the yield on return from the interrupt is
    requested by the fourth tick and stays requested; the ticks themselves
    switch to no other thread. *)
Theorem time_slice_four_ticks n s t :
  thread_current s = Some t →
  thread_ticks s = 0 → yield_on_return s = false → Z.of_nat n < 2 ^ 32 →
  ∃ s',
    thread_tick_times n s = Some s' ∧
    thread_ticks s' = Z.of_nat n ∧
    yield_on_return s' = bool_decide (4 ≤ Z.of_nat n) ∧
    threads s' = threads s ∧ running s' = running s ∧
    ready_list s' = ready_list s.
Proof.
  intros Hcur Htk Hy Hn.
  destruct (thread_tick_times_spec n s t Hcur)
    as (s' & Ht & Etk & Ey & Eth & Er & Erl & _); [lia|lia|].
  exists s'. split; [done|]. split; [lia|]. split; [|done].
  rewrite Ey, Hy, Htk. cbn [orb]. apply bool_decide_ext.
  unfold TIME_SLICE. lia.
Qed.

(** ** Thread identifiers *)

Lemma wrap_int_succ_ne z : wrap_int (z + 1) ≠ z.
Proof.
  unfold wrap_int.
  pose proof (Z.mod_pos_bound (z + 1 + 2 ^ 31) (2 ^ 32) ltac:(lia)).
  destruct (decide (- 2 ^ 31 ≤ z < 2 ^ 31 - 1)).
  - rewrite Z.mod_small by lia. lia.
  - destruct (decide (z = 2 ^ 31 - 1)) as [->|]; [done|]. lia.
Qed.

Lemma thread_create_next_tid nm prio function aux s tid' s' :
  thread_create nm prio function aux s = Some (tid', s') →
  free_pages s ≠ [] →
  tid' = next_tid s ∧ next_tid s' = wrap_int (next_tid s + 1).
Proof.
  intros [(Hf & _)|(p & rest & s1 & Hfree & Hf & Hp & Hprio & -> & Hun & Ht)]
    %thread_create_inv Hne; [done|].
  split; [done|].
  apply thread_test_max_priority_frame in Ht as (-> & _).
  by apply thread_unblock_inv in Hun as (? & _ & _ & _ & _ & ->).
Qed.

(** X15.  [thread_create] hands out the identifiers in sequence: a
    creation that finds a page returns the current value of the counter and
    advances it by one, wrapping around as a C [int]; two creations in a row
    never return the same identifier. *)
Theorem thread_create_successive_tids
    nm1 prio1 function1 aux1 nm2 prio2 function2 aux2 s s1 s2 tid1 tid2 :
  thread_create nm1 prio1 function1 aux1 s = Some (tid1, s1) →
  thread_create nm2 prio2 function2 aux2 s1 = Some (tid2, s2) →
  free_pages s ≠ [] → free_pages s1 ≠ [] →
  tid1 = next_tid s ∧ tid2 = wrap_int (tid1 + 1) ∧ tid2 ≠ tid1 ∧
  (- 2 ^ 31 ≤ tid1 < 2 ^ 31 - 1 → tid2 = tid1 + 1).
Proof.
  intros H1 H2 Hf Hf1.
  apply thread_create_next_tid in H1 as [-> E1]; [|done].
  apply thread_create_next_tid in H2 as [-> _]; [|done].
  rewrite E1. split; [done|]. split; [done|].
  split; [apply wrap_int_succ_ne|].
  intros Hr. unfold wrap_int. rewrite Z.mod_small by lia. lia.
Qed.

(** ** Calls that panic *)

Lemma thread_sleep_intr_context ticks s :
  intr_context s = true → thread_sleep ticks s = None.
Proof.
  intros Hctx. destruct (thread_sleep ticks s) as [s'|] eqn:Hs; [|done].
  apply thread_sleep_inv in Hs as (cth & s1 & _ & _ & _ & Hb & _).
  by rewrite thread_block_intr_context in Hb.
Qed.

Lemma thread_block_intr_on s :
  intr_level s = INTR_ON → thread_block s = None.
Proof.
  intros Hon. unfold thread_block.
  destruct (negb (intr_context s)); [|done]. cbn [ASSERT mbind option_bind].
  rewrite Hon. by rewrite bool_decide_eq_false_2.
Qed.

Lemma thread_unblock_not_blocked t s :
  (∀ th, threads s !! t = Some th → status th ≠ THREAD_BLOCKED) →
  thread_unblock t s = None.
Proof.
  intros Hst.
  destruct (thread_unblock t s) as [s'|] eqn:Hun; [|done].
  apply thread_unblock_inv in Hun as (th' & Hth' & _ & _ & Hst' & _).
  by destruct (Hst th' Hth').
Qed.

Lemma thread_create_bad_priority nm prio function aux s :
  free_pages s ≠ [] → ¬ (PRI_MIN ≤ prio ≤ PRI_MAX) →
  thread_create nm prio function aux s = None.
Proof.
  intros Hfree Hprio.
  destruct (thread_create nm prio function aux s) as [[tid' s']|] eqn:Hc;
    [|done].
  by apply thread_create_inv in Hc as [(? & _)|(? & ? & ? & _ & _ & _ & ? & _)].
Qed.

(** * New threads, blocking, the idle thread and start-up *)

(** ** The identity of a new thread *)

(** X17.  The thread that [thread_create] sets up on the allocator's page
    carries the returned identifier, the name cut to 15 characters and the
    priority asked for.  When it has the CPU on return, [thread_tid],
    [thread_name] and [thread_get_priority] report these values; otherwise
    it waits in the ready list in state THREAD_READY. *)
Theorem thread_create_identity nm prio function aux s tid' s' p rest :
  well_formed s → free_pages s = p :: rest →
  thread_create nm prio function aux s = Some (tid', s') →
  ∃ th',
    threads s' !! p = Some th' ∧
    same_but_status (created_tcb nm prio tid' THREAD_READY) th' ∧
    (running s' = p →
     thread_tid s' = Some tid' ∧ thread_name s' = Some (substring 0 15 nm) ∧
     thread_get_priority s' = Some prio) ∧
    (running s' ≠ p → status th' = THREAD_READY ∧ Elem p ∈ ready_list s').
Proof.
  intros Hwf Hfree Hc.
  pose proof (thread_create_well_formed _ _ _ _ s tid' s' Hwf Hc) as Hwf'.
  apply thread_create_inv in Hc
    as [(Hnil & _)|(p' & rest' & s1 & Hfree' & Hf & Hp0 & Hprio & -> & Hun & Ht)];
    [congruence|].
  rewrite Hfree in Hfree'. injection Hfree' as <- <-.
  pose proof (thread_unblock_unlinked _ _ _ Hun) as Hoff.
  destruct (thread_create_unblocked nm prio function aux s p rest
              Hf Hfree Hp0 Hprio Hoff)
    as (s1' & Hun' & _ & Ht1 & Hrl1 & _ & Hrun1 & _ & Hctx1 & Hd1 & Hidle1 & _).
  cbn zeta in Hun'. rewrite Hun in Hun'. injection Hun' as <-.
  set (th0 := created_tcb nm prio (next_tid s) THREAD_BLOCKED) in *.
  set (s0 := store_thread p th0 _) in *.
  destruct (well_formed_new_thread s s0 p rest th0 Hwf Hfree Hp0)
    as (Hwf0 & Hns0 & Hni0); try reflexivity.
  pose proof (thread_unblock_well_formed p s0 s1 Hwf0 Hns0 Hni0 Hun) as Hwf1.
  assert (threads s1 !! p
          = Some (created_tcb nm prio (next_tid s) THREAD_READY)) as Hp1
    by (rewrite Ht1; apply lookup_insert_eq).
  assert (Elem p ∈ ready_list s1) as Hpq
    by (rewrite Hrl1; apply elem_of_list_insert_ordered; by left).
  assert (running s1 ≠ p) as Hrp.
  { destruct (well_formed_running_not_queued s1 Hwf1) as (Hnq & _).
    intros E. by rewrite E in Hnq. }
  assert (idle_thread s1 ≠ Some p) as Hni1 by (by rewrite Hidle1).
  apply thread_test_max_priority_cases in Ht as [->|Hy].
  { eexists. split; [exact Hp1|]. split; [apply same_but_status_refl|].
    split; [done|]. by intros _. }
  assert (intr_context s1 = false) as Hctx.
  { destruct (intr_context s1) eqn:E; [|done].
    by rewrite thread_yield_intr_context in Hy. }
  destruct (well_formed_yield s1 Hwf1 Hctx)
    as (s'' & cth & next & Hy' & _ & _ & _ & Hrun' & _ & _ & _ & _ & _ & Hmap & _).
  rewrite Hy in Hy'. injection Hy' as <-.
  destruct (well_formed_yield_queue s1 (Elem p) Hwf1)
    as (n & nth & [= <-] & _ & Hnv); [by right|].
  destruct (Hmap p _ Hnv Hp1) as (th' & Hth' & Hsame & Hst).
  exists th'. split; [done|]. split; [done|]. split.
  - intros E. destruct Hsame as (Htid & Hname & Hpr & _).
    unfold thread_tid, thread_name, thread_get_priority.
    rewrite (proj1 Hwf'), E. cbn [mbind option_bind]. rewrite Hth'.
    cbn [mbind option_bind]. by rewrite <- Htid, <- Hname, <- Hpr.
  - intros Hne.
    rewrite bool_decide_eq_false_2 in Hst by congruence.
    rewrite bool_decide_eq_false_2 in Hst by congruence.
    split; [done|].
    destruct Hwf' as [_ Hq].
    destruct (qf_ready_queued s' Hq p th' Hth' Hst) as [?|Hi]; [done|].
    apply thread_yield_frame in Hy as (_ & Ei & _). congruence.
Qed.

(** ** [thread_block] *)

Lemma with_status_id st th : status th = st → with_status st th = th.
Proof. destruct th. cbn. by intros ->. Qed.

Lemma well_formed_selected_thread s next :
  well_formed s → selected s = Some next →
  ∃ nth, threads s !! next = Some nth ∧ is_thread s next = true ∧
         (next = running s → idle_thread s = Some next ∧ ready_list s = []).
Proof.
  intros Hwf Hsel. pose proof Hwf as [_ Hq]. unfold selected in Hsel.
  destruct (ready_list s) as [|[n|n] rest] eqn:Hrl; [| |done].
  - destruct (qf_idle s Hq next Hsel) as ([nth Hnth] & _).
    exists nth. split; [done|].
    split; [by apply (queues_fit_is_thread s next nth)|]. done.
  - destruct (well_formed_selected s next Hwf) as (Hne & Hn & nth & Hnth & _).
    + unfold selected. by rewrite Hrl.
    + right. by rewrite Hrl.
    + exists nth. split; [done|]. split; [done|]. done.
Qed.

Lemma thread_block_result s next :
  well_formed s → intr_context s = false → intr_level s = INTR_OFF →
  selected s = Some next →
  ∃ s' cth nth,
    thread_block s = Some s' ∧
    threads s !! running s = Some cth ∧ threads s !! next = Some nth ∧
    running s' = next ∧
    threads s'
    = <[next := with_status THREAD_RUNNING nth]>
        (<[running s := with_status THREAD_BLOCKED cth]> (threads s)) ∧
    ready_list s' = tail (ready_list s) ∧ sleep_list s' = sleep_list s ∧
    destruction_req s' = destruction_req s ∧ free_pages s' = free_pages s ∧
    thread_ticks s' = 0 ∧ intr_level s' = INTR_OFF ∧
    intr_context s' = false ∧ idle_thread s' = idle_thread s ∧
    initial_thread s' = initial_thread s ∧ next_tid s' = next_tid s ∧
    locks s' = locks s ∧ yield_on_return s' = yield_on_return s ∧
    idle_ticks s' = idle_ticks s ∧ kernel_ticks s' = kernel_ticks s ∧
    user_ticks s' = user_ticks s ∧ mem s' = mem s ∧
    well_formed s'.
Proof.
  intros Hwf Hctx Hoff Hsel.
  destruct (well_formed_current s Hwf) as (cth & Hcth & Hrun & _).
  destruct (well_formed_selected_thread s next Hwf Hsel)
    as (nth & Hnth & Hn & Hsame).
  pose proof (thread_block_Some s (running s) cth Hctx Hoff (proj1 Hwf) Hcth)
    as Hb.
  set (sx := store_thread (running s) (with_status THREAD_BLOCKED cth) s) in *.
  assert (threads sx
          = <[running s := with_status THREAD_BLOCKED cth]> (threads s))
    as Hsx by reflexivity.
  set (nth' := if decide (next = running s)
               then with_status THREAD_BLOCKED cth else nth).
  assert (threads sx !! next = Some nth') as Hnth'.
  { rewrite Hsx. unfold nth'. destruct (decide (next = running s)) as [->|Hne].
    - apply lookup_insert_eq.
    - by rewrite lookup_insert_ne. }
  assert (with_status THREAD_RUNNING nth' = with_status THREAD_RUNNING nth)
    as Hrn.
  { unfold nth'. destruct (decide (next = running s)) as [->|Hne]; [|done].
    assert (nth = cth) as -> by congruence. done. }
  rewrite (schedule_selected sx next (with_status THREAD_BLOCKED cth) nth')
    in Hb; [|done|by rewrite Hsx, lookup_insert_eq|done|done| |done].
  2:{ apply is_thread_lookup in Hn as (nth0 & Hnth0 & Hz & Hm).
      assert (nth0 = nth) as -> by congruence.
      apply is_thread_lookup. exists nth'. split; [done|]. split; [done|].
      unfold nth'. destruct (decide (next = running s)) as [->|Hne]; [|done].
      assert (nth = cth) as -> by congruence. done. }
  eexists _, cth, nth. split; [exact Hb|]. split; [done|]. split; [done|].
  match type of Hb with
  | _ = Some (dispatched ?c ?ct ?n ?nt ?sz) =>
      destruct (dispatched_fields c ct n nt sz)
        as (Et & Er & Ed & Erl & Esl & Ef & Ei & Etk & Em);
      destruct (dispatched_more c ct n nt sz)
        as (Eid & Ein & Ent & El & Ectx & Ey & E1 & E2 & E3)
  end.
  rewrite Et, Er, Ed, Erl, Esl, Ef, Ei, Etk, Em, Eid, Ein, Ent, El, Ectx, Ey,
    E1, E2, E3, Hrn.
  cbn [threads ready_list sleep_list destruction_req free_pages intr_level
       intr_context running initial_thread idle_thread next_tid locks
       yield_on_return idle_ticks kernel_ticks user_ticks mem status
       set_ready_list store_thread set_threads sx with_status].
  rewrite (bool_decide_eq_false_2 (THREAD_BLOCKED = THREAD_DYING)) by done.
  rewrite andb_false_r. cbn [andb].
  split.
  { destruct (decide (running s = next)) as [->|Hne].
    - by rewrite bool_decide_eq_false_2 by (intros H; by apply H).
    - by rewrite bool_decide_eq_true_2. }
  do 17 (split; [done|]).
  by apply (thread_block_well_formed s).
Qed.

(** X18.  [thread_block], called with interrupts off outside an interrupt
    handler, puts the caller into state THREAD_BLOCKED and gives the CPU to
    the front of the ready list, or to the idle thread when nothing is
    ready, with a fresh time slice.  The caller is on no list afterwards:
    only [thread_unblock] brings it back. *)
Theorem thread_block_switches s next :
  well_formed s → intr_context s = false → intr_level s = INTR_OFF →
  idle_thread s ≠ Some (running s) → selected s = Some next →
  ∃ s' cth nth,
    thread_block s = Some s' ∧
    threads s !! running s = Some cth ∧ threads s !! next = Some nth ∧
    running s' = next ∧ next ≠ running s ∧
    threads s' !! running s = Some (with_status THREAD_BLOCKED cth) ∧
    threads s' !! next = Some (with_status THREAD_RUNNING nth) ∧
    (∀ x, x ≠ next → x ≠ running s → threads s' !! x = threads s !! x) ∧
    ready_list s' = tail (ready_list s) ∧ sleep_list s' = sleep_list s ∧
    destruction_req s' = destruction_req s ∧ free_pages s' = free_pages s ∧
    (Elem (running s) ∉ ready_list s') ∧ (Elem (running s) ∉ sleep_list s') ∧
    thread_ticks s' = 0 ∧ well_formed s'.
Proof.
  intros Hwf Hctx Hoff Hni Hsel.
  destruct (thread_block_result s next Hwf Hctx Hoff Hsel)
    as (s' & cth & nth & Hb & Hcth & Hnth & Er & Et & Erl & Esl & Ed & Ef & Etk
        & _ & _ & _ & _ & _ & _ & _ & _ & _ & _ & _ & Hwf').
  destruct (well_formed_selected s next Hwf Hsel) as (Hne & _); [by left|].
  destruct (well_formed_running_not_queued s Hwf) as (Hnq & Hns & _).
  exists s', cth, nth. do 4 (split; [done|]). split; [done|].
  split; [by rewrite Et, lookup_insert_ne, lookup_insert_eq|].
  split; [by rewrite Et, lookup_insert_eq|].
  split; [intros x H1 H2; by rewrite Et, !lookup_insert_ne|].
  do 4 (split; [done|]).
  split.
  { rewrite Erl. intros Hin. apply Hnq.
    destruct (ready_list s) as [|e l]; [done|]. by right. }
  split; [by rewrite Esl|]. done.
Qed.

(** ** The idle thread *)

Lemma idle_loop_S n s :
  idle_loop (S n) s
  = (s1 ← thread_block (set_intr_level INTR_OFF s);
     if bool_decide (running s1 = running s)
     then idle_loop n (intr_enable s1) else Some s1).
Proof. reflexivity. Qed.

Lemma idle_pass_quiet s :
  well_formed s → intr_context s = false →
  idle_thread s = Some (running s) → ready_list s = [] →
  thread_block (set_intr_level INTR_OFF s)
  = Some (set_thread_ticks 0 (set_intr_level INTR_OFF s)).
Proof.
  intros Hwf Hctx Hidle Hrl.
  destruct (well_formed_current s Hwf) as (cth & Hcth & Hrun & _).
  destruct (thread_block_result (set_intr_level INTR_OFF s) (running s))
    as (s' & cth' & nth & Hb & Hcth' & Hnth & Er & Et & Erl & Esl & Ed & Ef
        & Etk & Ei & Ectx & Eid & Ein & Ent & El & Ey & E1 & E2 & E3 & Em & _);
    [by apply set_intr_level_well_formed|done|done| |].
  { unfold selected. cbn [ready_list idle_thread set_intr_level].
    by rewrite Hrl. }
  rewrite Hb. f_equal. apply state_ext; try done.
  - rewrite Et. cbn [threads running set_intr_level set_thread_ticks] in *.
    assert (cth' = cth) as -> by congruence.
    assert (nth = cth) as -> by congruence.
    rewrite insert_insert_eq.
    rewrite (with_status_id THREAD_RUNNING cth) by done.
    by apply insert_id.
  - rewrite Erl. cbn [ready_list set_intr_level set_thread_ticks].
    by rewrite Hrl.
  - rewrite Ectx. cbn [intr_context set_intr_level set_thread_ticks].
    by rewrite Hctx.
Qed.

Lemma idle_loop_quiet n :
  ∀ s,
    well_formed s → intr_context s = false →
    idle_thread s = Some (running s) → ready_list s = [] →
    idle_loop (S n) s = Some (set_intr_level INTR_ON (set_thread_ticks 0 s)).
Proof.
  induction n as [|n IH]; intros s Hwf Hctx Hidle Hrl;
    rewrite idle_loop_S, (idle_pass_quiet s) by done;
    cbn [mbind option_bind running set_thread_ticks set_intr_level];
    rewrite bool_decide_eq_true_2 by done.
  - reflexivity.
  - rewrite IH; [reflexivity| |done|done|done].
    revert Hwf. by apply well_formed_fields.
Qed.

(** X19.  The idle thread gives way as soon as a thread is ready and is
    never queued itself: one pass through the loop of [idle] blocks it and
    dispatches the front of the ready list.  While nothing is ready the
    idle thread is selected again at once, and any number of passes leave
    the scheduler as it was, with interrupts on and a fresh time slice. *)
Theorem idle_gives_way n s :
  well_formed s → intr_context s = false →
  idle_thread s = Some (running s) →
  match ready_list s with
  | [] =>
      idle_loop (S n) s = Some (set_intr_level INTR_ON (set_thread_ticks 0 s))
  | e :: rest =>
      ∃ s' ith nth,
        idle_loop (S n) s = Some s' ∧
        threads s !! running s = Some ith ∧
        threads s !! elem_owner e = Some nth ∧
        running s' = elem_owner e ∧ elem_owner e ≠ running s ∧
        ready_list s' = rest ∧
        threads s'
        = <[elem_owner e := with_status THREAD_RUNNING nth]>
            (<[running s := with_status THREAD_BLOCKED ith]> (threads s)) ∧
        (Elem (running s) ∉ ready_list s') ∧
        idle_thread s' = idle_thread s ∧ well_formed s'
  end.
Proof.
  intros Hwf Hctx Hidle.
  destruct (ready_list s) as [|e rest] eqn:Hrl; [by apply idle_loop_quiet|].
  assert (∃ next, e = Elem next) as [next ->].
  { pose proof Hwf as [_ Hq].
    destruct (queued_as_elem THREAD_READY s (ready_list s) e)
      as (t & th & -> & _); [by apply qf_ready|rewrite Hrl; left|]. eauto. }
  cbn [elem_owner].
  assert (selected s = Some next) as Hsel by (unfold selected; by rewrite Hrl).
  destruct (well_formed_selected s next Hwf Hsel) as (Hne & _);
    [right; by rewrite Hrl|].
  destruct (thread_block_result (set_intr_level INTR_OFF s) next)
    as (s' & ith & nth & Hb & Hith & Hnth & Er & Et & Erl & _ & _ & _ & _ & _
        & _ & Eid & _ & _ & _ & _ & _ & _ & _ & _ & Hwf');
    [by apply set_intr_level_well_formed|done|done|done|].
  cbn [threads running ready_list idle_thread set_intr_level] in *.
  exists s', ith, nth. rewrite idle_loop_S, Hb. cbn [mbind option_bind].
  rewrite bool_decide_eq_false_2 by congruence.
  split; [done|]. do 4 (split; [done|]).
  rewrite Hrl in Erl. cbn [tail] in Erl. split; [done|]. split; [done|].
  split; [|done].
  rewrite Erl. destruct (well_formed_running_not_queued s Hwf) as (Hnq & _).
  rewrite Hrl in Hnq. intros Hin. apply Hnq. by right.
Qed.

(** ** [kernel_thread] *)

(** X20.  A thread whose function returns is done for: [kernel_thread]
    runs the function with interrupts on and then exits, which leaves the
    thread in state THREAD_DYING with its page queued for destruction (the
    initial thread apart) and the CPU with the next thread.  Without a
    function [kernel_thread] panics. *)
Theorem kernel_thread_exits function aux s s1 next :
  function aux (intr_enable s) = Some s1 →
  well_formed s1 → intr_context s1 = false →
  idle_thread s1 ≠ Some (running s1) → selected s1 = Some next →
  intr_level (intr_enable s) = INTR_ON ∧
  kernel_thread None aux s = None ∧
  ∃ s' cth,
    kernel_thread (Some function) aux s = Some s' ∧
    threads s1 !! running s1 = Some cth ∧
    running s' = next ∧ next ≠ running s1 ∧
    threads s' !! running s1 = Some (with_status THREAD_DYING cth) ∧
    destruction_req s'
    = (if bool_decide (Some (running s1) ≠ initial_thread s1)
       then [Elem (running s1)] else []) ∧
    (Elem (running s1) ∉ ready_list s') ∧
    well_formed s'.
Proof.
  intros Hf Hwf Hctx Hni Hsel. split; [done|]. split; [done|].
  destruct (thread_exit_result s1 next Hwf Hctx Hni Hsel)
    as (s' & cth & nth & He & Hcth & _ & Er & Hne & Hd & _ & Edr & _ & _ & Erl
        & _ & _ & _ & _ & _ & Hwf').
  exists s', cth. unfold kernel_thread. cbn [mbind option_bind].
  rewrite Hf. cbn [mbind option_bind].
  do 6 (split; [done|]). split; [|done].
  rewrite Erl. destruct (well_formed_running_not_queued s1 Hwf) as (Hnq & _).
  intros Hin. apply Hnq. destruct (ready_list s1); [done|by right].
Qed.

(** ** Start-up *)

(** X21.  [thread_init] makes the code that is running the thread "main":
    called with interrupts off before any thread exists, it leaves a
    consistent scheduler whose only thread runs on the current stack page
    with the first identifier and the default priority, is recorded as the
    initial thread, and finds the three queues empty. *)
Theorem thread_init_main PRI_DEFAULT s :
  intr_level s = INTR_OFF → running s ≠ 0 →
  PRI_MIN ≤ PRI_DEFAULT ≤ PRI_MAX →
  threads s = ∅ → idle_thread s = None →
  NoDup (free_pages s) → running s ∉ free_pages s →
  ∃ s',
    thread_init PRI_DEFAULT s = Some s' ∧ well_formed s' ∧
    running s' = running s ∧ initial_thread s' = Some (running s) ∧
    threads s'
    = {[ running s
         := created_tcb "main" PRI_DEFAULT (next_tid s) THREAD_RUNNING ]} ∧
    thread_tid s' = Some (next_tid s) ∧ thread_name s' = Some "main"%string ∧
    thread_get_priority s' = Some PRI_DEFAULT ∧
    ready_list s' = [] ∧ sleep_list s' = [] ∧ destruction_req s' = [] ∧
    next_tid s' = wrap_int (next_tid s + 1).
Proof.
  intros Hoff Hr0 Hprio Hempty Hidle Hnd Hnf.
  set (th := created_tcb "main" PRI_DEFAULT (next_tid s) THREAD_RUNNING).
  set (s' := store_thread (running s) th
               (set_next_tid (wrap_int (next_tid s + 1))
                  (set_initial_thread (Some (running s))
                     (set_sleep_list []
                        (set_destruction_req [] (set_ready_list [] s)))))).
  assert (thread_init PRI_DEFAULT s = Some s') as Hinit.
  { unfold thread_init, init_thread, allocate_tid.
    rewrite Hoff, bool_decide_eq_true_2 by done.
    cbn [ASSERT mbind option_bind running set_ready_list set_destruction_req
         set_sleep_list set_initial_thread].
    rewrite !bool_decide_eq_true_2 by done.
    cbn [ASSERT mbind option_bind threads running next_tid store_thread
         set_threads set_next_tid set_ready_list set_destruction_req
         set_sleep_list set_initial_thread].
    rewrite lookup_insert_eq. cbn [mbind option_bind].
    rewrite lookup_insert_eq. cbn [mbind option_bind].
    f_equal. apply state_ext; try reflexivity.
    cbn [threads store_thread set_threads set_next_tid set_ready_list
         set_destruction_req set_sleep_list set_initial_thread s'].
    by rewrite !insert_insert_eq. }
  assert (threads s' = {[ running s := th ]}) as Ht.
  { cbn [threads store_thread set_threads set_next_tid set_ready_list
         set_destruction_req set_sleep_list set_initial_thread s'].
    by rewrite Hempty. }
  assert (threads s' !! running s = Some th) as Hth
    by (rewrite Ht; apply lookup_singleton_eq).
  assert (thread_current s' = Some (running s)) as Hcur.
  { apply thread_current_Some. split; [done|]. split.
    - apply is_thread_lookup. by exists th.
    - by exists th. }
  exists s'. split; [done|]. split.
  { split; [done|]. split.
    - intros t th0. rewrite Ht. by intros [<- <-]%lookup_singleton_Some.
    - intros t th0. rewrite Ht. by intros [<- <-]%lookup_singleton_Some.
    - intros t th0. rewrite Ht. by intros [<- <-]%lookup_singleton_Some.
    - constructor.
    - constructor.
    - constructor.
    - constructor.
    - constructor.
    - constructor.
    - apply Forall_forall. intros p Hp. rewrite Ht.
      apply lookup_singleton_ne. intros E. apply Hnf. by rewrite E.
    - done.
    - intros i Hi. cbn in Hi. congruence. }
  do 3 (split; [done|]).
  unfold thread_tid, thread_name, thread_get_priority.
  rewrite Hcur. cbn [mbind option_bind]. rewrite Hth. done.
Qed.

(** * Pages and identifiers *)

Lemma conserved_refl s : conserved s s.
Proof. split; [done|]. split; [done|]. intros x th' H. eauto. Qed.

Lemma conserved_trans s1 s2 s3 :
  conserved s1 s2 → conserved s2 s3 → conserved s1 s3.
Proof.
  intros (Hp & Hn & Ht) (Hp' & Hn' & Ht').
  split; [congruence|]. split; [congruence|].
  intros x th3 (th2 & H2 & E2)%Ht'. destruct (Ht x th2 H2) as (th1 & H1 & E1).
  exists th1. split; [done|congruence].
Qed.

Lemma conserved_fields s s' :
  threads s' = threads s → free_pages s' = free_pages s →
  next_tid s' = next_tid s → conserved s s'.
Proof.
  intros Et Ef En. unfold conserved, pages. rewrite Et, Ef.
  split; [done|]. split; [done|]. intros x th' H. eauto.
Qed.

Lemma conserved_insert s s' t th th' :
  threads s !! t = Some th → tid th' = tid th →
  threads s' = <[t := th']> (threads s) →
  free_pages s' = free_pages s → next_tid s' = next_tid s →
  conserved s s'.
Proof.
  intros Hth Htid Et Ef En. unfold conserved, pages. rewrite Et, Ef.
  split; [by rewrite dom_insert_lookup_L|]. split; [done|].
  intros x thx [[<- <-]|[Hne Hx]]%lookup_insert_Some; eauto.
Qed.

Lemma conserved_store s t th th' :
  threads s !! t = Some th → tid th' = tid th →
  conserved s (store_thread t th' s).
Proof. intros Hth Htid. by apply (conserved_insert s _ t th th'). Qed.

Lemma victims_paged_conserved s s' :
  conserved s s' → destruction_req s' = destruction_req s →
  victims_paged s → victims_paged s'.
Proof.
  intros (Hp & _) Hd Hv e. rewrite Hd, Hp. apply Hv.
Qed.

Lemma well_formed_victims_paged s : well_formed s → victims_paged s.
Proof.
  intros [_ Hq] e He.
  destruct (queued_as_elem _ _ _ _ (qf_dying s Hq) He) as (t & th & -> & Hl & _).
  cbn [elem_owner]. unfold pages. apply elem_of_union. left.
  apply elem_of_dom. eauto.
Qed.

Lemma conserved_tids_unique s s' :
  conserved s s' → tids_unique s → tids_unique s'.
Proof.
  intros (_ & Hn & Ht) [Hlt Hinj]. split.
  - intros x th' (th & Hth & ->)%Ht. rewrite Hn. by apply (Hlt x).
  - intros x y thx thy (tx & Hx & ->)%Ht (ty & Hy & ->)%Ht.
    by apply (Hinj x y).
Qed.

Lemma NoDup_fmap_inj_on {A B} (f : A → B) (l : list A) a b :
  NoDup (f <$> l) → a ∈ l → b ∈ l → f a = f b → a = b.
Proof.
  induction l as [|x l IH]; [by intros _ ?%not_elem_of_nil|].
  cbn [fmap list_fmap]. intros [Hx Hnd]%NoDup_cons.
  intros [->|Ha]%elem_of_cons [->|Hb]%elem_of_cons E; [done| | |by apply IH].
  - destruct Hx. rewrite E. apply list_elem_of_fmap. eauto.
  - destruct Hx. rewrite <- E. apply list_elem_of_fmap. eauto.
Qed.

Lemma tids_uniqueb_sound s : tids_uniqueb s = true → tids_unique s.
Proof.
  unfold tids_uniqueb. intros [H1 H2%bool_decide_eq_true]%andb_prop.
  rewrite forallb_forall in H1. split.
  - intros x th Hth. apply Z.ltb_lt.
    apply (H1 (x, th)), list_elem_of_In. by apply elem_of_map_to_list.
  - intros x y thx thy Hx Hy E.
    assert ((x, thx) = (y, thy)) as [= -> _]; [|done].
    apply (NoDup_fmap_inj_on (λ p, tid p.2) (map_to_list (threads s)));
      [done| | |done]; by apply elem_of_map_to_list.
Qed.

(** ** The scheduler *)

Lemma schedule_conserved s s' : schedule s = Some s' → conserved s s'.
Proof.
  intros (cth & next & nth & _ & _ & _ & _ & Hn & Hnth & ->)%schedule_Some.
  match goal with
  | |- conserved _ (dispatched ?c ?ct ?n ?nt ?sz) =>
      destruct (dispatched_fields c ct n nt sz)
        as (Et & _ & _ & _ & _ & Ef & _);
      destruct (dispatched_more c ct n nt sz) as (_ & _ & En & _)
  end.
  by apply (conserved_insert s _ next nth (with_status THREAD_RUNNING nth)).
Qed.

Lemma free_destruction_req_conserved victims :
  ∀ s s',
    (∀ e, e ∈ victims → elem_owner e ∈ pages s) →
    free_destruction_req victims s = Some s' → conserved s s'.
Proof.
  induction victims as [|e rest IH]; intros s s' Hv;
    cbn [free_destruction_req]; [intros [= <-]; apply conserved_refl|].
  destruct e as [t|t]; cbn [list_entry palloc_free_page]; [|done].
  cbn [mbind option_bind]. intros Hf.
  assert (t ∈ pages s) as Ht by (apply (Hv (Elem t)); left).
  set (s1 := set_free_pages _ _) in Hf.
  assert (conserved s s1) as Hc.
  { unfold conserved, pages in *.
    cbn [threads free_pages next_tid set_free_pages set_threads
         set_destruction_req s1].
    split; [|split; [done|]].
    - rewrite dom_delete_L, list_to_set_cons.
      set (D := dom (threads s)) in *.
      set (F := list_to_set (free_pages s)) in *.
      clearbody D F. clear -Ht. apply set_eq. intros x.
      rewrite !elem_of_union, elem_of_difference, !elem_of_singleton.
      rewrite elem_of_union in Ht.
      destruct (decide (x = t)) as [->|Hne]; tauto.
    - intros x th' [_ Hx]%lookup_delete_Some. eauto. }
  apply (conserved_trans s s1); [done|].
  apply IH; [|done].
  intros e He. rewrite (proj1 Hc). apply Hv. by right.
Qed.

Lemma do_schedule_conserved st s s' :
  victims_paged s → do_schedule st s = Some s' → conserved s s'.
Proof.
  intros Hv (s0 & th & Hfree & Hth & Hs)%do_schedule_inv.
  apply free_destruction_req_conserved in Hfree; [|done].
  apply schedule_conserved in Hs.
  apply (conserved_trans s s0); [done|].
  eapply conserved_trans; [|exact Hs].
  by apply (conserved_store s0 (running s0) th).
Qed.

Lemma thread_block_conserved s s' :
  thread_block s = Some s' → conserved s s'.
Proof.
  unfold thread_block.
  destruct (negb (intr_context s)); [|done].
  destruct (bool_decide (intr_level s = INTR_OFF)); [|done].
  cbn [ASSERT mbind option_bind].
  destruct (thread_current s) as [t|]; [|done]. cbn [mbind option_bind].
  destruct (threads s !! t) as [th|] eqn:Hth; [|done].
  cbn [mbind option_bind]. intros Hs%schedule_conserved.
  eapply conserved_trans; [|exact Hs]. by apply (conserved_store s t th).
Qed.

Lemma thread_unblock_conserved t s s' :
  thread_unblock t s = Some s' → conserved s s'.
Proof.
  intros (th & Hth & _ & _ & _ & ->)%thread_unblock_inv.
  by apply (conserved_insert s _ t th (with_status THREAD_READY th)).
Qed.

Lemma thread_yield_conserved s s' :
  victims_paged s → thread_yield s = Some s' → conserved s s'.
Proof.
  intros Hv. unfold thread_yield.
  destruct (thread_current s) as [cur|]; [|done]. cbn [mbind option_bind].
  destruct (negb (intr_context s)); [|done].
  cbn [ASSERT mbind option_bind intr_disable].
  destruct (do_schedule THREAD_READY _) as [s1|] eqn:Hd; [|done].
  cbn [mbind option_bind].
  apply do_schedule_conserved in Hd.
  - assert (conserved s s1) as Hc.
    { eapply conserved_trans; [|exact Hd].
      destruct (bool_decide (Some cur ≠ idle_thread _));
        by apply conserved_fields. }
    destruct (bool_decide (running s1 = cur)); intros [= <-]; [|done].
    eapply conserved_trans; [exact Hc|]. by apply conserved_fields.
  - destruct (bool_decide (Some cur ≠ idle_thread _)); exact Hv.
Qed.

Lemma thread_exit_conserved s s' :
  victims_paged s → thread_exit s = Some s' → conserved s s'.
Proof.
  intros Hv. unfold thread_exit.
  destruct (negb (intr_context s)); [|done].
  cbn [ASSERT mbind option_bind intr_disable].
  destruct (do_schedule THREAD_DYING _) as [s1|] eqn:Hd; [|done].
  cbn [mbind option_bind].
  apply do_schedule_conserved in Hd; [|exact Hv].
  destruct (bool_decide (running s1 = running s)); intros [= <-].
  eapply conserved_trans; [|exact Hd]. by apply conserved_fields.
Qed.

Lemma thread_test_max_priority_conserved s s' :
  victims_paged s → thread_test_max_priority s = Some s' → conserved s s'.
Proof.
  intros Hv [->|Hy]%thread_test_max_priority_cases;
    [apply conserved_refl|by apply thread_yield_conserved].
Qed.

Lemma thread_sleep_conserved ticks s s' :
  thread_sleep ticks s = Some s' → conserved s s'.
Proof.
  intros (cth & s1 & _ & _ & Hcth & Hb%thread_block_conserved & ->)
    %thread_sleep_inv.
  assert (conserved s s1) as Hc.
  { eapply conserved_trans; [|exact Hb].
    by apply (conserved_insert s _ (running s) cth (with_wakeup ticks cth)). }
  destruct (bool_decide (running s1 = running s)); [|done].
  eapply conserved_trans; [exact Hc|]. by apply conserved_fields.
Qed.

Lemma thread_awake_loop_conserved ticks rest :
  ∀ s s' n,
    thread_awake_loop ticks rest s = Some (s', n) → conserved s s'.
Proof.
  induction rest as [|e rest IH]; intros s s' n; cbn [thread_awake_loop].
  - intros [= <- _]. apply conserved_refl.
  - destruct (load_thread s (list_entry e elem)) as [[t th]|]; [|done].
    cbn [mbind option_bind]. destruct (wakeup th <=? ticks).
    + destruct (thread_unblock t _) as [s2|] eqn:Hun; [|done].
      cbn [mbind option_bind].
      destruct (thread_awake_loop ticks rest s2) as [[s3 k]|] eqn:Hl; [|done].
      cbn [mbind option_bind]. intros [= <- _].
      apply IH in Hl. apply thread_unblock_conserved in Hun.
      eapply conserved_trans; [|exact Hl].
      eapply conserved_trans; [|exact Hun]. by apply conserved_fields.
    + destruct (thread_awake_loop ticks rest s) as [[s3 k]|] eqn:Hl; [|done].
      cbn [mbind option_bind]. intros [= <- _]. by apply IH in Hl.
Qed.

Lemma thread_awake_conserved ticks s s' :
  thread_awake ticks s = Some s' → conserved s s'.
Proof.
  unfold thread_awake.
  destruct (thread_awake_loop ticks (sleep_list s) s) as [[s1 n]|] eqn:Hl;
    [|done].
  cbn. intros [= <-]. by apply thread_awake_loop_conserved in Hl.
Qed.

Lemma refresh_priority_conserved s s' :
  refresh_priority s = Some s' → conserved s s'.
Proof.
  intros (th & th' & _ & Hth & -> & Htid & _)%refresh_priority_inv.
  by apply (conserved_store s (running s) th).
Qed.

Lemma thread_set_priority_conserved new_priority s s' :
  victims_paged s → thread_set_priority new_priority s = Some s' →
  conserved s s'.
Proof.
  intros Hv (cth & s1 & _ & Hcth & Hr & Ht)%thread_set_priority_inv.
  pose proof Hr as (th & th' & _ & _ & E & _)%refresh_priority_inv.
  apply refresh_priority_conserved in Hr.
  assert (conserved s s1) as Hc.
  { eapply conserved_trans; [|exact Hr].
    by apply (conserved_store s (running s) cth). }
  apply (conserved_trans s s1); [done|].
  apply thread_test_max_priority_conserved; [|done].
  apply (victims_paged_conserved s); [done| |done]. by rewrite E.
Qed.

Lemma donate_priority_conserved s s' :
  well_formed s → donate_priority s = Some s' → conserved s s'.
Proof.
  intros Hwf Hd.
  destruct (well_formed_current s Hwf) as (cth & Hcth & _).
  rewrite (donate_priority_chain s (running s) cth) in Hd
    by (done || apply Hwf).
  destruct (holder_chain s 8 (running s)) as [chain|]; [|done].
  injection Hd as <-.
  unfold conserved, pages. cbn [threads free_pages next_tid set_threads].
  split; [|split; [done|]].
  - f_equal. apply set_eq. intros x. rewrite !elem_of_dom, donated_lookup.
    case_bool_decide; [|done]. by rewrite fmap_is_Some.
  - intros x th'. rewrite donated_lookup. case_bool_decide; [|eauto].
    destruct (threads s !! x) as [th|]; [|done]. cbn. intros [= <-]. eauto.
Qed.

Lemma remove_with_lock_loop_conserved lock t rest :
  ∀ s s', remove_with_lock_loop lock t rest s = Some s' → conserved s s'.
Proof.
  induction rest as [|d rest IH]; intros s s';
    cbn [remove_with_lock_loop]; [intros [= <-]; apply conserved_refl|].
  destruct (load_thread s (list_entry d donation_elem)) as [[c cth]|];
    [|done].
  cbn [mbind option_bind]. case_bool_decide; [|by apply IH].
  destruct (threads s !! t) as [th|] eqn:Hth; [|done].
  cbn [mbind option_bind]. intros Hl%IH.
  eapply conserved_trans; [|exact Hl]. by apply (conserved_store s t th).
Qed.

Lemma remove_with_lock_conserved lock s s' :
  remove_with_lock lock s = Some s' → conserved s s'.
Proof.
  unfold remove_with_lock.
  destruct (thread_current s) as [t|]; [|done]. cbn [mbind option_bind].
  destruct (threads s !! t) as [th|]; [|done]. cbn [mbind option_bind].
  apply remove_with_lock_loop_conserved.
Qed.

Lemma idle_loop_conserved passes :
  ∀ s s', idle_loop passes s = Some s' → conserved s s'.
Proof.
  induction passes as [|n IH]; intros s s'; cbn [idle_loop];
    [intros [= <-]; apply conserved_refl|].
  cbn [intr_disable].
  destruct (thread_block _) as [s1|] eqn:Hb; [|done].
  cbn [mbind option_bind]. apply thread_block_conserved in Hb.
  assert (conserved s s1) as Hc
    by (eapply conserved_trans; [|exact Hb]; by apply conserved_fields).
  case_bool_decide; [|by intros [= <-]].
  intros Hl%IH. apply (conserved_trans s s1); [done|].
  eapply conserved_trans; [|exact Hl]. by apply conserved_fields.
Qed.

Lemma thread_tick_conserved s s' : thread_tick s = Some s' → conserved s s'.
Proof.
  intros (Et & _ & _ & _ & _ & _ & Ef & En & _)%thread_tick_frame.
  by apply conserved_fields.
Qed.

(** ** [thread_create] *)

Lemma thread_create_conserved nm prio function aux s tid' s' :
  victims_paged s →
  thread_create nm prio function aux s = Some (tid', s') →
  s' = s
  ∨ ∃ p rest s0,
      free_pages s = p :: rest ∧
      threads s0
      = <[p := created_tcb nm prio (next_tid s) THREAD_BLOCKED]> (threads s) ∧
      free_pages s0 = rest ∧ next_tid s0 = wrap_int (next_tid s + 1) ∧
      conserved s0 s'.
Proof.
  intros Hv [(_ & _ & ->)|(p & rest & s1 & Hfree & Hf & Hp0 & Hprio & -> & Hun
                           & Ht)]%thread_create_inv; [by left|].
  right.
  pose proof (thread_unblock_unlinked _ _ _ Hun) as Hoff.
  destruct (thread_create_unblocked nm prio function aux s p rest
              Hf Hfree Hp0 Hprio Hoff)
    as (s1' & Hun' & _ & Ht1 & _ & _ & _ & _ & _ & Hd1 & _ & _ & Hf1).
  cbn zeta in Hun'. rewrite Hun in Hun'. injection Hun' as <-.
  exists p, rest,
    (store_thread p (created_tcb nm prio (next_tid s) THREAD_BLOCKED)
       (set_next_tid (wrap_int (next_tid s + 1)) (set_free_pages rest s))).
  split; [done|]. split; [reflexivity|].
  split; [reflexivity|]. split; [reflexivity|].
  apply thread_unblock_conserved in Hun.
  eapply conserved_trans; [exact Hun|].
  apply thread_test_max_priority_conserved; [|done].
  intros e. rewrite Hd1. intros He%Hv. unfold pages in *.
  rewrite Ht1, Hf1, dom_insert_L. rewrite Hfree, list_to_set_cons in He.
  set (D := dom (threads s)) in *. set (F := list_to_set rest) in *.
  clearbody D F. clear -He. rewrite !elem_of_union in He |- *. tauto.
Qed.

Lemma run_conserved op s s' :
  well_formed s → run op s = Some s' →
  pages s' = pages s ∧
  (tids_unique s → next_tid s < 2 ^ 31 - 1 → tids_unique s').
Proof.
  intros Hwf. pose proof (well_formed_victims_paged s Hwf) as Hv.
  assert (conserved s s' →
          pages s' = pages s ∧
          (tids_unique s → next_tid s < 2 ^ 31 - 1 → tids_unique s')) as Hok.
  { intros Hc. split; [apply Hc|]. intros Hu _.
    by apply (conserved_tids_unique s). }
  destruct op as [|nm prio function aux| |t| | |p|ticks|ticks| | |lock| |n];
    cbn [run]; intros Hrun;
    [apply Hok| |apply Hok|apply Hok|apply Hok|apply Hok|apply Hok|apply Hok
     |apply Hok|apply Hok|apply Hok|apply Hok|apply Hok|apply Hok].
  - by apply thread_tick_conserved.
  - destruct (thread_create nm prio function aux s) as [[tid' s1]|] eqn:Hc;
      [|done].
    cbn in Hrun. injection Hrun as <-.
    destruct (thread_create_conserved nm prio function aux s tid' s1 Hv Hc)
      as [->|(p & rest & s0 & Hfree & Et & Ef & En & Hc')];
      [split; [done|]; by intros|].
    clear Hc. rename Hc' into Hc.
    split.
    + rewrite (proj1 Hc). unfold pages.
      rewrite Et, Ef, Hfree, dom_insert_L, list_to_set_cons.
      set (D := dom (threads s)). set (F := list_to_set rest).
      clearbody D F. clear. apply set_eq. intros x.
      rewrite !elem_of_union. tauto.
    + intros [Hlt Hinj] Hn. apply (conserved_tids_unique s0); [done|].
      assert (- 2 ^ 31 ≤ next_tid s ∨ next_tid s < - 2 ^ 31) as Hcase by lia.
      assert (∀ x th, threads s !! x = Some th →
                tid th < next_tid s ∧ tid th < wrap_int (next_tid s + 1))
        as Hlt'.
      { intros x th Hth. pose proof (Hlt x th Hth). split; [done|].
        unfold wrap_int.
        pose proof (Z.mod_pos_bound (next_tid s + 1 + 2 ^ 31) (2 ^ 32)
                      ltac:(lia)).
        destruct Hcase; [rewrite Z.mod_small by lia|]; lia. }
      assert (next_tid s < wrap_int (next_tid s + 1)) as Hnew.
      { unfold wrap_int.
        pose proof (Z.mod_pos_bound (next_tid s + 1 + 2 ^ 31) (2 ^ 32)
                      ltac:(lia)).
        destruct Hcase; [rewrite Z.mod_small by lia|]; lia. }
      split.
      * intros x th. rewrite Et, En.
        intros [[<- <-]|[Hne Hx]]%lookup_insert_Some; [done|].
        by apply (Hlt' x).
      * intros x y thx thy. rewrite Et.
        intros [[<- <-]|[Hnx Hx]]%lookup_insert_Some
               [[<- <-]|[Hny Hy]]%lookup_insert_Some E; [done| | |by eauto].
        -- cbn [tid created_tcb] in E. destruct (Hlt' y thy Hy). lia.
        -- cbn [tid created_tcb] in E. destruct (Hlt' x thx Hx). lia.
  - by apply thread_block_conserved.
  - by apply (thread_unblock_conserved t).
  - by apply thread_exit_conserved.
  - by apply thread_yield_conserved.
  - by apply (thread_set_priority_conserved p).
  - by apply (thread_sleep_conserved ticks).
  - by apply (thread_awake_conserved ticks).
  - by apply thread_test_max_priority_conserved.
  - by apply donate_priority_conserved.
  - by apply (remove_with_lock_conserved lock).
  - by apply refresh_priority_conserved.
  - by apply (idle_loop_conserved n).
Qed.

(** X22.  No operation of thread.c loses or invents a page: the pages
    that hold a TCB together with the pages in the allocator's pool are the
    same before and after; [thread_create] moves one from the pool to the
    threads, and the scheduler returns those of the dead threads. *)
Theorem pages_conserved op s s' :
  well_formed s → run op s = Some s' → pages s' = pages s.
Proof. intros Hwf Hrun. by apply (run_conserved op s s'). Qed.

(** X23.  Thread identifiers stay unique: while the counter has not
    reached the largest [int], every operation leaves the counter ahead of
    the identifiers of all threads and no two threads with the same
    identifier. *)
Theorem tids_stay_unique op s s' :
  well_formed s → tids_unique s → next_tid s < 2 ^ 31 - 1 →
  run op s = Some s' → tids_unique s'.
Proof. intros Hwf Hu Hn Hrun. by apply (run_conserved op s s'). Qed.

(** ** Calls that the assertions stop *)

(** X16.  The misuses that thread.c guards with assertions panic the
    kernel: blocking, yielding, exiting or sleeping in interrupt context;
    blocking with interrupts on; unblocking a thread that is not blocked or
    that has no TCB; putting the idle thread to sleep; creating a thread
    without a function.  In a well-formed state that has a thread to select,
    [thread_block] panics in no other case.  A priority outside
    PRI_MIN..PRI_MAX panics [thread_create] only when a page is free: with
    no free page the call returns TID_ERROR, and leaves the state alone,
    before [init_thread] looks at the priority. *)
Theorem misuse_panics s :
  (intr_context s = true →
   thread_block s = None ∧ thread_yield s = None ∧ thread_exit s = None ∧
   ∀ ticks, thread_sleep ticks s = None) ∧
  (intr_level s = INTR_ON → thread_block s = None) ∧
  (well_formed s → is_Some (selected s) →
   (thread_block s = None ↔ intr_context s = true ∨ intr_level s = INTR_ON)) ∧
  (∀ t th, threads s !! t = Some th → status th ≠ THREAD_BLOCKED →
     thread_unblock t s = None) ∧
  (∀ t, threads s !! t = None → thread_unblock t s = None) ∧
  (idle_thread s = Some (running s) → ∀ ticks, thread_sleep ticks s = None) ∧
  (∀ nm prio aux, thread_create nm prio 0 aux s = None) ∧
  (∀ nm prio function aux,
     function ≠ 0 → ¬ (PRI_MIN ≤ prio ≤ PRI_MAX) →
     thread_create nm prio function aux s
     = match free_pages s with
       | [] => Some (TID_ERROR, s)
       | _ :: _ => None
       end).
Proof.
  split; [|split; [|split; [|split; [|split; [|split; [|split]]]]]].
  - intros Hctx. split; [by apply thread_block_intr_context|].
    split; [by apply thread_yield_intr_context|].
    split; [by apply thread_exit_intr_context|].
    intros ticks. by apply thread_sleep_intr_context.
  - apply thread_block_intr_on.
  - intros Hwf [next Hsel]. split.
    + intros Hnone.
      destruct (intr_context s) eqn:Hctx; [by left|].
      destruct (intr_level s) eqn:Hlvl; [|by right].
      destruct (thread_block_result s next Hwf Hctx Hlvl Hsel)
        as (s' & cth & nth & Hb & _).
      congruence.
    + intros [Hctx|Hon];
        [by apply thread_block_intr_context|by apply thread_block_intr_on].
  - intros t th Hth Hst. apply thread_unblock_not_blocked.
    intros th' Hth'. congruence.
  - intros t Hth. apply thread_unblock_not_blocked.
    intros th' Hth'. congruence.
  - intros Hidle ticks.
    destruct (thread_sleep ticks s) as [s'|] eqn:Hs; [|done].
    by apply thread_sleep_inv in Hs as (cth & s1 & _ & ? & _).
  - intros nm prio aux. unfold thread_create.
    by rewrite bool_decide_eq_false_2 by (intros H; by apply H).
  - intros nm prio function aux Hf Hprio.
    destruct (free_pages s) as [|p rest] eqn:Hfree.
    + by apply thread_create_no_page.
    + apply thread_create_bad_priority; [|done]. by rewrite Hfree.
Qed.

(** * Where the ready list is not in priority order *)

Lemma crafted_state_well_formed : well_formed crafted_state.
Proof. apply well_formedb_sound. vm_compute. reflexivity. Qed.

Lemma inversion_state_well_formed : well_formed inversion_state.
Proof. apply well_formedb_sound. vm_compute. reflexivity. Qed.

Lemma priority_ordered_front s a b l pa pb :
  priority_ordered s (a :: b :: l) →
  queued_priority s a = Some pa → queued_priority s b = Some pb → pb ≤ pa.
Proof.
  intros [_ Hhd]%Sorted_inv Ha Hb.
  apply HdRel_inv in Hhd as (pa' & pb' & Ha' & Hb' & Hle). congruence.
Qed.

Lemma priority_ordered_tail s a l :
  priority_ordered s (a :: l) → priority_ordered s l.
Proof. by intros [? _]%Sorted_inv. Qed.

(** C5: [thread_unblock] of a blocked thread whose TCB passes the
    [list_empty] test of [thread_compare_priority].  The ready list holds
    threads of the priorities 31 and 20, in this order; the thread 0xb000 of
    priority 50 is made READY and queued behind both of them, so that the
    list is no longer in priority order.  The running thread is not
    preempted and the interrupt level is as before.  On the same state with
    a memory on which the test fails, the thread is queued in front. *)
Theorem thread_unblock_queues_last_when_guard_fires :
  well_formed crafted_state ∧
  status <$> threads crafted_state !! 0xb000 = Some THREAD_BLOCKED ∧
  (Elem 0xb000 ∉ sleep_list crafted_state) ∧
  priority_ordered crafted_state (ready_list crafted_state) ∧
  (∃ s',
     thread_unblock 0xb000 crafted_state = Some s' ∧
     ready_list s' = [Elem 0x2000; Elem 0x3000; Elem 0xb000] ∧
     queued_priority s' <$> ready_list s' = [Some 31; Some 20; Some 50] ∧
     ¬ priority_ordered s' (ready_list s') ∧
     status <$> threads s' !! 0xb000 = Some THREAD_READY ∧
     running s' = running crafted_state ∧
     intr_level s' = intr_level crafted_state) ∧
  ready_list <$> thread_unblock 0xb000 blocked_state
  = Some [Elem 0xb000; Elem 0x2000; Elem 0x3000].
Proof.
  split; [exact crafted_state_well_formed|].
  split; [vm_compute; reflexivity|].
  split; [apply (bool_decide_unpack _); vm_compute; exact I|].
  split.
  { unfold priority_ordered. repeat constructor.
    exists 31, 20. split; [reflexivity|]. split; [reflexivity|lia]. }
  split; [|vm_compute; reflexivity].
  destruct (thread_unblock 0xb000 crafted_state) as [s'|] eqn:Hun;
    [|vm_compute in Hun; discriminate Hun].
  assert ((λ s, (ready_list s, queued_priority s <$> ready_list s,
                 status <$> threads s !! 0xb000, running s, intr_level s))
            <$> thread_unblock 0xb000 crafted_state
          = Some ([Elem 0x2000; Elem 0x3000; Elem 0xb000],
                  [Some 31; Some 20; Some 50], Some THREAD_READY,
                  0x1000, INTR_ON)) as Hv by (vm_compute; reflexivity).
  rewrite Hun in Hv. cbn [fmap option_fmap option_map] in Hv.
  injection Hv as Hrl Hpr Hst Hr Hlvl.
  exists s'. split; [done|]. split; [done|]. split; [done|].
  split; [|by rewrite Hst, Hr, Hlvl].
  rewrite Hrl in Hpr |- *. cbn [fmap list_fmap] in Hpr.
  injection Hpr as _ H20 H50.
  intros Hs%priority_ordered_tail.
  pose proof (priority_ordered_front _ _ _ _ _ _ Hs H20 H50). lia.
Qed.

(** C7: [thread_create] of a thread whose TCB passes the [list_empty] test
    of [thread_compare_priority].  The creator 0x1000 has priority 31 and
    the new thread priority 50; the new thread is queued behind the ready
    threads of priority 31 and 20, the preemption check compares the creator
    with the front of the list, and the creator is still running when
    [thread_create] returns.  On the same state with a memory on which the
    test fails, the new thread runs. *)
Theorem thread_create_higher_priority_does_not_run :
  well_formed crafted_state ∧
  free_pages crafted_state = [0x8000] ∧
  running crafted_state = 0x1000 ∧
  priority <$> threads crafted_state !! 0x1000 = Some 31 ∧
  (∃ s',
     thread_create "crafted" 50 0x400000 0 crafted_state = Some (10, s') ∧
     running s' = 0x1000 ∧
     status <$> threads s' !! 0x8000 = Some THREAD_READY ∧
     priority <$> threads s' !! 0x8000 = Some 50 ∧
     ready_list s' = [Elem 0x2000; Elem 0x3000; Elem 0x8000] ∧
     queued_priority s' <$> ready_list s' = [Some 31; Some 20; Some 50]) ∧
  (running ∘ snd) <$> thread_create "crafted" 50 0x400000 0 blocked_state
  = Some 0x8000.
Proof.
  split; [exact crafted_state_well_formed|].
  split; [reflexivity|]. split; [reflexivity|].
  split; [vm_compute; reflexivity|].
  split; [|vm_compute; reflexivity].
  destruct (thread_create "crafted" 50 0x400000 0 crafted_state)
    as [[tid' s']|] eqn:Hc; [|vm_compute in Hc; discriminate Hc].
  assert ((λ '(t, s), (t, running s, status <$> threads s !! 0x8000,
                       priority <$> threads s !! 0x8000, ready_list s,
                       queued_priority s <$> ready_list s))
            <$> thread_create "crafted" 50 0x400000 0 crafted_state
          = Some (10, 0x1000, Some THREAD_READY, Some 50,
                  [Elem 0x2000; Elem 0x3000; Elem 0x8000],
                  [Some 31; Some 20; Some 50])) as Hv
    by (vm_compute; reflexivity).
  rewrite Hc in Hv. cbn [fmap option_fmap option_map] in Hv.
  injection Hv as -> Hr Hst Hp Hrl Hpr.
  by exists s'.
Qed.

(** C8: the ready list after [donate_priority].  H (priority 30) is about
    to block on a lock whose holder L (priority 10) is ready behind A
    (priority 25): the ready list is in priority order.  [donate_priority]
    gives L the priority 30 and leaves it where it is.  A [thread_unblock]
    of B (priority 20) then yields the order 25, 30, 20, and a
    [thread_yield] of H leaves 25, 30 behind; neither is in non-increasing
    order.  When H blocks, the CPU goes to A and not to L.  No TCB passes
    the [list_empty] test here. *)
Theorem ready_list_unsorted_after_donation :
  well_formed inversion_state ∧
  guard_silent inversion_state
    (Elem 0x4000 :: Elem 0x1000 :: ready_list inversion_state) = true ∧
  priority_ordered inversion_state (ready_list inversion_state) ∧
  queued_priority inversion_state <$> ready_list inversion_state
  = [Some 25; Some 10] ∧
  (∃ s',
     donate_priority inversion_state ≫= thread_unblock 0x4000 = Some s' ∧
     queued_priority s' <$> ready_list s' = [Some 25; Some 30; Some 20] ∧
     ¬ priority_ordered s' (ready_list s')) ∧
  (∃ s',
     donate_priority inversion_state ≫= thread_yield = Some s' ∧
     running s' = 0x1000 ∧
     queued_priority s' <$> ready_list s' = [Some 25; Some 30] ∧
     ¬ priority_ordered s' (ready_list s')) ∧
  (λ s, (running s, queued_priority s (Elem (running s)),
         queued_priority s <$> ready_list s))
    <$> (donate_priority inversion_state ≫= thread_block)
  = Some (0x2000, Some 25, [Some 30]).
Proof.
  split; [exact inversion_state_well_formed|].
  split; [vm_compute; reflexivity|].
  split.
  { unfold priority_ordered. repeat constructor.
    exists 25, 10. split; [reflexivity|]. split; [reflexivity|lia]. }
  split; [vm_compute; reflexivity|].
  split; [|split; [|vm_compute; reflexivity]].
  - destruct (donate_priority inversion_state ≫= thread_unblock 0x4000)
      as [s'|] eqn:Hs; [|vm_compute in Hs; discriminate Hs].
    assert ((λ s, (ready_list s, queued_priority s <$> ready_list s))
              <$> (donate_priority inversion_state ≫= thread_unblock 0x4000)
            = Some ([Elem 0x2000; Elem 0x3000; Elem 0x4000],
                    [Some 25; Some 30; Some 20])) as Hv
      by (vm_compute; reflexivity).
    rewrite Hs in Hv. cbn [fmap option_fmap option_map] in Hv.
    injection Hv as Hrl Hpr.
    exists s'. split; [done|]. split; [done|].
    rewrite Hrl in Hpr |- *. cbn [fmap list_fmap] in Hpr.
    injection Hpr as H25 H30 _.
    intros Hs'.
    pose proof (priority_ordered_front _ _ _ _ _ _ Hs' H25 H30). lia.
  - destruct (donate_priority inversion_state ≫= thread_yield)
      as [s'|] eqn:Hs; [|vm_compute in Hs; discriminate Hs].
    assert ((λ s, (running s, ready_list s,
                   queued_priority s <$> ready_list s))
              <$> (donate_priority inversion_state ≫= thread_yield)
            = Some (0x1000, [Elem 0x2000; Elem 0x3000],
                    [Some 25; Some 30])) as Hv
      by (vm_compute; reflexivity).
    rewrite Hs in Hv. cbn [fmap option_fmap option_map] in Hv.
    injection Hv as Hr Hrl Hpr.
    exists s'. split; [done|]. split; [done|]. split; [done|].
    rewrite Hrl in Hpr |- *. cbn [fmap list_fmap] in Hpr.
    injection Hpr as H25 H30.
    intros Hs'.
    pose proof (priority_ordered_front _ _ _ _ _ _ Hs' H25 H30). lia.
Qed.

(** * The further results on the example states *)

Lemma exiting_state_well_formed : well_formed exiting_state.
Proof. apply well_formedb_sound. vm_compute. reflexivity. Qed.

Lemma busy_state_not_idle : idle_thread busy_state ≠ Some (running busy_state).
Proof. vm_compute. discriminate. Qed.

Lemma exiting_state_not_idle :
  idle_thread exiting_state ≠ Some (running exiting_state).
Proof. vm_compute. discriminate. Qed.

Lemma well_formed_preserved_witness :
  well_formed busy_state ∧ permitted OpYield busy_state = true ∧
  ∃ s', run OpYield busy_state = Some s' ∧ well_formed s'.
Proof.
  split; [exact busy_state_well_formed|]. split; [reflexivity|].
  destruct (run OpYield busy_state) as [s'|] eqn:Hr;
    [|vm_compute in Hr; discriminate Hr].
  exists s'. split; [reflexivity|].
  exact (well_formed_preserved OpYield busy_state s' busy_state_well_formed
           eq_refl Hr).
Defined.

Lemma thread_sleep_blocks_witness :
  well_formed busy_state ∧ selected busy_state = Some 0x2000 ∧
  ∃ s', thread_sleep 500 busy_state = Some s' ∧ running s' = 0x2000 ∧
        sleep_list s'
        = [Elem 0x5000; Elem 0x6000; Elem 0x7000; Elem 0x1000].
Proof.
  split; [exact busy_state_well_formed|]. split; [reflexivity|].
  destruct (thread_sleep_blocks 500 busy_state 0x2000 busy_state_well_formed
              eq_refl busy_state_not_idle eq_refl)
    as (s' & cth & nth & Hs & _ & _ & _ & Hr & _ & Hsl & _).
  exists s'. split; [exact Hs|]. split; [exact Hr|exact Hsl].
Defined.

Lemma thread_sleep_awake_witness :
  well_formed busy_state ∧ selected busy_state = Some 0x2000 ∧
  ∃ s1 s2, thread_sleep 500 busy_state = Some s1 ∧
           thread_awake 600 s1 = Some s2 ∧
           Elem 0x1000 ∈ ready_list s2.
Proof.
  split; [exact busy_state_well_formed|]. split; [reflexivity|].
  destruct (thread_sleep_awake 500 600 busy_state 0x2000
              busy_state_well_formed eq_refl busy_state_not_idle eq_refl)
    as (s1 & s2 & cth & Hs & Ha & _ & _ & _ & Hdue & _).
  exists s1, s2. split; [exact Hs|]. split; [exact Ha|].
  destruct Hdue as (_ & Hin & _); [lia|exact Hin].
Defined.

Lemma thread_awake_idempotent_witness :
  NoDup (sleep_list busy_state) ∧
  sleepers_blocked busy_state (sleep_list busy_state) = true ∧
  ∃ s', thread_awake 200 busy_state = Some s' ∧
        thread_awake 150 s' = Some s'.
Proof.
  assert (NoDup (sleep_list busy_state)) as Hnd.
  { apply (bool_decide_unpack _). vm_compute. exact I. }
  assert (sleepers_blocked busy_state (sleep_list busy_state) = true) as Hsb
    by (vm_compute; reflexivity).
  split; [exact Hnd|]. split; [exact Hsb|].
  destruct (thread_awake 200 busy_state) as [s'|] eqn:Ha;
    [|vm_compute in Ha; discriminate Ha].
  exists s'. split; [reflexivity|].
  apply (thread_awake_idempotent 200 150 busy_state s' Hnd Hsb); [lia|exact Ha].
Defined.

Lemma thread_exit_page_freed_witness :
  well_formed exiting_state ∧ selected exiting_state = Some 0x1000 ∧
  ∃ s1 s2, thread_exit exiting_state = Some s1 ∧
           thread_yield s1 = Some s2 ∧
           threads s2 !! 0x3000 = None ∧ 0x3000 ∈ free_pages s2.
Proof.
  split; [exact exiting_state_well_formed|]. split; [reflexivity|].
  destruct (thread_exit_page_freed exiting_state 0x1000
              exiting_state_well_formed eq_refl exiting_state_not_idle)
    as (s1 & s2 & cth & He & _ & _ & _ & _ & _ & Hy & Hgone & Hfree & _);
    [vm_compute; discriminate|reflexivity|].
  exists s1, s2. split; [exact He|]. split; [exact Hy|].
  split; [exact Hgone|exact Hfree].
Defined.

Lemma initial_thread_page_kept_witness :
  well_formed busy_state ∧
  initial_thread busy_state = Some (running busy_state) ∧
  ∃ s1 s2, thread_exit busy_state = Some s1 ∧ thread_yield s1 = Some s2 ∧
           status <$> threads s2 !! 0x1000 = Some THREAD_DYING ∧
           destruction_req s2 = [].
Proof.
  split; [exact busy_state_well_formed|]. split; [reflexivity|].
  destruct (initial_thread_page_kept busy_state 0x2000 busy_state_well_formed
              eq_refl busy_state_not_idle eq_refl eq_refl)
    as (s1 & s2 & cth & He & _ & _ & _ & Hy & Hth & _ & Hd).
  exists s1, s2. split; [exact He|]. split; [exact Hy|].
  split; [|exact Hd].
  change (running busy_state) with 0x1000 in Hth. rewrite Hth. reflexivity.
Defined.

Lemma thread_yield_keeps_cpu_witness :
  well_formed busy_state ∧
  guard_silent busy_state (Elem (running busy_state) :: ready_list busy_state)
  = true ∧
  ∃ s', thread_yield busy_state = Some s' ∧ thread_ticks s' = 0.
Proof.
  assert (guard_silent busy_state
            (Elem (running busy_state) :: ready_list busy_state) = true) as Hg
    by (vm_compute; reflexivity).
  split; [exact busy_state_well_formed|]. split; [exact Hg|].
  destruct (thread_yield_keeps_cpu busy_state busy_state_well_formed eq_refl
              busy_state_not_idle Hg)
    as (s' & cth & Hy & _ & Htk & _).
  exists s'. split; [exact Hy|exact Htk].
Defined.

Lemma thread_yield_runs_highest_witness :
  well_formed busy_state ∧
  guard_silent busy_state (Elem (running busy_state) :: ready_list busy_state)
  = true ∧
  priority_ordered busy_state (ready_list busy_state) ∧
  ∃ s', thread_yield busy_state = Some s' ∧
        priority_ordered s' (ready_list s').
Proof.
  assert (guard_silent busy_state
            (Elem (running busy_state) :: ready_list busy_state) = true) as Hg
    by (vm_compute; reflexivity).
  assert (priority_ordered busy_state (ready_list busy_state)) as Hs.
  { unfold priority_ordered. repeat constructor.
    exists 31, 20. split; [reflexivity|]. split; [reflexivity|lia]. }
  split; [exact busy_state_well_formed|]. split; [exact Hg|].
  split; [exact Hs|].
  destruct (thread_yield_runs_highest busy_state busy_state_well_formed
              eq_refl Hg Hs) as (s' & Hy & Hs' & _).
  exists s'. split; [exact Hy|exact Hs'].
Defined.

Lemma round_robin_among_equals_witness :
  well_formed exiting_state ∧
  ∃ s', thread_yield_times 3 exiting_state = Some s' ∧
        running s' = 0x3000 ∧ ready_list s' = [Elem 0x1000; Elem 0x2000].
Proof.
  split; [exact exiting_state_well_formed|].
  destruct (round_robin_among_equals 3 exiting_state 31
              exiting_state_well_formed eq_refl exiting_state_not_idle)
    as (s' & Hy & _ & Hback).
  - intros e He.
    repeat (apply elem_of_cons in He as [->|He]; [vm_compute; reflexivity|]).
    by apply not_elem_of_nil in He.
  - exists s'. split; [exact Hy|]. exact (Hback eq_refl).
Defined.

Lemma remove_with_lock_filter_witness :
  thread_current donors_state = Some 0x1000 ∧
  ∃ s', remove_with_lock (Some 0xa000) donors_state = Some s' ∧
        donations <$> threads s' !! 0x1000 = Some [DonationElem 0x3000].
Proof.
  assert (thread_current donors_state = Some 0x1000) as Hcur
    by (vm_compute; reflexivity).
  split; [exact Hcur|].
  destruct (remove_with_lock_filter (Some 0xa000) donors_state 0x1000
              (mk_thread 1 THREAD_RUNNING "holder" 40 20 None
                 [DonationElem 0x2000; DonationElem 0x3000] 0 None
                 THREAD_MAGIC) Hcur)
    as (s' & Hr & ->);
    [vm_compute; reflexivity
    |apply (bool_decide_unpack _); vm_compute; exact I
    |vm_compute; reflexivity|].
  eexists. split; [exact Hr|]. vm_compute. reflexivity.
Defined.

Lemma refresh_priority_bounds_witness :
  thread_current one_donor_state = Some 0x1000 ∧
  ∃ th', refresh_priority one_donor_state
         = Some (store_thread 0x1000 th' one_donor_state) ∧
         priority th' = 40.
Proof.
  assert (thread_current one_donor_state = Some 0x1000) as Hcur
    by (vm_compute; reflexivity).
  split; [exact Hcur|].
  destruct (refresh_priority_bounds one_donor_state 0x1000
              (mk_thread 1 THREAD_RUNNING "holder" 40 20 None
                 [DonationElem 0x3000] 0 None THREAD_MAGIC) Hcur)
    as (th' & Hr & _ & _ & _ & _ & _ & _ & _ & _ & _ & _ & _ & Hex);
    [vm_compute; reflexivity|vm_compute; reflexivity|].
  exists th'. split; [exact Hr|]. rewrite Hex by (cbn; lia).
  vm_compute. reflexivity.
Defined.

Lemma release_withdraws_donations_witness :
  thread_current donors_state = Some 0x1000 ∧
  ∃ s1 th2, remove_with_lock (Some 0xb000) donors_state = Some s1 ∧
            refresh_priority s1
            = Some (store_thread 0x1000 th2 donors_state) ∧
            priority th2 = 30.
Proof.
  assert (thread_current donors_state = Some 0x1000) as Hcur
    by (vm_compute; reflexivity).
  split; [exact Hcur|].
  destruct (release_withdraws_donations (Some 0xb000) donors_state 0x1000
              (mk_thread 1 THREAD_RUNNING "holder" 40 20 None
                 [DonationElem 0x2000; DonationElem 0x3000] 0 None
                 THREAD_MAGIC) Hcur)
    as (s1 & th2 & Hr & Hf & _ & _ & _ & _ & _ & Hex & _);
    [vm_compute; reflexivity
    |apply (bool_decide_unpack _); vm_compute; exact I
    |vm_compute; reflexivity|].
  exists s1, th2. split; [exact Hr|]. split; [exact Hf|].
  rewrite Hex by (vm_compute; lia). vm_compute. reflexivity.
Defined.

Lemma thread_set_priority_get_witness :
  ∃ s', thread_set_priority 25 one_donor_state = Some s' ∧
        running s' = running one_donor_state ∧
        thread_get_priority s' = Some 40 ∧
        init_priority <$> threads s' !! 0x1000 = Some 25.
Proof.
  assert (∃ s', thread_set_priority 25 one_donor_state = Some s' ∧
                running s' = running one_donor_state) as (s' & Hs & Hr).
  { destruct (thread_set_priority 25 one_donor_state) as [s'|] eqn:Hs;
      [|vm_compute in Hs; discriminate Hs].
    exists s'. split; [reflexivity|].
    vm_compute in Hs. injection Hs as <-. reflexivity. }
  exists s'. split; [exact Hs|]. split; [exact Hr|].
  destruct (thread_set_priority_get 25 one_donor_state s'
              (mk_thread 1 THREAD_RUNNING "holder" 40 20 None
                 [DonationElem 0x3000] 0 None THREAD_MAGIC) Hs)
    as (Hget & Hinit);
    [vm_compute; reflexivity|vm_compute; reflexivity|cbn; lia|exact Hr|].
  split; [|exact Hinit]. rewrite Hget. vm_compute. reflexivity.
Defined.

Lemma time_slice_four_ticks_witness :
  thread_current exiting_state = Some 0x3000 ∧
  ∃ s', thread_tick_times 4 exiting_state = Some s' ∧
        thread_ticks s' = 4 ∧ yield_on_return s' = true.
Proof.
  assert (thread_current exiting_state = Some 0x3000) as Hcur
    by (vm_compute; reflexivity).
  split; [exact Hcur|].
  destruct (time_slice_four_ticks 4 exiting_state 0x3000 Hcur eq_refl eq_refl)
    as (s' & Ht & Htk & Hy & _); [vm_compute; reflexivity|].
  exists s'. split; [exact Ht|]. split; [exact Htk|].
  rewrite Hy. vm_compute. reflexivity.
Defined.

Lemma thread_create_successive_tids_witness :
  ∃ s1 s2 tid2,
    thread_create "first" 31 0x400000 0 two_pages_state = Some (9, s1) ∧
    thread_create "second" 31 0x400000 0 s1 = Some (tid2, s2) ∧
    tid2 = 10.
Proof.
  destruct (thread_create "first" 31 0x400000 0 two_pages_state)
    as [[tid1 s1]|] eqn:H1; [|vm_compute in H1; discriminate H1].
  assert (tid1 = 9 ∧ free_pages s1 = [0xc000]) as [-> Hf1].
  { vm_compute in H1. injection H1 as <- <-. split; reflexivity. }
  destruct (thread_create "second" 31 0x400000 0 s1)
    as [[tid2 s2]|] eqn:H2.
  - exists s1, s2, tid2. split; [reflexivity|]. split; [exact H2|].
    destruct (thread_create_successive_tids _ _ _ _ _ _ _ _ _ _ _ _ _ H1 H2)
      as (_ & _ & _ & Hnext);
      [vm_compute; discriminate|rewrite Hf1; discriminate|].
    rewrite Hnext by lia. reflexivity.
  - exfalso. revert H2. vm_compute in H1. injection H1 as <-.
    vm_compute. discriminate.
Defined.

Lemma thread_create_identity_witness :
  well_formed busy_state ∧ free_pages busy_state = [0x8000] ∧
  ∃ s' th',
    thread_create "a-name-of-twenty-chars" 40 0x400000 0 busy_state
    = Some (9, s') ∧
    threads s' !! 0x8000 = Some th' ∧
    name th' = "a-name-of-twent"%string ∧ tid th' = 9 ∧ priority th' = 40.
Proof.
  split; [exact busy_state_well_formed|]. split; [reflexivity|].
  destruct (thread_create "a-name-of-twenty-chars" 40 0x400000 0 busy_state)
    as [[tid' s']|] eqn:Hc; [|vm_compute in Hc; discriminate Hc].
  assert (tid' = 9) as ->.
  { vm_compute in Hc. by injection Hc as <- _. }
  destruct (thread_create_identity _ _ _ _ busy_state 9 s' 0x8000 []
              busy_state_well_formed eq_refl Hc)
    as (th' & Hth & (Htid & Hname & Hprio & _) & _).
  exists s', th'. split; [reflexivity|]. split; [exact Hth|].
  rewrite <- Hname, <- Htid, <- Hprio. repeat split.
Defined.

Lemma thread_block_switches_witness :
  well_formed (set_intr_level INTR_OFF busy_state) ∧
  ∃ s', thread_block (set_intr_level INTR_OFF busy_state) = Some s' ∧
        running s' = 0x2000 ∧
        status <$> threads s' !! 0x1000 = Some THREAD_BLOCKED.
Proof.
  assert (well_formed (set_intr_level INTR_OFF busy_state)) as Hwf
    by (apply well_formedb_sound; vm_compute; reflexivity).
  split; [exact Hwf|].
  destruct (thread_block_switches (set_intr_level INTR_OFF busy_state) 0x2000
              Hwf eq_refl eq_refl)
    as (s' & cth & nth & Hb & Hcth & _ & Hr & _ & Hbl & _);
    [vm_compute; discriminate|reflexivity|].
  exists s'. split; [exact Hb|]. split; [exact Hr|].
  change (running (set_intr_level INTR_OFF busy_state)) with 0x1000 in Hbl.
  rewrite Hbl. reflexivity.
Defined.

Lemma idle_gives_way_witness :
  well_formed idling_state ∧
  idle_thread idling_state = Some (running idling_state) ∧
  ∃ s', idle_loop 1 idling_state = Some s' ∧ running s' = 0x2000 ∧
        ready_list s' = [].
Proof.
  assert (well_formed idling_state) as Hwf
    by (apply well_formedb_sound; vm_compute; reflexivity).
  split; [exact Hwf|]. split; [reflexivity|].
  destruct (idle_gives_way 0 idling_state Hwf eq_refl eq_refl)
    as (s' & ith & nth & Hl & _ & _ & Hr & _ & Hrl & _).
  exists s'. split; [exact Hl|]. split; [exact Hr|exact Hrl].
Defined.

Lemma kernel_thread_exits_witness :
  well_formed (intr_enable exiting_state) ∧
  ∃ s', kernel_thread (Some returns_at_once) 0 exiting_state = Some s' ∧
        running s' = 0x1000 ∧
        destruction_req s' = [Elem 0x3000].
Proof.
  assert (well_formed (intr_enable exiting_state)) as Hwf
    by (apply well_formedb_sound; vm_compute; reflexivity).
  split; [exact Hwf|].
  destruct (kernel_thread_exits returns_at_once 0 exiting_state
              (intr_enable exiting_state) 0x1000 eq_refl Hwf eq_refl)
    as (_ & _ & s' & cth & Hk & _ & Hr & _ & _ & Hd & _);
    [vm_compute; discriminate|reflexivity|].
  exists s'. split; [exact Hk|]. split; [exact Hr|].
  rewrite Hd. vm_compute. reflexivity.
Defined.

Lemma thread_init_main_witness :
  ∃ s', thread_init 31 (boot_state 0x1000 silent_memory) = Some s' ∧
        well_formed s' ∧ thread_tid s' = Some 1 ∧
        thread_name s' = Some "main"%string ∧ next_tid s' = 2.
Proof.
  destruct (thread_init_main 31 (boot_state 0x1000 silent_memory))
    as (s' & Hi & Hwf & _ & _ & _ & Htid & Hname & _ & _ & _ & _ & Hn);
    [reflexivity|discriminate|vm_compute; split; discriminate|reflexivity
    |reflexivity|constructor|apply not_elem_of_nil|].
  exists s'. split; [exact Hi|]. split; [exact Hwf|]. split; [exact Htid|].
  split; [exact Hname|]. rewrite Hn. vm_compute. reflexivity.
Defined.

Lemma pages_conserved_witness :
  well_formed busy_state ∧
  ∃ s', run OpYield busy_state = Some s' ∧ pages s' = pages busy_state ∧
        0x4000 ∈ free_pages s'.
Proof.
  split; [exact busy_state_well_formed|].
  assert (∃ s', run OpYield busy_state = Some s' ∧ 0x4000 ∈ free_pages s')
    as (s' & Hr & Hin).
  { destruct (run OpYield busy_state) as [s'|] eqn:Hr;
      [|vm_compute in Hr; discriminate Hr].
    exists s'. split; [reflexivity|].
    vm_compute in Hr. injection Hr as <-. left. }
  exists s'. split; [exact Hr|]. split; [|exact Hin].
  exact (pages_conserved OpYield busy_state s' busy_state_well_formed Hr).
Defined.

Lemma tids_stay_unique_witness :
  well_formed busy_state ∧ tids_unique busy_state ∧
  ∃ s', run (OpCreate "new" 31 0x400000 0) busy_state = Some s' ∧
        tids_unique s'.
Proof.
  assert (tids_unique busy_state) as Hu
    by (apply tids_uniqueb_sound; vm_compute; reflexivity).
  split; [exact busy_state_well_formed|]. split; [exact Hu|].
  destruct (run (OpCreate "new" 31 0x400000 0) busy_state) as [s'|] eqn:Hr;
    [|vm_compute in Hr; discriminate Hr].
  exists s'. split; [reflexivity|].
  apply (tids_stay_unique (OpCreate "new" 31 0x400000 0) busy_state s'
           busy_state_well_formed Hu); [vm_compute; reflexivity|exact Hr].
Defined.

Lemma misuse_panics_witness :
  thread_block busy_state = None ∧
  thread_unblock 0x2000 busy_state = None ∧
  thread_create "nobody" 31 0 0 busy_state = None ∧
  thread_create "too-high" 64 0x400000 0 busy_state = None ∧
  thread_create "too-high" 64 0x400000 0 (set_free_pages [] busy_state)
  = Some (TID_ERROR, set_free_pages [] busy_state).
Proof.
  destruct (misuse_panics busy_state) as (_ & Hb & _ & Hu & _ & _ & Hc & Hp).
  split; [apply Hb; reflexivity|].
  split; [apply (Hu 0x2000 (tcb 2 THREAD_READY 31));
          [vm_compute; reflexivity|discriminate]|].
  split; [apply Hc|].
  split; [apply (Hp "too-high"%string 64 0x400000 0);
          [discriminate|unfold PRI_MIN, PRI_MAX; lia]|].
  destruct (misuse_panics (set_free_pages [] busy_state))
    as (_ & _ & _ & _ & _ & _ & _ & Hp').
  apply (Hp' "too-high"%string 64 0x400000 0);
    [discriminate|unfold PRI_MIN, PRI_MAX; lia].
Defined.
